(** * CodeMap: parsing-to-graph-to-analysis pipeline

    A shallow embedding of the TypeScript sources of the CodeMap
    repository (graph builder, PageRank, clustering, the TS/JS, the
    PureScript and the Haskell parser, pattern detectors, entry points,
    directory clusters, the directory walk and the scan of a repository)
    together with the properties checked on them.

    Conventions of the embedding:
    - a JavaScript [string] is a [string] of bytes;
    - a JavaScript [Map] is an association list in insertion order
      (module [JsMap]): [set] on a present key keeps the key's position,
      [set] on a new key appends;
    - JavaScript numbers that hold counts are [nat]. Numbers that hold
      scores, ratios and confidences are read as exact rationals ([Q],
      compared with [==]) where what is stated of them is kept by
      rounding: a bound, an order, a single quotient. Where the value
      the program computes is stated, they are the doubles themselves:
      the primitive binary64 floats (modules [Double] and
      [PageRankDouble]);
    - white space and letter case are those of ASCII;
    - [undefined]/[null] results are [option];
    - Node's [path] module is modelled for POSIX in module [Path]; the
      process working directory and the filesystem oracle [existsSync]
      are fields of a [Host] record. *)

From Stdlib Require Import List Bool Arith ZArith Lia String Ascii QArith Qround Qminmax.
From Stdlib Require Import Permutation Sorted Relations.
From Stdlib Require Import Numbers.DecimalString.
From Stdlib Require Floats.
Import ListNotations.

Open Scope string_scope.
Open Scope list_scope.
Open Scope nat_scope.

Notation "a +++ b" := (String.append a b) (at level 60, right associativity).

(* ===================================================================== *)
(** ** JavaScript string methods *)
(* ===================================================================== *)

Module Js.

Definition str_length (s : string) : nat := String.length s.

(** [s.startsWith(p)] *)
Definition startsWith (s p : string) : bool := String.prefix p s.

(** [s.slice(from)] for [0 <= from]. *)
Definition sliceFrom (s : string) (from : nat) : string :=
  String.substring from (String.length s - from) s.

(** [s.slice(0, -k)] for [0 < k]: drops the last [k] characters. *)
Definition dropRight (s : string) (k : nat) : string :=
  String.substring 0 (String.length s - k) s.

(** [s.slice(1, -1)] *)
Definition slice1m1 (s : string) : string :=
  String.substring 1 (String.length s - 2) s.

(** [s.endsWith(p)] *)
Definition endsWith (s p : string) : bool :=
  (String.length p <=? String.length s) &&
  String.eqb (sliceFrom s (String.length s - String.length p)) p.

(** [s.indexOf(p)] as an option ([None] is -1). *)
Fixpoint indexOf_from (fuel : nat) (i : nat) (s p : string) : option nat :=
  if String.prefix p s then Some i
  else match fuel, s with
       | S fuel', String _ s' => indexOf_from fuel' (S i) s' p
       | _, _ => None
       end.

Definition indexOf (s p : string) : option nat :=
  indexOf_from (String.length s) 0 s p.

(** [s.includes(p)] *)
Definition includes (s p : string) : bool :=
  match indexOf s p with Some _ => true | None => false end.

(** [s.split(sep)] for a non-empty separator: the pieces between the
    successive leftmost occurrences of [sep]; always at least one piece. *)
Fixpoint split_aux (fuel : nat) (sep : string) (acc : string) (s : string) : list string :=
  match fuel with
  | O => [acc +++ s]
  | S fuel' =>
    match s with
    | EmptyString => [acc]
    | String c s' =>
      if String.prefix sep s
      then acc :: split_aux fuel' sep "" (sliceFrom s (String.length sep))
      else split_aux fuel' sep (acc +++ String c "") s'
    end
  end.

Definition split (s sep : string) : list string :=
  split_aux (S (String.length s)) sep "" s.

(** [arr.join(sep)] *)
Definition join (l : list string) (sep : string) : string := String.concat sep l.

Definition lower_ascii (c : ascii) : ascii :=
  let n := nat_of_ascii c in
  if (65 <=? n) && (n <=? 90) then ascii_of_nat (n + 32) else c.

(** [s.toLowerCase()] on the ASCII letters; other bytes are kept. *)
Fixpoint toLowerCase (s : string) : string :=
  match s with
  | EmptyString => EmptyString
  | String c s' => String (lower_ascii c) (toLowerCase s')
  end.

Definition upper_ascii (c : ascii) : ascii :=
  let n := nat_of_ascii c in
  if (97 <=? n) && (n <=? 122) then ascii_of_nat (n - 32) else c.

Definition is_space (c : ascii) : bool :=
  let n := nat_of_ascii c in
  (n =? 32) || ((9 <=? n) && (n <=? 13)).

Fixpoint trimStart (s : string) : string :=
  match s with
  | String c s' => if is_space c then trimStart s' else s
  | EmptyString => EmptyString
  end.

Fixpoint str_rev_onto (s acc : string) : string :=
  match s with
  | EmptyString => acc
  | String c s' => str_rev_onto s' (String c acc)
  end.

Definition str_rev (s : string) : string := str_rev_onto s "".

(** [s.trim()] (ASCII white space) *)
Definition trim (s : string) : string :=
  str_rev (trimStart (str_rev (trimStart s))).

(** Template-literal rendering [`${n}`] of a non-negative integer. *)
Definition showNat (n : nat) : string :=
  NilZero.string_of_uint (Nat.to_uint n).

(** [arr.filter(Boolean)] on strings: keeps the non-empty ones. *)
Definition filterTruthy (l : list string) : list string :=
  filter (fun s => negb (String.eqb s "")) l.

(** [[...new Set(arr)]]: first occurrences, in order. *)
Fixpoint dedupe_acc (seen : list string) (l : list string) : list string :=
  match l with
  | [] => []
  | x :: l' =>
    if existsb (String.eqb x) seen then dedupe_acc seen l'
    else x :: dedupe_acc (x :: seen) l'
  end.

Definition dedupe (l : list string) : list string := dedupe_acc [] l.

(** [arr.slice(0, n)] *)
Definition take {A} (n : nat) (l : list A) : list A := firstn n l.

End Js.

(* ===================================================================== *)
(** ** JavaScript [Map] with string keys, in insertion order *)
(* ===================================================================== *)

Module JsMap.

Definition t (V : Type) : Type := list (string * V).

Definition empty {V} : t V := [].

Fixpoint get {V} (m : t V) (k : string) : option V :=
  match m with
  | [] => None
  | (k', v) :: m' => if String.eqb k' k then Some v else get m' k
  end.

Definition has {V} (m : t V) (k : string) : bool :=
  match get m k with Some _ => true | None => false end.

Fixpoint set {V} (m : t V) (k : string) (v : V) : t V :=
  match m with
  | [] => [(k, v)]
  | (k', v') :: m' =>
    if String.eqb k' k then (k', v) :: m' else (k', v') :: set m' k v
  end.

Definition keys {V} (m : t V) : list string := map fst m.

Definition values {V} (m : t V) : list V := map snd m.

Definition size {V} (m : t V) : nat := List.length m.

End JsMap.

(* ===================================================================== *)
(** ** Node's [path] module (POSIX flavour) and the host environment *)
(* ===================================================================== *)

Record Host := mkHost {
  cwd : string;                  (* process.cwd(), an absolute path *)
  existsSync : string -> bool    (* fs.existsSync *)
}.

Module Path.

Definition slash : ascii := "/"%char.
Definition dot : ascii := "."%char.

Definition chars (s : string) : list ascii := list_ascii_of_string s.
Definition unchars (l : list ascii) : string := string_of_list_ascii l.

Definition is_slash (c : ascii) : bool := Ascii.eqb c slash.

Definition isAbsolute (p : string) : bool := Js.startsWith p "/".

(** The segment walk of Node's [normalizeString]: empty and [.] segments
    are skipped, [..] removes the previous segment when there is one that
    is not itself [..], and is kept only when [allowAboveRoot]. [acc] is
    the reversed list of kept segments. *)
Fixpoint normalizeSegments (allowAboveRoot : bool) (acc : list string)
         (segs : list string) : list string :=
  match segs with
  | [] => rev acc
  | seg :: rest =>
    if String.eqb seg "" || String.eqb seg "." then
      normalizeSegments allowAboveRoot acc rest
    else if String.eqb seg ".." then
      match acc with
      | top :: acc' =>
        if String.eqb top ".."
        then normalizeSegments allowAboveRoot (".." :: acc) rest
        else normalizeSegments allowAboveRoot acc' rest
      | [] =>
        if allowAboveRoot
        then normalizeSegments allowAboveRoot [".."] rest
        else normalizeSegments allowAboveRoot [] rest
      end
    else normalizeSegments allowAboveRoot (seg :: acc) rest
  end.

Definition normalizeString (p : string) (allowAboveRoot : bool) : string :=
  Js.join (normalizeSegments allowAboveRoot [] (Js.split p "/")) "/".

(** [path.normalize] *)
Definition normalize (p : string) : string :=
  if String.eqb p "" then "."
  else
    let isAbs := isAbsolute p in
    let trailing := Js.endsWith p "/" in
    let q := normalizeString p (negb isAbs) in
    if String.eqb q "" then
      (if isAbs then "/" else if trailing then "./" else ".")
    else
      let q' := if trailing then q +++ "/" else q in
      if isAbs then "/" +++ q' else q'.

(** [path.join(...args)] *)
Definition join (args : list string) : string :=
  match Js.filterTruthy args with
  | [] => "."
  | parts => normalize (Js.join parts "/")
  end.

(** The right-to-left accumulation of [path.resolve]: arguments are
    prepended until an absolute one is met; the working directory is used
    when none is. Returns the accumulated path and whether it is absolute. *)
Fixpoint resolveAcc (h : Host) (rargs : list string) (acc : string) : string * bool :=
  match rargs with
  | [] =>
    if String.eqb (cwd h) "" then (acc, false)
    else (cwd h +++ "/" +++ acc, isAbsolute (cwd h))
  | p :: rest =>
    if String.eqb p "" then resolveAcc h rest acc
    else if isAbsolute p then (p +++ "/" +++ acc, true)
    else resolveAcc h rest (p +++ "/" +++ acc)
  end.

(** [path.resolve(...args)] *)
Definition resolve (h : Host) (args : list string) : string :=
  let '(acc, isAbs) := resolveAcc h (rev args) "" in
  let q := normalizeString acc (negb isAbs) in
  if isAbs then "/" +++ q
  else if String.eqb q "" then "." else q.

Fixpoint dropWhile {A} (f : A -> bool) (l : list A) : list A :=
  match l with
  | x :: l' => if f x then dropWhile f l' else l
  | [] => []
  end.

Fixpoint takeWhile {A} (f : A -> bool) (l : list A) : list A :=
  match l with
  | x :: l' => if f x then x :: takeWhile f l' else []
  | [] => []
  end.

(** [path.dirname]: the scan runs from the last character down to index
    1, skips trailing slashes, and cuts at the first slash found after a
    non-slash character. *)
Definition dirname (p : string) : string :=
  match chars p with
  | [] => "."
  | c0 :: tl =>
    let hasRoot := is_slash c0 in
    let r1 := dropWhile is_slash (rev tl) in
    let r2 := dropWhile (fun c => negb (is_slash c)) r1 in
    match r2 with
    | [] => if hasRoot then "/" else "."
    | _ :: _ =>
      let e := List.length r2 in
      if hasRoot && (e =? 1) then "//"
      else String.substring 0 e p
    end
  end.

(** The last path component, trailing slashes ignored (reversed). *)
Definition lastComponentRev (p : string) : list ascii :=
  takeWhile (fun c => negb (is_slash c)) (dropWhile is_slash (rev (chars p))).

(** [path.basename(p)] *)
Definition basename (p : string) : string := unchars (rev (lastComponentRev p)).

(** [path.extname]: from the last dot of the last component to its end;
    empty when there is no dot, when the only dot is the component's first
    character, or when the component is [..]. *)
Definition extname (p : string) : string :=
  let rb := lastComponentRev p in
  let notdot := fun c => negb (Ascii.eqb c dot) in
  let afterDotRev := takeWhile notdot rb in
  match dropWhile notdot rb with
  | [] => ""
  | _ :: before =>
    match before with
    | [] => ""
    | _ :: _ =>
      if String.eqb (unchars (rev rb)) ".." then ""
      else unchars (dot :: rev afterDotRev)
    end
  end.

Fixpoint dropCommon (a b : list string) : list string * list string :=
  match a, b with
  | x :: a', y :: b' => if String.eqb x y then dropCommon a' b' else (a, b)
  | _, _ => (a, b)
  end.

(** [path.relative(from, to)]: both are resolved, the common leading
    segments are dropped, and each remaining segment of [from] becomes
    [..]. *)
Definition relative (h : Host) (from to : string) : string :=
  if String.eqb from to then ""
  else
    let f := resolve h [from] in
    let t := resolve h [to] in
    if String.eqb f t then ""
    else
      let '(fr, tr) := dropCommon (Js.filterTruthy (Js.split f "/"))
                                  (Js.filterTruthy (Js.split t "/")) in
      Js.join (map (fun _ => "..") fr ++ tr) "/".

End Path.

(* ===================================================================== *)
(** ** Core types (src/types/index.ts) *)
(* ===================================================================== *)

Inductive Language := typescript | javascript | haskell | purescript.

Record ImportDeclaration := mkImport {
  imp_source : string;
  imp_names : list string;
  imp_isDefault : option bool;
  imp_isNamespace : option bool;
  imp_line : option nat
}.

Inductive DefinitionKind :=
  KFunction | KClass | KType | KInterface | KVariable | KConst.

Record Definition_ := mkDefinition {
  def_name : string;
  def_type : DefinitionKind;
  def_line : nat;
  def_exported : option bool
}.

Record ParsedFile := mkParsedFile {
  pf_filePath : string;
  pf_language : Language;
  pf_imports : list ImportDeclaration;
  pf_exports : list string;
  pf_definitions : list Definition_
}.

Record Node := mkNode {
  node_id : string;
  node_filePath : string;
  node_language : Language;
  node_definitions : option nat     (* metadata.definitions *)
}.

(** An [Edge]; its [type] field is the constant ['import']. *)
Record Edge := mkEdge {
  edge_source : string;
  edge_target : string;
  edge_imports : option (list string)
}.

Record Graph := mkGraph {
  nodes : JsMap.t Node;
  edges : list Edge;
  adjacencyList : JsMap.t (list string);
  reverseAdjacencyList : JsMap.t (list string)
}.

Record RankedFile := mkRankedFile {
  rf_file : string;
  rf_score : Q;
  rf_rank : nat;
  rf_inDegree : nat;
  rf_outDegree : nat
}.

Record Cluster := mkCluster {
  clusterId : string;
  cl_name : string;
  cl_files : list string;
  cl_description : option string;
  cl_cohesion : option Q;
  cl_pattern : option string
}.

Record Pattern := mkPattern {
  pattern : string;
  confidence : Q;
  evidence : list string
}.

(* ===================================================================== *)
(** ** Graph utilities (src/graph/types.ts) *)
(* ===================================================================== *)

Definition createGraph : Graph :=
  mkGraph JsMap.empty [] JsMap.empty JsMap.empty.

(** [m.get(k) || []] *)
Definition getOrEmpty (m : JsMap.t (list string)) (k : string) : list string :=
  match JsMap.get m k with Some l => l | None => [] end.

Definition getImporters (g : Graph) (filePath : string) : list string :=
  getOrEmpty (reverseAdjacencyList g) filePath.

Definition getImports (g : Graph) (filePath : string) : list string :=
  getOrEmpty (adjacencyList g) filePath.

Definition getInDegree (g : Graph) (filePath : string) : nat :=
  List.length (getImporters g filePath).

Definition getOutDegree (g : Graph) (filePath : string) : nat :=
  List.length (getImports g filePath).

Definition getAllNodes (g : Graph) : list Node := JsMap.values (nodes g).

(* ===================================================================== *)
(** ** GraphBuilder (src/graph/builder.ts) *)
(* ===================================================================== *)

Record GraphBuilder := mkBuilder {
  graph : Graph;
  filePathMap : JsMap.t string;
  repoRoot : string
}.

(** [constructor(repoRoot?)]: [repoRoot || process.cwd()]. *)
Definition newGraphBuilder (h : Host) (root : option string) : GraphBuilder :=
  mkBuilder createGraph JsMap.empty
    (match root with
     | Some r => if String.eqb r "" then cwd h else r
     | None => cwd h
     end).

(** [indexFile]: the lookup keys registered for one file. *)
Definition indexFile (h : Host) (b : GraphBuilder) (filePath : string) : GraphBuilder :=
  let m1 := JsMap.set (filePathMap b) filePath filePath in
  let relPath := Path.relative h (repoRoot b) filePath in
  let m2 := JsMap.set m1 relPath filePath in
  let ext := Path.extname filePath in
  let m' :=
    if negb (String.eqb ext "") then
      let withoutExt := Js.dropRight filePath (String.length ext) in
      let m3 := JsMap.set m2 withoutExt filePath in
      let relWithoutExt := Js.dropRight relPath (String.length ext) in
      let m4 := JsMap.set m3 relWithoutExt filePath in
      (* the two replace calls turn every backslash, then every slash,
         into a dot *)
      let moduleKey :=
        Js.join (Js.split (Js.join (Js.split relWithoutExt "\") "/") "/") "." in
      let m5 := JsMap.set m4 moduleKey filePath in
      if Js.startsWith moduleKey "src." then
        JsMap.set m5 (Js.sliceFrom moduleKey 4) filePath
      else m5
    else m2 in
  mkBuilder (graph b) m' (repoRoot b).

Definition addNode (h : Host) (b : GraphBuilder) (parsedFile : ParsedFile) : GraphBuilder :=
  let node := mkNode (pf_filePath parsedFile) (pf_filePath parsedFile)
                     (pf_language parsedFile)
                     (Some (List.length (pf_definitions parsedFile))) in
  let g := graph b in
  let g' := mkGraph (JsMap.set (nodes g) (pf_filePath parsedFile) node)
                    (edges g) (adjacencyList g) (reverseAdjacencyList g) in
  indexFile h (mkBuilder g' (filePathMap b) (repoRoot b)) (pf_filePath parsedFile).

(** The predicate of [edges.find] in [addEdge]. *)
Definition sameEndpoints (source target : string) (e : Edge) : bool :=
  String.eqb (edge_source e) source && String.eqb (edge_target e) target.

(** [if (!m.has(k)) m.set(k, []); m.get(k)!.push(v)] *)
Definition pushAt (m : JsMap.t (list string)) (k v : string) : JsMap.t (list string) :=
  let m1 := if negb (JsMap.has m k) then JsMap.set m k [] else m in
  JsMap.set m1 k (getOrEmpty m1 k ++ [v]).

Definition addEdge (b : GraphBuilder) (source target : string)
           (imports : option (list string)) : GraphBuilder :=
  let g := graph b in
  if negb (JsMap.has (nodes g) source) || negb (JsMap.has (nodes g) target) then b
  else
    match find (sameEndpoints source target) (edges g) with
    | Some _ => b
    | None =>
      let edge := mkEdge source target imports in
      mkBuilder
        (mkGraph (nodes g)
                 (edges g ++ [edge])
                 (pushAt (adjacencyList g) source target)
                 (pushAt (reverseAdjacencyList g) target source))
        (filePathMap b) (repoRoot b)
    end.

Definition extensions : list string :=
  [".ts"; ".tsx"; ".js"; ".jsx"; ".mjs"; ".cjs"; ".purs"; ".hs"; ".lhs"].

(** A [for] loop over candidate keys that returns the mapped file of the
    first key present in the index. *)
Fixpoint firstHit (m : JsMap.t string) (candidates : list string) : option string :=
  match candidates with
  | [] => None
  | c :: rest =>
    if JsMap.has m c then JsMap.get m c else firstHit m rest
  end.

(** A [for] loop over candidate paths that returns the first one that
    exists on disk. *)
Fixpoint firstExisting (h : Host) (candidates : list string) : option string :=
  match candidates with
  | [] => None
  | c :: rest => if existsSync h c then Some c else firstExisting h rest
  end.

Definition orElse {A} (a : option A) (b : option A) : option A :=
  match a with Some _ => a | None => b end.

(** The final module-style lookup: [importPath.replace(/\./g, '.')] is
    [importPath] itself. *)
Definition moduleLookup (b : GraphBuilder) (importPath : string) : option string :=
  let moduleKey := Js.join (Js.split importPath ".") "." in
  if JsMap.has (filePathMap b) moduleKey then JsMap.get (filePathMap b) moduleKey
  else None.

Definition resolveImport (h : Host) (b : GraphBuilder) (importPath fromFile : string)
  : option string :=
  let m := filePathMap b in
  if JsMap.has m importPath then JsMap.get m importPath
  else if JsMap.has m importPath then JsMap.get m importPath
  else
    let relativeResult :=
      if Js.startsWith importPath "." then
        let fromDir := Path.dirname fromFile in
        let pathToResolve :=
          if Js.endsWith importPath ".js" then Js.dropRight importPath 3
          else importPath in
        let resolved := Path.resolve h [fromDir; pathToResolve] in
        if JsMap.has m resolved then JsMap.get m resolved
        else
          orElse (firstHit m (map (fun ext => resolved +++ ext) extensions))
         (orElse (firstHit m (map (fun ext => Path.join [resolved; "index" +++ ext]) extensions))
         (orElse (firstExisting h (map (fun ext => resolved +++ ext) extensions))
                 (firstExisting h [Path.join [resolved; "index.ts"]])))
      else None in
    orElse relativeResult (moduleLookup b importPath).

(** [processImports]: one [addEdge] per import that resolves. A resolved
    target is a truthy (non-empty) string. *)
Definition processImport (h : Host) (parsedFile : ParsedFile)
           (b : GraphBuilder) (imp : ImportDeclaration) : GraphBuilder :=
  match resolveImport h b (imp_source imp) (pf_filePath parsedFile) with
  | Some target =>
    if String.eqb target "" then b
    else addEdge b (pf_filePath parsedFile) target (Some (imp_names imp))
  | None => b
  end.

Definition processImports (h : Host) (b : GraphBuilder) (parsedFile : ParsedFile)
  : GraphBuilder :=
  fold_left (processImport h parsedFile) (pf_imports parsedFile) b.

Definition build (b : GraphBuilder) : Graph := graph b.

(** [buildGraph(parsedFiles, repoRoot?)]: all nodes first, then all
    imports. *)
Definition buildGraph (h : Host) (parsedFiles : list ParsedFile) (root : option string)
  : Graph :=
  let b0 := newGraphBuilder h root in
  let b1 := fold_left (addNode h) parsedFiles b0 in
  let b2 := fold_left (processImports h) parsedFiles b1 in
  build b2.

(** The public operations of a builder, for reasoning about every graph
    a builder can produce. *)
Inductive BuilderOp :=
| OpAddNode (parsedFile : ParsedFile)
| OpAddEdge (source target : string) (imports : option (list string))
| OpProcessImports (parsedFile : ParsedFile).

Definition applyOp (h : Host) (b : GraphBuilder) (op : BuilderOp) : GraphBuilder :=
  match op with
  | OpAddNode pf => addNode h b pf
  | OpAddEdge s t i => addEdge b s t i
  | OpProcessImports pf => processImports h b pf
  end.

Definition runOps (h : Host) (root : option string) (ops : list BuilderOp) : GraphBuilder :=
  fold_left (applyOp h) ops (newGraphBuilder h root).

(* ===================================================================== *)
(** ** Sorting as [Array.prototype.sort] does it: stable *)
(* ===================================================================== *)

(** [precedes y x] says that the comparator puts [y] strictly before [x].
    An element is inserted in front of the first element that does not
    strictly precede it, so elements that compare equal keep their input
    order. *)
Fixpoint insertStable {A} (precedes : A -> A -> bool) (x : A) (l : list A) : list A :=
  match l with
  | [] => [x]
  | y :: l' =>
    if precedes y x then y :: insertStable precedes x l'
    else x :: y :: l'
  end.

Fixpoint sortStable {A} (precedes : A -> A -> bool) (l : list A) : list A :=
  match l with
  | [] => []
  | x :: l' => insertStable precedes x (sortStable precedes l')
  end.

Definition Qlt_bool (a b : Q) : bool := negb (Qle_bool b a).

(** The comparator [(a, b) => key(b) - key(a)]: [y] precedes [x] when its
    key is strictly larger. *)
Definition descendingBy {A} (key : A -> Q) (y x : A) : bool := Qlt_bool (key x) (key y).

Definition natQ (n : nat) : Q := inject_Z (Z.of_nat n).

(* ===================================================================== *)
(** ** PageRank (src/graph/pagerank.ts) *)
(* ===================================================================== *)

Module PageRank.

(** [scores.get(k) || 0] *)
Definition scoreOr0 (scores : JsMap.t Q) (k : string) : Q :=
  match JsMap.get scores k with Some s => s | None => 0%Q end.

Definition initScores (nodeList : list string) (n : nat) : JsMap.t Q :=
  fold_left (fun sc node => JsMap.set sc node (1 / natQ n)%Q) nodeList JsMap.empty.

(** Body of the loop over the importers of one node. *)
Definition addContribution (g : Graph) (d : Q) (scores : JsMap.t Q)
           (score : Q) (importer : string) : Q :=
  let importerScore := scoreOr0 scores importer in
  let importerOutDegree := getOutDegree g importer in
  if 0 <? importerOutDegree
  then (score + d * (importerScore / natQ importerOutDegree))%Q
  else score.

Definition nodeScore (g : Graph) (d : Q) (n : nat) (scores : JsMap.t Q)
           (node : string) : Q :=
  fold_left (addContribution g d scores)
            (getOrEmpty (reverseAdjacencyList g) node)
            ((1 - d) / natQ n)%Q.

(** One iteration of the outer loop: all new scores are computed from the
    old ones, then copied over. *)
Definition iteration (g : Graph) (d : Q) (n : nat) (nodeList : list string)
           (scores : JsMap.t Q) : JsMap.t Q :=
  let newScores :=
    fold_left (fun ns node => JsMap.set ns node (nodeScore g d n scores node))
              nodeList JsMap.empty in
  fold_left (fun sc (entry : string * Q) => JsMap.set sc (fst entry) (snd entry))
            newScores scores.

Fixpoint iterateScores (g : Graph) (d : Q) (n : nat) (nodeList : list string)
         (iterations : nat) (scores : JsMap.t Q) : JsMap.t Q :=
  match iterations with
  | O => scores
  | S k => iterateScores g d n nodeList k (iteration g d n nodeList scores)
  end.

Definition finalScores (g : Graph) (iterations : nat) (d : Q) : JsMap.t Q :=
  let nodeList := JsMap.keys (nodes g) in
  let n := List.length nodeList in
  iterateScores g d n nodeList iterations (initScores nodeList n).

(** [rankedFiles.forEach((rf, index) => rf.rank = index + 1)] *)
Fixpoint assignRanks (index : nat) (l : list RankedFile) : list RankedFile :=
  match l with
  | [] => []
  | rf :: l' =>
    mkRankedFile (rf_file rf) (rf_score rf) (index + 1) (rf_inDegree rf) (rf_outDegree rf)
    :: assignRanks (S index) l'
  end.

Definition pageRank (g : Graph) (iterations : nat) (dampingFactor : Q) : list RankedFile :=
  let nodeList := JsMap.keys (nodes g) in
  let n := List.length nodeList in
  if n =? 0 then []
  else
    let scores := finalScores g iterations dampingFactor in
    let rankedFiles :=
      map (fun file => mkRankedFile file (scoreOr0 scores file) 0
                                    (getInDegree g file) (getOutDegree g file))
          nodeList in
    assignRanks 0 (sortStable (descendingBy rf_score) rankedFiles).

Definition defaultIterations : nat := 20.
Definition defaultDamping : Q := 85 # 100.

Definition getTopFiles (rankedFiles : list RankedFile) (n : nat) : list RankedFile :=
  Js.take n rankedFiles.

Definition qmax (a b : Q) : Q := if Qle_bool a b then b else a.
Definition qmin (a b : Q) : Q := if Qle_bool a b then a else b.

(** [Math.max(...xs)] and [Math.min(...xs)] on a non-empty argument list
    headed by [x]. *)
Definition maxOf (x : Q) (xs : list Q) : Q := fold_left qmax xs x.
Definition minOf (x : Q) (xs : list Q) : Q := fold_left qmin xs x.

Definition withScore (rf : RankedFile) (s : Q) : RankedFile :=
  mkRankedFile (rf_file rf) s (rf_rank rf) (rf_inDegree rf) (rf_outDegree rf).

Definition normalizeScores (rankedFiles : list RankedFile) : list RankedFile :=
  match map rf_score rankedFiles with
  | [] => []
  | s :: ss =>
    let maxScore := maxOf s ss in
    let minScore := minOf s ss in
    let range := (maxScore - minScore)%Q in
    if Qeq_bool range 0 then rankedFiles
    else map (fun rf => withScore rf ((rf_score rf - minScore) / range)%Q) rankedFiles
  end.

(** The recurrence as the specification words it:
    score'(n) = (1-d)/N + d * sum over importers m of n of
    score(m)/outDegree(m), importers of out-degree 0 contributing
    nothing; every node starts at 1/N. *)
Definition Qsum (l : list Q) : Q := fold_right Qplus 0%Q l.

Definition specShare (g : Graph) (score : string -> Q) (m : string) : Q :=
  if getOutDegree g m =? 0 then 0%Q
  else (score m / natQ (getOutDegree g m))%Q.

Definition specRound (g : Graph) (d : Q) (N : nat) (score : string -> Q) (n : string) : Q :=
  ((1 - d) / natQ N + d * Qsum (map (specShare g score) (getImporters g n)))%Q.

Fixpoint specScore (g : Graph) (d : Q) (N : nat) (rounds : nat) (n : string) : Q :=
  match rounds with
  | O => (1 / natQ N)%Q
  | S k => specRound g d N (specScore g d N k) n
  end.

End PageRank.

(* ===================================================================== *)
(** ** JavaScript numbers as IEEE 754 doubles *)
(* ===================================================================== *)

(** A JavaScript number is a binary64 value and [+], [-], [*] and [/]
    round to nearest, ties to even: the primitive floats and their
    operations. *)
Module Double.

Import PrimFloat.
#[local] Set Warnings "-inexact-float".

Definition t : Set := float.

Definition zero : t := PrimFloat.zero.
Definition one : t := PrimFloat.one.

(** The number a count is; exact below 2^53, as in JavaScript. *)
Definition ofNat (n : nat) : t := of_uint63 (Uint63.of_Z (Z.of_nat n)).

(** [!x] on a number: zero of either sign and NaN are falsy. *)
Definition falsy (x : t) : bool := eqb x zero || is_nan x.

(** [x || 0] *)
Definition orZero (x : t) : t := if falsy x then zero else x.

(** [Math.max(a, b)] and [Math.min(a, b)]: NaN if an argument is NaN;
    the positive zero is the larger zero. *)
Definition max2 (a b : t) : t :=
  if is_nan a || is_nan b then nan
  else if ltb a b then b
  else if ltb b a then a
  else if get_sign a then b else a.

Definition min2 (a b : t) : t :=
  if is_nan a || is_nan b then nan
  else if ltb a b then a
  else if ltb b a then b
  else if get_sign a then a else b.

(** [Math.max(...xs)] and [Math.min(...xs)] *)
Definition maxOf (xs : list t) : t := fold_left max2 xs neg_infinity.
Definition minOf (xs : list t) : t := fold_left min2 xs infinity.

(** The literal [0.85]. *)
Definition defaultDamping : t := 0.85%float.

End Double.

(* ===================================================================== *)
(** ** PageRank on doubles (src/graph/pagerank.ts) *)
(* ===================================================================== *)

(** The functions of [pagerank.ts] once more, with the numbers the
    program computes with. Module [PageRank] above reads the same code
    over exact rationals. *)
Module PageRankDouble.

Record RankedFile := mkRankedFile {
  rd_file : string;
  rd_score : Double.t;
  rd_rank : nat;
  rd_inDegree : nat;
  rd_outDegree : nat
}.

(** [scores.get(k) || 0] *)
Definition scoreOr0 (scores : JsMap.t Double.t) (k : string) : Double.t :=
  match JsMap.get scores k with Some s => Double.orZero s | None => Double.zero end.

Definition initScores (nodeList : list string) (n : nat) : JsMap.t Double.t :=
  fold_left (fun sc node => JsMap.set sc node (PrimFloat.div Double.one (Double.ofNat n)))
            nodeList JsMap.empty.

(** Body of the loop over the importers of one node:
    [score += dampingFactor * (importerScore / importerOutDegree)]. *)
Definition addContribution (g : Graph) (d : Double.t) (scores : JsMap.t Double.t)
           (score : Double.t) (importer : string) : Double.t :=
  let importerScore := scoreOr0 scores importer in
  let importerOutDegree := getOutDegree g importer in
  if 0 <? importerOutDegree
  then PrimFloat.add score
         (PrimFloat.mul d (PrimFloat.div importerScore (Double.ofNat importerOutDegree)))
  else score.

Definition nodeScore (g : Graph) (d : Double.t) (n : nat) (scores : JsMap.t Double.t)
           (node : string) : Double.t :=
  fold_left (addContribution g d scores)
            (getOrEmpty (reverseAdjacencyList g) node)
            (PrimFloat.div (PrimFloat.sub Double.one d) (Double.ofNat n)).

Definition iteration (g : Graph) (d : Double.t) (n : nat) (nodeList : list string)
           (scores : JsMap.t Double.t) : JsMap.t Double.t :=
  let newScores :=
    fold_left (fun ns node => JsMap.set ns node (nodeScore g d n scores node))
              nodeList JsMap.empty in
  fold_left (fun sc (entry : string * Double.t) => JsMap.set sc (fst entry) (snd entry))
            newScores scores.

Fixpoint iterateScores (g : Graph) (d : Double.t) (n : nat) (nodeList : list string)
         (iterations : nat) (scores : JsMap.t Double.t) : JsMap.t Double.t :=
  match iterations with
  | O => scores
  | S k => iterateScores g d n nodeList k (iteration g d n nodeList scores)
  end.

Definition finalScores (g : Graph) (iterations : nat) (d : Double.t) : JsMap.t Double.t :=
  let nodeList := JsMap.keys (nodes g) in
  let n := List.length nodeList in
  iterateScores g d n nodeList iterations (initScores nodeList n).

(** The comparator [(a, b) => b.score - a.score]. *)
Definition comparator (a b : RankedFile) : Double.t :=
  PrimFloat.sub (rd_score b) (rd_score a).

(** [y] is put before an [x] that came first when the comparator is
    positive on [(x, y)]. *)
Definition precedes (y x : RankedFile) : bool := PrimFloat.ltb Double.zero (comparator x y).

Fixpoint assignRanks (index : nat) (l : list RankedFile) : list RankedFile :=
  match l with
  | [] => []
  | rf :: l' =>
    mkRankedFile (rd_file rf) (rd_score rf) (index + 1) (rd_inDegree rf) (rd_outDegree rf)
    :: assignRanks (S index) l'
  end.

Definition pageRank (g : Graph) (iterations : nat) (dampingFactor : Double.t)
  : list RankedFile :=
  let nodeList := JsMap.keys (nodes g) in
  let n := List.length nodeList in
  if n =? 0 then []
  else
    let scores := finalScores g iterations dampingFactor in
    let rankedFiles :=
      map (fun file => mkRankedFile file (scoreOr0 scores file) 0
                                    (getInDegree g file) (getOutDegree g file))
          nodeList in
    assignRanks 0 (sortStable precedes rankedFiles).

Definition withScore (rf : RankedFile) (s : Double.t) : RankedFile :=
  mkRankedFile (rd_file rf) s (rd_rank rf) (rd_inDegree rf) (rd_outDegree rf).

Definition normalizeScores (rankedFiles : list RankedFile) : list RankedFile :=
  if List.length rankedFiles =? 0 then []
  else
    let maxScore := Double.maxOf (map rd_score rankedFiles) in
    let minScore := Double.minOf (map rd_score rankedFiles) in
    let range := PrimFloat.sub maxScore minScore in
    if PrimFloat.eqb range Double.zero then rankedFiles
    else map (fun rf => withScore rf (PrimFloat.div (PrimFloat.sub (rd_score rf) minScore)
                                                    range))
             rankedFiles.

End PageRankDouble.

(* ===================================================================== *)
(** ** Clustering (src/graph/clustering.ts) *)
(* ===================================================================== *)

Module Clustering.

(** [fileSet.has(x)] for [fileSet = new Set(files)]. *)
Definition setHas (files : list string) (x : string) : bool :=
  existsb (String.eqb x) files.

Definition isInternal (files : list string) (e : Edge) : bool :=
  setHas files (edge_source e) && setHas files (edge_target e).

Definition internalEdgeCount (g : Graph) (files : list string) : nat :=
  List.length (filter (isInternal files) (edges g)).

Definition calculateCohesion (g : Graph) (files : list string) : Q :=
  if List.length files <=? 1 then 1%Q
  else
    let internalEdges := internalEdgeCount g files in
    let maxPossibleEdges := List.length files * (List.length files - 1) in
    if maxPossibleEdges =? 0 then 0%Q
    else (natQ internalEdges / natQ maxPossibleEdges)%Q.

Definition otherCluster (smallFiles : list string) : Cluster :=
  mkCluster "other" "Other" smallFiles
            (Some (Js.showNat (List.length smallFiles) +++ " miscellaneous files"))
            (Some 0%Q) None.

(** The loop of [mergeSmallClusters]: the state is the pair
    [(largeClusters, smallFiles)]. *)
Definition mergeStep (minSize : nat) (st : list Cluster * list string) (c : Cluster)
  : list Cluster * list string :=
  if minSize <=? List.length (cl_files c)
  then (fst st ++ [c], snd st)
  else (fst st, snd st ++ cl_files c).

Definition mergeSmallClusters (clusters : list Cluster) (minSize : nat) : list Cluster :=
  let '(largeClusters, smallFiles) := fold_left (mergeStep minSize) clusters ([], []) in
  if 0 <? List.length smallFiles
  then largeClusters ++ [otherCluster smallFiles]
  else largeClusters.

Definition defaultMinSize : nat := 3.

End Clustering.

(* ===================================================================== *)
(** ** Regular expressions, as the sources' literals use them *)
(* ===================================================================== *)

Module Regex.

Inductive regex :=
| Eps
| Cls (p : ascii -> bool)          (* a literal character or a class *)
| Seq (r1 r2 : regex)
| Alt (r1 r2 : regex)              (* r1|r2, left alternative first *)
| Star (r : regex)                 (* greedy r* *)
| Group (i : nat) (r : regex)      (* i-th capturing group *)
| Bol                              (* ^ *)
| Eol.                             (* $ *)

Definition Plus (r : regex) : regex := Seq r (Star r).
Definition Opt (r : regex) : regex := Alt r Eps.
Definition Chr (c : ascii) : regex := Cls (Ascii.eqb c).

Fixpoint Lit (s : string) : regex :=
  match s with
  | EmptyString => Eps
  | String c s' => Seq (Chr c) (Lit s')
  end.

Fixpoint AltOf (rs : list regex) : regex :=
  match rs with
  | [] => Eps
  | [r] => r
  | r :: rs' => Alt r (AltOf rs')
  end.

(** [\s] *)
Definition space : regex := Cls Js.is_space.

(** [.]: any character but a line terminator *)
Definition anyChar : regex :=
  Cls (fun c => negb (Ascii.eqb c "010"%char || Ascii.eqb c "013"%char)).

(** [[A-Za-z0-9_]] *)
Definition is_word (c : ascii) : bool :=
  let n := nat_of_ascii c in
  ((65 <=? n) && (n <=? 90)) || ((97 <=? n) && (n <=? 122)) ||
  ((48 <=? n) && (n <=? 57)) || (n =? 95).
Definition word : regex := Cls is_word.

Definition is_quote (c : ascii) : bool :=
  Ascii.eqb c "039"%char || Ascii.eqb c "034"%char.
(** The class of the single and the double quote, and its complement. *)
Definition quote : regex := Cls is_quote.
Definition notQuote : regex := Cls (fun c => negb (is_quote c)).

Definition captures := list (nat * string).

Fixpoint capture (caps : captures) (i : nat) : option string :=
  match caps with
  | [] => None
  | (j, s) :: caps' => if i =? j then Some s else capture caps' i
  end.

(** Backtracking matcher in continuation-passing style. [pos] is the
    index of the next character in the subject; [s] is the rest of the
    subject from there. A [Star] iteration that consumes nothing is
    rejected, as in ECMAScript. *)
Fixpoint rmatch {R} (r : regex) (pos : nat) (s : list ascii) (caps : captures)
         (k : nat -> list ascii -> captures -> option R) {struct r} : option R :=
  match r with
  | Eps => k pos s caps
  | Cls p =>
    match s with
    | c :: s' => if p c then k (S pos) s' caps else None
    | [] => None
    end
  | Seq r1 r2 =>
    rmatch r1 pos s caps (fun pos' s' caps' => rmatch r2 pos' s' caps' k)
  | Alt r1 r2 =>
    match rmatch r1 pos s caps k with
    | Some x => Some x
    | None => rmatch r2 pos s caps k
    end
  | Star r' =>
    (fix loop (n : nat) (pos : nat) (s : list ascii) (caps : captures) : option R :=
       match n with
       | O => k pos s caps
       | S n' =>
         match rmatch r' pos s caps
                 (fun pos' s' caps' =>
                    if pos <? pos' then loop n' pos' s' caps' else None) with
         | Some x => Some x
         | None => k pos s caps
         end
       end) (S (List.length s)) pos s caps
  | Group i r' =>
    rmatch r' pos s caps
      (fun pos' s' caps' =>
         k pos' s' ((i, string_of_list_ascii (firstn (pos' - pos) s)) :: caps'))
  | Bol => if pos =? 0 then k pos s caps else None
  | Eol => match s with [] => k pos s caps | _ => None end
  end.

(** The leftmost match starting at or after [pos]. Group 0 is the whole
    match. *)
Fixpoint execFrom (fuel : nat) (r : regex) (pos : nat) (s : list ascii) : option captures :=
  match rmatch (Group 0 r) pos s [] (fun _ _ caps => Some caps) with
  | Some caps => Some caps
  | None =>
    match fuel, s with
    | S fuel', _ :: s' => execFrom fuel' r (S pos) s'
    | _, _ => None
    end
  end.

(** [str.match(re)] for a regular expression without the [g] flag. *)
Definition exec (r : regex) (str : string) : option captures :=
  let s := list_ascii_of_string str in
  execFrom (List.length s) r 0 s.

Definition test (r : regex) (str : string) : bool :=
  match exec r str with Some _ => true | None => false end.

End Regex.

(* ===================================================================== *)
(** ** Tree-sitter syntax trees, as the parser reads them *)
(* ===================================================================== *)

(** A syntax node: its grammar type, source text, whether it is a named
    node, the field name under which its parent holds it, the row of its
    start position, and its children. *)
#[local] Set Warnings "-register-all".
Inductive SyntaxNode :=
| SNode (type : string) (text : string) (named : bool) (field : option string)
        (row : nat) (children : list SyntaxNode).

Module Ts.

Definition type (n : SyntaxNode) : string := let 'SNode t _ _ _ _ _ := n in t.
Definition text (n : SyntaxNode) : string := let 'SNode _ t _ _ _ _ := n in t.
Definition named (n : SyntaxNode) : bool := let 'SNode _ _ b _ _ _ := n in b.
Definition field (n : SyntaxNode) : option string := let 'SNode _ _ _ f _ _ := n in f.
Definition row (n : SyntaxNode) : nat := let 'SNode _ _ _ _ r _ := n in r.
Definition children (n : SyntaxNode) : list SyntaxNode := let 'SNode _ _ _ _ _ c := n in c.

Definition childCount (n : SyntaxNode) : nat := List.length (children n).
Definition child (n : SyntaxNode) (i : nat) : option SyntaxNode := nth_error (children n) i.
Definition namedChildren (n : SyntaxNode) : list SyntaxNode := filter named (children n).
Definition namedChildCount (n : SyntaxNode) : nat := List.length (namedChildren n).
Definition namedChild (n : SyntaxNode) (i : nat) : option SyntaxNode :=
  nth_error (namedChildren n) i.

(** [namedChild(namedChildCount - 1)]: null when there is no named child. *)
Definition lastNamedChild (n : SyntaxNode) : option SyntaxNode :=
  match namedChildCount n with
  | O => None
  | S k => namedChild n k
  end.

Definition childForFieldName (n : SyntaxNode) (name : string) : option SyntaxNode :=
  find (fun c => match field c with
                 | Some f => String.eqb f name
                 | None => false
                 end) (children n).

(** [findNodesByType]: pre-order traversal. *)
Fixpoint findNodesByType (n : SyntaxNode) (ty : string) : list SyntaxNode :=
  let 'SNode t _ _ _ _ cs := n in
  (if String.eqb t ty then [n] else []) ++
  (fix traverseAll (l : list SyntaxNode) : list SyntaxNode :=
     match l with
     | [] => []
     | c :: l' => findNodesByType c ty ++ traverseAll l'
     end) cs.

End Ts.

(** What the parser needs from its environment: file contents
    ([None]: the read fails) and the tree-sitter parser for the plain
    and the TSX grammar ([None]: the parser throws). *)
Record ParserHost := mkParserHost {
  readFile : string -> option string;
  treeSitterParse : bool -> string -> option SyntaxNode
}.

(* ===================================================================== *)
(** ** Parser utilities (parsers/base.ts) *)
(* ===================================================================== *)

(** Every branch of [normalizeImportPath] returns its argument. *)
Definition normalizeImportPath (importPath currentFilePath : string) : string :=
  if negb (Js.startsWith importPath ".") && negb (Js.startsWith importPath "/")
  then importPath
  else if Js.startsWith importPath "/" then importPath
  else importPath.

Definition isExternalImport (importPath : string) : bool :=
  negb (Js.startsWith importPath ".") && negb (Js.startsWith importPath "/").

(* ===================================================================== *)
(** ** TypeScript/JavaScript parser (src/parsers/typescript.ts) *)
(* ===================================================================== *)

Module TsParser.

Import Regex.

Record Extracted := mkExtracted {
  ex_imports : list ImportDeclaration;
  ex_exports : list string;
  ex_definitions : list Definition_
}.

Definition dquote : string := String "034"%char EmptyString.
Definition squote : string := String "039"%char EmptyString.
Definition backtick : string := String "096"%char EmptyString.

(** [extractStringLiteral]: the text without its quotes. *)
Definition extractStringLiteral (node : option SyntaxNode) : option string :=
  match node with
  | None => None
  | Some n =>
    let t := Ts.text n in
    if (Js.startsWith t dquote && Js.endsWith t dquote)
       || (Js.startsWith t squote && Js.endsWith t squote)
       || (Js.startsWith t backtick && Js.endsWith t backtick)
    then Some (Js.slice1m1 t)
    else None
  end.

(** [if (!source) continue]: an absent or empty source is skipped. *)
Definition truthy (s : option string) : option string :=
  match s with
  | Some x => if String.eqb x "" then None else Some x
  | None => None
  end.

Definition optText (n : option SyntaxNode) : list string :=
  match n with Some x => [Ts.text x] | None => [] end.

(** Names and flags collected from one child of an [import_clause]. *)
Definition clauseChild (acc : list string * bool * bool) (child : SyntaxNode)
  : list string * bool * bool :=
  let '(names, isDefault, isNamespace) := acc in
  if String.eqb (Ts.type child) "named_imports" then
    (names ++ flat_map (fun spec => optText (Ts.namedChild spec 0))
                       (Ts.findNodesByType child "import_specifier"),
     isDefault, isNamespace)
  else if String.eqb (Ts.type child) "identifier" then
    (names ++ [Ts.text child], true, isNamespace)
  else if String.eqb (Ts.type child) "namespace_import" then
    match Ts.namedChild child 0 with
    | Some name => (names ++ [Ts.text name], isDefault, true)
    | None => acc
    end
  else acc.

Definition importOfStatement (filePath : string) (importNode : SyntaxNode)
  : list ImportDeclaration :=
  let importClause := Ts.namedChild importNode 0 in
  let sourceNode := Ts.namedChild importNode 1 in
  match truthy (extractStringLiteral sourceNode) with
  | None => []
  | Some source =>
    let '(names, isDefault, isNamespace) :=
      match importClause with
      | Some clause =>
        if String.eqb (Ts.type clause) "import_clause"
        then fold_left clauseChild (Ts.namedChildren clause) ([], false, false)
        else ([], false, false)
      | None => ([], false, false)
      end in
    [mkImport (normalizeImportPath source filePath) names
              (Some isDefault) (Some isNamespace) (Some (Ts.row importNode + 1))]
  end.

Definition exportSpecifierNames (exportClause : SyntaxNode) : list string :=
  flat_map (fun spec => optText (Ts.childForFieldName spec "name"))
           (Ts.findNodesByType exportClause "export_specifier").

Definition isExportClause (n : option SyntaxNode) : option SyntaxNode :=
  match n with
  | Some c => if String.eqb (Ts.type c) "export_clause" then Some c else None
  | None => None
  end.

Definition importOfReexport (filePath : string) (exportNode : SyntaxNode)
  : list ImportDeclaration :=
  let sourceNode := Ts.lastNamedChild exportNode in
  match truthy (extractStringLiteral sourceNode) with
  | None => []
  | Some source =>
    let names :=
      match isExportClause (Ts.child exportNode 1) with
      | Some clause => exportSpecifierNames clause
      | None =>
        if Js.startsWith (Ts.text exportNode) "export *" then ["*"] else []
      end in
    [mkImport (normalizeImportPath source filePath) names None None
              (Some (Ts.row exportNode + 1))]
  end.

(** [findRequireCalls]: source and line of every [require('...')] call. *)
Definition requireOfCall (call : SyntaxNode) : list (string * nat) :=
  match Ts.childForFieldName call "function" with
  | Some func =>
    if String.eqb (Ts.text func) "require" then
      match Ts.childForFieldName call "arguments" with
      | Some args =>
        if 0 <? Ts.childCount args then
          match Ts.child args 1 with
          | Some firstArg =>
            match truthy (extractStringLiteral (Some firstArg)) with
            | Some source => [(source, Ts.row call + 1)]
            | None => []
            end
          | None => []
          end
        else []
      | None => []
      end
    else []
  | None => []
  end.

Definition findRequireCalls (node : SyntaxNode) : list (string * nat) :=
  flat_map requireOfCall (Ts.findNodesByType node "call_expression").

Definition extractImports (node : SyntaxNode) (filePath : string) : list ImportDeclaration :=
  flat_map (importOfStatement filePath) (Ts.findNodesByType node "import_statement")
  ++ flat_map (importOfReexport filePath) (Ts.findNodesByType node "export_statement")
  ++ map (fun req => mkImport (normalizeImportPath (fst req) filePath) [] None None
                              (Some (snd req)))
         (findRequireCalls node).

Definition extractNameFromDeclaration (node : SyntaxNode) : option string :=
  match Ts.childForFieldName node "name" with
  | Some name => Some (Ts.text name)
  | None => None
  end.

(** [if (name) exports.push(name)]: the empty name is skipped too. *)
Definition optName (s : option string) : list string :=
  match truthy s with Some x => [x] | None => [] end.

Definition exportsOfStatement (exportNode : SyntaxNode) : list string :=
  (match Ts.childForFieldName exportNode "declaration" with
   | Some declaration => optName (extractNameFromDeclaration declaration)
   | None => []
   end)
  ++ (match isExportClause (Ts.child exportNode 1) with
      | Some clause => exportSpecifierNames clause
      | None => []
      end).

Definition extractExports (node : SyntaxNode) : list string :=
  let exportNodes := Ts.findNodesByType node "export_statement" in
  let named := flat_map exportsOfStatement exportNodes in
  let defaultExports :=
    filter (fun n => Js.startsWith (Ts.text n) "export default") exportNodes in
  Js.dedupe (named ++ (if 0 <? List.length defaultExports then ["default"] else [])).

Definition definitionsOfType (node : SyntaxNode) (ty : string) (kind : DefinitionKind)
  : list Definition_ :=
  flat_map (fun n =>
              match Ts.childForFieldName n "name" with
              | Some name => [mkDefinition (Ts.text name) kind (Ts.row n + 1) None]
              | None => []
              end)
           (Ts.findNodesByType node ty).

Definition definitionsOfLexical (varDecl : SyntaxNode) : list Definition_ :=
  flat_map (fun declarator =>
              match Ts.childForFieldName declarator "name" with
              | Some name =>
                [mkDefinition (Ts.text name)
                              (if Js.startsWith (Ts.text varDecl) "const"
                               then KConst else KVariable)
                              (Ts.row declarator + 1) None]
              | None => []
              end)
           (Ts.findNodesByType varDecl "variable_declarator").

Definition extractDefinitions (node : SyntaxNode) : list Definition_ :=
  definitionsOfType node "function_declaration" KFunction
  ++ definitionsOfType node "class_declaration" KClass
  ++ definitionsOfType node "type_alias_declaration" KType
  ++ definitionsOfType node "interface_declaration" KInterface
  ++ flat_map definitionsOfLexical (Ts.findNodesByType node "lexical_declaration").

(** *** The regular expressions of the line-oriented extractors *)

Definition seqs (rs : list regex) : regex := fold_right Seq Eps rs.

(** [/^import\s+( .* )\s+from\s+Q([^Q]+)Q/], [Q] being the quote class *)
Definition reImport : regex :=
  seqs [Bol; Lit "import"; Plus space; Group 1 (Star anyChar); Plus space;
        Lit "from"; Plus space; quote; Group 2 (Plus notQuote); quote].

(** [/require\(Q([^Q]+)Q\)/] *)
Definition reRequire : regex :=
  seqs [Lit "require("; quote; Group 1 (Plus notQuote); quote; Lit ")"].

(** [/^export\s+\*\s+from\s+Q([^Q]+)Q/] *)
Definition reExportStar : regex :=
  seqs [Bol; Lit "export"; Plus space; Lit "*"; Plus space; Lit "from"; Plus space;
        quote; Group 1 (Plus notQuote); quote].

Definition notCloseBrace : regex := Cls (fun c => negb (Ascii.eqb c "}"%char)).

(** [/^export\s+\{([^}]+)\}\s+from\s+Q([^Q]+)Q/] *)
Definition reExportNamedFrom : regex :=
  seqs [Bol; Lit "export"; Plus space; Lit "{"; Group 1 (Plus notCloseBrace); Lit "}";
        Plus space; Lit "from"; Plus space; quote; Group 2 (Plus notQuote); quote].

(** [/^export\s+(?:const|let|var|function|class|type|interface)\s+([A-Za-z0-9_]+)/] *)
Definition reExportDecl : regex :=
  seqs [Bol; Lit "export"; Plus space;
        AltOf [Lit "const"; Lit "let"; Lit "var"; Lit "function"; Lit "class";
               Lit "type"; Lit "interface"];
        Plus space; Group 1 (Plus word)].

(** [/^(export\s+)?(function|class|interface|type|const|let|var)\s+([A-Za-z0-9_]+)/] *)
Definition reDefinition : regex :=
  seqs [Bol; Opt (Group 1 (Seq (Lit "export") (Plus space)));
        Group 2 (AltOf [Lit "function"; Lit "class"; Lit "interface"; Lit "type";
                        Lit "const"; Lit "let"; Lit "var"]);
        Plus space; Group 3 (Plus word)].

(** [/module\.exports\s*=\s*\{([^}]+)\}/] *)
Definition reModuleExportsObject : regex :=
  seqs [Lit "module.exports"; Star space; Lit "="; Star space; Lit "{";
        Group 1 (Plus notCloseBrace); Lit "}"].

(** [/module\.exports\s*=\s*([A-Za-z0-9_]+)/] *)
Definition reModuleExportsAssign : regex :=
  seqs [Lit "module.exports"; Star space; Lit "="; Star space; Group 1 (Plus word)].

(** [/exports\.([A-Za-z0-9_]+)\s*=/] *)
Definition reExportsAssign : regex :=
  seqs [Lit "exports."; Group 1 (Plus word); Star space; Lit "="].

(** [m[i]] of a successful match; an unmatched group reads as empty. *)
Definition group (caps : captures) (i : nat) : string :=
  match capture caps i with Some s => s | None => "" end.

(** [s.split(',').map(x => x.trim()).filter(Boolean)] *)
Definition commaNames (s : string) : list string :=
  Js.filterTruthy (map Js.trim (Js.split s ",")).

(** [rawNames.replace(/^{|}$/g, '')] *)
Definition stripBraces (s : string) : string :=
  let s1 := if Js.startsWith s "{" then Js.sliceFrom s 1 else s in
  if Js.endsWith s1 "}" then Js.dropRight s1 1 else s1.

Definition kindOfKeyword (kind : string) : DefinitionKind :=
  if String.eqb kind "function" then KFunction
  else if String.eqb kind "class" then KClass
  else if String.eqb kind "interface" then KInterface
  else if String.eqb kind "type" then KType
  else if String.eqb kind "const" then KConst
  else KVariable.

(** What one line contributes in [extractFallback]. *)
Definition fallbackLine (filePath : string) (idx : nat) (line : string) : Extracted :=
  let i1 :=
    match exec reImport line with
    | Some m =>
      let rawNames := group m 1 in
      let names :=
        if Js.includes rawNames "{" && Js.includes rawNames "}"
        then commaNames (stripBraces rawNames)
        else if negb (String.eqb (Js.trim rawNames) "") then [Js.trim rawNames]
        else [] in
      [mkImport (normalizeImportPath (group m 2) filePath) names None None (Some (idx + 1))]
    | None => []
    end in
  let i2 :=
    match exec reRequire line with
    | Some m => [mkImport (normalizeImportPath (group m 1) filePath) [] None None
                          (Some (idx + 1))]
    | None => []
    end in
  let i3 :=
    match exec reExportStar line with
    | Some m => [mkImport (normalizeImportPath (group m 1) filePath) ["*"] None None
                          (Some (idx + 1))]
    | None => []
    end in
  let named := exec reExportNamedFrom line in
  let i4 :=
    match named with
    | Some m => [mkImport (normalizeImportPath (group m 2) filePath)
                          (commaNames (group m 1)) None None (Some (idx + 1))]
    | None => []
    end in
  let e1 := match named with Some m => commaNames (group m 1) | None => [] end in
  let e2 := match exec reExportDecl line with Some m => [group m 1] | None => [] end in
  let d :=
    match exec reDefinition line with
    | Some m =>
      [mkDefinition (group m 3) (kindOfKeyword (group m 2)) (idx + 1)
                    (Some (match capture m 1 with
                           | Some s => negb (String.eqb s "")
                           | None => false
                           end))]
    | None => []
    end in
  mkExtracted (i1 ++ i2 ++ i3 ++ i4) (e1 ++ e2) d.

Fixpoint mapi_from {A B} (f : nat -> A -> B) (i : nat) (l : list A) : list B :=
  match l with
  | [] => []
  | x :: l' => f i x :: mapi_from f (S i) l'
  end.

Definition perLine (f : nat -> string -> Extracted) (content : string) : list Extracted :=
  mapi_from f 0 (Js.split content (String "010"%char "")).

Definition extractFallback (content filePath : string) : Extracted :=
  let per := perLine (fallbackLine filePath) content in
  mkExtracted (flat_map ex_imports per)
              (Js.dedupe (flat_map ex_exports per))
              (flat_map ex_definitions per).

(** [s.split(':')[0].trim()] *)
Definition keyOfEntry (s : string) : string :=
  Js.trim (hd "" (Js.split s ":")).

(** What one line contributes in [extractCommonJS]. *)
Definition commonJsLine (filePath : string) (idx : nat) (line : string) : Extracted :=
  let e1 :=
    match exec reModuleExportsObject line with
    | Some m => Js.filterTruthy (map keyOfEntry (Js.split (group m 1) ","))
    | None => []
    end in
  let assign := exec reModuleExportsAssign line in
  let e2 := match assign with Some _ => ["default"] | None => [] end in
  let d :=
    match assign with
    | Some m => [mkDefinition (group m 1) KVariable (idx + 1) None]
    | None => []
    end in
  let e3 := match exec reExportsAssign line with Some m => [group m 1] | None => [] end in
  let i :=
    match exec reRequire line with
    | Some m => [mkImport (normalizeImportPath (group m 1) filePath) [] None None
                          (Some (idx + 1))]
    | None => []
    end in
  mkExtracted i (e1 ++ e2 ++ e3) d.

Definition extractCommonJS (content filePath : string) : Extracted :=
  let per := perLine (commonJsLine filePath) content in
  mkExtracted (flat_map ex_imports per) (flat_map ex_exports per)
              (flat_map ex_definitions per).

Definition languageOfExt (ext : string) : Language :=
  if String.eqb ext ".js" || String.eqb ext ".jsx" || String.eqb ext ".mjs"
     || String.eqb ext ".cjs"
  then javascript else typescript.

(** [parse(filePath)]; [None] is the rejected promise of a failed read. *)
Definition parse (ph : ParserHost) (filePath : string) : option ParsedFile :=
  match readFile ph filePath with
  | None => None
  | Some content =>
    let ext := Path.extname filePath in
    let useTsx := String.eqb ext ".tsx" || String.eqb ext ".jsx" in
    let fromTree :=
      match treeSitterParse ph useTsx content with
      | Some root =>
        mkExtracted (extractImports root filePath) (extractExports root)
                    (extractDefinitions root)
      | None => extractFallback content filePath
      end in
    let commonJsExtras := extractCommonJS content filePath in
    let imports := ex_imports fromTree ++ ex_imports commonJsExtras in
    let exports := ex_exports fromTree ++ ex_exports commonJsExtras in
    let definitions := ex_definitions fromTree ++ ex_definitions commonJsExtras in
    Some (mkParsedFile filePath (languageOfExt ext)
            (filter (fun imp => negb (isExternalImport (imp_source imp))) imports)
            exports definitions)
  end.

End TsParser.

(* ===================================================================== *)
(** ** Pattern detectors (src/tools/detectPatterns.ts) *)
(* ===================================================================== *)

Module Detect.

Definition PatternDetector : Type := list string -> string -> Graph -> option Pattern.

(** [arr.some(pred)] *)
Definition some {A} (pred : A -> bool) (l : list A) : bool := existsb pred l.

Definition relLower (h : Host) (files : list string) (root : string) : list string :=
  map (fun f => Js.toLowerCase (Path.relative h root f)) files.

Definition rel (h : Host) (files : list string) (root : string) : list string :=
  map (fun f => Path.relative h root f) files.

(** [if (flag) evidence.push(text)] *)
Definition pushIf (flag : bool) (text : string) : list string :=
  if flag then [text] else [].

Definition countTrue (flags : list bool) : nat := List.length (filter (fun b => b) flags).

Definition detectMVC (h : Host) : PatternDetector := fun files root _ =>
  let relFiles := relLower h files root in
  let hasModels := some (fun f => Js.includes f "model") relFiles in
  let hasViews := some (fun f => Js.includes f "view") relFiles in
  let hasControllers := some (fun f => Js.includes f "controller") relFiles in
  if hasModels && hasViews && hasControllers then
    Some (mkPattern "MVC (Model-View-Controller)" (9 # 10)
            (pushIf hasModels "Found model files/directories"
             ++ pushIf hasViews "Found view files/directories"
             ++ pushIf hasControllers "Found controller files/directories"))
  else None.

Definition detectLayeredArch (h : Host) : PatternDetector := fun files root _ =>
  let relFiles := relLower h files root in
  let api := some (fun f => Js.includes f "api" || Js.includes f "route") relFiles in
  let service := some (fun f => Js.includes f "service" || Js.includes f "business") relFiles in
  let data := some (fun f => Js.includes f "data" || Js.includes f "repository"
                             || Js.includes f "dao") relFiles in
  let layerCount := countTrue [api; service; data] in
  if 2 <=? layerCount then
    Some (mkPattern "Layered Architecture"
            (if 3 <=? layerCount then 9 # 10 else 7 # 10)
            (pushIf api "Found API/routing layer"
             ++ pushIf service "Found service/business logic layer"
             ++ pushIf data "Found data access layer"))
  else None.

(** [file.split(marker)[1]?.split('/')[0]], when the second piece exists *)
Definition firstDirAfter (file marker : string) : list string :=
  match Js.split file marker with
  | _ :: second :: _ => [hd "" (Js.split second "/")]
  | _ => []
  end.

Definition featureDirOf (file : string) : list string :=
  if Js.includes file "features/" then firstDirAfter file "features/"
  else if Js.includes file "modules/" then firstDirAfter file "modules/"
  else [].

Definition detectFeatureBased (h : Host) : PatternDetector := fun files root _ =>
  let relFiles := rel h files root in
  let hasFeatures :=
    some (fun f => Js.includes f "features/" || Js.includes f "modules/") relFiles in
  if hasFeatures then
    let featureDirs := Js.dedupe (flat_map featureDirOf relFiles) in
    let size := List.length featureDirs in
    if 2 <=? size then
      Some (mkPattern "Feature-based Organization" (85 # 100)
              ["Found " +++ Js.showNat size +++ " feature/module directories";
               "Features: " +++ Js.join (Js.take 5 featureDirs) ", "
                 +++ (if 5 <? size then "..." else "")])
    else None
  else None.

Definition detectMonorepo (h : Host) : PatternDetector := fun files root _ =>
  let relFiles := rel h files root in
  let hasPackages := some (fun f => Js.startsWith f "packages/") relFiles in
  let hasApps := some (fun f => Js.startsWith f "apps/") relFiles in
  if hasPackages || hasApps then
    Some (mkPattern "Monorepo"
            (if hasPackages && hasApps then 95 # 100 else 75 # 100)
            (pushIf hasPackages "Found packages/ directory"
             ++ pushIf hasApps "Found apps/ directory"))
  else None.

(** [f.split('/').pop()] *)
Definition lastPiece (f : string) : string := last (Js.split f "/") "".

(** [x.toFixed(1)] of a non-negative ratio, on the exact rational: the
    nearest tenth, the larger one on a tie. *)
Definition toFixed1 (x : Q) : string :=
  let tenths := Z.to_nat (Qfloor (x * 10 + (1 # 2))) in
  Js.showNat (tenths / 10) +++ "." +++ Js.showNat (tenths mod 10).

Definition detectBarrelExports (h : Host) : PatternDetector := fun files root _ =>
  let relFiles := rel h files root in
  let indexFiles :=
    filter (fun f => let name := lastPiece f in
                     String.eqb name "index.ts" || String.eqb name "index.js"
                     || String.eqb name "index.tsx" || String.eqb name "index.jsx")
           relFiles in
  let ratio := (natQ (List.length indexFiles) / natQ (List.length files))%Q in
  if (5 <=? List.length indexFiles) && Qlt_bool (5 # 100) ratio then
    Some (mkPattern "Barrel Exports"
            (if Qlt_bool (15 # 100) ratio then 9 # 10 else 7 # 10)
            ["Found " +++ Js.showNat (List.length indexFiles) +++ " index files ("
               +++ toFixed1 (ratio * 100) +++ "% of all files)";
             "Index files used to re-export module contents"])
  else None.

Definition detectDDD (h : Host) : PatternDetector := fun files root _ =>
  let relFiles := relLower h files root in
  let entities := some (fun f => Js.includes f "entit") relFiles in
  let repositories := some (fun f => Js.includes f "repositor") relFiles in
  let services := some (fun f => Js.includes f "service") relFiles in
  let valueObjects := some (fun f => Js.includes f "value" || Js.includes f "vo") relFiles in
  let aggregates := some (fun f => Js.includes f "aggregate") relFiles in
  let indicatorCount :=
    countTrue [entities; repositories; services; valueObjects; aggregates] in
  if 3 <=? indicatorCount then
    Some (mkPattern "Domain-Driven Design (DDD)"
            (if 4 <=? indicatorCount then 85 # 100 else 7 # 10)
            (pushIf entities "Found entity files"
             ++ pushIf repositories "Found repository pattern"
             ++ pushIf services "Found domain services"
             ++ pushIf valueObjects "Found value objects"
             ++ pushIf aggregates "Found aggregates"))
  else None.

(** *** Circular dependencies *)

(** A JavaScript [Set] of strings, in insertion order. *)
Definition setHas (s : list string) (x : string) : bool := existsb (String.eqb x) s.
Definition setAdd (s : list string) (x : string) : list string :=
  if setHas s x then s else s ++ [x].
Definition setDelete (s : list string) (x : string) : list string :=
  filter (fun y => negb (String.eqb x y)) s.

(** The mutable state shared by all calls of [dfs]. *)
Record DfsState := mkDfs {
  visited : list string;
  stack : list string;
  cycles : list (list string)
}.

(** [path.indexOf(x)] *)
Fixpoint indexOf (path : list string) (x : string) : option nat :=
  match path with
  | [] => None
  | y :: path' =>
    if String.eqb y x then Some 0
    else match indexOf path' x with Some i => Some (S i) | None => None end
  end.

(** The body of the loop over the neighbours of a node whose own path is
    [path]; [rec] is the recursive call. *)
Definition visitNeighbor (rec : string -> list string -> DfsState -> option DfsState)
           (path : list string) (neighbor : string) (st : DfsState) : option DfsState :=
  if setHas (stack st) neighbor then
    match indexOf path neighbor with
    | Some idx =>
      Some (mkDfs (visited st) (stack st)
                  (cycles st ++ [skipn idx path ++ [neighbor]]))
    | None => Some st
    end
  else if negb (setHas (visited st) neighbor) then rec neighbor path st
  else Some st.

Fixpoint visitNeighbors (rec : string -> list string -> DfsState -> option DfsState)
         (path : list string) (neighbors : list string) (st : DfsState)
  : option DfsState :=
  match neighbors with
  | [] => Some st
  | nb :: rest =>
    match visitNeighbor rec path nb st with
    | Some st' => visitNeighbors rec path rest st'
    | None => None
    end
  end.

(** [dfs(node, path)]. The recursion is bounded by [fuel]; [None] means
    the bound was too small. Each call is passed a copy of the caller's
    path, to which it appends its own node. *)
Fixpoint dfs (fuel : nat) (adjacency : JsMap.t (list string))
         (node : string) (path : list string) (st : DfsState) : option DfsState :=
  match fuel with
  | O => None
  | S fuel' =>
    let st1 := mkDfs (setAdd (visited st) node) (setAdd (stack st) node) (cycles st) in
    let path1 := path ++ [node] in
    match visitNeighbors (dfs fuel' adjacency) path1 (getOrEmpty adjacency node) st1 with
    | Some st2 =>
      Some (mkDfs (visited st2) (setDelete (stack st2) node) (cycles st2))
    | None => None
    end
  end.

(** The loop over all nodes. *)
Fixpoint dfsAll (fuel : nat) (adjacency : JsMap.t (list string))
         (nodeList : list string) (st : DfsState) : option DfsState :=
  match nodeList with
  | [] => Some st
  | node :: rest =>
    if negb (setHas (visited st) node) then
      match dfs fuel adjacency node [] st with
      | Some st' => dfsAll fuel adjacency rest st'
      | None => None
      end
    else dfsAll fuel adjacency rest st
  end.

(** Every string [dfs] can ever visit: the node keys and the members of
    the adjacency lists. Each call marks a new one, so one more than their
    number bounds the depth of the recursion. *)
Definition universe (g : Graph) : list string :=
  JsMap.keys (nodes g) ++ List.concat (JsMap.values (adjacencyList g)).

Definition dfsFuel (g : Graph) : nat := S (List.length (universe g)).

(** The [cycles] array once the loop over the nodes is over. *)
Definition findCycles (g : Graph) : option (list (list string)) :=
  match dfsAll (dfsFuel g) (adjacencyList g) (JsMap.keys (nodes g)) (mkDfs [] [] []) with
  | Some st => Some (cycles st)
  | None => None
  end.

Definition printCycle (c : list string) : string := Js.join c " -> ".

(** [Array.from(new Set(cycles.map(print))).map(s => s.split(' -> '))] *)
Definition uniqueCycles (cs : list (list string)) : list (list string) :=
  map (fun s => Js.split s " -> ") (Js.dedupe (map printCycle cs)).

Definition arrow : string :=
  String "226"%char (String "134"%char (String "146"%char EmptyString)).

Definition cycleLine (c : list string) : string :=
  "Cycle: " +++ Js.join c (" " +++ arrow +++ " ").

Definition qminimum (a b : Q) : Q := if Qle_bool a b then a else b.

Definition circularPattern (cs : list (list string)) : option Pattern :=
  if List.length cs =? 0 then None
  else
    let unique := uniqueCycles cs in
    let longest := fold_left (fun mx c => Nat.max mx (List.length c)) unique 0 in
    Some (mkPattern "Circular Dependencies"
            (qminimum 1 (natQ (List.length unique) / 5))
            (("Detected " +++ Js.showNat (List.length unique) +++ " cycles (longest length: "
                +++ Js.showNat longest +++ ")")
             :: map cycleLine (Js.take 3 unique))).

Definition detectCircularDependencies : PatternDetector := fun _ _ g =>
  match findCycles g with
  | Some cs => circularPattern cs
  | None => None
  end.

(** [!incoming || incoming.length === 0] *)
Definition noImporter (g : Graph) (f : string) : bool :=
  match JsMap.get (reverseAdjacencyList g) f with
  | Some incoming => List.length incoming =? 0
  | None => true
  end.

Definition detectDeadCode : PatternDetector := fun _ _ g =>
  let unreferenced := filter (noImporter g) (JsMap.keys (nodes g)) in
  if List.length unreferenced =? 0 then None
  else
    Some (mkPattern "Unreferenced Files (Potential Dead Code)"
            (qminimum (9 # 10)
               (natQ (List.length unreferenced)
                / natQ (Nat.max 3 (JsMap.size (nodes g)))))
            ["Found " +++ Js.showNat (List.length unreferenced) +++ " files with no importers";
             "Hotspots: " +++ Js.join (map lastPiece (Js.take 3 unreferenced)) ", "
               +++ "..."]).

Definition detectTests (h : Host) : PatternDetector := fun files root _ =>
  let rel := relLower h files root in
  let testFiles :=
    filter (fun f => Js.includes f "test" || Js.includes f "__tests__") rel in
  if List.length testFiles =? 0 then None
  else
    Some (mkPattern "Tests Present"
            (qminimum 1 (natQ (List.length testFiles) / natQ (List.length files)
                         + (2 # 10)))
            ["Found " +++ Js.showNat (List.length testFiles) +++ " test files";
             "Examples: " +++ Js.join (Js.take 3 testFiles) ", "]).

(** [/package\.json|tsconfig\.json|eslint|prettier|biome|\.env|vite\.config|webpack\.config|rollup\.config/] *)
Definition reConfig : Regex.regex :=
  Regex.AltOf (map Regex.Lit
    ["package.json"; "tsconfig.json"; "eslint"; "prettier"; "biome"; ".env";
     "vite.config"; "webpack.config"; "rollup.config"]).

Definition detectConfigs (h : Host) : PatternDetector := fun files root _ =>
  let rel := relLower h files root in
  let configs := filter (Regex.test reConfig) rel in
  if List.length configs =? 0 then None
  else
    Some (mkPattern "Config Heavy"
            (qminimum 1 (natQ (List.length configs) / natQ (List.length files)
                         + (2 # 10)))
            ["Found " +++ Js.showNat (List.length configs) +++ " config files";
             "Examples: " +++ Js.join (Js.take 3 configs) ", "]).

Record Scored := mkScored {
  sc_file : string;
  sc_indeg : nat;
  sc_outdeg : nat;
  sc_total : nat
}.

Definition detectHotspots : PatternDetector := fun _ _ g =>
  if JsMap.size (nodes g) =? 0 then None
  else
    let scored :=
      map (fun f => let indeg := getInDegree g f in
                    let outdeg := getOutDegree g f in
                    mkScored f indeg outdeg (indeg + outdeg))
          (JsMap.keys (nodes g)) in
    let sorted := sortStable (descendingBy (fun s => natQ (sc_total s))) scored in
    match Js.take 3 sorted with
    | [] => None
    | (first :: _) as top =>
      Some (mkPattern "Graph Hotspots"
              (qminimum 1 (natQ (sc_total first)
                           / natQ (Nat.max 1 (JsMap.size (nodes g)))))
              (map (fun t => Path.basename (sc_file t) +++ " (in:"
                             +++ Js.showNat (sc_indeg t) +++ ", out:"
                             +++ Js.showNat (sc_outdeg t) +++ ")") top))
    end.

Definition PATTERN_DETECTORS (h : Host) : list PatternDetector :=
  [detectMVC h; detectLayeredArch h; detectFeatureBased h; detectMonorepo h;
   detectBarrelExports h; detectDDD h; detectCircularDependencies; detectDeadCode;
   detectTests h; detectConfigs h; detectHotspots].

Record DetectPatternsInput := mkInput {
  in_graph : Graph;
  in_files : list string;
  in_repoRoot : option string
}.

(** The outcome of a call: the returned value or the thrown error. *)
Inductive Outcome (A : Type) :=
| Returned (a : A)
| Thrown (message : string).
Arguments Returned {A} a.
Arguments Thrown {A} message.

(** [for (const detector of PATTERN_DETECTORS) ... patterns.push(pattern)] *)
Definition runDetectors (detectors : list PatternDetector)
           (files : list string) (root : string) (g : Graph) : list Pattern :=
  flat_map (fun detector =>
              match detector files root g with
              | Some p => [p]
              | None => []
              end) detectors.

(** [detectPatterns(input)]; the console output is not modelled. A
    missing [repoRoot] and the empty string are both falsy. *)
Definition detectPatterns (h : Host) (input : DetectPatternsInput)
  : Outcome (list Pattern) :=
  match in_repoRoot input with
  | None => Thrown "repoRoot is required for pattern detection"
  | Some root =>
    if String.eqb root "" then Thrown "repoRoot is required for pattern detection"
    else
      Returned (sortStable (descendingBy confidence)
                  (runDetectors (PATTERN_DETECTORS h) (in_files input) root
                                (in_graph input)))
  end.

End Detect.

(* ===================================================================== *)
(** ** Graph lookups and statistics (src/graph/types.ts) *)
(* ===================================================================== *)

Definition getNode (g : Graph) (filePath : string) : option Node :=
  JsMap.get (nodes g) filePath.

Module Stats.

Record GraphStats := mkGraphStats {
  nodeCount : nat;
  edgeCount : nat;
  avgDegree : Q;
  maxInDegree : nat;
  maxOutDegree : nat
}.

(** The three variables the loop over the node keys updates. *)
Record Running := mkRunning {
  run_maxInDegree : nat;
  run_maxOutDegree : nat;
  run_totalDegree : nat
}.

Definition step (g : Graph) (acc : Running) (node : string) : Running :=
  let inDegree := getInDegree g node in
  let outDegree := getOutDegree g node in
  mkRunning (Nat.max (run_maxInDegree acc) inDegree)
            (Nat.max (run_maxOutDegree acc) outDegree)
            (run_totalDegree acc + (inDegree + outDegree)).

Definition getGraphStats (g : Graph) : GraphStats :=
  let nodeCount := JsMap.size (nodes g) in
  let edgeCount := List.length (edges g) in
  let acc := fold_left (step g) (JsMap.keys (nodes g)) (mkRunning 0 0 0) in
  mkGraphStats nodeCount edgeCount
    (if 0 <? nodeCount then (natQ (run_totalDegree acc) / natQ nodeCount)%Q else 0%Q)
    (run_maxInDegree acc) (run_maxOutDegree acc).

End Stats.

(* ===================================================================== *)
(** ** File system utilities (utils/fileSystem.ts) *)
(* ===================================================================== *)

Module FileSystem.

Definition DEFAULT_EXCLUDE_DIRS : list string :=
  ["node_modules"; ".git"; "dist"; "build"; "coverage"; ".next"; ".nuxt"; "out";
   "target"; ".stack-work"; ".cabal-sandbox"].

(** The own entries of the table. A lookup key is always the result of
    [extname], which is empty or starts with a dot, so it never names a
    member the table object inherits. *)
Definition EXTENSION_TO_LANGUAGE : JsMap.t Language :=
  [(".ts", typescript); (".tsx", typescript); (".js", javascript);
   (".jsx", javascript); (".mjs", javascript); (".cjs", javascript);
   (".hs", haskell); (".lhs", haskell); (".purs", purescript)].

Definition shouldExcludeDir (dirName : string) (excludeDirs : list string) : bool :=
  existsb (fun excluded => String.eqb dirName excluded || Js.startsWith dirName ".")
          excludeDirs.

(** [EXTENSION_TO_LANGUAGE[ext] || null] *)
Definition detectLanguage (filePath : string) : option Language :=
  JsMap.get EXTENSION_TO_LANGUAGE (Path.extname filePath).

(** The lines that are not blank. *)
Definition nonEmptyLines (content : string) : list string :=
  filter (fun line => 0 <? String.length (Js.trim line))
         (Js.split content (String "010"%char "")).

(** [countLinesOfCode(filePath)]; [readFile] answers [None] when the
    read fails, and the count is then 0. *)
Definition countLinesOfCode (readFile : string -> option string) (filePath : string) : nat :=
  match readFile filePath with
  | Some content => List.length (nonEmptyLines content)
  | None => 0
  end.

End FileSystem.

(* ===================================================================== *)
(** ** Entry points (tools/findEntryPoints.ts) *)
(* ===================================================================== *)

Module EntryPoints.

Inductive FileType := entry | hub | aggregator | util | leaf.

Record Classification := mkClassification {
  cls_type : FileType;
  cls_reason : string
}.

Record EntryPoint := mkEntryPoint {
  ep_file : string;
  ep_inDegree : nat;
  ep_outDegree : nat;
  ep_type : FileType;
  ep_reason : option string
}.

Definition threshold : Q := 12 # 10.

(** [degree > avg * threshold] *)
Definition isHigh (degree : nat) (avg : Q) : bool :=
  Qlt_bool (avg * threshold) (natQ degree).

Definition classifyFile (inDegree outDegree : nat) (avgInDegree avgOutDegree : Q)
  : Classification :=
  let highInDegree := isHigh inDegree avgInDegree in
  let highOutDegree := isHigh outDegree avgOutDegree in
  if highInDegree && negb highOutDegree then
    mkClassification entry
      ("Imported by " +++ Js.showNat inDegree +++ " files but only imports "
         +++ Js.showNat outDegree +++ " - likely an entry point or core utility")
  else if highInDegree && highOutDegree then
    mkClassification hub
      ("Central connector: imported by " +++ Js.showNat inDegree
         +++ " files and imports " +++ Js.showNat outDegree +++ " files")
  else if negb highInDegree && highOutDegree then
    mkClassification aggregator
      ("Aggregates many dependencies: imports " +++ Js.showNat outDegree
         +++ " files but only imported by " +++ Js.showNat inDegree)
  else if (0 <? inDegree) || (0 <? outDegree) then
    mkClassification util "Regular file with moderate connectivity"
  else
    mkClassification leaf "Isolated file with no connections".

(** The two totals of the first loop over the nodes. *)
Definition totalInDegree (g : Graph) (nodeList : list Node) : nat :=
  fold_left (fun total node => total + getInDegree g (node_filePath node)) nodeList 0.

Definition totalOutDegree (g : Graph) (nodeList : list Node) : nat :=
  fold_left (fun total node => total + getOutDegree g (node_filePath node)) nodeList 0.

Definition entryOf (g : Graph) (avgInDegree avgOutDegree : Q) (node : Node) : EntryPoint :=
  let inDegree := getInDegree g (node_filePath node) in
  let outDegree := getOutDegree g (node_filePath node) in
  let c := classifyFile inDegree outDegree avgInDegree avgOutDegree in
  mkEntryPoint (node_filePath node) inDegree outDegree (cls_type c) (Some (cls_reason c)).

(** [findEntryPoints({ graph })]; the console output is not modelled. *)
Definition findEntryPoints (g : Graph) : list EntryPoint :=
  let nodeList := getAllNodes g in
  if List.length nodeList =? 0 then []
  else
    let avgInDegree := (natQ (totalInDegree g nodeList) / natQ (List.length nodeList))%Q in
    let avgOutDegree := (natQ (totalOutDegree g nodeList) / natQ (List.length nodeList))%Q in
    sortStable (descendingBy (fun ep => natQ (ep_inDegree ep)))
               (map (entryOf g avgInDegree avgOutDegree) nodeList).

End EntryPoints.

(* ===================================================================== *)
(** ** Clustering by directory (src/graph/clustering.ts) *)
(* ===================================================================== *)

Module DirectoryClustering.

(** [path.sep] *)
Definition sep : string := "/".

(** The own entries of [nameMap]. *)
Definition nameMap : JsMap.t string :=
  [("src", "Source"); ("lib", "Library"); ("api", "API");
   ("components", "Components"); ("utils", "Utilities"); ("helpers", "Helpers");
   ("services", "Services"); ("models", "Models"); ("types", "Types");
   ("interfaces", "Interfaces"); ("controllers", "Controllers"); ("routes", "Routes");
   ("middleware", "Middleware"); ("config", "Configuration"); ("tests", "Tests");
   ("test", "Tests"); ("__tests__", "Tests"); ("auth", "Authentication");
   ("db", "Database"); ("data", "Data Layer")].

(** The names of the members every object literal inherits from
    [Object.prototype]: [nameMap[k]] is a truthy value for these keys too,
    a function or an object, not a string. *)
Definition inheritedMembers : list string :=
  ["constructor"; "__defineGetter__"; "__defineSetter__"; "hasOwnProperty";
   "__lookupGetter__"; "__lookupSetter__"; "isPrototypeOf"; "propertyIsEnumerable";
   "toString"; "valueOf"; "__proto__"; "toLocaleString"].

(** What [generateClusterName] returns: a string, or the inherited member
    of the given name. *)
Inductive ClusterName :=
| NameText (s : string)
| NameInherited (member : string).

(** [s.charAt(0).toUpperCase() + s.slice(1)] *)
Definition capitalize (s : string) : string :=
  match s with
  | EmptyString => EmptyString
  | String c rest => String (Js.upper_ascii c) rest
  end.

Definition generateClusterName (clusterId : string) : ClusterName :=
  if String.eqb clusterId "" || String.eqb clusterId "root" then NameText "Root"
  else
    let parts := Js.split clusterId "/" in
    let lastPart := last parts "" in
    match JsMap.get nameMap lastPart with
    | Some name => NameText name
    | None =>
      if existsb (String.eqb lastPart) inheritedMembers then NameInherited lastPart
      else NameText (capitalize lastPart)
    end.

(** A cluster as [clusterByDirectory] builds it. *)
Record DirCluster := mkDirCluster {
  dc_clusterId : string;
  dc_name : ClusterName;
  dc_files : list string;
  dc_cohesion : Q;
  dc_description : string
}.

(** [parts.slice(0, Math.min(maxDepth, parts.length - 1))] for a
    non-negative whole [maxDepth]. *)
Definition clusterParts (maxDepth : nat) (parts : list string) : list string :=
  Js.take (Nat.min maxDepth (List.length parts - 1)) parts.

Definition clusterIdOf (h : Host) (repoRoot : string) (maxDepth : nat) (filePath : string)
  : string :=
  let relativePath := Path.relative h repoRoot filePath in
  let parts := Js.split relativePath sep in
  let cp := clusterParts maxDepth parts in
  if 0 <? List.length cp then Js.join cp "/" else "root".

(** The first loop: the map from cluster id to files. *)
Definition clusterMapOf (h : Host) (repoRoot : string) (maxDepth : nat)
           (nodeList : list Node) : JsMap.t (list string) :=
  fold_left (fun clusterMap node =>
               pushAt clusterMap (clusterIdOf h repoRoot maxDepth (node_filePath node))
                      (node_filePath node))
            nodeList JsMap.empty.

(** The body of the second loop. *)
Definition clusterOfEntry (g : Graph) (entry : string * list string) : list DirCluster :=
  let '(clusterId, files) := entry in
  if List.length files =? 0 then []
  else
    [mkDirCluster clusterId (generateClusterName clusterId) files
                  (Clustering.calculateCohesion g files)
                  (Js.showNat (List.length files) +++ " files in "
                     +++ (if String.eqb clusterId "" then "root directory" else clusterId))].

Definition clusterByDirectory (h : Host) (g : Graph) (repoRoot : string) (maxDepth : nat)
  : list DirCluster :=
  let clusterMap := clusterMapOf h repoRoot maxDepth (getAllNodes g) in
  sortStable (descendingBy (fun c => natQ (List.length (dc_files c))))
             (flat_map (clusterOfEntry g) clusterMap).

Definition defaultMaxDepth : nat := 2.

(** A cluster object whose name is a string, as a [Cluster]. *)
Definition asCluster (c : DirCluster) : option Cluster :=
  match dc_name c with
  | NameText name =>
    Some (mkCluster (dc_clusterId c) name (dc_files c) (Some (dc_description c))
                    (Some (dc_cohesion c)) None)
  | NameInherited _ => None
  end.

Fixpoint asClusters (cs : list DirCluster) : option (list Cluster) :=
  match cs with
  | [] => Some []
  | c :: rest =>
    match asCluster c, asClusters rest with
    | Some c', Some rest' => Some (c' :: rest')
    | _, _ => None
    end
  end.

Record DetectClustersInput := mkClustersInput {
  dci_graph : Graph;
  dci_repoRoot : option string
}.

(** [mergeSmallClusters] (graph/clustering.ts) on the cluster objects
    that [clusterByDirectory] hands to it, whose name need not be a
    string. On objects whose names are strings it is
    [Clustering.mergeSmallClusters]. *)
Definition otherCluster (smallFiles : list string) : DirCluster :=
  mkDirCluster "other" (NameText "Other") smallFiles 0%Q
               (Js.showNat (List.length smallFiles) +++ " miscellaneous files").

Definition mergeStep (minSize : nat) (st : list DirCluster * list string) (c : DirCluster)
  : list DirCluster * list string :=
  if minSize <=? List.length (dc_files c)
  then (fst st ++ [c], snd st)
  else (fst st, snd st ++ dc_files c).

Definition mergeSmallClusters (clusters : list DirCluster) (minSize : nat)
  : list DirCluster :=
  let '(largeClusters, smallFiles) := fold_left (mergeStep minSize) clusters ([], []) in
  if 0 <? List.length smallFiles
  then largeClusters ++ [otherCluster smallFiles]
  else largeClusters.

(** [detectClusters(input)] (tools/detectClusters.ts); the console
    output is not modelled. *)
Definition detectClusters (h : Host) (input : DetectClustersInput)
  : Detect.Outcome (list DirCluster) :=
  match dci_repoRoot input with
  | None => Detect.Thrown "repoRoot is required for clustering"
  | Some root =>
    if String.eqb root "" then Detect.Thrown "repoRoot is required for clustering"
    else
      Detect.Returned
        (mergeSmallClusters (clusterByDirectory h (dci_graph input) root 2) 3)
  end.

End DirectoryClustering.

(* ===================================================================== *)
(** ** PureScript parser (src/parsers/purescript.ts) *)
(* ===================================================================== *)

Module PursParser.

Import Regex.

(** The characters of a module name: word characters, the dot and the
    single quote. *)
Definition is_moduleChar (c : ascii) : bool :=
  is_word c || Ascii.eqb c "."%char || Ascii.eqb c "039"%char.
Definition moduleChar : regex := Cls is_moduleChar.

(** Any character but the closing parenthesis. *)
Definition notCloseParen : regex := Cls (fun c => negb (Ascii.eqb c ")"%char)).

(** The first character of an identifier (a letter or the underscore)
    and its further characters (word characters and the single quote). *)
Definition is_identStart (c : ascii) : bool :=
  let n := nat_of_ascii c in
  ((97 <=? n) && (n <=? 122)) || ((65 <=? n) && (n <=? 90)) || (n =? 95).
Definition is_identChar (c : ascii) : bool := is_word c || Ascii.eqb c "039"%char.

(** The import line: optional blanks, [import], blanks, the module
    name (group 1), optionally blanks, [as], blanks and an alias (group
    2), optionally blanks and a parenthesised list (group 3) whose
    inside, up to the first closing parenthesis, is group 4. *)
Definition reImport : regex :=
  TsParser.seqs
    [Bol; Star space; Lit "import"; Plus space; Group 1 (Plus moduleChar);
     Opt (Group 2 (TsParser.seqs [Plus space; Lit "as"; Plus space; Plus moduleChar]));
     Opt (Group 3 (TsParser.seqs [Plus space; Chr "("; Group 4 (Star notCloseParen);
                                  Chr ")"]))].

(** The module header, without its anchor: [module], blanks, the
    module name, optional blanks and a parenthesised list whose inside, up
    to the first closing parenthesis, is group 1. *)
Definition reHeader : regex :=
  TsParser.seqs [Lit "module"; Plus space; Plus moduleChar; Star space; Chr "(";
                 Group 1 (Star notCloseParen); Chr ")"].

(** A type signature: at the start of the line an identifier (group
    1), optional blanks and a double colon. *)
Definition reTypeSig : regex :=
  TsParser.seqs [Bol; Group 1 (Seq (Cls is_identStart) (Star (Cls is_identChar)));
                 Star space; Lit "::"].

(** A value binding: at the start of the line an identifier (group 1),
    optional blanks and an equals sign. *)
Definition reValue : regex :=
  TsParser.seqs [Bol; Group 1 (Seq (Cls is_identStart) (Star (Cls is_identChar)));
                 Star space; Chr "="].

Definition is_lineTerminator (c : ascii) : bool :=
  Ascii.eqb c "010"%char || Ascii.eqb c "013"%char.

(** [str.match(/^r/m)] for an [r] without anchors: the leftmost match
    that starts at the start of a line. *)
Fixpoint matchAtLineStart (r : regex) (atStart : bool) (s : list ascii) {struct s}
  : option captures :=
  match (if atStart
         then rmatch (Group 0 r) 0 s [] (fun _ _ caps => Some caps)
         else None) with
  | Some caps => Some caps
  | None =>
    match s with
    | [] => None
    | c :: s' => matchAtLineStart r (is_lineTerminator c) s'
    end
  end.

Definition execMultiline (r : regex) (str : string) : option captures :=
  matchAtLineStart r true (list_ascii_of_string str).

(** [m[i] ? m[i].split(',').map(s => s.trim()).filter(Boolean) : []] *)
Definition namesOfGroup (m : captures) (i : nat) : list string :=
  match capture m i with
  | Some s => if String.eqb s "" then [] else TsParser.commaNames s
  | None => []
  end.

(** [lines.forEach((line, idx) => ...)] where the body pushes what [f]
    returns. *)
Definition forEachLine {A} (f : nat -> string -> list A) (content : string) : list A :=
  flat_map (fun pushed => pushed)
           (TsParser.mapi_from f 0 (Js.split content (String "010"%char ""))).

Definition importOfLine (re : regex) (source names : nat) (filePath : string)
           (idx : nat) (line : string) : list ImportDeclaration :=
  match exec re line with
  | Some m =>
    [mkImport (normalizeImportPath (TsParser.group m source) filePath)
              (namesOfGroup m names) None None (Some (idx + 1))]
  | None => []
  end.

Definition extractImports (content filePath : string) : list ImportDeclaration :=
  forEachLine (importOfLine reImport 1 4 filePath) content.

Definition extractExports (content : string) : list string :=
  match execMultiline reHeader content with
  | Some m => namesOfGroup m 1
  | None => []
  end.

Definition definitionOfLine (idx : nat) (line : string) : list Definition_ :=
  match exec reTypeSig line with
  | Some m => [mkDefinition (TsParser.group m 1) KFunction (idx + 1) None]
  | None =>
    match exec reValue line with
    | Some m => [mkDefinition (TsParser.group m 1) KVariable (idx + 1) None]
    | None => []
    end
  end.

Definition extractDefinitions (content : string) : list Definition_ :=
  forEachLine definitionOfLine content.

(** [parse(filePath)]; [None] is the rejected promise of a failed read. *)
Definition parse (ph : ParserHost) (filePath : string) : option ParsedFile :=
  match readFile ph filePath with
  | None => None
  | Some content =>
    Some (mkParsedFile filePath purescript
            (extractImports content filePath)
            (extractExports content)
            (extractDefinitions content))
  end.

End PursParser.

(* ===================================================================== *)
(** ** Haskell parser (src/parsers/haskell.ts) *)
(* ===================================================================== *)

(** What the Haskell parser needs beyond the files: the size [stat]
    reports ([None]: it fails) and tree-sitter with the Haskell grammar
    ([None]: it throws). *)
Record HaskellHost := mkHaskellHost {
  hh_files : ParserHost;
  hh_stat : string -> option N;
  hh_parse : string -> option SyntaxNode
}.

Module HsParser.

Import Regex.

(** The text of an import node: [import], blanks, optionally
    [qualified] and blanks (group 1), the module name (group 2),
    optionally blanks, [as], blanks and an alias (groups 3 and 4),
    optional blanks, and optionally a parenthesised list (group 5) whose
    inside, up to the first closing parenthesis, is group 6. *)
Definition reImportNode : regex :=
  TsParser.seqs
    [Bol; Lit "import"; Plus space;
     Opt (Group 1 (TsParser.seqs [Lit "qualified"; Plus space]));
     Group 2 (Plus PursParser.moduleChar);
     Opt (Group 3 (TsParser.seqs [Plus space; Lit "as"; Plus space;
                                  Group 4 (Plus PursParser.moduleChar)]));
     Star space;
     Opt (Group 5 (TsParser.seqs [Chr "("; Group 6 (Star PursParser.notCloseParen);
                                  Chr ")"]))].

(** The import line of the fallback: optional blanks, [import],
    blanks, optionally [qualified] and blanks (group 1), the module name
    (group 2), and optionally optional blanks and a parenthesised list
    (group 3) whose inside, up to the first closing parenthesis, is group
    4. *)
Definition reImportLine : regex :=
  TsParser.seqs
    [Bol; Star space; Lit "import"; Plus space;
     Opt (Group 1 (TsParser.seqs [Lit "qualified"; Plus space]));
     Group 2 (Plus PursParser.moduleChar);
     Opt (Group 3 (TsParser.seqs [Star space; Chr "(";
                                  Group 4 (Star PursParser.notCloseParen); Chr ")"]))].

(** Blanks, [as], blanks and the rest of the line. *)
Definition reAsClause : regex :=
  TsParser.seqs [Plus space; Lit "as"; Plus space; Star anyChar].

(** [s.replace(re, '')] for a regular expression without the [g] flag:
    the leftmost match is cut out. *)
Fixpoint removeFirst (r : regex) (pos : nat) (before : list ascii) (s : list ascii)
         {struct s} : list ascii :=
  match rmatch (Group 0 r) pos s [] (fun _ rest _ => Some rest) with
  | Some rest => before ++ rest
  | None =>
    match s with
    | [] => before
    | c :: s' => removeFirst r (S pos) (before ++ [c]) s'
    end
  end.

Definition replaceFirst (r : regex) (str : string) : string :=
  string_of_list_ascii (removeFirst r 0 [] (list_ascii_of_string str)).

(** The import a node of type [import] stands for. *)
Definition importOfNode (filePath : string) (node : SyntaxNode) : list ImportDeclaration :=
  if String.eqb (Ts.type node) "import"
  then match exec reImportNode (Ts.text node) with
       | Some m =>
         [mkImport (normalizeImportPath (TsParser.group m 2) filePath)
                   (PursParser.namesOfGroup m 6) None None (Some (Ts.row node + 1))]
       | None => []
       end
  else [].

(** [traverse] of [extractImports]: the node, then its children in
    order; [results] is the array the closure pushes to. *)
Fixpoint traverseImports (filePath : string) (node : SyntaxNode)
         (results : list ImportDeclaration) {struct node} : list ImportDeclaration :=
  let 'SNode _ _ _ _ _ cs := node in
  (fix children (l : list SyntaxNode) (results : list ImportDeclaration)
     : list ImportDeclaration :=
     match l with
     | [] => results
     | c :: l' => children l' (traverseImports filePath c results)
     end) cs (results ++ importOfNode filePath node).

Definition extractImports (root : SyntaxNode) (filePath : string) : list ImportDeclaration :=
  traverseImports filePath root [].

(** The export list of the module header. *)
Definition extractExports (root : SyntaxNode) (content : string) : list string :=
  match PursParser.execMultiline PursParser.reHeader content with
  | Some m =>
    match capture m 1 with
    | Some s =>
      if String.eqb s "" then []
      else Js.filterTruthy
             (map (fun piece => Js.trim (replaceFirst reAsClause piece)) (Js.split s ","))
    | None => []
    end
  | None => []
  end.

(** [a?.text || b?.text] *)
Definition textOr (a b : option SyntaxNode) : option string :=
  match a with
  | Some n => if String.eqb (Ts.text n) "" then option_map Ts.text b else Some (Ts.text n)
  | None => option_map Ts.text b
  end.

Definition isBinding (node : SyntaxNode) : bool :=
  String.eqb (Ts.type node) "function"
  || String.eqb (Ts.type node) "value_declaration"
  || String.eqb (Ts.type node) "pattern".

(** The state of the closure of [extractDefinitions]: the set [seen]
    and the array [defs]. *)
Definition DefState : Type := (list string * list Definition_)%type.

Definition visitBinding (node : SyntaxNode) (st : DefState) : DefState :=
  if isBinding node
  then match textOr (Ts.childForFieldName node "name") (Ts.child node 0) with
       | Some name =>
         if negb (String.eqb name "") && negb (Detect.setHas (fst st) name)
         then (Detect.setAdd (fst st) name,
               snd st ++ [mkDefinition name KFunction (Ts.row node + 1) None])
         else st
       | None => st
       end
  else st.

Fixpoint traverseDefinitions (node : SyntaxNode) (st : DefState) {struct node} : DefState :=
  let 'SNode _ _ _ _ _ cs := node in
  (fix children (l : list SyntaxNode) (st : DefState) : DefState :=
     match l with
     | [] => st
     | c :: l' => children l' (traverseDefinitions c st)
     end) cs (visitBinding node st).

Definition extractDefinitions (root : SyntaxNode) : list Definition_ :=
  snd (traverseDefinitions root ([], [])).

(** [extractFallback]: the line scan and the module header. *)
Definition extractFallback (content filePath : string) : TsParser.Extracted :=
  TsParser.mkExtracted
    (PursParser.forEachLine (PursParser.importOfLine reImportLine 2 4 filePath) content)
    (match PursParser.execMultiline PursParser.reHeader content with
     | Some m => PursParser.namesOfGroup m 1
     | None => []
     end)
    (PursParser.forEachLine PursParser.definitionOfLine content).

Definition largeFileBytes : N := 200000%N.

(** [parse(filePath)]; [None] is the rejected promise of a failed
    [stat] or read. *)
Definition parse (h : HaskellHost) (filePath : string) : option ParsedFile :=
  match hh_stat h filePath with
  | None => None
  | Some size =>
    match readFile (hh_files h) filePath with
    | None => None
    | Some content =>
      let isLarge := (largeFileBytes <? size)%N in
      let found :=
        if negb isLarge
        then match hh_parse h content with
             | Some root =>
               TsParser.mkExtracted (extractImports root filePath)
                                    (extractExports root content)
                                    (extractDefinitions root)
             | None => extractFallback content filePath
             end
        else extractFallback content filePath in
      let imports :=
        if List.length (TsParser.ex_imports found) =? 0
        then TsParser.ex_imports (extractFallback content filePath)
        else TsParser.ex_imports found in
      Some (mkParsedFile filePath haskell imports (TsParser.ex_exports found)
                         (TsParser.ex_definitions found))
    end
  end.

End HsParser.

(* ===================================================================== *)
(** ** The parser registry and the parseFile tool
       (src/parsers/index.ts, src/tools/parseFile.ts) *)
(* ===================================================================== *)

Module ParseFile.

(** [getParser(language)]: the [parse] method of the parser chosen. *)
Definition getParser (h : HaskellHost) (language : Language)
  : string -> option ParsedFile :=
  match language with
  | typescript | javascript => TsParser.parse (hh_files h)
  | haskell => HsParser.parse h
  | purescript => PursParser.parse (hh_files h)
  end.

(** [parseFile(input)]; [None] is a rejected promise: the language is
    unknown or the parser failed. *)
Definition parseFile (h : HaskellHost) (filePath : string) : option ParsedFile :=
  match FileSystem.detectLanguage filePath with
  | None => None
  | Some language => getParser h language filePath
  end.

(** [parseFiles(filePaths)]: the failed parses are dropped. *)
Definition parseFiles (h : HaskellHost) (filePaths : list string) : list ParsedFile :=
  flat_map (fun filePath =>
              match parseFile h filePath with
              | Some r => [r]
              | None => []
              end) filePaths.

End ParseFile.

(* ===================================================================== *)
(** ** Walking a directory and the scanRepo tool
       (src/utils/fileSystem.ts, src/tools/scanRepo.ts) *)
(* ===================================================================== *)

Module ScanRepo.

(** What an entry of [readdir] with file types is. *)
Inductive Dirent (D : Type) :=
| IsFile
| IsDirectory (directory : D)
| IsOther.                        (* neither isDirectory() nor isFile() *)
Arguments IsFile {D}.
Arguments IsDirectory {D} directory.
Arguments IsOther {D}.

(** A directory of the file system as [readdir] shows it: the read
    fails, or it lists named entries. *)
Inductive Directory :=
| Unreadable
| Entries (entries : list (string * Dirent Directory)).

(** [walkDirectory(dirPath, excludeDirs, baseDir)], where [directory]
    is what the file system holds at [dirPath]. A failed read is caught
    and leaves the list empty. *)
Fixpoint walkDirectory (h : Host) (directory : Directory) (dirPath : string)
         (excludeDirs : list string) (baseDir : string) {struct directory} : list string :=
  match directory with
  | Unreadable => []
  | Entries entries =>
    (fix loop (es : list (string * Dirent Directory)) : list string :=
       match es with
       | [] => []
       | (name, kind) :: es' =>
         let fullPath := Path.join [dirPath; name] in
         match kind with
         | IsDirectory sub =>
           if FileSystem.shouldExcludeDir name excludeDirs then []
           else walkDirectory h sub fullPath excludeDirs baseDir
         | IsFile => [Path.relative h baseDir fullPath]
         | IsOther => []
         end ++ loop es'
       end) entries
  end.

(** The environment of [scanRepo]: the working directory, the
    directory found at an absolute path ([None]: the path does not exist
    or is no directory) and the contents of files. *)
Record ScanHost := mkScanHost {
  sh_host : Host;
  sh_directory : string -> option Directory;
  sh_readFile : string -> option string
}.

(** [isDirectory(path)] *)
Definition isDirectory (sh : ScanHost) (path : string) : bool :=
  match sh_directory sh path with Some _ => true | None => false end.

(** What [readdir] shows at a path; the read of a path that is no
    directory fails. *)
Definition readdir (sh : ScanHost) (path : string) : Directory :=
  match sh_directory sh path with Some directory => directory | None => Unreadable end.

Record ScanRepoInput := mkScanRepoInput {
  sri_repoPath : string;
  sri_excludeDirs : option (list string)
}.

Record ScanStats := mkScanStats {
  totalFiles : nat;
  totalLoc : nat;
  byLanguage : JsMap.t nat
}.

Record ScanResult := mkScanResult {
  sr_files : list string;
  sr_languages : list Language;
  sr_stats : ScanStats
}.

(** The string a [Language] is. *)
Definition languageName (language : Language) : string :=
  match language with
  | typescript => "typescript"
  | javascript => "javascript"
  | haskell => "haskell"
  | purescript => "purescript"
  end.

(** [languageSet.add(language)] *)
Definition addLanguage (languageSet : list Language) (language : Language) : list Language :=
  if existsb (fun l => String.eqb (languageName l) (languageName language)) languageSet
  then languageSet
  else languageSet ++ [language].

(** The body of the loop over the files: the state is the pair
    [(languageSet, languageCounts)]. *)
Definition countLanguage (st : list Language * JsMap.t nat) (file : string)
  : list Language * JsMap.t nat :=
  match FileSystem.detectLanguage file with
  | Some language =>
    (addLanguage (fst st) language,
     JsMap.set (snd st) (languageName language)
               (match JsMap.get (snd st) (languageName language) with
                | Some n => n
                | None => 0
                end + 1))
  | None => st
  end.

Definition maxFilesToCount : nat := 1000.

(** [Math.round(x)] for [0 <= x] *)
Definition round (x : Q) : nat := Z.to_nat (Qfloor (x + (1 # 2))).

(** [locResults.reduce((sum, loc) => sum + loc, 0)] *)
Definition sumLoc (locResults : list nat) : nat :=
  fold_left (fun sum loc => sum + loc) locResults 0.

Definition scanRepo (sh : ScanHost) (input : ScanRepoInput) : Detect.Outcome ScanResult :=
  let excludeDirs :=
    match sri_excludeDirs input with
    | Some dirs => dirs
    | None => FileSystem.DEFAULT_EXCLUDE_DIRS
    end in
  let absolutePath := Path.resolve (sh_host sh) [sri_repoPath input] in
  if negb (isDirectory sh absolutePath)
  then Detect.Thrown ("Path does not exist or is not a directory: " +++ sri_repoPath input)
  else
    let relativeFiles :=
      walkDirectory (sh_host sh) (readdir sh absolutePath) absolutePath excludeDirs
                    absolutePath in
    let files := map (fun f => Path.join [absolutePath; f]) relativeFiles in
    let counted := fold_left countLanguage files ([], JsMap.empty) in
    let filesToCount := Js.take maxFilesToCount files in
    let locResults := map (FileSystem.countLinesOfCode (sh_readFile sh)) filesToCount in
    let sampled := sumLoc locResults in
    let estimated :=
      if maxFilesToCount <? List.length files
      then round (natQ sampled / natQ maxFilesToCount * natQ (List.length files))
      else sampled in
    Detect.Returned
      (mkScanResult relativeFiles (fst counted)
                    (mkScanStats (List.length files) estimated (snd counted))).

End ScanRepo.

(* ===================================================================== *)
(** ** Specification-side definitions and sample inputs *)
(* ===================================================================== *)

(** The two sides of the size test of [mergeSmallClusters]. *)
Definition isLarge (minSize : nat) (c : Cluster) : bool :=
  minSize <=? List.length (cl_files c).
Definition isSmall (minSize : nat) (c : Cluster) : bool := negb (isLarge minSize c).

Definition sampleClusters : list Cluster :=
  [mkCluster "src/api" "API" ["a"; "b"; "c"] (Some "3 files in src/api") (Some (1 # 6)) None;
   mkCluster "src/db" "Database" ["d"] (Some "1 files in src/db") (Some 1%Q) None;
   mkCluster "root" "Root" ["e"; "f"] (Some "2 files in root") (Some 0%Q) None].

(** The number of internal edges as the specification words it: the
    edges whose source and target both belong to the cluster. *)
Definition specInternalEdges (g : Graph) (files : list string) : nat :=
  List.length
    (filter (fun e => if in_dec string_dec (edge_source e) files
                      then if in_dec string_dec (edge_target e) files then true else false
                      else false)
            (edges g)).

Definition cohesionGraph : Graph :=
  mkGraph [("a", mkNode "a" "a" typescript None); ("b", mkNode "b" "b" typescript None);
           ("c", mkNode "c" "c" typescript None)]
          [mkEdge "a" "b" None; mkEdge "b" "c" None]
          [("a", ["b"]); ("b", ["c"])]
          [("b", ["a"]); ("c", ["b"])].

(** Every importer listed in the reverse adjacency map is a registered
    node. *)
Definition importersRegistered (g : Graph) : Prop :=
  forall n m, In m (getImporters g n) -> In m (JsMap.keys (nodes g)).

(** A decidable check that implies it. *)
Definition importersRegisteredb (g : Graph) : bool :=
  forallb (fun entry : string * list string =>
             forallb (fun m => existsb (String.eqb m) (JsMap.keys (nodes g))) (snd entry))
          (reverseAdjacencyList g).



(** The (source, target) pair of an edge. *)
Definition endpoints (e : Edge) : string * string := (edge_source e, edge_target e).

(** Well-formedness of a graph: no dangling edge, no repeated
    (source, target) pair. *)
Definition noDanglingEdges (g : Graph) : Prop :=
  forall e, In e (edges g) ->
    In (edge_source e) (JsMap.keys (nodes g)) /\ In (edge_target e) (JsMap.keys (nodes g)).

Definition noDuplicateEdges (g : Graph) : Prop := NoDup (map endpoints (edges g)).

(** The adjacency maps hold exactly the edges. *)
Definition adjacencyConsistent (g : Graph) : Prop :=
  forall s t,
    (In t (getImports g s) <-> In (s, t) (map endpoints (edges g)))
    /\ (In s (getImporters g t) <-> In (s, t) (map endpoints (edges g))).

Definition wellFormed (g : Graph) : Prop :=
  noDanglingEdges g /\ noDuplicateEdges g /\ adjacencyConsistent g.

Definition sampleParsed (path : string) (sources : list string) : ParsedFile :=
  mkParsedFile path typescript
    (map (fun s => mkImport s [] None None (Some 1)) sources) [] [].

Definition sampleHost : Host := mkHost "/home/user" (fun _ => false).

(** A builder holding the two fixture files [src/simple.ts] and
    [src/helper.ts] of a repository rooted at [/repo]. *)
Definition fixtureFiles : list ParsedFile :=
  [sampleParsed "/repo/src/simple.ts" ["./helper"];
   sampleParsed "/repo/src/helper.ts" []].

Definition fixtureBuilder : GraphBuilder :=
  fold_left (addNode sampleHost) fixtureFiles (newGraphBuilder sampleHost (Some "/repo")).

(** Relative resolution as the specification words it: strip a trailing
    [.js], resolve against the importing file's directory, then take the
    first candidate found in the index among the resolved path, the
    resolved path plus each extension, and the index file with each
    extension inside the resolved directory; failing that, the first
    path the filesystem check finds. *)
Definition specIndexCandidates (resolved : string) : list string :=
  [resolved]
  ++ map (fun ext => resolved +++ ext) extensions
  ++ map (fun ext => Path.join [resolved; "index" +++ ext]) extensions.

(** The paths the filesystem check of the code looks at: the resolved
    path plus each extension, then [index.ts] alone. *)
Definition filesystemCandidates (resolved : string) : list string :=
  map (fun ext => resolved +++ ext) extensions ++ [Path.join [resolved; "index.ts"]].

Definition specResolveRelative (h : Host) (b : GraphBuilder) (importPath fromFile : string)
  : option string :=
  let stripped :=
    if Js.endsWith importPath ".js" then Js.dropRight importPath 3 else importPath in
  let resolved := Path.resolve h [Path.dirname fromFile; stripped] in
  match firstHit (filePathMap b) (specIndexCandidates resolved) with
  | Some file => Some file
  | None => firstExisting h (filesystemCandidates resolved)
  end.

(** A repository rooted at [/repo/pkg] that also registers a file of a
    sibling directory outside the root. *)
Definition outsideRootBuilder : GraphBuilder :=
  fold_left (addNode sampleHost)
            [sampleParsed "/repo/pkg/src/deep/a.ts" ["../shared/util"];
             sampleParsed "/repo/shared/util.ts" []]
            (newGraphBuilder sampleHost (Some "/repo/pkg")).

Definition newline : string := String "010"%char EmptyString.

Fixpoint unlines (ls : list string) : string :=
  match ls with
  | [] => ""
  | [l] => l
  | l :: rest => l +++ newline +++ unlines rest
  end.

(** The fixture [tests/fixtures/typescript/simple.ts]. *)
Definition simpleTsContent : string :=
  unlines ["import path from 'path';";
           "import { helper } from './helper';";
           "";
           "export const value = 42;";
           "";
           "export default function greet(name: string) {";
           "  return `Hello ${name} ${path.basename(helper)}`;";
           "}";
           ""].

Definition leaf (type text : string) (named : bool) (field : option string) (row : nat)
  : SyntaxNode := SNode type text named field row [].

(** The syntax tree of the fixture, reduced to the nodes the extractors
    read. *)
Definition simpleTsTree : SyntaxNode :=
  SNode "program" simpleTsContent true None 0
    [SNode "import_statement" "import path from 'path';" true None 0
       [leaf "import" "import" false None 0;
        SNode "import_clause" "path" true None 0
          [leaf "identifier" "path" true None 0];
        leaf "from" "from" false None 0;
        leaf "string" "'path'" true (Some "source") 0;
        leaf ";" ";" false None 0];
     SNode "import_statement" "import { helper } from './helper';" true None 1
       [leaf "import" "import" false None 1;
        SNode "import_clause" "{ helper }" true None 1
          [SNode "named_imports" "{ helper }" true None 1
             [leaf "{" "{" false None 1;
              SNode "import_specifier" "helper" true None 1
                [leaf "identifier" "helper" true (Some "name") 1];
              leaf "}" "}" false None 1]];
        leaf "from" "from" false None 1;
        leaf "string" "'./helper'" true (Some "source") 1;
        leaf ";" ";" false None 1];
     SNode "export_statement" "export const value = 42;" true None 3
       [leaf "export" "export" false None 3;
        SNode "lexical_declaration" "const value = 42;" true (Some "declaration") 3
          [leaf "const" "const" false (Some "kind") 3;
           SNode "variable_declarator" "value = 42" true None 3
             [leaf "identifier" "value" true (Some "name") 3;
              leaf "=" "=" false None 3;
              leaf "number" "42" true (Some "value") 3];
           leaf ";" ";" false None 3]];
     SNode "export_statement"
           "export default function greet(name: string) { }" true None 5
       [leaf "export" "export" false None 5;
        leaf "default" "default" false None 5;
        SNode "function_declaration" "function greet(name: string) { }" true
              (Some "declaration") 5
          [leaf "function" "function" false None 5;
           leaf "identifier" "greet" true (Some "name") 5;
           leaf "formal_parameters" "(name: string)" true (Some "parameters") 5;
           leaf "statement_block" "{ }" true (Some "body") 5]]].

Definition simpleTsHost : ParserHost :=
  mkParserHost (fun _ => Some simpleTsContent) (fun _ _ => Some simpleTsTree).

(** A CommonJS module that assigns the same export on two lines. *)
Definition repeatedExportContent : string :=
  unlines ["exports.read = function () { return 1; };";
           "exports.read = function () { return 2; };"].

(** What the parser returns for the fixture. *)
Definition simpleTsParsed : ParsedFile :=
  mkParsedFile "/repo/src/simple.ts" typescript
    [mkImport "./helper" ["helper"] (Some false) (Some false) (Some 2)]
    ["greet"; "default"]
    [mkDefinition "greet" KFunction 6 None; mkDefinition "value" KConst 4 None].

(** Descending order of confidence. *)
Definition byConfidenceDesc (p q : Pattern) : Prop := (confidence q <= confidence p)%Q.

(** [!repoRoot]: the root is [undefined] or the empty string. *)
Definition repoRootFalsy (input : Detect.DetectPatternsInput) : Prop :=
  Detect.in_repoRoot input = None \/ Detect.in_repoRoot input = Some "".

Definition emptyRootInput : Detect.DetectPatternsInput :=
  Detect.mkInput cohesionGraph ["/repo/packages/a/index.ts"] (Some "").

Definition monorepoInput : Detect.DetectPatternsInput :=
  Detect.mkInput cohesionGraph
    ["/repo/packages/a/index.ts"; "/repo/apps/web/main.ts"] (Some "/repo").

(** *** Graph notions for the cycle detector *)

(** [t] is in the forward adjacency list of [s]. *)
Definition edgeIn (adj : JsMap.t (list string)) (s t : string) : Prop :=
  In t (getOrEmpty adj s).

(** Consecutive members of the list are joined by edges. *)
Fixpoint chain (adj : JsMap.t (list string)) (p : list string) : Prop :=
  match p with
  | x :: ((y :: _) as rest) => edgeIn adj x y /\ chain adj rest
  | _ => True
  end.

(** A recorded cycle: a walk along edges that starts and ends at the
    same node. *)
Definition closedWalk (adj : JsMap.t (list string)) (c : list string) : Prop :=
  exists v mid, c = v :: mid ++ [v] /\ chain adj c.

(** No node reaches itself along one or more edges. *)
Definition acyclic (adj : JsMap.t (list string)) : Prop :=
  forall n, ~ clos_trans string (edgeIn adj) n n.

(** A 2-cycle as a node sequence: there and back, between two nodes. *)
Definition isTwoCycle (c : list string) : Prop :=
  exists x y, x <> y /\ c = [x; y; x].

(** The members of [U] not yet visited, counted with repetitions. *)
Definition unvisitedCount (U visited : list string) : nat :=
  List.length (filter (fun x => negb (Detect.setHas visited x)) U).

(** A node is finished when it is visited and no longer on the stack. *)
Definition finished (st : Detect.DfsState) (x : string) : bool :=
  Detect.setHas (Detect.visited st) x && negb (Detect.setHas (Detect.stack st) x).

(** The cycles the evidence shows. *)
Definition exampleCycles (cs : list (list string)) : list (list string) :=
  Js.take 3 (Detect.uniqueCycles cs).

Definition plainNode (p : string) : string * Node := (p, mkNode p p typescript None).

(** The graph of the pattern test: a and b import each other, dead is
    isolated. *)
Definition makeCycleGraph : Graph :=
  mkGraph [plainNode "/tmp/repo/a.ts"; plainNode "/tmp/repo/b.ts";
           plainNode "/tmp/repo/dead.ts"]
          [mkEdge "/tmp/repo/a.ts" "/tmp/repo/b.ts" None;
           mkEdge "/tmp/repo/b.ts" "/tmp/repo/a.ts" None]
          [("/tmp/repo/a.ts", ["/tmp/repo/b.ts"]); ("/tmp/repo/b.ts", ["/tmp/repo/a.ts"]);
           ("/tmp/repo/dead.ts", [])]
          [("/tmp/repo/a.ts", ["/tmp/repo/b.ts"]); ("/tmp/repo/b.ts", ["/tmp/repo/a.ts"]);
           ("/tmp/repo/dead.ts", [])].

(** a imports c and b, c imports b, b imports a: the mutual pair a, b
    is first met through c. Built by the graph builder. *)
Definition detourGraph : Graph :=
  graph (runOps sampleHost (Some "/r")
           [OpAddNode (sampleParsed "/r/a.ts" []);
            OpAddNode (sampleParsed "/r/c.ts" []);
            OpAddNode (sampleParsed "/r/b.ts" []);
            OpAddEdge "/r/a.ts" "/r/c.ts" None;
            OpAddEdge "/r/a.ts" "/r/b.ts" None;
            OpAddEdge "/r/c.ts" "/r/b.ts" None;
            OpAddEdge "/r/b.ts" "/r/a.ts" None]).

(** What every call leaves as it found it, and what only grows. *)
Definition extends (st st' : Detect.DfsState) : Prop :=
  Detect.stack st' = Detect.stack st
  /\ (forall x, Detect.setHas (Detect.visited st) x = true ->
                Detect.setHas (Detect.visited st') x = true)
  /\ exists extra, Detect.cycles st' = Detect.cycles st ++ extra.

Definition recExtends
           (rec : string -> list string -> Detect.DfsState -> option Detect.DfsState) : Prop :=
  forall n p s s', rec n p s = Some s' -> Detect.setHas (Detect.stack s) n = false ->
                   extends s s' /\ Detect.setHas (Detect.visited s') n = true.

(** A call with more fuel than there are unvisited members of [U]
    returns. *)
Definition recTotal (U : list string) (fuel : nat)
           (rec : string -> list string -> Detect.DfsState -> option Detect.DfsState) : Prop :=
  forall node path st,
    unvisitedCount U (Detect.visited st) < fuel ->
    In node U ->
    Detect.setHas (Detect.visited st) node = false ->
    exists st', rec node path st = Some st'.

(** Every recorded cycle is a closed walk of the graph. *)
Definition allClosed (adj : JsMap.t (list string)) (st : Detect.DfsState) : Prop :=
  forall c, In c (Detect.cycles st) -> closedWalk adj c.

Definition recSound (adj : JsMap.t (list string))
           (rec : string -> list string -> Detect.DfsState -> option Detect.DfsState) : Prop :=
  forall n p s s', rec n p s = Some s' -> chain adj (p ++ [n]) ->
                   allClosed adj s -> allClosed adj s'.

(** Every node on the stack is on the current path. *)
Definition stackOnPath (st : Detect.DfsState) (path : list string) : Prop :=
  forall x, Detect.setHas (Detect.stack st) x = true -> In x path.

(** Either a cycle has been recorded, or neither node of the pair is
    finished. *)
Definition pairInv (A B : string) (st : Detect.DfsState) : Prop :=
  Detect.cycles st <> [] \/ (finished st A = false /\ finished st B = false).

Definition recPair (A B : string)
           (rec : string -> list string -> Detect.DfsState -> option Detect.DfsState) : Prop :=
  forall n p s s', rec n p s = Some s' ->
                   Detect.setHas (Detect.visited s) n = false ->
                   Detect.setHas (Detect.stack s) n = false ->
                   stackOnPath s p -> pairInv A B s -> pairInv A B s'.

(** The mutual edges between [A] and [B] are the only edges. *)
Definition onlyMutualEdges (adj : JsMap.t (list string)) (A B : string) : Prop :=
  A <> B
  /\ getOrEmpty adj A = [B]
  /\ getOrEmpty adj B = [A]
  /\ forall x, x <> A -> x <> B -> getOrEmpty adj x = [].

(** The state of the search before and after the pair is met. *)
Definition pairUnvisited (A B : string) (st : Detect.DfsState) : Prop :=
  Detect.setHas (Detect.visited st) A = false
  /\ Detect.setHas (Detect.visited st) B = false
  /\ Detect.stack st = [] /\ Detect.cycles st = [].

Definition pairVisited (A B : string) (c : list string) (st : Detect.DfsState) : Prop :=
  Detect.setHas (Detect.visited st) A = true
  /\ Detect.setHas (Detect.visited st) B = true
  /\ Detect.stack st = [] /\ Detect.cycles st = [c].

(** The evidence of a finding whose only cycle is [c]. *)
Definition singleCycleEvidence (c : list string) : list string :=
  let shown := Js.split (Detect.printCycle c) " -> " in
  ["Detected 1 cycles (longest length: " +++ Js.showNat (List.length shown) +++ ")";
   Detect.cycleLine shown].

(** *** Notions for the properties of the whole pipeline *)

(** The (source, target) pairs held by the forward adjacency lists of
    the registered nodes, node by node, and those held by the reverse
    lists. *)
Definition forwardPairs (g : Graph) : list (string * string) :=
  flat_map (fun s => map (fun t => (s, t)) (getImports g s)) (JsMap.keys (nodes g)).

Definition backwardPairs (g : Graph) : list (string * string) :=
  flat_map (fun t => map (fun s => (s, t)) (getImporters g t)) (JsMap.keys (nodes g)).

(** The adjacency lists of the registered nodes hold every stored edge
    exactly once. *)
Definition edgesCounted (g : Graph) : Prop :=
  Permutation (forwardPairs g) (map endpoints (edges g))
  /\ Permutation (backwardPairs g) (map endpoints (edges g)).

(** What every state of a builder satisfies. *)
Definition builderInv (b : GraphBuilder) : Prop :=
  wellFormed (graph b)
  /\ NoDup (JsMap.keys (nodes (graph b)))
  /\ edgesCounted (graph b)
  /\ (forall k v, JsMap.get (filePathMap b) k = Some v -> In v (JsMap.keys (nodes (graph b))))
  /\ (forall k n, JsMap.get (nodes (graph b)) k = Some n -> node_filePath n = k).

(** The builder after one more edge between registered nodes. *)
Definition withEdge (b : GraphBuilder) (s t : string) (i : option (list string))
  : GraphBuilder :=
  mkBuilder (mkGraph (nodes (graph b))
                     (edges (graph b) ++ [mkEdge s t i])
                     (pushAt (adjacencyList (graph b)) s t)
                     (pushAt (reverseAdjacencyList (graph b)) t s))
            (filePathMap b) (repoRoot b).

(** Descending order of score, as [pageRank] returns its entries. *)
Definition byScoreDesc (a b : RankedFile) : Prop := (rf_score b <= rf_score a)%Q.

(** The floor every score stays above: the share of the random jump. *)
Definition scoreFloor (g : Graph) (d : Q) : Q :=
  ((1 - d) / natQ (List.length (JsMap.keys (nodes g))))%Q.

(** Either a cycle has been recorded, or no node of the list [C] is
    finished. *)
Definition cycleInv (C : list string) (st : Detect.DfsState) : Prop :=
  Detect.cycles st <> [] \/ forall X, In X C -> finished st X = false.

Definition recCycle (C : list string)
           (rec : string -> list string -> Detect.DfsState -> option Detect.DfsState) : Prop :=
  forall n p s s', rec n p s = Some s' ->
                   Detect.setHas (Detect.visited s) n = false ->
                   Detect.setHas (Detect.stack s) n = false ->
                   stackOnPath s p -> cycleInv C s -> cycleInv C s'.

(** Every node of [C] has an edge to a node of [C]. *)
Definition selfFeeding (adj : JsMap.t (list string)) (C : list string) : Prop :=
  forall X, In X C -> exists Y, edgeIn adj X Y /\ In Y C.

(** A closed walk of the graph that passes through a registered node. *)
Definition registeredCycle (g : Graph) : Prop :=
  exists c x, closedWalk (adjacencyList g) c /\ In x c /\ In x (JsMap.keys (nodes g)).

(** The names of the eleven patterns, in the order of their detectors. *)
Definition patternNames : list string :=
  ["MVC (Model-View-Controller)"; "Layered Architecture"; "Feature-based Organization";
   "Monorepo"; "Barrel Exports"; "Domain-Driven Design (DDD)"; "Circular Dependencies";
   "Unreferenced Files (Potential Dead Code)"; "Tests Present"; "Config Heavy";
   "Graph Hotspots"].

(** What every finding of a detector named [name] looks like. *)
Definition findingOf (name : string) (p : Pattern) : Prop :=
  pattern p = name
  /\ (0 <= confidence p)%Q /\ (confidence p <= 1)%Q
  /\ evidence p <> [].

Definition detectorOf (name : string) (detector : Detect.PatternDetector) : Prop :=
  forall files root g p, detector files root g = Some p -> findingOf name p.

(** The registered nodes that no file imports. *)
Definition unreferenced (g : Graph) : list string :=
  filter (fun n => getInDegree g n =? 0) (JsMap.keys (nodes g)).

(** Descending order of in-degree, as [findEntryPoints] returns its
    entries. *)
Definition byInDegreeDesc (a b : EntryPoints.EntryPoint) : Prop :=
  EntryPoints.ep_inDegree b <= EntryPoints.ep_inDegree a.

(** The recurrence as the program evaluates it: starting from
    (1-d)/N, the term d * (score(m)/outDegree(m)) is added for one
    importer after the other, in the order of the reverse adjacency
    list, every operation rounded to a double; a score read is replaced
    by 0 when it is falsy. *)
Definition termwiseRound (g : Graph) (d : Double.t) (N : nat) (score : string -> Double.t)
           (n : string) : Double.t :=
  fold_left (fun acc m =>
               if 0 <? getOutDegree g m
               then PrimFloat.add acc
                      (PrimFloat.mul d (PrimFloat.div (Double.orZero (score m))
                                                      (Double.ofNat (getOutDegree g m))))
               else acc)
            (getImporters g n)
            (PrimFloat.div (PrimFloat.sub Double.one d) (Double.ofNat N)).

Fixpoint termwiseScore (g : Graph) (d : Double.t) (N : nat) (rounds : nat) (n : string)
  : Double.t :=
  match rounds with
  | O => PrimFloat.div Double.one (Double.ofNat N)
  | S k => termwiseRound g d N (termwiseScore g d N k) n
  end.

(** The recurrence as the specification words it, evaluated in
    doubles: (1-d)/N + d * (the sum of the shares). *)
Definition statedShare (g : Graph) (score : string -> Double.t) (m : string) : Double.t :=
  if getOutDegree g m =? 0 then Double.zero
  else PrimFloat.div (score m) (Double.ofNat (getOutDegree g m)).

Definition statedRound (g : Graph) (d : Double.t) (N : nat) (score : string -> Double.t)
           (n : string) : Double.t :=
  PrimFloat.add (PrimFloat.div (PrimFloat.sub Double.one d) (Double.ofNat N))
                (PrimFloat.mul d (fold_left PrimFloat.add
                                            (map (statedShare g score) (getImporters g n))
                                            Double.zero)).

Fixpoint statedScore (g : Graph) (d : Double.t) (N : nat) (rounds : nat) (n : string)
  : Double.t :=
  match rounds with
  | O => PrimFloat.div Double.one (Double.ofNat N)
  | S k => statedRound g d N (statedScore g d N k) n
  end.

(** Three files: [a] and [b] import each other, and both import [c]. *)
Definition roundingGraph : Graph :=
  graph (runOps sampleHost (Some "/r")
           [OpAddNode (sampleParsed "/r/a.ts" []);
            OpAddNode (sampleParsed "/r/b.ts" []);
            OpAddNode (sampleParsed "/r/c.ts" []);
            OpAddEdge "/r/a.ts" "/r/b.ts" None;
            OpAddEdge "/r/a.ts" "/r/c.ts" None;
            OpAddEdge "/r/b.ts" "/r/a.ts" None;
            OpAddEdge "/r/b.ts" "/r/c.ts" None]).

(** Doubles named in the examples. *)
Module Sample64.

Import PrimFloat.
#[local] Set Warnings "-inexact-float".

(** The score of [c] in [roundingGraph] after one round, as the program
    computes it and as the stated formula gives it. *)
Definition accumulated : Double.t := 0.33333333333333337%float.
Definition stated : Double.t := 0.3333333333333333%float.
Definition ofImporter : Double.t := 0.19166666666666668%float.


End Sample64.


(** A graph with four files: [hubFile] imports three files of which one
    imports nothing and is imported by nobody else. *)
Definition starGraph : Graph :=
  graph (runOps sampleHost (Some "/r")
           [OpAddNode (sampleParsed "/r/main.ts" []);
            OpAddNode (sampleParsed "/r/a.ts" []);
            OpAddNode (sampleParsed "/r/b.ts" []);
            OpAddNode (sampleParsed "/r/lonely.ts" []);
            OpAddEdge "/r/main.ts" "/r/a.ts" None;
            OpAddEdge "/r/main.ts" "/r/b.ts" None;
            OpAddEdge "/r/a.ts" "/r/b.ts" None]).

(** Three files in a directory named [constructor], and one beside
    it. *)
Definition constructorGraph : Graph :=
  graph (runOps sampleHost (Some "/r")
           [OpAddNode (sampleParsed "/r/src/constructor/a.ts" []);
            OpAddNode (sampleParsed "/r/src/constructor/b.ts" []);
            OpAddNode (sampleParsed "/r/src/constructor/c.ts" []);
            OpAddNode (sampleParsed "/r/main.ts" [])]).

(** The clusters that [mergeSmallClusters] keeps and those it merges. *)
Definition keptCluster (minSize : nat) (c : DirectoryClustering.DirCluster) : bool :=
  minSize <=? List.length (DirectoryClustering.dc_files c).
Definition mergedCluster (minSize : nat) (c : DirectoryClustering.DirCluster) : bool :=
  negb (keptCluster minSize c).

(** Descending order of size, as [clusterByDirectory] returns its
    clusters. *)
Definition bySizeDesc (a b : DirectoryClustering.DirCluster) : Prop :=
  List.length (DirectoryClustering.dc_files b) <= List.length (DirectoryClustering.dc_files a).

(** The files held by the entries of a cluster map. *)
Definition filesOf (m : JsMap.t (list string)) : list string := flat_map snd m.

(** What the cluster map satisfies while it is filled. *)
Definition clusterMapInv (idOf : string -> string) (m : JsMap.t (list string)) : Prop :=
  NoDup (JsMap.keys m)
  /\ forall k files, In (k, files) m -> files <> [] /\ forall f, In f files -> idOf f = k.

(** The ordered pairs of distinct members of a list. *)
Definition offDiagonal (files : list string) : list (string * string) :=
  flat_map (fun s => map (fun t => (s, t)) (remove string_dec s files)) files.

(** No file imports itself. *)
Definition noSelfImport (g : Graph) : Prop :=
  forall e, In e (edges g) -> edge_source e <> edge_target e.

(** The pieces of [s] between the occurrences of the character [c0],
    the first piece continuing [acc]: [split] at a one-character
    separator, by recursion on the string. *)
Fixpoint piecesFrom (c0 : ascii) (acc : string) (s : string) : list string :=
  match s with
  | EmptyString => [acc]
  | String c s' =>
    if Ascii.eqb c c0 then acc :: piecesFrom c0 "" s'
    else piecesFrom c0 (acc +++ String c "") s'
  end.

(** A syntax node that only has text. *)
Definition textNode (text : string) : SyntaxNode := SNode "string" text true None 0 [].

(** A file system that holds three files: [whole] is [part1], a line
    break, [part2]. *)
Definition threeFiles (path : string) : option string :=
  if String.eqb path "part1" then Some ("let a = 1;" +++ newline +++ "  ")
  else if String.eqb path "part2" then Some ("" +++ newline +++ "let b = 2;")
  else if String.eqb path "whole"
       then Some (("let a = 1;" +++ newline +++ "  ") +++ newline
                    +++ ("" +++ newline +++ "let b = 2;"))
       else None.

(** The number of edges at a file, incoming and outgoing. *)
Definition totalDegree (g : Graph) (f : string) : nat :=
  getInDegree g f + getOutDegree g f.

(** The evidence line of the hotspot detector for a file. *)
Definition hotspotLine (g : Graph) (f : string) : string :=
  Path.basename f +++ " (in:" +++ Js.showNat (getInDegree g f) +++ ", out:"
                +++ Js.showNat (getOutDegree g f) +++ ")".

(** The number of lines of a text. *)
Definition lineCount (content : string) : nat :=
  List.length (Js.split content newline).

(** The grammar [parse] selects for a file: TSX for [.tsx] and [.jsx]. *)
Definition usesTsxGrammar (filePath : string) : bool :=
  String.eqb (Path.extname filePath) ".tsx" || String.eqb (Path.extname filePath) ".jsx".

(** A module of two lines that tree-sitter cannot parse. *)
Definition requireContent : string :=
  "const a = require('./a');" +++ newline +++ "function run() {}".

Definition requireHost : ParserHost :=
  mkParserHost (fun _ => Some requireContent) (fun _ _ => None).

Definition requireImport : ImportDeclaration :=
  mkImport "./a" [] None None (Some 1).

Definition requireParsed : ParsedFile :=
  mkParsedFile "/r/m.js" javascript [requireImport; requireImport] []
    [mkDefinition "a" KConst 1 (Some false); mkDefinition "run" KFunction 2 (Some false)].

(** What one line contributes carries the number of that line. *)
Definition linesAt (e : TsParser.Extracted) (n : nat) : Prop :=
  (forall imp, In imp (TsParser.ex_imports e) -> imp_line imp = Some n)
  /\ (forall d, In d (TsParser.ex_definitions e) -> def_line d = n).

(** The line an import was found on; 0 when it carries none. *)
Definition lineOfImport (imp : ImportDeclaration) : nat :=
  match imp_line imp with Some l => l | None => 0 end.

(** The nodes of a syntax tree: a node before its children, the
    children from first to last. *)
Fixpoint preorder (n : SyntaxNode) : list SyntaxNode :=
  let 'SNode _ _ _ _ _ cs := n in
  n :: (fix all (l : list SyntaxNode) : list SyntaxNode :=
          match l with
          | [] => []
          | c :: l' => preorder c ++ all l'
          end) cs.

(** The name a node binds: none for a node that is no binding and for
    a binding without a name. *)
Definition boundName (node : SyntaxNode) : list string :=
  if HsParser.isBinding node
  then match HsParser.textOr (Ts.childForFieldName node "name") (Ts.child node 0) with
       | Some name => if String.eqb name "" then [] else [name]
       | None => []
       end
  else [].

(** The closure of [extractDefinitions] run over a list of nodes. *)
Definition visitAll (ns : list SyntaxNode) (st : HsParser.DefState) : HsParser.DefState :=
  fold_left (fun st n => HsParser.visitBinding n st) ns st.

(** What the fallback of the Haskell parser makes of a file. *)
Definition haskellFallback (content filePath : string) : ParsedFile :=
  let found := HsParser.extractFallback content filePath in
  mkParsedFile filePath haskell (TsParser.ex_imports found) (TsParser.ex_exports found)
               (TsParser.ex_definitions found).

(** The paths that [parseFile] can parse. *)
Definition parses (h : HaskellHost) (filePath : string) : bool :=
  match ParseFile.parseFile h filePath with Some _ => true | None => false end.

(** The directory with every excluded directory emptied. *)
Fixpoint prune (excludeDirs : list string) (d : ScanRepo.Directory) : ScanRepo.Directory :=
  match d with
  | ScanRepo.Unreadable => ScanRepo.Unreadable
  | ScanRepo.Entries entries =>
    ScanRepo.Entries
      ((fix each (es : list (string * ScanRepo.Dirent ScanRepo.Directory))
          : list (string * ScanRepo.Dirent ScanRepo.Directory) :=
          match es with
          | [] => []
          | (name, kind) :: es' =>
            (name,
             match kind with
             | ScanRepo.IsDirectory sub =>
               ScanRepo.IsDirectory
                 (if FileSystem.shouldExcludeDir name excludeDirs
                  then ScanRepo.Entries []
                  else prune excludeDirs sub)
             | ScanRepo.IsFile => ScanRepo.IsFile
             | ScanRepo.IsOther => ScanRepo.IsOther
             end) :: each es'
          end) entries)
  end.

(** The number of files in a directory and below it, the excluded
    directories and the unreadable ones left aside. *)
Fixpoint countFiles (excludeDirs : list string) (d : ScanRepo.Directory) : nat :=
  match d with
  | ScanRepo.Unreadable => 0
  | ScanRepo.Entries entries =>
    (fix each (es : list (string * ScanRepo.Dirent ScanRepo.Directory)) : nat :=
       match es with
       | [] => 0
       | (name, kind) :: es' =>
         match kind with
         | ScanRepo.IsDirectory sub =>
           if FileSystem.shouldExcludeDir name excludeDirs then 0
           else countFiles excludeDirs sub
         | ScanRepo.IsFile => 1
         | ScanRepo.IsOther => 0
         end + each es'
       end) entries
  end.

(** What holds of a directory holds of the directories it lists. *)
Definition subdirectories (P : ScanRepo.Directory -> Prop)
           (entries : list (string * ScanRepo.Dirent ScanRepo.Directory)) : Prop :=
  Forall (fun entry => match snd entry with
                       | ScanRepo.IsDirectory sub => P sub
                       | _ => True
                       end) entries.

(** The files among [files] that [detectLanguage] gives the language
    [language]. *)
Definition filesOfLanguage (language : Language) (files : list string) : list string :=
  filter (fun f => match FileSystem.detectLanguage f with
                   | Some l => String.eqb (ScanRepo.languageName l)
                                          (ScanRepo.languageName language)
                   | None => false
                   end) files.

(** The files among [files] whose language [detectLanguage] knows. *)
Definition filesOfKnownLanguage (files : list string) : list string :=
  filter (fun f => match FileSystem.detectLanguage f with
                   | Some _ => true
                   | None => false
                   end) files.

(** [languageCounts[language] || 0] *)
Definition countOf (counts : JsMap.t nat) (language : Language) : nat :=
  match JsMap.get counts (ScanRepo.languageName language) with
  | Some n => n
  | None => 0
  end.

(** What the loop of [scanRepo] keeps true of its state after the
    files [seen]. *)
Definition countedFiles (seen : list string) (st : list Language * JsMap.t nat) : Prop :=
  map ScanRepo.languageName (fst st) = JsMap.keys (snd st)
  /\ NoDup (JsMap.keys (snd st))
  /\ (forall name n, JsMap.get (snd st) name = Some n -> 1 <= n)
  /\ (forall language, countOf (snd st) language
                       = List.length (filesOfLanguage language seen))
  /\ list_sum (JsMap.values (snd st)) = List.length (filesOfKnownLanguage seen).

(* ===================================================================== *)
(** * Properties *)
(* ===================================================================== *)

(** ** Clustering *)

Section MergeSmallClusters.

Variable minSize : nat.

Lemma mergeLoop_shape (clusters : list Cluster) (large : list Cluster) (small : list string) :
  fold_left (Clustering.mergeStep minSize) clusters (large, small)
  = (large ++ filter (isLarge minSize) clusters,
     small ++ flat_map cl_files (filter (isSmall minSize) clusters)).
Proof.
  revert large small.
  induction clusters as [|c cs IH]; intros large small; simpl.
  - now rewrite !app_nil_r.
  - unfold Clustering.mergeStep at 2. unfold isSmall, isLarge in *. simpl.
    destruct (minSize <=? List.length (cl_files c)); simpl; rewrite IH.
    + now rewrite <- app_assoc.
    + now rewrite <- app_assoc.
Qed.

Lemma files_split (clusters : list Cluster) :
  Permutation (flat_map cl_files (filter (isLarge minSize) clusters)
               ++ flat_map cl_files (filter (isSmall minSize) clusters))
              (flat_map cl_files clusters).
Proof.
  induction clusters as [|c cs IH]; simpl; [constructor|].
  unfold isSmall. destruct (isLarge minSize c); simpl.
  - rewrite <- app_assoc. now apply Permutation_app_head.
  - etransitivity; [|apply Permutation_app_head; exact IH].
    rewrite !app_assoc. apply Permutation_app_tail. apply Permutation_app_comm.
Qed.

Lemma mergeSmallClusters_eq (clusters : list Cluster) :
  Clustering.mergeSmallClusters clusters minSize
  = filter (isLarge minSize) clusters
    ++ match flat_map cl_files (filter (isSmall minSize) clusters) with
       | [] => []
       | _ :: _ => [Clustering.otherCluster (flat_map cl_files (filter (isSmall minSize) clusters))]
       end.
Proof.
  unfold Clustering.mergeSmallClusters. rewrite mergeLoop_shape. simpl.
  destruct (flat_map cl_files (filter (isSmall minSize) clusters)); simpl.
  - now rewrite app_nil_r.
  - reflexivity.
Qed.

Lemma mergeSmallClusters_files (clusters : list Cluster) :
  Permutation (flat_map cl_files (Clustering.mergeSmallClusters clusters minSize))
              (flat_map cl_files clusters).
Proof.
  rewrite mergeSmallClusters_eq.
  etransitivity; [|apply files_split].
  rewrite flat_map_app. apply Permutation_app_head.
  destruct (flat_map cl_files (filter (isSmall minSize) clusters)) eqn:E; simpl.
  - constructor.
  - now rewrite app_nil_r.
Qed.

End MergeSmallClusters.

(** C6. [mergeSmallClusters] keeps a partition of the node set a
    partition: when the files of the input clusters list every node
    exactly once, so do the files of the output clusters. The output is
    the clusters with at least [minSize] files, unchanged and in their
    order, followed, only when the smaller clusters hold at least one
    file, by one cluster named Other of cohesion 0 that holds all the
    files of the smaller clusters. *)
Theorem C6_mergeSmallClusters_partition
        (clusters : list Cluster) (minSize : nat) (nodeList : list string) :
  Permutation (flat_map cl_files clusters) nodeList ->
  let out := Clustering.mergeSmallClusters clusters minSize in
  let smallFiles := flat_map cl_files (filter (isSmall minSize) clusters) in
  Permutation (flat_map cl_files out) nodeList
  /\ out = filter (isLarge minSize) clusters
           ++ (if 0 <? List.length smallFiles
               then [Clustering.otherCluster smallFiles] else [])
  /\ cl_name (Clustering.otherCluster smallFiles) = "Other"
  /\ cl_cohesion (Clustering.otherCluster smallFiles) = Some 0%Q
  /\ cl_files (Clustering.otherCluster smallFiles) = smallFiles.
Proof.
  intros Hpart out smallFiles. repeat split.
  - etransitivity; [apply mergeSmallClusters_files | exact Hpart].
  - unfold out. rewrite mergeSmallClusters_eq. fold smallFiles.
    destruct smallFiles; reflexivity.
Qed.


Lemma C6_witness :
  Permutation (flat_map cl_files (Clustering.mergeSmallClusters sampleClusters 3))
              ["a"; "b"; "c"; "d"; "e"; "f"].
Proof.
  apply (C6_mergeSmallClusters_partition sampleClusters 3 ["a"; "b"; "c"; "d"; "e"; "f"]).
  simpl. apply Permutation_refl.
Defined.


Lemma setHas_In (files : list string) (x : string) :
  Clustering.setHas files x = true <-> In x files.
Proof.
  unfold Clustering.setHas. rewrite existsb_exists. split.
  - intros [y [Hy Heq]]. apply String.eqb_eq in Heq. now subst.
  - intros H. exists x. split; [assumption | apply String.eqb_refl].
Qed.

Lemma internalEdgeCount_spec (g : Graph) (files : list string) :
  Clustering.internalEdgeCount g files = specInternalEdges g files.
Proof.
  unfold Clustering.internalEdgeCount, specInternalEdges. f_equal.
  apply filter_ext. intros e. unfold Clustering.isInternal.
  destruct (in_dec string_dec (edge_source e) files) as [Hs|Hs];
    destruct (in_dec string_dec (edge_target e) files) as [Ht|Ht].
  - apply setHas_In in Hs, Ht. now rewrite Hs, Ht.
  - destruct (Clustering.setHas files (edge_target e)) eqn:E.
    + apply setHas_In in E. contradiction.
    + apply andb_false_r.
  - destruct (Clustering.setHas files (edge_source e)) eqn:E.
    + apply setHas_In in E. contradiction.
    + reflexivity.
  - destruct (Clustering.setHas files (edge_source e)) eqn:E.
    + apply setHas_In in E. contradiction.
    + reflexivity.
Qed.

(** C5, as the code has it. The cohesion of a cluster with at least two
    files is internalEdgeCount / (|files| * (|files| - 1)), where
    internalEdgeCount counts the graph edges whose source and target are
    both among the cluster's files; it is 1 for every cluster with at
    most one file, the empty cluster included. *)
Theorem C5_cohesion_formula (g : Graph) (files : list string) :
  (List.length files <= 1 -> Clustering.calculateCohesion g files = 1%Q)
  /\ (2 <= List.length files ->
      Clustering.calculateCohesion g files
      = (natQ (specInternalEdges g files)
         / natQ (List.length files * (List.length files - 1)))%Q).
Proof.
  unfold Clustering.calculateCohesion. split; intros H.
  - apply Nat.leb_le in H. now rewrite H.
  - destruct (List.length files <=? 1) eqn:E.
    + apply Nat.leb_le in E. lia.
    + destruct (List.length files * (List.length files - 1) =? 0) eqn:E0.
      * apply Nat.eqb_eq in E0. nia.
      * now rewrite internalEdgeCount_spec.
Qed.


Lemma C5_witness :
  Clustering.calculateCohesion cohesionGraph ["a"] = 1%Q
  /\ Clustering.calculateCohesion cohesionGraph ["a"; "b"]
     = (natQ 1 / natQ 2)%Q.
Proof.
  split.
  - apply (proj1 (C5_cohesion_formula cohesionGraph ["a"])). simpl. lia.
  - apply (proj2 (C5_cohesion_formula cohesionGraph ["a"; "b"])). simpl. lia.
Defined.

(** C5, counterexample to the claim as stated: the cohesion of the empty
    cluster is 1, not 0. *)
Lemma C5_counterexample :
  Clustering.calculateCohesion cohesionGraph [] = 1%Q
  /\ ~ (Clustering.calculateCohesion cohesionGraph [] == 0)%Q.
Proof.
  split; [reflexivity|]. simpl. intros H. discriminate H.
Qed.

(** ** JavaScript maps *)

Lemma eqb_neq_false (a b : string) : a <> b -> String.eqb a b = false.
Proof. intros H. now apply String.eqb_neq. Qed.

Lemma get_set_same {V} (m : JsMap.t V) (k : string) (v : V) :
  JsMap.get (JsMap.set m k v) k = Some v.
Proof.
  induction m as [|[k' v'] m IH]; simpl.
  - now rewrite String.eqb_refl.
  - destruct (String.eqb k' k) eqn:E; simpl; rewrite E; auto.
Qed.

Lemma get_set_other {V} (m : JsMap.t V) (k k' : string) (v : V) :
  k <> k' -> JsMap.get (JsMap.set m k v) k' = JsMap.get m k'.
Proof.
  intros Hne. induction m as [|[k0 v0] m IH]; simpl.
  - now rewrite (eqb_neq_false k k').
  - destruct (String.eqb k0 k) eqn:E; simpl.
    + apply String.eqb_eq in E. subst k0. now rewrite (eqb_neq_false k k').
    + now rewrite IH.
Qed.

Lemma get_set {V} (m : JsMap.t V) (k k' : string) (v : V) :
  JsMap.get (JsMap.set m k v) k' = if String.eqb k k' then Some v else JsMap.get m k'.
Proof.
  destruct (String.eqb k k') eqn:E.
  - apply String.eqb_eq in E. subst. apply get_set_same.
  - apply String.eqb_neq in E. now apply get_set_other.
Qed.

Lemma has_set {V} (m : JsMap.t V) (k k' : string) (v : V) :
  JsMap.has (JsMap.set m k v) k' = String.eqb k k' || JsMap.has m k'.
Proof.
  unfold JsMap.has. rewrite get_set. now destruct (String.eqb k k').
Qed.

Lemma keys_set {V} (m : JsMap.t V) (k : string) (v : V) :
  JsMap.keys (JsMap.set m k v)
  = if JsMap.has m k then JsMap.keys m else JsMap.keys m ++ [k].
Proof.
  unfold JsMap.has, JsMap.keys.
  induction m as [|[k0 v0] m IH]; simpl; [reflexivity|].
  destruct (String.eqb k0 k) eqn:E; simpl; [reflexivity|].
  rewrite IH. now destruct (JsMap.get m k).
Qed.

Lemma has_In_keys {V} (m : JsMap.t V) (k : string) :
  JsMap.has m k = true <-> In k (JsMap.keys m).
Proof.
  unfold JsMap.has, JsMap.keys.
  induction m as [|[k0 v0] m IH]; simpl.
  - split; [discriminate | tauto].
  - destruct (String.eqb k0 k) eqn:E.
    + apply String.eqb_eq in E. tauto.
    + apply String.eqb_neq in E. rewrite IH. split; [tauto|].
      intros [H|H]; [contradiction | assumption].
Qed.

Lemma get_None_not_key {V} (m : JsMap.t V) (k : string) :
  JsMap.get m k = None <-> ~ In k (JsMap.keys m).
Proof.
  rewrite <- has_In_keys. unfold JsMap.has.
  destruct (JsMap.get m k); split; try congruence; intros H; now elim H.
Qed.

Lemma NoDup_snoc {A} (l : list A) (x : A) :
  NoDup l -> ~ In x l -> NoDup (l ++ [x]).
Proof.
  intros Hnd Hx. induction Hnd as [|y l Hy Hnd IH]; simpl.
  - constructor; [tauto | constructor].
  - constructor.
    + rewrite in_app_iff. simpl. intros [H|[H|[]]]; [contradiction|].
      subst. apply Hx. now left.
    + apply IH. intros H. apply Hx. now right.
Qed.

Lemma keys_set_NoDup {V} (m : JsMap.t V) (k : string) (v : V) :
  NoDup (JsMap.keys m) -> NoDup (JsMap.keys (JsMap.set m k v)).
Proof.
  intros H. rewrite keys_set. destruct (JsMap.has m k) eqn:E; [assumption|].
  apply NoDup_snoc; [assumption|].
  intros Hin. apply has_In_keys in Hin. congruence.
Qed.

(** A loop that sets [f node] at every [node] of a list. *)
Lemma get_fold_set {V} (f : string -> V) (l : list string) (m : JsMap.t V) (k : string) :
  JsMap.get (fold_left (fun acc node => JsMap.set acc node (f node)) l m) k
  = if existsb (String.eqb k) l then Some (f k) else JsMap.get m k.
Proof.
  revert m. induction l as [|x l IH]; intros m; simpl; [reflexivity|].
  rewrite IH. destruct (existsb (String.eqb k) l) eqn:E.
  - now rewrite orb_true_r.
  - rewrite orb_false_r, get_set, (String.eqb_sym k x).
    destruct (String.eqb x k) eqn:Ex; [|reflexivity].
    apply String.eqb_eq in Ex. now subst.
Qed.

Lemma keys_fold_set_NoDup {V} (f : string -> V) (l : list string) (m : JsMap.t V) :
  NoDup (JsMap.keys m) ->
  NoDup (JsMap.keys (fold_left (fun acc node => JsMap.set acc node (f node)) l m)).
Proof.
  revert m. induction l as [|x l IH]; intros m H; simpl; [assumption|].
  apply IH. now apply keys_set_NoDup.
Qed.

(** Copying the entries of one map into another. *)
Lemma get_fold_copy {V} (l : JsMap.t V) (m : JsMap.t V) (k : string) :
  NoDup (JsMap.keys l) ->
  JsMap.get (fold_left (fun acc (entry : string * V) =>
                          JsMap.set acc (fst entry) (snd entry)) l m) k
  = match JsMap.get l k with Some v => Some v | None => JsMap.get m k end.
Proof.
  revert m. induction l as [|[k0 v0] l IH]; intros m Hnd; simpl; [reflexivity|].
  inversion Hnd as [|? ? Hnot Hnd']; subst.
  rewrite (IH _ Hnd'). destruct (String.eqb k0 k) eqn:E.
  - apply String.eqb_eq in E. subst k0.
    apply get_None_not_key in Hnot. rewrite Hnot. apply get_set_same.
  - destruct (JsMap.get l k); [reflexivity|].
    apply get_set_other. now apply String.eqb_neq.
Qed.

Lemma existsb_eqb_In (k : string) (l : list string) :
  existsb (String.eqb k) l = true <-> In k l.
Proof.
  rewrite existsb_exists. split.
  - intros [y [Hy Heq]]. apply String.eqb_eq in Heq. now subst.
  - intros H. exists k. split; [assumption | apply String.eqb_refl].
Qed.

(** ** Stable sorting *)

Lemma insertStable_perm {A} (p : A -> A -> bool) (x : A) (l : list A) :
  Permutation (insertStable p x l) (x :: l).
Proof.
  induction l as [|y l IH]; simpl; [apply Permutation_refl|].
  destruct (p y x).
  - etransitivity; [apply perm_skip; exact IH | apply perm_swap].
  - apply Permutation_refl.
Qed.

Lemma sortStable_perm {A} (p : A -> A -> bool) (l : list A) :
  Permutation (sortStable p l) l.
Proof.
  induction l as [|x l IH]; simpl; [constructor|].
  etransitivity; [apply insertStable_perm | now apply perm_skip].
Qed.

(** ** PageRank *)

Section PageRankRounds.

Variable g : Graph.
Variable d : Q.

Let nodeList := JsMap.keys (nodes g).
Let N := List.length nodeList.

Hypothesis importers_registered :
  forall n m, In m (getImporters g n) -> In m nodeList.

(** The accumulation over the importers is the base plus [d] times the
    sum of the shares. *)
Lemma contributions_sum (scores : JsMap.t Q) (sp : string -> Q)
      (importers : list string) (base : Q) :
  (forall m, In m importers -> PageRank.scoreOr0 scores m == sp m) ->
  fold_left (PageRank.addContribution g d scores) importers base
  == base + d * PageRank.Qsum (map (PageRank.specShare g sp) importers).
Proof.
  revert base. induction importers as [|m l IH]; intros base Hsc; simpl.
  - ring.
  - rewrite IH by (intros; apply Hsc; now right).
    unfold PageRank.addContribution, PageRank.specShare.
    destruct (getOutDegree g m) eqn:E; simpl.
    + ring.
    + rewrite (Hsc m (or_introl eq_refl)). ring.
Qed.

Lemma nodeScore_specRound (scores : JsMap.t Q) (sp : string -> Q) (node : string) :
  (forall m, In m nodeList -> PageRank.scoreOr0 scores m == sp m) ->
  PageRank.nodeScore g d N scores node == PageRank.specRound g d N sp node.
Proof.
  intros Hsc. unfold PageRank.nodeScore, PageRank.specRound.
  apply contributions_sum. intros m Hm. apply Hsc.
  now apply (importers_registered node).
Qed.

Lemma iteration_get (scores : JsMap.t Q) (k : string) :
  JsMap.get (PageRank.iteration g d N nodeList scores) k
  = if existsb (String.eqb k) nodeList
    then Some (PageRank.nodeScore g d N scores k)
    else JsMap.get scores k.
Proof.
  unfold PageRank.iteration. rewrite get_fold_copy.
  - rewrite get_fold_set. now destruct (existsb (String.eqb k) nodeList).
  - apply keys_fold_set_NoDup. constructor.
Qed.

Lemma initScores_get (k : string) :
  JsMap.get (PageRank.initScores nodeList N) k
  = if existsb (String.eqb k) nodeList then Some (1 / natQ N)%Q else None.
Proof.
  unfold PageRank.initScores.
  now rewrite (get_fold_set (fun _ => (1 / natQ N)%Q) nodeList JsMap.empty k).
Qed.

(** After [rounds] rounds from any scores that agree with the [k0]-th
    specified scores, the scores agree with the [(k0 + rounds)]-th. *)
Lemma iterateScores_spec (rounds : nat) : forall (k0 : nat) (scores : JsMap.t Q),
  (forall m, In m nodeList -> PageRank.scoreOr0 scores m == PageRank.specScore g d N k0 m) ->
  forall m, In m nodeList ->
    PageRank.scoreOr0 (PageRank.iterateScores g d N nodeList rounds scores) m
    == PageRank.specScore g d N (k0 + rounds) m.
Proof.
  induction rounds as [|r IH]; intros k0 scores Hsc m Hm; simpl.
  - rewrite Nat.add_0_r. now apply Hsc.
  - rewrite Nat.add_succ_r, <- Nat.add_succ_l. apply IH; [|assumption].
    intros m' Hm'. unfold PageRank.scoreOr0 at 1. rewrite iteration_get.
    apply existsb_eqb_In in Hm'. rewrite Hm'. simpl.
    now apply nodeScore_specRound.
Qed.

Lemma finalScores_spec (iterations : nat) (m : string) :
  In m nodeList ->
  PageRank.scoreOr0 (PageRank.finalScores g iterations d) m
  == PageRank.specScore g d N iterations m.
Proof.
  intros Hm. unfold PageRank.finalScores. fold nodeList. fold N.
  apply (iterateScores_spec iterations 0); [|assumption].
  intros m' Hm'. unfold PageRank.scoreOr0. rewrite initScores_get.
  apply existsb_eqb_In in Hm'. rewrite Hm'. simpl. reflexivity.
Qed.

End PageRankRounds.

Lemma assignRanks_files (l : list RankedFile) : forall i,
  map rf_file (PageRank.assignRanks i l) = map rf_file l.
Proof. induction l as [|rf l IH]; intros i; simpl; [reflexivity | now rewrite IH]. Qed.

Lemma assignRanks_In (l : list RankedFile) : forall i rf,
  In rf (PageRank.assignRanks i l) ->
  exists rf0, In rf0 l /\ rf_file rf = rf_file rf0 /\ rf_score rf = rf_score rf0.
Proof.
  induction l as [|x l IH]; intros i rf H; simpl in H; [contradiction|].
  destruct H as [H|H].
  - exists x. subst rf. simpl. auto.
  - destruct (IH _ _ H) as [rf0 [H0 H1]]. exists rf0. split; [now right | assumption].
Qed.

Lemma importersRegisteredb_sound (g : Graph) :
  importersRegisteredb g = true -> importersRegistered g.
Proof.
  unfold importersRegistered, importersRegisteredb, getImporters, getOrEmpty. intros H n m.
  induction (reverseAdjacencyList g) as [|[k l] rest IH]; simpl in *; [tauto|].
  apply andb_true_iff in H. destruct H as [Hl Hrest].
  destruct (String.eqb k n).
  - intros Hm. rewrite forallb_forall in Hl. now apply existsb_eqb_In, Hl.
  - now apply IH.
Qed.

(** Read over exact rationals, where addition and multiplication
    distribute, the accumulation of [pageRank] is the closed formula
    (1-d)/N + d * sum over the importers m of n of score(m)/outDegree(m). *)
Lemma pageRank_exact_recurrence (g : Graph) (iterations : nat) (d : Q) :
  (JsMap.keys (nodes g) = [] -> PageRank.pageRank g iterations d = [])
  /\ (JsMap.keys (nodes g) <> [] ->
      importersRegistered g ->
      Permutation (map rf_file (PageRank.pageRank g iterations d)) (JsMap.keys (nodes g))
      /\ forall rf, In rf (PageRank.pageRank g iterations d) ->
           rf_score rf
           == PageRank.specScore g d (List.length (JsMap.keys (nodes g))) iterations
                                 (rf_file rf)).
Proof.
  split.
  - intros H. unfold PageRank.pageRank. now rewrite H.
  - intros Hne Hreg. unfold PageRank.pageRank.
    destruct (List.length (JsMap.keys (nodes g)) =? 0) eqn:E.
    + apply Nat.eqb_eq, length_zero_iff_nil in E. contradiction.
    + split.
      * rewrite assignRanks_files.
        etransitivity; [apply Permutation_map, sortStable_perm|].
        rewrite map_map. simpl. rewrite map_id. apply Permutation_refl.
      * intros rf Hin. apply assignRanks_In in Hin.
        destruct Hin as [rf0 [Hin [Hf Hs]]].
        apply (Permutation_in _ (sortStable_perm _ _)) in Hin.
        apply in_map_iff in Hin. destruct Hin as [file [Hrf0 Hfile]].
        subst rf0. simpl in *. rewrite Hs, Hf.
        now apply finalScores_spec.
Qed.

(** ** PageRank on doubles: the rounds *)

Section PageRankDoubleRounds.

Variable g : Graph.
Variable d : Double.t.

Let nodeList := JsMap.keys (nodes g).
Let N := List.length nodeList.

Hypothesis importers_registered :
  forall n m, In m (getImporters g n) -> In m nodeList.

(** The loop over the importers adds the same terms in the same order
    as [termwiseRound]. *)
Lemma contributions_termwise (scores : JsMap.t Double.t) (sp : string -> Double.t)
      (importers : list string) :
  (forall m, In m importers -> PageRankDouble.scoreOr0 scores m = Double.orZero (sp m)) ->
  forall base,
    fold_left (PageRankDouble.addContribution g d scores) importers base
    = fold_left (fun acc m =>
                   if 0 <? getOutDegree g m
                   then PrimFloat.add acc
                          (PrimFloat.mul d (PrimFloat.div (Double.orZero (sp m))
                                                          (Double.ofNat (getOutDegree g m))))
                   else acc) importers base.
Proof.
  induction importers as [|m l IH]; intros Hsc base; [reflexivity|].
  cbn [fold_left]. unfold PageRankDouble.addContribution at 2. cbv zeta.
  rewrite (Hsc m (or_introl eq_refl)).
  apply IH. intros m' Hm'. apply Hsc. now right.
Qed.

Lemma nodeScore_termwise (scores : JsMap.t Double.t) (sp : string -> Double.t)
      (node : string) :
  (forall m, In m nodeList -> PageRankDouble.scoreOr0 scores m = Double.orZero (sp m)) ->
  PageRankDouble.nodeScore g d N scores node = termwiseRound g d N sp node.
Proof.
  intros Hsc. unfold PageRankDouble.nodeScore, termwiseRound, getImporters.
  apply contributions_termwise. intros m Hm. apply Hsc.
  now apply (importers_registered node).
Qed.

Lemma iteration_get_double (scores : JsMap.t Double.t) (k : string) :
  JsMap.get (PageRankDouble.iteration g d N nodeList scores) k
  = if existsb (String.eqb k) nodeList
    then Some (PageRankDouble.nodeScore g d N scores k)
    else JsMap.get scores k.
Proof.
  unfold PageRankDouble.iteration. rewrite get_fold_copy.
  - rewrite get_fold_set. now destruct (existsb (String.eqb k) nodeList).
  - apply keys_fold_set_NoDup. constructor.
Qed.

Lemma initScores_get_double (k : string) :
  JsMap.get (PageRankDouble.initScores nodeList N) k
  = if existsb (String.eqb k) nodeList
    then Some (PrimFloat.div Double.one (Double.ofNat N)) else None.
Proof.
  unfold PageRankDouble.initScores.
  exact (@get_fold_set Double.t (fun _ => PrimFloat.div Double.one (Double.ofNat N))
                       nodeList JsMap.empty k).
Qed.

(** After [rounds] rounds from scores that are the [k0]-th of the
    recurrence, the scores are the [(k0 + rounds)]-th. *)
Lemma iterateScores_termwise (rounds : nat) : forall (k0 : nat) (scores : JsMap.t Double.t),
  (forall m, In m nodeList ->
     PageRankDouble.scoreOr0 scores m = Double.orZero (termwiseScore g d N k0 m)) ->
  forall m, In m nodeList ->
    PageRankDouble.scoreOr0 (PageRankDouble.iterateScores g d N nodeList rounds scores) m
    = Double.orZero (termwiseScore g d N (k0 + rounds) m).
Proof.
  induction rounds as [|r IH]; intros k0 scores Hsc m Hm; cbn [PageRankDouble.iterateScores].
  - rewrite Nat.add_0_r. now apply Hsc.
  - rewrite Nat.add_succ_r, <- Nat.add_succ_l. apply IH; [|assumption].
    intros m' Hm'. unfold PageRankDouble.scoreOr0 at 1. rewrite iteration_get_double.
    apply existsb_eqb_In in Hm'. rewrite Hm'. cbn [termwiseScore].
    f_equal. now apply nodeScore_termwise.
Qed.

Lemma finalScores_termwise (iterations : nat) (m : string) :
  In m nodeList ->
  PageRankDouble.scoreOr0 (PageRankDouble.finalScores g iterations d) m
  = Double.orZero (termwiseScore g d N iterations m).
Proof.
  intros Hm. unfold PageRankDouble.finalScores. fold nodeList. fold N.
  apply (iterateScores_termwise iterations 0); [|assumption].
  intros m' Hm'. unfold PageRankDouble.scoreOr0. rewrite initScores_get_double.
  apply existsb_eqb_In in Hm'. now rewrite Hm'.
Qed.

End PageRankDoubleRounds.

Lemma assignRanks_double (l : list PageRankDouble.RankedFile) : forall i,
  map PageRankDouble.rd_file (PageRankDouble.assignRanks i l) = map PageRankDouble.rd_file l
  /\ map PageRankDouble.rd_score (PageRankDouble.assignRanks i l)
     = map PageRankDouble.rd_score l.
Proof.
  induction l as [|rf l IH]; intros i; cbn [PageRankDouble.assignRanks map]; [now split|].
  destruct (IH (S i)) as [Hf Hs]. now rewrite Hf, Hs.
Qed.

Lemma assignRanks_In_double (l : list PageRankDouble.RankedFile) : forall i rf,
  In rf (PageRankDouble.assignRanks i l) ->
  exists rf0, In rf0 l /\ PageRankDouble.rd_file rf = PageRankDouble.rd_file rf0
              /\ PageRankDouble.rd_score rf = PageRankDouble.rd_score rf0.
Proof.
  induction l as [|x l IH]; intros i rf H; cbn [PageRankDouble.assignRanks] in H;
    [contradiction|].
  destruct H as [H|H].
  - exists x. subst rf. cbn. auto.
  - destruct (IH _ _ H) as [rf0 [H0 H1]]. exists rf0. split; [now right | assumption].
Qed.

(** C2, as the program computes it. For the empty graph [pageRank]
    returns the empty list. For a non-empty graph whose reverse
    adjacency lists name registered nodes only, the result lists every
    node once, and the score of each node is the double that the
    recurrence gives when its sum is accumulated term by term: 1/N at the
    start, then [iterations] rounds in which, starting from (1-d)/N, the
    term d * (score(m)/outDegree(m)) is added for each importer m of n
    in the order of the reverse adjacency list, an importer of out-degree
    0 adding nothing. *)
Theorem C2_pageRank_recurrence (g : Graph) (iterations : nat) (d : Double.t) :
  (JsMap.keys (nodes g) = [] -> PageRankDouble.pageRank g iterations d = [])
  /\ (JsMap.keys (nodes g) <> [] ->
      importersRegistered g ->
      Permutation (map PageRankDouble.rd_file (PageRankDouble.pageRank g iterations d))
                  (JsMap.keys (nodes g))
      /\ forall rf, In rf (PageRankDouble.pageRank g iterations d) ->
           PageRankDouble.rd_score rf
           = Double.orZero
               (termwiseScore g d (List.length (JsMap.keys (nodes g))) iterations
                              (PageRankDouble.rd_file rf))).
Proof.
  split.
  - intros H. unfold PageRankDouble.pageRank. now rewrite H.
  - intros Hne Hreg. unfold PageRankDouble.pageRank.
    destruct (List.length (JsMap.keys (nodes g)) =? 0) eqn:E.
    + apply Nat.eqb_eq, length_zero_iff_nil in E. contradiction.
    + split.
      * rewrite (proj1 (assignRanks_double _ 0)).
        etransitivity; [apply Permutation_map, sortStable_perm|].
        rewrite map_map. cbn [PageRankDouble.rd_file]. rewrite map_id.
        apply Permutation_refl.
      * intros rf Hin. apply assignRanks_In_double in Hin.
        destruct Hin as [rf0 [Hin [Hf Hs]]].
        apply (Permutation_in _ (sortStable_perm _ _)) in Hin.
        apply in_map_iff in Hin. destruct Hin as [file [Hrf0 Hfile]].
        subst rf0. cbn [PageRankDouble.rd_file PageRankDouble.rd_score] in *.
        rewrite Hs, Hf. now apply finalScores_termwise.
Qed.

Lemma C2_witness :
  Permutation (map PageRankDouble.rd_file
                   (PageRankDouble.pageRank roundingGraph 20 Double.defaultDamping))
              ["/r/a.ts"; "/r/b.ts"; "/r/c.ts"]
  /\ forall rf, In rf (PageRankDouble.pageRank roundingGraph 20 Double.defaultDamping) ->
       PageRankDouble.rd_score rf
       = Double.orZero (termwiseScore roundingGraph Double.defaultDamping 3 20
                                      (PageRankDouble.rd_file rf)).
Proof.
  apply (proj2 (C2_pageRank_recurrence roundingGraph 20 Double.defaultDamping)).
  - vm_compute. discriminate.
  - apply importersRegisteredb_sound. vm_compute. reflexivity.
Defined.

(** C2, where the stated formula fails. In [roundingGraph] the file
    [c] is imported by [a] and by [b], each of out-degree 2. After one
    round from 1/3 with d = 0.85 the program holds
    0.05 + 0.85*(1/3/2) + 0.85*(1/3/2) = 0.33333333333333337 for [c],
    while (1-d)/N + d * (the sum of the shares) is 0.3333333333333333 in
    doubles: multiplying the sum by d and adding d times each share do
    not round alike. *)
Lemma C2_counterexample :
  map (fun rf => (PageRankDouble.rd_file rf, PageRankDouble.rd_score rf))
      (PageRankDouble.pageRank roundingGraph 1 Double.defaultDamping)
  = [("/r/c.ts", Sample64.accumulated); ("/r/a.ts", Sample64.ofImporter);
     ("/r/b.ts", Sample64.ofImporter)]
  /\ statedScore roundingGraph Double.defaultDamping 3 1 "/r/c.ts" = Sample64.stated
  /\ PrimFloat.eqb Sample64.accumulated Sample64.stated = false
  /\ importersRegistered roundingGraph.
Proof.
  split; [vm_compute; reflexivity|]. split; [vm_compute; reflexivity|].
  split; [vm_compute; reflexivity|].
  apply importersRegisteredb_sound. vm_compute. reflexivity.
Qed.

(** ** Score normalisation *)

Open Scope Q_scope.





Section Rescale.

Variables mn mx : Q.
Hypothesis range_pos : (mn < mx)%Q.







End Rescale.




Close Scope Q_scope.


(** ** GraphBuilder: well-formedness of every graph it produces *)

Lemma In_keys_set {V} (m : JsMap.t V) (k k' : string) (v : V) :
  In k' (JsMap.keys m) -> In k' (JsMap.keys (JsMap.set m k v)).
Proof.
  intros H. rewrite keys_set. destruct (JsMap.has m k); [assumption|].
  apply in_or_app. now left.
Qed.

Lemma find_sameEndpoints_None (s t : string) (es : list Edge) :
  find (sameEndpoints s t) es = None -> ~ In (s, t) (map endpoints es).
Proof.
  intros Hfind Hin. apply in_map_iff in Hin. destruct Hin as [e [He Hin]].
  apply (find_none _ _ Hfind) in Hin. unfold sameEndpoints in Hin.
  unfold endpoints in He. inversion He. subst.
  now rewrite !String.eqb_refl in Hin.
Qed.

Lemma find_sameEndpoints_Some (s t : string) (es : list Edge) :
  In (s, t) (map endpoints es) -> exists e, find (sameEndpoints s t) es = Some e.
Proof.
  intros Hin. apply in_map_iff in Hin. destruct Hin as [e [He Hin]].
  destruct (find (sameEndpoints s t) es) as [e'|] eqn:E; [now exists e'|].
  apply (find_none _ _ E) in Hin. unfold sameEndpoints in Hin.
  unfold endpoints in He. inversion He. subst.
  now rewrite !String.eqb_refl in Hin.
Qed.

(** What [addEdge] does, case by case. *)
Lemma addEdge_cases (b : GraphBuilder) (s t : string) (i : option (list string)) :
  (addEdge b s t i = b
   /\ (JsMap.has (nodes (graph b)) s = false \/ JsMap.has (nodes (graph b)) t = false
       \/ In (s, t) (map endpoints (edges (graph b)))))
  \/ (JsMap.has (nodes (graph b)) s = true /\ JsMap.has (nodes (graph b)) t = true
      /\ ~ In (s, t) (map endpoints (edges (graph b)))
      /\ addEdge b s t i
         = mkBuilder (mkGraph (nodes (graph b))
                              (edges (graph b) ++ [mkEdge s t i])
                              (pushAt (adjacencyList (graph b)) s t)
                              (pushAt (reverseAdjacencyList (graph b)) t s))
                     (filePathMap b) (repoRoot b)).
Proof.
  unfold addEdge.
  destruct (JsMap.has (nodes (graph b)) s) eqn:Hs; simpl.
  2: { left. split; [reflexivity | now left]. }
  destruct (JsMap.has (nodes (graph b)) t) eqn:Ht; simpl.
  2: { left. split; [reflexivity | right; now left]. }
  destruct (find (sameEndpoints s t) (edges (graph b))) as [e|] eqn:Hf.
  - left. split; [reflexivity|]. right. right.
    apply find_some in Hf. destruct Hf as [Hin Hsame].
    unfold sameEndpoints in Hsame. apply andb_true_iff in Hsame.
    destruct Hsame as [H1 H2]. apply String.eqb_eq in H1, H2. subst.
    now apply (in_map endpoints).
  - right. repeat split; try reflexivity. now apply find_sameEndpoints_None.
Qed.

Lemma getOrEmpty_pushAt (m : JsMap.t (list string)) (k v k' : string) :
  getOrEmpty (pushAt m k v) k'
  = if String.eqb k k' then getOrEmpty m k ++ [v] else getOrEmpty m k'.
Proof.
  unfold pushAt, getOrEmpty.
  destruct (JsMap.has m k) eqn:Hh; simpl; rewrite !get_set.
  - now destruct (String.eqb k k').
  - rewrite String.eqb_refl.
    destruct (String.eqb k k') eqn:E; [|reflexivity].
    unfold JsMap.has in Hh. now destruct (JsMap.get m k).
Qed.

Section BuilderInvariant.

Variable h : Host.

Lemma createGraph_wellFormed : wellFormed createGraph.
Proof.
  repeat split; simpl; try tauto; try constructor.
Qed.

Lemma indexFile_graph (b : GraphBuilder) (filePath : string) :
  graph (indexFile h b filePath) = graph b.
Proof. reflexivity. Qed.

Lemma addNode_wellFormed (b : GraphBuilder) (pf : ParsedFile) :
  wellFormed (graph b) -> wellFormed (graph (addNode h b pf)).
Proof.
  intros [Hd [Hn Ha]]. unfold addNode. rewrite indexFile_graph. simpl.
  split; [|split].
  - intros e He. simpl in *. destruct (Hd e He) as [H1 H2].
    split; now apply In_keys_set.
  - exact Hn.
  - exact Ha.
Qed.

Lemma addEdge_wellFormed (b : GraphBuilder) (s t : string) (i : option (list string)) :
  wellFormed (graph b) -> wellFormed (graph (addEdge b s t i)).
Proof.
  intros Hwf.
  destruct (addEdge_cases b s t i) as [[Heq _]|[Hs [Ht [Hnew Heq]]]]; rewrite Heq;
    [assumption|].
  destruct Hwf as [Hd [Hn Ha]]. simpl. split; [|split].
  - intros e He. simpl in *. apply in_app_or in He. destruct He as [He|[He|[]]].
    + now apply Hd.
    + subst e. simpl. split; now apply has_In_keys.
  - unfold noDuplicateEdges in *. simpl. rewrite map_app. simpl.
    now apply NoDup_snoc.
  - intros s' t'. unfold getImports, getImporters. simpl.
    rewrite !getOrEmpty_pushAt, map_app, !in_app_iff. simpl.
    destruct (Ha s' t') as [Hfwd Hrev]. unfold getImports, getImporters in *. split.
    + destruct (String.eqb s s') eqn:E.
      * apply String.eqb_eq in E. subst s'. rewrite in_app_iff. simpl.
        rewrite Hfwd. unfold endpoints at 2. simpl. split.
        -- intros [H|[H|[]]]; [now left | subst; right; now left].
        -- intros [H|[H|[]]]; [now left | inversion H; right; now left].
      * rewrite Hfwd. split; [now left|]. intros [H|[H|[]]]; [assumption|].
        unfold endpoints in H. simpl in H. inversion H. subst.
        now rewrite String.eqb_refl in E.
    + destruct (String.eqb t t') eqn:E.
      * apply String.eqb_eq in E. subst t'. rewrite in_app_iff. simpl.
        rewrite Hrev. unfold endpoints at 2. simpl. split.
        -- intros [H|[H|[]]]; [now left | subst; right; now left].
        -- intros [H|[H|[]]]; [now left | inversion H; right; now left].
      * rewrite Hrev. split; [now left|]. intros [H|[H|[]]]; [assumption|].
        unfold endpoints in H. simpl in H. inversion H. subst.
        now rewrite String.eqb_refl in E.
Qed.

Lemma processImport_wellFormed (pf : ParsedFile) (b : GraphBuilder) (imp : ImportDeclaration) :
  wellFormed (graph b) -> wellFormed (graph (processImport h pf b imp)).
Proof.
  intros Hwf. unfold processImport.
  destruct (resolveImport h b (imp_source imp) (pf_filePath pf)) as [target|];
    [|assumption].
  destruct (String.eqb target ""); [assumption | now apply addEdge_wellFormed].
Qed.

Lemma processImports_wellFormed (pf : ParsedFile) (b : GraphBuilder) :
  wellFormed (graph b) -> wellFormed (graph (processImports h b pf)).
Proof.
  unfold processImports. revert b.
  induction (pf_imports pf) as [|imp imps IH]; intros b Hwf; simpl; [assumption|].
  apply IH. now apply processImport_wellFormed.
Qed.

Lemma applyOp_wellFormed (b : GraphBuilder) (op : BuilderOp) :
  wellFormed (graph b) -> wellFormed (graph (applyOp h b op)).
Proof.
  destruct op; simpl.
  - apply addNode_wellFormed.
  - apply addEdge_wellFormed.
  - apply processImports_wellFormed.
Qed.

Lemma fold_applyOp_wellFormed (ops : list BuilderOp) : forall b,
  wellFormed (graph b) -> wellFormed (graph (fold_left (applyOp h) ops b)).
Proof.
  induction ops as [|op ops IH]; intros b Hwf; simpl; [assumption|].
  apply IH. now apply applyOp_wellFormed.
Qed.

Lemma runOps_wellFormed (root : option string) (ops : list BuilderOp) :
  wellFormed (graph (runOps h root ops)).
Proof.
  unfold runOps. apply fold_applyOp_wellFormed. simpl. apply createGraph_wellFormed.
Qed.

(** [buildGraph] is one particular run of the builder. *)
Lemma buildGraph_runOps (parsedFiles : list ParsedFile) (root : option string) :
  buildGraph h parsedFiles root
  = graph (runOps h root (map OpAddNode parsedFiles ++ map OpProcessImports parsedFiles)).
Proof.
  unfold buildGraph, runOps, build. rewrite fold_left_app. f_equal.
  generalize (newGraphBuilder h root) as b0. intros b0.
  assert (Hn : forall l b, fold_left (applyOp h) (map OpAddNode l) b
                           = fold_left (addNode h) l b).
  { induction l as [|x l IH]; intros b; simpl; [reflexivity | apply IH]. }
  assert (Hp : forall l b, fold_left (applyOp h) (map OpProcessImports l) b
                           = fold_left (processImports h) l b).
  { induction l as [|x l IH]; intros b; simpl; [reflexivity | apply IH]. }
  now rewrite Hn, Hp.
Qed.

End BuilderInvariant.

(** In a graph made by the builder the reverse adjacency lists name
    registered nodes only. *)
Lemma builder_graph_importersRegistered (h : Host) (root : option string)
      (ops : list BuilderOp) :
  importersRegistered (graph (runOps h root ops)).
Proof.
  destruct (runOps_wellFormed h root ops) as [Hd [_ Ha]].
  intros n m Hm. apply (Ha m n) in Hm. apply in_map_iff in Hm.
  destruct Hm as [e [He Hin]]. unfold endpoints in He. inversion He. subst.
  now apply Hd.
Qed.

(** C1. Every graph a GraphBuilder produces, after any sequence of
    [addNode], [addEdge] and [processImports] calls (so also the result
    of [buildGraph]), is well-formed: the source and the target of every
    stored edge are keys of the nodes map, and no two stored edges have
    the same (source, target) pair. A call of [addEdge] with a pair that
    is already stored, or with an endpoint that is not a registered node,
    returns the builder unchanged: edges and both adjacency maps stay as
    they were. *)
Theorem C1_builder_graph_well_formed
        (h : Host) (root : option string) (ops : list BuilderOp) :
  let g := graph (runOps h root ops) in
  (forall e, In e (edges g) ->
     In (edge_source e) (JsMap.keys (nodes g)) /\ In (edge_target e) (JsMap.keys (nodes g)))
  /\ NoDup (map endpoints (edges g))
  /\ (forall parsedFiles,
        noDanglingEdges (buildGraph h parsedFiles root)
        /\ noDuplicateEdges (buildGraph h parsedFiles root))
  /\ (forall (b : GraphBuilder) (s t : string) (i : option (list string)),
        In (s, t) (map endpoints (edges (graph b)))
        \/ ~ In s (JsMap.keys (nodes (graph b)))
        \/ ~ In t (JsMap.keys (nodes (graph b))) ->
        addEdge b s t i = b).
Proof.
  intros g. destruct (runOps_wellFormed h root ops) as [Hd [Hn _]].
  split; [exact Hd|]. split; [exact Hn|]. split.
  - intros pfs. rewrite buildGraph_runOps.
    destruct (runOps_wellFormed h root
                (map OpAddNode pfs ++ map OpProcessImports pfs)) as [Hd' [Hn' _]].
    now split.
  - intros b s t i Hcase.
    destruct (addEdge_cases b s t i) as [[Heq _]|[Hs [Ht [Hnew _]]]]; [assumption|].
    exfalso. destruct Hcase as [H|[H|H]].
    + contradiction.
    + apply H. now apply has_In_keys.
    + apply H. now apply has_In_keys.
Qed.

Lemma C1_witness :
  addEdge (runOps sampleHost (Some "/repo")
             [OpAddNode (sampleParsed "/repo/a.ts" []);
              OpAddNode (sampleParsed "/repo/b.ts" []);
              OpAddEdge "/repo/a.ts" "/repo/b.ts" None])
          "/repo/a.ts" "/repo/b.ts" (Some ["x"])
  = runOps sampleHost (Some "/repo")
      [OpAddNode (sampleParsed "/repo/a.ts" []);
       OpAddNode (sampleParsed "/repo/b.ts" []);
       OpAddEdge "/repo/a.ts" "/repo/b.ts" None]
  /\ addEdge fixtureBuilder "/repo/src/simple.ts" "/repo/src/missing.ts" None
     = fixtureBuilder.
Proof.
  split.
  - apply (proj2 (proj2 (proj2 (C1_builder_graph_well_formed sampleHost None [])))).
    left. vm_compute. now left.
  - apply (proj2 (proj2 (proj2 (C1_builder_graph_well_formed sampleHost None [])))).
    right. right. vm_compute. intros [H|[H|[]]]; discriminate H.
Defined.

(** ** Import resolution *)

Lemma substring_all (s : string) : String.substring 0 (String.length s) s = s.
Proof. induction s as [|c s IH]; simpl; [reflexivity | now rewrite IH]. Qed.

Lemma append_assoc (a b c : string) : (a +++ b) +++ c = a +++ (b +++ c).
Proof. induction a as [|x a IH]; simpl; [reflexivity | now rewrite IH]. Qed.

Lemma append_nil_r (a : string) : a +++ "" = a.
Proof. induction a as [|x a IH]; simpl; [reflexivity | now rewrite IH]. Qed.

Lemma prefix_dot (c : ascii) (s : string) :
  String.prefix "." (String c s) = Ascii.eqb c "."%char.
Proof.
  change (String.prefix "." (String c s))
    with (if ascii_dec "."%char c then String.prefix "" s else false).
  destruct (ascii_dec "."%char c) as [E|E].
  - subst. now destruct s.
  - symmetry. apply Ascii.eqb_neq. congruence.
Qed.

Lemma split_aux_nonempty (fuel : nat) : forall sep acc s,
  Js.split_aux fuel sep acc s <> [].
Proof.
  induction fuel as [|fuel IH]; intros sep acc s; [discriminate|].
  cbn [Js.split_aux]. destruct s as [|c s]; [discriminate|].
  destruct (String.prefix sep (String c s)); [discriminate | apply IH].
Qed.

(** Splitting at the dots and joining with dots gives the string back:
    [importPath.replace(/\./g, '.')] is [importPath]. *)
Lemma join_split_dot_aux (s : string) : forall fuel acc,
  String.length s < fuel ->
  Js.join (Js.split_aux fuel "." acc s) "." = acc +++ s.
Proof.
  induction s as [|c s IH]; intros fuel acc Hf;
    (destruct fuel as [|fuel]; [simpl in Hf; lia|]).
  - simpl. now rewrite append_nil_r.
  - cbn [Js.split_aux]. rewrite prefix_dot.
    destruct (Ascii.eqb c ".") eqn:E.
    + apply Ascii.eqb_eq in E. subst c.
      assert (Hs : Js.sliceFrom (String "." s) (String.length ".") = s).
      { unfold Js.sliceFrom. simpl. rewrite Nat.sub_0_r. apply substring_all. }
      rewrite Hs. unfold Js.join in *.
      assert (Hrest : String.concat "." (Js.split_aux fuel "." "" s) = s).
      { apply (IH fuel ""). simpl in Hf. lia. }
      destruct (Js.split_aux fuel "." "" s) as [|x l] eqn:El.
      * exfalso. now apply split_aux_nonempty in El.
      * change (String.concat "." (acc :: x :: l))
          with (acc +++ "." +++ String.concat "." (x :: l)).
        now rewrite Hrest.
    + rewrite IH by (simpl in Hf; lia). rewrite append_assoc. reflexivity.
Qed.

Lemma join_split_dot (s : string) : Js.join (Js.split s ".") "." = s.
Proof. unfold Js.split. rewrite join_split_dot_aux; [reflexivity | lia]. Qed.

Lemma has_get_Some {V} (m : JsMap.t V) (k : string) :
  JsMap.has m k = true -> exists v, JsMap.get m k = Some v.
Proof.
  unfold JsMap.has. destruct (JsMap.get m k) as [v|]; [now exists v | discriminate].
Qed.

Lemma firstHit_app (m : JsMap.t string) (l1 l2 : list string) :
  firstHit m (l1 ++ l2) = orElse (firstHit m l1) (firstHit m l2).
Proof.
  induction l1 as [|c l1 IH]; simpl; [reflexivity|].
  destruct (JsMap.has m c) eqn:E; [|assumption].
  destruct (has_get_Some m c E) as [v Hv]. now rewrite Hv.
Qed.

Lemma firstExisting_app (h : Host) (l1 l2 : list string) :
  firstExisting h (l1 ++ l2) = orElse (firstExisting h l1) (firstExisting h l2).
Proof.
  induction l1 as [|c l1 IH]; simpl; [reflexivity|].
  now destruct (existsSync h c).
Qed.

Lemma orElse_None_r {A} (a : option A) : orElse a None = a.
Proof. now destruct a. Qed.

Lemma orElse_assoc {A} (a b c : option A) :
  orElse (orElse a b) c = orElse a (orElse b c).
Proof. now destruct a. Qed.

Lemma moduleLookup_miss (b : GraphBuilder) (importPath : string) :
  JsMap.has (filePathMap b) importPath = false -> moduleLookup b importPath = None.
Proof.
  intros H. unfold moduleLookup. cbv zeta. rewrite join_split_dot. now rewrite H.
Qed.

Lemma get_set_keep {V} (m : JsMap.t V) (k k' : string) (v : V) :
  JsMap.get m k' = Some v -> JsMap.get (JsMap.set m k v) k' = Some v.
Proof. intros H. rewrite get_set. now destruct (String.eqb k k'). Qed.

(** Registering [/repo/src/helper.ts] indexes it under its path without
    the extension, whatever the repository root is. *)
Lemma addNode_helper_stem (h : Host) (b : GraphBuilder) (pf : ParsedFile) :
  pf_filePath pf = "/repo/src/helper.ts" ->
  JsMap.get (filePathMap (addNode h b pf)) "/repo/src/helper" = Some "/repo/src/helper.ts".
Proof.
  intros Hpath. unfold addNode, indexFile. rewrite Hpath. cbv zeta.
  cbn [repoRoot filePathMap graph].
  change (Path.extname "/repo/src/helper.ts") with ".ts".
  change (negb (String.eqb ".ts" "")) with true. cbv iota.
  change (Js.dropRight "/repo/src/helper.ts" (String.length ".ts")) with "/repo/src/helper".
  match goal with
  | |- JsMap.get (if ?c then _ else _) _ = _ => destruct c
  end.
  - do 3 apply get_set_keep. apply get_set_same.
  - do 2 apply get_set_keep. apply get_set_same.
Qed.

(** C3, as the code has it. For a specifier that starts with a dot and
    is not itself a key of the index, [resolveImport] strips a trailing
    [.js], resolves the rest against the directory of the importing
    file, and returns the file of the first candidate present in the
    index, among: the resolved path; the resolved path plus each of
    .ts .tsx .js .jsx .mjs .cjs .purs .hs .lhs; the index file with each
    of these extensions inside the resolved directory. When none is in
    the index it returns the first path that exists on disk among the
    resolved path plus each extension and then [index.ts] in the resolved
    directory, and nothing otherwise. In particular [./helper] imported
    from [src/simple.ts] resolves to the absolute path of
    [src/helper.ts]: when these two files are the registered ones, and
    more generally right after [src/helper.ts] is registered, in any
    builder where [./helper] is not itself a key. *)
Theorem C3_resolveImport_relative
        (h : Host) (b : GraphBuilder) (importPath fromFile : string) :
  Js.startsWith importPath "." = true ->
  JsMap.has (filePathMap b) importPath = false ->
  resolveImport h b importPath fromFile = specResolveRelative h b importPath fromFile
  /\ resolveImport h
       (fold_left (addNode h) fixtureFiles (newGraphBuilder h (Some "/repo")))
       "./helper" "/repo/src/simple.ts"
     = Some "/repo/src/helper.ts"
  /\ (forall pf, pf_filePath pf = "/repo/src/helper.ts" ->
                 JsMap.has (filePathMap (addNode h b pf)) "./helper" = false ->
                 resolveImport h (addNode h b pf) "./helper" "/repo/src/simple.ts"
                 = Some "/repo/src/helper.ts").
Proof.
  intros Hdot Hmiss.
  assert (Hgeneral : forall b' p f,
             Js.startsWith p "." = true -> JsMap.has (filePathMap b') p = false ->
             resolveImport h b' p f = specResolveRelative h b' p f).
  { clear. intros b importPath fromFile Hdot Hmiss.
    unfold resolveImport, specResolveRelative. cbv zeta.
    rewrite Hmiss, Hdot, (moduleLookup_miss b importPath Hmiss), orElse_None_r.
    set (resolved := Path.resolve h
           [Path.dirname fromFile;
            if Js.endsWith importPath ".js" then Js.dropRight importPath 3 else importPath]).
    unfold specIndexCandidates, filesystemCandidates.
    rewrite !firstHit_app, firstExisting_app. cbn [firstHit].
    destruct (JsMap.has (filePathMap b) resolved) eqn:Hres.
    - destruct (has_get_Some _ _ Hres) as [v Hv]. now rewrite Hv.
    - cbn [orElse].
      destruct (firstHit (filePathMap b) (map (fun ext => resolved +++ ext) extensions));
        [reflexivity|].
      cbn [orElse].
      now destruct (firstHit (filePathMap b)
                      (map (fun ext => Path.join [resolved; "index" +++ ext]) extensions)). }
  split; [now apply Hgeneral|]. split; [reflexivity|].
  intros pf Hpath Hkey.
  rewrite (Hgeneral _ "./helper" "/repo/src/simple.ts" eq_refl Hkey).
  unfold specResolveRelative. cbv zeta.
  change (Js.endsWith "./helper" ".js") with false. cbv iota.
  change (Path.resolve h [Path.dirname "/repo/src/simple.ts"; "./helper"])
    with "/repo/src/helper".
  unfold specIndexCandidates. cbn [app firstHit].
  pose proof (addNode_helper_stem h b pf Hpath) as Hstem.
  unfold JsMap.has. now rewrite Hstem.
Qed.

Lemma C3_witness :
  resolveImport sampleHost fixtureBuilder "./helper/index" "/repo/src/simple.ts"
  = specResolveRelative sampleHost fixtureBuilder "./helper/index" "/repo/src/simple.ts"
  /\ resolveImport sampleHost fixtureBuilder "./helper" "/repo/src/simple.ts"
     = Some "/repo/src/helper.ts".
Proof.
  destruct (C3_resolveImport_relative sampleHost fixtureBuilder
              "./helper/index" "/repo/src/simple.ts" eq_refl eq_refl) as [H1 [H2 _]].
  split; [exact H1 | exact H2].
Defined.

(** C3, counterexample to the claim as stated: a specifier that starts
    with a dot and is itself a key of the index is answered from the index
    at once, without being resolved against the importing file's
    directory. The file [/repo/shared/util.ts], outside the root
    [/repo/pkg], is indexed under [../shared/util]; importing that
    specifier from [/repo/pkg/src/deep/a.ts] yields it, although the
    resolved path [/repo/pkg/src/shared/util] matches no candidate. *)
Lemma C3_counterexample :
  Js.startsWith "../shared/util" "." = true
  /\ resolveImport sampleHost outsideRootBuilder "../shared/util" "/repo/pkg/src/deep/a.ts"
     = Some "/repo/shared/util.ts"
  /\ specResolveRelative sampleHost outsideRootBuilder "../shared/util"
                         "/repo/pkg/src/deep/a.ts"
     = None.
Proof. repeat split. Qed.

(** Deduplication keeps exactly the members of the list, once each. *)
Lemma dedupe_acc_spec (l : list string) : forall seen,
  NoDup (Js.dedupe_acc seen l)
  /\ forall x, In x (Js.dedupe_acc seen l) <-> (In x l /\ ~ In x seen).
Proof.
  induction l as [|y l IH]; intros seen; simpl.
  - split; [constructor | tauto].
  - destruct (existsb (String.eqb y) seen) eqn:E.
    + destruct (IH seen) as [Hnd Hin]. split; [assumption|].
      intros x. rewrite Hin. apply existsb_eqb_In in E. split.
      * tauto.
      * intros [[->|H] Hs]; [contradiction | tauto].
    + assert (Hy : ~ In y seen).
      { intros H. apply existsb_eqb_In in H. congruence. }
      destruct (IH (y :: seen)) as [Hnd Hin]. split.
      * constructor; [|assumption]. rewrite Hin. simpl. tauto.
      * intros x. simpl. rewrite Hin. simpl. split.
        -- intros [->|[H1 H2]]; [tauto|]. split; [now right | tauto].
        -- intros [[->|H1] H2]; [now left|].
           destruct (string_dec y x) as [->|Hne]; [now left|]. right. tauto.
Qed.

Lemma dedupe_spec (l : list string) :
  NoDup (Js.dedupe l) /\ forall x, In x (Js.dedupe l) <-> In x l.
Proof.
  unfold Js.dedupe. destruct (dedupe_acc_spec l []) as [Hnd Hin]. split; [assumption|].
  intros x. rewrite Hin. simpl. tauto.
Qed.

(** ** The TS/JS parser: external imports and export names *)

Lemma addEdge_filePathMap (b : GraphBuilder) (s t : string) (i : option (list string)) :
  filePathMap (addEdge b s t i) = filePathMap b.
Proof.
  destruct (addEdge_cases b s t i) as [[Heq _]|[_ [_ [_ Heq]]]]; now rewrite Heq.
Qed.

Lemma resolveImport_filePathMap (h : Host) (b b' : GraphBuilder) (importPath fromFile : string) :
  filePathMap b = filePathMap b' ->
  resolveImport h b importPath fromFile = resolveImport h b' importPath fromFile.
Proof.
  intros H. unfold resolveImport, moduleLookup. now rewrite H.
Qed.

Lemma addEdge_edges (b : GraphBuilder) (s t : string) (i : option (list string)) (e : Edge) :
  In e (edges (graph (addEdge b s t i))) ->
  In e (edges (graph b)) \/ (edge_source e = s /\ edge_target e = t).
Proof.
  destruct (addEdge_cases b s t i) as [[Heq _]|[_ [_ [_ Heq]]]]; rewrite Heq.
  - now left.
  - simpl. intros H. apply in_app_or in H. destruct H as [H|[H|[]]].
    + now left.
    + right. now subst e.
Qed.

(** Every edge stored while one file's imports are processed comes from
    one of these imports, resolved in the index as it was before. *)
Lemma processImports_provenance (h : Host) (pf : ParsedFile) (imps : list ImportDeclaration) :
  forall (b0 b : GraphBuilder) (e : Edge),
    filePathMap b = filePathMap b0 ->
    In e (edges (graph (fold_left (processImport h pf) imps b))) ->
    In e (edges (graph b))
    \/ exists imp, In imp imps
                   /\ edge_source e = pf_filePath pf
                   /\ resolveImport h b0 (imp_source imp) (pf_filePath pf)
                      = Some (edge_target e).
Proof.
  induction imps as [|imp imps IH]; intros b0 b e Hmap Hin; simpl in Hin.
  - now left.
  - assert (Hmap' : filePathMap (processImport h pf b imp) = filePathMap b0).
    { unfold processImport.
      destruct (resolveImport h b (imp_source imp) (pf_filePath pf)); [|assumption].
      destruct (String.eqb s ""); [assumption|]. now rewrite addEdge_filePathMap. }
    destruct (IH b0 _ e Hmap' Hin) as [Hold|[imp' [Himp' Hrest]]].
    + unfold processImport in Hold.
      destruct (resolveImport h b (imp_source imp) (pf_filePath pf)) as [target|] eqn:Hres;
        [|now left].
      destruct (String.eqb target ""); [now left|].
      apply addEdge_edges in Hold. destruct Hold as [Hold|[Hs Ht]]; [now left|].
      right. exists imp. split; [now left|]. split; [assumption|].
      rewrite <- (resolveImport_filePathMap h b b0 _ _ Hmap), Hres. now subst.
    + right. exists imp'. split; [now right | assumption].
Qed.

(** C7. No import of a ParsedFile returned by the TS/JS parser has a
    specifier without a leading dot or slash; in particular none has the
    bare specifier [path]. Consequently every edge the graph builder
    stores while processing such a file stems from an import whose
    specifier starts with a dot or a slash: a bare specifier produces no
    edge. *)
Theorem C7_no_external_imports
        (ph : ParserHost) (filePath : string) (pf : ParsedFile) :
  TsParser.parse ph filePath = Some pf ->
  (forall imp, In imp (pf_imports pf) ->
     Js.startsWith (imp_source imp) "." = true \/ Js.startsWith (imp_source imp) "/" = true)
  /\ (forall imp, In imp (pf_imports pf) -> imp_source imp <> "path")
  /\ (forall (h : Host) (b : GraphBuilder) (e : Edge),
        In e (edges (graph (processImports h b pf))) ->
        In e (edges (graph b))
        \/ exists imp, In imp (pf_imports pf)
                       /\ isExternalImport (imp_source imp) = false
                       /\ edge_source e = pf_filePath pf
                       /\ resolveImport h b (imp_source imp) (pf_filePath pf)
                          = Some (edge_target e)).
Proof.
  intros Hparse.
  assert (Hint : forall imp, In imp (pf_imports pf) ->
                             isExternalImport (imp_source imp) = false).
  { unfold TsParser.parse in Hparse.
    destruct (readFile ph filePath) as [content|]; [|discriminate].
    inversion Hparse as [Hpf]. clear Hparse. simpl.
    intros imp Himp. apply filter_In in Himp. destruct Himp as [_ Hext].
    now apply negb_true_iff in Hext. }
  split; [|split].
  - intros imp Himp. apply Hint in Himp. unfold isExternalImport in Himp.
    destruct (Js.startsWith (imp_source imp) "."); [now left|].
    destruct (Js.startsWith (imp_source imp) "/"); [now right | discriminate].
  - intros imp Himp Hsrc. apply Hint in Himp. rewrite Hsrc in Himp. discriminate.
  - intros h b e He. unfold processImports in He.
    destruct (processImports_provenance h pf (pf_imports pf) b b e eq_refl He)
      as [Hold|[imp [Himp [Hs Ht]]]]; [now left|].
    right. exists imp. repeat split; auto.
Qed.

Lemma C7_witness :
  (forall imp, In imp (pf_imports simpleTsParsed) ->
     Js.startsWith (imp_source imp) "." = true \/ Js.startsWith (imp_source imp) "/" = true)
  /\ (forall imp, In imp (pf_imports simpleTsParsed) -> imp_source imp <> "path")
  /\ (forall (h : Host) (b : GraphBuilder) (e : Edge),
        In e (edges (graph (processImports h b simpleTsParsed))) ->
        In e (edges (graph b))
        \/ exists imp, In imp (pf_imports simpleTsParsed)
                       /\ isExternalImport (imp_source imp) = false
                       /\ edge_source e = pf_filePath simpleTsParsed
                       /\ resolveImport h b (imp_source imp) (pf_filePath simpleTsParsed)
                          = Some (edge_target e)).
Proof.
  exact (C7_no_external_imports simpleTsHost "/repo/src/simple.ts" simpleTsParsed eq_refl).
Defined.

(** A default export is listed under the literal name [default]. *)
Lemma extractExports_default (root : SyntaxNode) (n : SyntaxNode) :
  In n (Ts.findNodesByType root "export_statement") ->
  Js.startsWith (Ts.text n) "export default" = true ->
  In "default" (TsParser.extractExports root).
Proof.
  intros Hn Hdef. unfold TsParser.extractExports. cbv zeta.
  apply dedupe_spec. apply in_or_app. right.
  destruct (filter (fun m => Js.startsWith (Ts.text m) "export default")
                   (Ts.findNodesByType root "export_statement")) as [|m ms] eqn:E.
  - exfalso. assert (Hin : In n []) by (rewrite <- E; apply filter_In; now split).
    contradiction.
  - simpl. now left.
Qed.

(** C8, the failing input. Whatever the syntax tree of the file is, the
    export names found by the CommonJS line scan are appended after the
    names from the tree were deduplicated, and are not deduplicated
    themselves: a module that assigns [exports.read] on two lines gets an
    exports list that ends with the name [read] twice. *)
Theorem C8_commonjs_exports_repeat
        (treeSitter : bool -> string -> option SyntaxNode) (filePath : string) :
  exists pf front,
    TsParser.parse (mkParserHost (fun _ => Some repeatedExportContent) treeSitter) filePath
    = Some pf
    /\ pf_exports pf = front ++ ["read"; "read"]
    /\ ~ NoDup (pf_exports pf).
Proof.
  unfold TsParser.parse. cbn [readFile treeSitterParse].
  eexists. eexists. split; [reflexivity|]. cbn [pf_exports].
  assert (Hcjs : TsParser.ex_exports (TsParser.extractCommonJS repeatedExportContent filePath)
                 = ["read"; "read"]) by reflexivity.
  rewrite Hcjs. split; [reflexivity|].
  intros Hnd. apply NoDup_remove_2 in Hnd. apply Hnd.
  apply in_or_app. right. now left.
Qed.

(** ** Pattern detection: errors and ordering *)

Lemma Qlt_bool_true (a b : Q) : Qlt_bool a b = true -> (a < b)%Q.
Proof.
  unfold Qlt_bool. intros H. apply negb_true_iff in H.
  apply Qnot_le_lt. intros Hle. apply Qle_bool_iff in Hle. congruence.
Qed.

Lemma Qlt_bool_false (a b : Q) : Qlt_bool a b = false -> (b <= a)%Q.
Proof.
  unfold Qlt_bool. intros H. apply negb_false_iff in H. now apply Qle_bool_iff.
Qed.

Section SortDescending.

Context {A : Type}.
Variable key : A -> Q.

Let desc (a b : A) : Prop := (key b <= key a)%Q.

Lemma insertStable_sorted (x : A) (l : list A) :
  StronglySorted desc l -> StronglySorted desc (insertStable (descendingBy key) x l).
Proof.
  induction l as [|y l IH]; intros Hs; simpl.
  - constructor; constructor.
  - inversion Hs as [|? ? Hs' Hall]; subst.
    unfold descendingBy at 1. destruct (Qlt_bool (key x) (key y)) eqn:E.
    + constructor; [now apply IH|].
      apply Forall_forall. intros z Hz.
      apply (Permutation_in _ (insertStable_perm _ x l)) in Hz.
      destruct Hz as [<-|Hz].
      * apply Qlt_le_weak. now apply Qlt_bool_true.
      * rewrite Forall_forall in Hall. now apply Hall.
    + apply Qlt_bool_false in E. constructor; [assumption|].
      constructor; [exact E|].
      apply Forall_forall. intros z Hz. rewrite Forall_forall in Hall.
      unfold desc. eapply Qle_trans; [apply (Hall z Hz) | exact E].
Qed.

Lemma sortStable_sorted (l : list A) :
  StronglySorted desc (sortStable (descendingBy key) l).
Proof.
  induction l as [|x l IH]; simpl; [constructor | now apply insertStable_sorted].
Qed.

End SortDescending.

(** C9, as the code has it. [detectPatterns] throws exactly when the
    root is falsy: absent, or the empty string. With a non-empty root it
    returns, and what it returns is the findings of the detectors that
    fired, in descending order of confidence. Every detector is a total
    function of the files, the root and the graph, so none raises an
    error. *)
Theorem C9_detectPatterns_errors_and_order (h : Host) (input : Detect.DetectPatternsInput) :
  ((exists message, Detect.detectPatterns h input = Detect.Thrown message)
   <-> repoRootFalsy input)
  /\ (forall root, Detect.in_repoRoot input = Some root -> root <> "" ->
      exists patterns,
        Detect.detectPatterns h input = Detect.Returned patterns
        /\ StronglySorted byConfidenceDesc patterns
        /\ Permutation patterns
             (Detect.runDetectors (Detect.PATTERN_DETECTORS h) (Detect.in_files input)
                                  root (Detect.in_graph input))).
Proof.
  unfold Detect.detectPatterns, repoRootFalsy. split.
  - destruct (Detect.in_repoRoot input) as [root|].
    + destruct (String.eqb root "") eqn:E.
      * apply String.eqb_eq in E. subst. split; [now right | now eexists].
      * apply String.eqb_neq in E. split.
        -- intros [message Hm]. discriminate.
        -- intros [H|H]; [discriminate | congruence].
    + split; [now left | now eexists].
  - intros root Hroot Hne. rewrite Hroot.
    apply String.eqb_neq in Hne. rewrite Hne. eexists. split; [reflexivity|]. split.
    + apply (sortStable_sorted confidence).
    + apply sortStable_perm.
Qed.

Lemma C9_witness :
  exists patterns,
    Detect.detectPatterns sampleHost monorepoInput = Detect.Returned patterns
    /\ StronglySorted byConfidenceDesc patterns
    /\ Permutation patterns
         (Detect.runDetectors (Detect.PATTERN_DETECTORS sampleHost)
                              (Detect.in_files monorepoInput) "/repo"
                              (Detect.in_graph monorepoInput)).
Proof.
  apply (proj2 (C9_detectPatterns_errors_and_order sampleHost monorepoInput) "/repo").
  - reflexivity.
  - discriminate.
Defined.

(** C9, counterexample to the claim as stated: a root is supplied, the
    empty string, and the call throws. *)
Lemma C9_counterexample :
  Detect.in_repoRoot emptyRootInput = Some ""
  /\ Detect.detectPatterns sampleHost emptyRootInput
     = Detect.Thrown "repoRoot is required for pattern detection".
Proof. split; reflexivity. Qed.

(** ** The cycle detector *)

Lemma setHas_iff (s : list string) (x : string) :
  Detect.setHas s x = true <-> In x s.
Proof. apply existsb_eqb_In. Qed.

Lemma setHas_setAdd (s : list string) (x y : string) :
  Detect.setHas (Detect.setAdd s x) y = String.eqb x y || Detect.setHas s y.
Proof.
  unfold Detect.setAdd. destruct (Detect.setHas s x) eqn:E.
  - destruct (String.eqb x y) eqn:Exy; [|reflexivity].
    apply String.eqb_eq in Exy. now subst.
  - unfold Detect.setHas. rewrite existsb_app. simpl.
    rewrite orb_false_r, (String.eqb_sym y x). apply orb_comm.
Qed.

Lemma setHas_setDelete (s : list string) (x y : string) :
  Detect.setHas (Detect.setDelete s x) y = negb (String.eqb x y) && Detect.setHas s y.
Proof.
  unfold Detect.setDelete, Detect.setHas.
  induction s as [|z s IH]; simpl; [now rewrite andb_false_r|].
  destruct (String.eqb x z) eqn:Exz; simpl.
  - rewrite IH. apply String.eqb_eq in Exz. subst z.
    rewrite (String.eqb_sym y x). now destruct (String.eqb x y).
  - rewrite IH. destruct (String.eqb y z) eqn:Eyz; simpl.
    + apply String.eqb_eq in Eyz. subst z. now rewrite Exz.
    + reflexivity.
Qed.

Lemma setDelete_absent (s : list string) (x : string) :
  Detect.setHas s x = false -> Detect.setDelete s x = s.
Proof.
  unfold Detect.setDelete, Detect.setHas.
  induction s as [|z s IH]; simpl; [reflexivity|].
  intros H. apply orb_false_iff in H. destruct H as [H1 H2].
  rewrite H1. simpl. now rewrite IH.
Qed.

Lemma setDelete_setAdd (s : list string) (x : string) :
  Detect.setHas s x = false -> Detect.setDelete (Detect.setAdd s x) x = s.
Proof.
  intros H. unfold Detect.setAdd. rewrite H. unfold Detect.setDelete.
  rewrite filter_app. simpl. rewrite String.eqb_refl. simpl. rewrite app_nil_r.
  now apply setDelete_absent.
Qed.

Section DfsStructure.

Variable adj : JsMap.t (list string).

Lemma extends_refl (st : Detect.DfsState) : extends st st.
Proof. repeat split; auto. exists []. now rewrite app_nil_r. Qed.

Lemma extends_trans (a b c : Detect.DfsState) : extends a b -> extends b c -> extends a c.
Proof.
  intros [Hs1 [Hv1 [e1 Hc1]]] [Hs2 [Hv2 [e2 Hc2]]]. repeat split.
  - congruence.
  - auto.
  - exists (e1 ++ e2). now rewrite Hc2, Hc1, app_assoc.
Qed.

Lemma visitNeighbor_extends rec path nb st st' :
  recExtends rec ->
  Detect.visitNeighbor rec path nb st = Some st' -> extends st st'.
Proof.
  intros Hrec. unfold Detect.visitNeighbor.
  destruct (Detect.setHas (Detect.stack st) nb) eqn:Hst.
  - destruct (Detect.indexOf path nb) as [idx|]; intros H; inversion H; subst.
    + repeat split; simpl; auto. now eexists.
    + apply extends_refl.
  - destruct (Detect.setHas (Detect.visited st) nb); simpl; intros H.
    + inversion H. subst. apply extends_refl.
    + now apply (Hrec _ _ _ _ H).
Qed.

Lemma visitNeighbors_extends rec path nbrs : forall st st',
  recExtends rec ->
  Detect.visitNeighbors rec path nbrs st = Some st' -> extends st st'.
Proof.
  induction nbrs as [|nb nbrs IH]; intros st st' Hrec H; simpl in H.
  - inversion H. apply extends_refl.
  - destruct (Detect.visitNeighbor rec path nb st) as [s1|] eqn:E; [|discriminate].
    eapply extends_trans; [eapply visitNeighbor_extends; eauto | now apply IH].
Qed.

Lemma dfs_extends (fuel : nat) : recExtends (Detect.dfs fuel adj).
Proof.
  induction fuel as [|fuel IH]; intros node path st st' H Hstack; [discriminate|].
  cbn [Detect.dfs] in H.
  destruct (Detect.visitNeighbors (Detect.dfs fuel adj) (path ++ [node])
              (getOrEmpty adj node)
              (Detect.mkDfs (Detect.setAdd (Detect.visited st) node)
                            (Detect.setAdd (Detect.stack st) node) (Detect.cycles st)))
    as [st2|] eqn:E; [|discriminate].
  inversion H. subst st'. clear H.
  apply visitNeighbors_extends in E; [|exact IH].
  destruct E as [Hs [Hv [extra Hc]]]. simpl in *. split.
  - repeat split; simpl.
    + rewrite Hs. now apply setDelete_setAdd.
    + intros x Hx. apply Hv. rewrite setHas_setAdd, Hx. apply orb_true_r.
    + now exists extra.
  - apply Hv. rewrite setHas_setAdd, String.eqb_refl. reflexivity.
Qed.

End DfsStructure.

Lemma unvisitedCount_mono (U v v' : list string) :
  (forall x, Detect.setHas v x = true -> Detect.setHas v' x = true) ->
  unvisitedCount U v' <= unvisitedCount U v.
Proof.
  intros H. unfold unvisitedCount.
  induction U as [|u us IH]; simpl; [lia|].
  destruct (Detect.setHas v u) eqn:E; simpl.
  - now rewrite (H u E).
  - destruct (Detect.setHas v' u); simpl; lia.
Qed.

Lemma unvisitedCount_add (U v : list string) (x : string) :
  In x U -> Detect.setHas v x = false ->
  unvisitedCount U (Detect.setAdd v x) < unvisitedCount U v.
Proof.
  intros Hin Hx. induction U as [|u us IH]; [contradiction|].
  assert (Hle : unvisitedCount us (Detect.setAdd v x) <= unvisitedCount us v).
  { apply unvisitedCount_mono. intros y Hy. rewrite setHas_setAdd, Hy. apply orb_true_r. }
  unfold unvisitedCount in *. simpl. rewrite setHas_setAdd.
  destruct Hin as [->|Hin].
  - rewrite String.eqb_refl, Hx. simpl. lia.
  - specialize (IH Hin). destruct (String.eqb x u); simpl.
    + destruct (Detect.setHas v u); simpl; lia.
    + destruct (Detect.setHas v u); simpl; lia.
Qed.

Lemma unvisitedCount_le (U v : list string) : unvisitedCount U v <= List.length U.
Proof. unfold unvisitedCount. apply filter_length_le. Qed.

Section DfsTermination.

Variable adj : JsMap.t (list string).
Variable U : list string.
Hypothesis closed : forall x y, In y (getOrEmpty adj x) -> In y U.

Lemma visitNeighbors_total (fuel : nat) rec path nbrs : forall st,
  recTotal U fuel rec -> recExtends rec ->
  (forall nb, In nb nbrs -> In nb U) ->
  unvisitedCount U (Detect.visited st) < fuel ->
  exists st', Detect.visitNeighbors rec path nbrs st = Some st'.
Proof.
  induction nbrs as [|nb nbrs IH]; intros st Htot Hext HU Hcount; simpl.
  - now eexists.
  - assert (Hstep : exists s1, Detect.visitNeighbor rec path nb st = Some s1).
    { unfold Detect.visitNeighbor.
      destruct (Detect.setHas (Detect.stack st) nb).
      - destruct (Detect.indexOf path nb); now eexists.
      - destruct (Detect.setHas (Detect.visited st) nb) eqn:Hv; simpl.
        + now eexists.
        + apply Htot; auto. apply HU. now left. }
    destruct Hstep as [s1 Hs1]. rewrite Hs1.
    apply IH; auto.
    + intros nb' Hnb'. apply HU. now right.
    + pose proof (visitNeighbor_extends rec path nb st s1 Hext Hs1) as [_ [Hv _]].
      pose proof (unvisitedCount_mono U _ _ Hv). lia.
Qed.

Lemma dfs_total (fuel : nat) : recTotal U fuel (Detect.dfs fuel adj).
Proof.
  induction fuel as [|fuel IH]; intros node path st Hcount Hin Hv; [lia|].
  cbn [Detect.dfs].
  destruct (visitNeighbors_total fuel (Detect.dfs fuel adj) (path ++ [node])
              (getOrEmpty adj node)
              (Detect.mkDfs (Detect.setAdd (Detect.visited st) node)
                            (Detect.setAdd (Detect.stack st) node) (Detect.cycles st)))
    as [st2 Hst2].
  - exact IH.
  - apply dfs_extends.
  - intros nb Hnb. now apply (closed node).
  - simpl. pose proof (unvisitedCount_add U _ node Hin Hv). lia.
  - rewrite Hst2. now eexists.
Qed.

Lemma dfsAll_total (nodeList : list string) : forall st,
  (forall n, In n nodeList -> In n U) ->
  Detect.stack st = [] ->
  exists st', Detect.dfsAll (S (List.length U)) adj nodeList st = Some st'
              /\ extends st st'
              /\ forall n, In n nodeList -> Detect.setHas (Detect.visited st') n = true.
Proof.
  induction nodeList as [|node rest IH]; intros st HU Hstack; cbn [Detect.dfsAll].
  - exists st. split; [reflexivity|]. split; [apply extends_refl | simpl; tauto].
  - destruct (Detect.setHas (Detect.visited st) node) eqn:Hv; cbn [negb].
    + destruct (IH st) as [st' [Hrun [Hext Hall]]]; auto.
      { intros n Hn. apply HU. now right. }
      exists st'. split; [assumption|]. split; [assumption|].
      intros n [<-|Hn]; [|now apply Hall]. destruct Hext as [_ [Hmono _]]. now apply Hmono.
    + destruct (dfs_total (S (List.length U)) node [] st) as [s1 Hs1]; auto.
      { pose proof (unvisitedCount_le U (Detect.visited st)). lia. }
      { apply HU. now left. }
      rewrite Hs1.
      destruct (dfs_extends adj _ _ _ _ _ Hs1) as [Hext1 Hnode].
      { now rewrite Hstack. }
      destruct (IH s1) as [st' [Hrun [Hext Hall]]].
      { intros n Hn. apply HU. now right. }
      { destruct Hext1 as [Hs _]. congruence. }
      exists st'. split; [assumption|]. split; [eapply extends_trans; eauto|].
      intros n [<-|Hn]; [|now apply Hall]. destruct Hext as [_ [Hmono _]]. now apply Hmono.
Qed.

End DfsTermination.

Lemma getOrEmpty_in_values (m : JsMap.t (list string)) (x y : string) :
  In y (getOrEmpty m x) -> In y (List.concat (JsMap.values m)).
Proof.
  unfold getOrEmpty, JsMap.values.
  induction m as [|[k l] m IH]; simpl; [tauto|].
  destruct (String.eqb k x); intros H; apply in_or_app; [now left | right; now apply IH].
Qed.

(** The fuel [findCycles] gives is enough: the search always returns,
    with an empty stack and every node visited. *)
Lemma findCycles_run (g : Graph) :
  exists st,
    Detect.dfsAll (Detect.dfsFuel g) (adjacencyList g) (JsMap.keys (nodes g))
                  (Detect.mkDfs [] [] [])
    = Some st
    /\ Detect.stack st = []
    /\ (forall n, In n (JsMap.keys (nodes g)) -> Detect.setHas (Detect.visited st) n = true)
    /\ Detect.findCycles g = Some (Detect.cycles st).
Proof.
  destruct (dfsAll_total (adjacencyList g) (Detect.universe g)) with
      (nodeList := JsMap.keys (nodes g)) (st := Detect.mkDfs [] [] [])
    as [st [Hrun [[Hstack _] Hall]]].
  - intros x y Hy. unfold Detect.universe. apply in_or_app. right.
    now apply (getOrEmpty_in_values _ x).
  - intros n Hn. unfold Detect.universe. apply in_or_app. now left.
  - reflexivity.
  - exists st. unfold Detect.findCycles, Detect.dfsFuel. rewrite Hrun. auto.
Qed.

Section DfsSoundness.

Variable adj : JsMap.t (list string).

Lemma chain_suffix (a b : list string) : chain adj (a ++ b) -> chain adj b.
Proof.
  induction a as [|x a IH]; simpl; [tauto|].
  destruct (a ++ b) as [|y l] eqn:E.
  - destruct a; [simpl in E; subst; simpl; tauto | discriminate].
  - intros [_ H]. now apply IH.
Qed.

Lemma chain_snoc (p : list string) (x y : string) :
  chain adj (p ++ [x]) -> edgeIn adj x y -> chain adj ((p ++ [x]) ++ [y]).
Proof.
  intros Hc He. induction p as [|z p IH]; simpl in *.
  - tauto.
  - destruct (p ++ [x]) as [|w l] eqn:E; [now destruct p|].
    simpl. destruct Hc as [H1 H2]. split; [assumption | now apply IH].
Qed.

Lemma chain_clos_trans (l : list string) : forall x y,
  chain adj (x :: l ++ [y]) -> clos_trans string (edgeIn adj) x y.
Proof.
  induction l as [|z l IH]; intros x y H; simpl in H.
  - apply t_step. tauto.
  - destruct H as [H1 H2]. eapply t_trans; [apply t_step; exact H1 | now apply IH].
Qed.

Lemma closedWalk_not_acyclic (c : list string) :
  closedWalk adj c -> acyclic adj -> False.
Proof.
  intros [v [mid [Hc Hch]]] Hacyc. subst c.
  apply (Hacyc v). now apply chain_clos_trans with (l := mid).
Qed.

Lemma indexOf_split (l : list string) (x : string) : forall i,
  Detect.indexOf l x = Some i ->
  exists pre post, l = pre ++ x :: post /\ skipn i l = x :: post.
Proof.
  induction l as [|y l IH]; intros i H; simpl in H; [discriminate|].
  destruct (String.eqb y x) eqn:E.
  - inversion H. subst i. apply String.eqb_eq in E. subst y.
    exists [], l. split; reflexivity.
  - destruct (Detect.indexOf l x) as [j|]; [|discriminate].
    inversion H. subst i. destruct (IH j eq_refl) as [pre [post [Hl Hs]]].
    exists (y :: pre), post. split; [simpl; now rewrite Hl | exact Hs].
Qed.

Lemma indexOf_found (l : list string) (x : string) :
  In x l -> exists i, Detect.indexOf l x = Some i.
Proof.
  induction l as [|y l IH]; intros H; simpl; [contradiction|].
  destruct (String.eqb y x) eqn:E; [now eexists|].
  destruct H as [H|H]; [subst; now rewrite String.eqb_refl in E|].
  destruct (IH H) as [i Hi]. rewrite Hi. now eexists.
Qed.

Lemma suffix_last (pre s p : list string) (node : string) :
  pre ++ s = p ++ [node] -> s <> [] -> exists q, s = q ++ [node].
Proof.
  intros H Hne. destruct (exists_last Hne) as [q [z Hs]]. subst s.
  rewrite app_assoc in H. apply app_inj_tail in H. destruct H as [_ ->]. now exists q.
Qed.

(** The cycle recorded at a back edge is a closed walk. *)
Lemma recorded_cycle_closed (p : list string) (node nb : string) (idx : nat) :
  chain adj (p ++ [node]) -> edgeIn adj node nb ->
  Detect.indexOf (p ++ [node]) nb = Some idx ->
  closedWalk adj (skipn idx (p ++ [node]) ++ [nb]).
Proof.
  intros Hch He Hidx.
  destruct (indexOf_split _ _ _ Hidx) as [pre [post [Hl Hs]]].
  rewrite Hs. exists nb, post. split; [reflexivity|].
  destruct (suffix_last pre (nb :: post) p node) as [q Hq]; [now symmetry | discriminate|].
  rewrite Hq. apply chain_snoc; [|assumption].
  rewrite <- Hq. apply (chain_suffix pre). now rewrite <- Hl.
Qed.

Lemma visitNeighbor_sound rec (p : list string) (node nb : string) st st' :
  recSound adj rec ->
  chain adj (p ++ [node]) -> edgeIn adj node nb -> allClosed adj st ->
  Detect.visitNeighbor rec (p ++ [node]) nb st = Some st' -> allClosed adj st'.
Proof.
  intros Hrec Hch He Hok. unfold Detect.visitNeighbor.
  destruct (Detect.setHas (Detect.stack st) nb).
  - destruct (Detect.indexOf (p ++ [node]) nb) as [idx|] eqn:Hidx;
      intros H; inversion H; subst; [|assumption].
    intros c Hc. simpl in Hc. apply in_app_or in Hc. destruct Hc as [Hc|[<-|[]]].
    + now apply Hok.
    + now apply recorded_cycle_closed.
  - destruct (Detect.setHas (Detect.visited st) nb); simpl; intros H.
    + inversion H. now subst.
    + apply (Hrec _ _ _ _ H); [now apply chain_snoc | assumption].
Qed.

Lemma visitNeighbors_sound rec (p : list string) (node : string) nbrs : forall st st',
  recSound adj rec ->
  chain adj (p ++ [node]) -> (forall nb, In nb nbrs -> edgeIn adj node nb) ->
  allClosed adj st ->
  Detect.visitNeighbors rec (p ++ [node]) nbrs st = Some st' -> allClosed adj st'.
Proof.
  induction nbrs as [|nb nbrs IH]; intros st st' Hrec Hch He Hok H; simpl in H.
  - inversion H. now subst.
  - destruct (Detect.visitNeighbor rec (p ++ [node]) nb st) as [s1|] eqn:E; [|discriminate].
    apply (IH s1 st'); auto.
    + intros nb' Hnb'. apply He. now right.
    + eapply visitNeighbor_sound; eauto. apply He. now left.
Qed.

Lemma dfs_sound (fuel : nat) : recSound adj (Detect.dfs fuel adj).
Proof.
  induction fuel as [|fuel IH]; intros node path st st' H Hch Hok; [discriminate|].
  cbn [Detect.dfs] in H.
  destruct (Detect.visitNeighbors (Detect.dfs fuel adj) (path ++ [node])
              (getOrEmpty adj node)
              (Detect.mkDfs (Detect.setAdd (Detect.visited st) node)
                            (Detect.setAdd (Detect.stack st) node) (Detect.cycles st)))
    as [st2|] eqn:E; [|discriminate].
  inversion H. subst st'. clear H.
  apply visitNeighbors_sound in E; auto.
Qed.

Lemma dfsAll_sound (fuel : nat) (nodeList : list string) : forall st st',
  allClosed adj st ->
  Detect.dfsAll fuel adj nodeList st = Some st' -> allClosed adj st'.
Proof.
  induction nodeList as [|node rest IH]; intros st st' Hok H; cbn [Detect.dfsAll] in H.
  - inversion H. now subst.
  - destruct (negb (Detect.setHas (Detect.visited st) node)).
    + destruct (Detect.dfs fuel adj node [] st) as [s1|] eqn:E; [|discriminate].
      apply (IH s1 st'); [|assumption].
      apply (dfs_sound fuel _ _ _ _ E); [simpl; tauto | assumption].
    + now apply (IH st st').
Qed.

End DfsSoundness.

(** Every cycle the detector records is a closed walk of the graph. *)
Lemma findCycles_sound (g : Graph) (cs : list (list string)) :
  Detect.findCycles g = Some cs ->
  forall c, In c cs -> closedWalk (adjacencyList g) c.
Proof.
  unfold Detect.findCycles.
  destruct (Detect.dfsAll (Detect.dfsFuel g) (adjacencyList g) (JsMap.keys (nodes g))
                          (Detect.mkDfs [] [] [])) as [st|] eqn:E; [|discriminate].
  intros H. inversion H. subst cs.
  apply (dfsAll_sound (adjacencyList g) _ _ _ _) with (2 := E).
  intros c Hc. simpl in Hc. contradiction.
Qed.

Lemma extends_found (st st' : Detect.DfsState) :
  extends st st' -> Detect.cycles st <> [] -> Detect.cycles st' <> [].
Proof.
  intros [_ [_ [extra Hc]]] Hne. rewrite Hc. destruct (Detect.cycles st); [congruence|].
  discriminate.
Qed.

Section DfsMutual.

Variable adj : JsMap.t (list string).

(** A neighbour that is on the stack yields a recorded cycle. *)
Lemma visitNeighbors_hit rec path nbrs (Y : string) : forall st st',
  recExtends rec ->
  Detect.visitNeighbors rec path nbrs st = Some st' ->
  In Y nbrs -> Detect.setHas (Detect.stack st) Y = true -> In Y path ->
  Detect.cycles st' <> [].
Proof.
  induction nbrs as [|nb nbrs IH]; intros st st' Hrec H HY Hstack Hpath; [contradiction|].
  simpl in H.
  destruct (Detect.visitNeighbor rec path nb st) as [s1|] eqn:E; [|discriminate].
  pose proof (visitNeighbor_extends rec path nb st s1 Hrec E) as Hext1.
  pose proof (visitNeighbors_extends rec path nbrs s1 st' Hrec H) as Hext2.
  destruct HY as [->|HY].
  - apply (extends_found s1 st' Hext2).
    unfold Detect.visitNeighbor in E. rewrite Hstack in E.
    destruct (indexOf_found path Y Hpath) as [i Hi]. rewrite Hi in E.
    inversion E. simpl. now destruct (Detect.cycles st).
  - apply (IH s1 st'); auto. destruct Hext1 as [Hs _]. now rewrite Hs.
Qed.

(** A call on a node with an edge back to a node of its own path, or to
    itself, records a cycle. *)
Lemma dfs_hit (fuel : nat) (X Y : string) path st st' :
  Detect.dfs fuel adj X path st = Some st' ->
  edgeIn adj X Y ->
  Y = X \/ (Detect.setHas (Detect.stack st) Y = true /\ In Y path) ->
  Detect.cycles st' <> [].
Proof.
  destruct fuel as [|fuel]; [discriminate|]. cbn [Detect.dfs].
  destruct (Detect.visitNeighbors (Detect.dfs fuel adj) (path ++ [X]) (getOrEmpty adj X)
              (Detect.mkDfs (Detect.setAdd (Detect.visited st) X)
                            (Detect.setAdd (Detect.stack st) X) (Detect.cycles st)))
    as [st2|] eqn:E; [|discriminate].
  intros H He Hcase. inversion H. subst st'. simpl.
  apply (visitNeighbors_hit _ _ _ Y _ _ (dfs_extends adj fuel) E He).
  - simpl. rewrite setHas_setAdd. destruct Hcase as [->|[Hs _]].
    + now rewrite String.eqb_refl.
    + rewrite Hs. apply orb_true_r.
  - apply in_or_app. destruct Hcase as [->|[_ Hp]]; [right; now left | now left].
Qed.

Variables A B : string.
Hypothesis edge_AB : edgeIn adj A B.
Hypothesis edge_BA : edgeIn adj B A.

Lemma visitNeighbor_pair (fuel : nat) path nb st st' :
  recPair A B (Detect.dfs fuel adj) ->
  stackOnPath st path -> pairInv A B st ->
  Detect.visitNeighbor (Detect.dfs fuel adj) path nb st = Some st' ->
  pairInv A B st'.
Proof.
  intros Hrec Hsp Hinv. unfold Detect.visitNeighbor.
  destruct (Detect.setHas (Detect.stack st) nb) eqn:Hs.
  - destruct (Detect.indexOf path nb); intros H; inversion H; subst; [|assumption].
    left. simpl. now destruct (Detect.cycles st).
  - destruct (Detect.setHas (Detect.visited st) nb) eqn:Hv; simpl; intros H.
    + inversion H. now subst.
    + now apply (Hrec _ _ _ _ H).
Qed.

(** The loop over the neighbours of [X], which is on the stack: the
    invariant is kept, and a neighbour of the pair with an edge back to
    [X] forces a recorded cycle. *)
Lemma visitNeighbors_pair (fuel : nat) (X : string) path nbrs : forall st st',
  recPair A B (Detect.dfs fuel adj) ->
  stackOnPath st path -> pairInv A B st ->
  Detect.setHas (Detect.stack st) X = true -> In X path ->
  Detect.visitNeighbors (Detect.dfs fuel adj) path nbrs st = Some st' ->
  pairInv A B st'
  /\ forall Y, In Y nbrs -> edgeIn adj Y X -> Y = A \/ Y = B -> Detect.cycles st' <> [].
Proof.
  induction nbrs as [|nb nbrs IH]; intros st st' Hrec Hsp Hinv HX HXp H; simpl in H.
  - inversion H. subst. split; [assumption | intros Y []].
  - destruct (Detect.visitNeighbor (Detect.dfs fuel adj) path nb st) as [s1|] eqn:E;
      [|discriminate].
    pose proof (visitNeighbor_extends _ path nb st s1 (dfs_extends adj fuel) E) as Hext1.
    pose proof (visitNeighbors_extends _ path nbrs s1 st' (dfs_extends adj fuel) H) as Hext2.
    assert (Hs1 : Detect.stack s1 = Detect.stack st) by (now destruct Hext1).
    destruct (IH s1 st') as [Hinv' Hhits]; auto.
    { intros x Hx. apply Hsp. now rewrite <- Hs1. }
    { eapply visitNeighbor_pair; eauto. }
    { now rewrite Hs1. }
    split; [assumption|].
    intros Y [->|HY] HYX Hpair; [|now apply (Hhits Y)].
    apply (extends_found s1 st' Hext2).
    unfold Detect.visitNeighbor in E.
    destruct (Detect.setHas (Detect.stack st) Y) eqn:HsY.
    + destruct (indexOf_found path Y (Hsp Y HsY)) as [i Hi]. rewrite Hi in E.
      inversion E. simpl. now destruct (Detect.cycles st).
    + destruct (Detect.setHas (Detect.visited st) Y) eqn:HvY; simpl in E.
      * inversion E. subst s1.
        destruct Hinv as [Hfound|[HfA HfB]]; [assumption|]. exfalso.
        assert (HfY : finished st Y = true) by (unfold finished; now rewrite HvY, HsY).
        destruct Hpair as [->| ->]; congruence.
      * apply (dfs_hit fuel Y X path st s1 E HYX). right. now split.
Qed.

Lemma finished_push (st : Detect.DfsState) (X Z : string) :
  finished (Detect.mkDfs (Detect.setAdd (Detect.visited st) X)
                         (Detect.setAdd (Detect.stack st) X) (Detect.cycles st)) Z
  = if String.eqb X Z then false else finished st Z.
Proof.
  unfold finished. simpl. rewrite !setHas_setAdd.
  destruct (String.eqb X Z); simpl; rewrite ?andb_false_r; reflexivity.
Qed.

Lemma dfs_pair (fuel : nat) : recPair A B (Detect.dfs fuel adj).
Proof.
  induction fuel as [|fuel IH]; intros X path st st' H Hv Hs Hsp Hinv; [discriminate|].
  cbn [Detect.dfs] in H.
  destruct (Detect.visitNeighbors (Detect.dfs fuel adj) (path ++ [X]) (getOrEmpty adj X)
              (Detect.mkDfs (Detect.setAdd (Detect.visited st) X)
                            (Detect.setAdd (Detect.stack st) X) (Detect.cycles st)))
    as [st2|] eqn:E; [|discriminate].
  inversion H. subst st'. clear H.
  pose proof (visitNeighbors_extends _ _ _ _ _ (dfs_extends adj fuel) E) as [Hstack2 _].
  simpl in Hstack2.
  assert (Hsp1 : stackOnPath
                   (Detect.mkDfs (Detect.setAdd (Detect.visited st) X)
                                 (Detect.setAdd (Detect.stack st) X) (Detect.cycles st))
                   (path ++ [X])).
  { intros x Hx. simpl in Hx. rewrite setHas_setAdd in Hx.
    apply in_or_app. destruct (String.eqb X x) eqn:Ex.
    - apply String.eqb_eq in Ex. subst. right. now left.
    - left. now apply Hsp. }
  assert (Hinv1 : pairInv A B
                    (Detect.mkDfs (Detect.setAdd (Detect.visited st) X)
                                  (Detect.setAdd (Detect.stack st) X) (Detect.cycles st))).
  { destruct Hinv as [Hfound|[HfA HfB]]; [now left|]. right.
    rewrite !finished_push. split.
    - now destruct (String.eqb X A).
    - now destruct (String.eqb X B). }
  assert (HX1 : Detect.setHas (Detect.setAdd (Detect.stack st) X) X = true).
  { rewrite setHas_setAdd, String.eqb_refl. reflexivity. }
  assert (HXp : In X (path ++ [X])) by (apply in_or_app; right; now left).
  destruct (visitNeighbors_pair fuel X _ _ _ _ IH Hsp1 Hinv1 HX1 HXp E) as [Hinv2 Hhits].
  destruct (Detect.cycles st2) as [|c cs] eqn:Hc; [|left; simpl; discriminate].
  destruct Hinv2 as [Hfound|[HfA HfB]]; [congruence|].
  right.
  assert (Hkeep : forall Z, finished st2 Z = false -> X <> Z ->
                            finished (Detect.mkDfs (Detect.visited st2)
                                        (Detect.setDelete (Detect.stack st2) X)
                                        (Detect.cycles st2)) Z = false).
  { intros Z HZ Hne. unfold finished in *. simpl. rewrite setHas_setDelete.
    apply String.eqb_neq in Hne. now rewrite Hne. }
  destruct (string_dec X A) as [->|HXA].
  - exfalso. apply (Hhits B edge_AB edge_BA); [now right | reflexivity].
  - destruct (string_dec X B) as [->|HXB].
    + exfalso. apply (Hhits A edge_BA edge_AB); [now left | reflexivity].
    + split; now apply Hkeep.
Qed.

Lemma dfsAll_pair (fuel : nat) (nodeList : list string) : forall st st',
  Detect.stack st = [] -> pairInv A B st ->
  Detect.dfsAll fuel adj nodeList st = Some st' -> pairInv A B st'.
Proof.
  induction nodeList as [|node rest IH]; intros st st' Hstack Hinv H;
    cbn [Detect.dfsAll] in H.
  - inversion H. now subst.
  - destruct (Detect.setHas (Detect.visited st) node) eqn:Hv; cbn [negb] in H.
    + now apply (IH st st').
    + destruct (Detect.dfs fuel adj node [] st) as [s1|] eqn:E; [|discriminate].
      apply (IH s1 st'); [| |assumption].
      * destruct (dfs_extends adj fuel _ _ _ _ E) as [[Hs _] _]; [now rewrite Hstack|].
        congruence.
      * apply (dfs_pair fuel _ _ _ _ E); auto.
        -- now rewrite Hstack.
        -- intros x Hx. rewrite Hstack in Hx. discriminate.
Qed.

End DfsMutual.

(** A registered node with a mutual edge makes the detector record a
    cycle. *)
Lemma findCycles_mutual (g : Graph) (A B : string) :
  In A (JsMap.keys (nodes g)) ->
  In B (getImports g A) -> In A (getImports g B) ->
  exists cs, Detect.findCycles g = Some cs /\ cs <> [].
Proof.
  intros HA HAB HBA.
  destruct (findCycles_run g) as [st [Hrun [Hstack [Hall Hfind]]]].
  exists (Detect.cycles st). split; [assumption|].
  assert (Hinv : pairInv A B st).
  { apply (dfsAll_pair (adjacencyList g) A B HAB HBA (Detect.dfsFuel g)
                       (JsMap.keys (nodes g)) (Detect.mkDfs [] [] []) st);
      [reflexivity | right; split; reflexivity | exact Hrun]. }
  destruct Hinv as [Hfound|[HfA _]]; [assumption|].
  unfold finished in HfA. rewrite (Hall A HA), Hstack in HfA. discriminate.
Qed.

Section TwoEdgeGraph.

Variable adj : JsMap.t (list string).

(** A node without outgoing edges is marked and nothing else changes. *)
Lemma dfs_isolated (fuel : nat) (x : string) (st : Detect.DfsState) :
  getOrEmpty adj x = [] -> Detect.stack st = [] ->
  Detect.dfs (S fuel) adj x [] st
  = Some (Detect.mkDfs (Detect.setAdd (Detect.visited st) x) [] (Detect.cycles st)).
Proof.
  intros Hx Hs. cbn [Detect.dfs]. rewrite Hx, Hs. simpl. now rewrite String.eqb_refl.
Qed.

Lemma dfs_unfold (fuel : nat) (node : string) (path : list string) (st : Detect.DfsState) :
  Detect.dfs (S fuel) adj node path st
  = match Detect.visitNeighbors (Detect.dfs fuel adj) (path ++ [node])
            (getOrEmpty adj node)
            (Detect.mkDfs (Detect.setAdd (Detect.visited st) node)
                          (Detect.setAdd (Detect.stack st) node) (Detect.cycles st)) with
    | Some st2 =>
      Some (Detect.mkDfs (Detect.visited st2) (Detect.setDelete (Detect.stack st2) node)
                         (Detect.cycles st2))
    | None => None
    end.
Proof. reflexivity. Qed.

Lemma visitNeighbors_single rec path (nb : string) (st : Detect.DfsState) :
  Detect.visitNeighbors rec path [nb] st = Detect.visitNeighbor rec path nb st.
Proof. simpl. now destruct (Detect.visitNeighbor rec path nb st). Qed.

(** Reached from [P], which is on the stack, the node [Q] records the
    2-cycle. *)
Lemma dfs_pair_inner (fuel : nat) (P Q : string) (v : list string) (cs : list (list string)) :
  P <> Q -> getOrEmpty adj Q = [P] ->
  Detect.dfs (S fuel) adj Q [P] (Detect.mkDfs v [P] cs)
  = Some (Detect.mkDfs (Detect.setAdd v Q) [P] (cs ++ [[P; Q; P]])).
Proof.
  intros Hne HQ.
  assert (EPQ : String.eqb P Q = false) by now apply String.eqb_neq.
  assert (EQP : String.eqb Q P = false) by (rewrite String.eqb_sym; exact EPQ).
  rewrite dfs_unfold, HQ, visitNeighbors_single.
  unfold Detect.visitNeighbor. cbn [Detect.stack Detect.visited Detect.cycles].
  assert (H3 : Detect.setHas (Detect.setAdd [P] Q) P = true).
  { rewrite setHas_setAdd. unfold Detect.setHas. simpl. rewrite String.eqb_refl.
    apply orb_true_r. }
  rewrite H3. cbn [app Detect.indexOf]. rewrite String.eqb_refl. cbn [skipn app].
  f_equal. f_equal.
  unfold Detect.setAdd, Detect.setHas, Detect.setDelete. simpl.
  rewrite EQP. simpl. rewrite EQP, String.eqb_refl. reflexivity.
Qed.

(** Started at [P] with [Q] unvisited, the search goes to [Q], finds [P]
    on the stack and records the 2-cycle. *)
Lemma dfs_pair_start (fuel : nat) (P Q : string) (st : Detect.DfsState) :
  P <> Q -> getOrEmpty adj P = [Q] -> getOrEmpty adj Q = [P] ->
  Detect.setHas (Detect.visited st) Q = false ->
  Detect.stack st = [] ->
  Detect.dfs (S (S fuel)) adj P [] st
  = Some (Detect.mkDfs (Detect.setAdd (Detect.setAdd (Detect.visited st) P) Q) []
                       (Detect.cycles st ++ [[P; Q; P]])).
Proof.
  intros Hne HP HQ Hv Hs.
  assert (EPQ : String.eqb P Q = false) by now apply String.eqb_neq.
  assert (EQP : String.eqb Q P = false) by (rewrite String.eqb_sym; exact EPQ).
  rewrite dfs_unfold, HP, Hs, visitNeighbors_single.
  unfold Detect.visitNeighbor. cbn [Detect.stack Detect.visited Detect.cycles].
  assert (H0 : Detect.setAdd [] P = [P]) by reflexivity.
  assert (H1 : Detect.setHas [P] Q = false).
  { unfold Detect.setHas. simpl. now rewrite EQP. }
  assert (H2 : Detect.setHas (Detect.setAdd (Detect.visited st) P) Q = false).
  { rewrite setHas_setAdd, EPQ, Hv. reflexivity. }
  rewrite H0, H1, H2. cbn [negb app].
  rewrite (dfs_pair_inner fuel P Q _ _ Hne HQ).
  cbn [Detect.stack Detect.visited Detect.cycles]. f_equal. f_equal.
  unfold Detect.setDelete. simpl. now rewrite String.eqb_refl.
Qed.

Variables A B : string.
Hypothesis only : onlyMutualEdges adj A B.

Lemma dfsAll_after_pair (fuel : nat) (c : list string) (nodeList : list string) :
  forall st, pairVisited A B c st ->
  exists st', Detect.dfsAll (S fuel) adj nodeList st = Some st' /\ pairVisited A B c st'.
Proof.
  destruct only as [Hne [HA [HB Hrest]]].
  induction nodeList as [|x rest IH]; intros st Hst; cbn [Detect.dfsAll].
  - now exists st.
  - destruct (Detect.setHas (Detect.visited st) x) eqn:Hv; cbn [negb]; [now apply IH|].
    destruct Hst as [HvA [HvB [Hs Hc]]].
    assert (HxA : x <> A) by (intros ->; congruence).
    assert (HxB : x <> B) by (intros ->; congruence).
    rewrite (dfs_isolated fuel x st (Hrest x HxA HxB) Hs). apply IH.
    repeat split; simpl; auto; rewrite setHas_setAdd; [rewrite HvA | rewrite HvB];
      apply orb_true_r.
Qed.

Lemma dfsAll_two_edges (fuel : nat) (nodeList : list string) :
  forall st, pairUnvisited A B st -> In A nodeList \/ In B nodeList ->
  exists st' X Y,
    Detect.dfsAll (S (S fuel)) adj nodeList st = Some st'
    /\ X <> Y /\ pairVisited A B [X; Y; X] st'.
Proof.
  destruct only as [Hne [HA [HB Hrest]]].
  induction nodeList as [|x rest IH]; intros st Hst Hin; [destruct Hin as [[]|[]]|].
  cbn [Detect.dfsAll]. destruct Hst as [HvA [HvB [Hs Hc]]].
  destruct (string_dec x A) as [->|HxA].
  - rewrite HvA. cbn [negb].
    rewrite (dfs_pair_start fuel A B st Hne HA HB HvB Hs).
    destruct (dfsAll_after_pair (S fuel) [A; B; A] rest
                (Detect.mkDfs (Detect.setAdd (Detect.setAdd (Detect.visited st) A) B) []
                              (Detect.cycles st ++ [[A; B; A]])))
      as [st' [Hrun Hfin]].
    + repeat split; simpl.
      * rewrite !setHas_setAdd, String.eqb_refl. apply orb_true_r.
      * rewrite setHas_setAdd, String.eqb_refl. reflexivity.
      * now rewrite Hc.
    + exists st', A, B. auto.
  - destruct (string_dec x B) as [->|HxB].
    + rewrite HvB. cbn [negb].
      assert (Hne' : B <> A) by congruence.
      rewrite (dfs_pair_start fuel B A st Hne' HB HA HvA Hs).
      destruct (dfsAll_after_pair (S fuel) [B; A; B] rest
                  (Detect.mkDfs (Detect.setAdd (Detect.setAdd (Detect.visited st) B) A) []
                                (Detect.cycles st ++ [[B; A; B]])))
        as [st' [Hrun Hfin]].
      * repeat split; simpl.
        -- rewrite setHas_setAdd, String.eqb_refl. reflexivity.
        -- rewrite !setHas_setAdd, String.eqb_refl. apply orb_true_r.
        -- now rewrite Hc.
      * exists st', B, A. auto.
    + assert (Hin' : In A rest \/ In B rest).
      { destruct Hin as [[H|H]|[H|H]]; try congruence; auto. }
      destruct (Detect.setHas (Detect.visited st) x) eqn:Hv; cbn [negb].
      * apply IH; [repeat split; auto | assumption].
      * rewrite (dfs_isolated (S fuel) x st (Hrest x HxA HxB) Hs). apply IH; [|assumption].
        repeat split; simpl; auto; rewrite setHas_setAdd.
        -- apply String.eqb_neq in HxA. now rewrite HxA.
        -- apply String.eqb_neq in HxB. now rewrite HxB.
Qed.

End TwoEdgeGraph.

(** When the mutual edges of two distinct nodes are the only edges of
    the graph, the detector records the 2-cycle and nothing else. *)
Lemma findCycles_two_edges (g : Graph) (A B : string) :
  onlyMutualEdges (adjacencyList g) A B ->
  In A (JsMap.keys (nodes g)) ->
  exists X Y, X <> Y /\ Detect.findCycles g = Some [[X; Y; X]].
Proof.
  intros Honly HA. unfold Detect.findCycles, Detect.dfsFuel.
  assert (Hlen : exists f, List.length (Detect.universe g) = S f).
  { unfold Detect.universe. destruct (JsMap.keys (nodes g)) as [|k ks]; [contradiction|].
    simpl. now eexists. }
  destruct Hlen as [f Hf]. rewrite Hf.
  destruct (dfsAll_two_edges (adjacencyList g) A B Honly f (JsMap.keys (nodes g))
              (Detect.mkDfs [] [] []))
    as [st' [X [Y [Hrun [Hne [_ [_ [_ Hc]]]]]]]].
  - repeat split; reflexivity.
  - now left.
  - exists X, Y. split; [assumption|]. now rewrite Hrun, Hc.
Qed.

Lemma qminimum_Qmin (a b : Q) : (Detect.qminimum a b == Qmin a b)%Q.
Proof.
  unfold Detect.qminimum. destruct (Qle_bool a b) eqn:E.
  - apply Qle_bool_iff in E. symmetry. now apply Q.min_l.
  - assert (H : (b <= a)%Q).
    { apply Qlt_le_weak, Qnot_le_lt. intros H. apply Qle_bool_iff in H. congruence. }
    symmetry. now apply Q.min_r.
Qed.

Lemma circularPattern_none (cs : list (list string)) :
  Detect.circularPattern cs = None <-> cs = [].
Proof.
  unfold Detect.circularPattern. destruct cs; simpl; split; congruence.
Qed.

(** C4, as the code has it. The search always returns, and every cycle
    it records is a closed walk of the graph. For every graph in which a
    registered node A and a node B import each other, the Circular
    Dependencies detector returns a finding; the cycle it reports need
    not be the 2-cycle of A and B. When these two edges between two
    distinct nodes are the only edges of the graph, the finding reports
    exactly the 2-cycle. For every acyclic graph the detector returns no
    finding. When it fires, its confidence is min(1, n/5), with n the
    number of distinct printed node sequences among the recorded
    cycles. *)
Theorem C4_circular_dependencies (g : Graph) (files : list string) (root : string) :
  (exists cs, Detect.findCycles g = Some cs
              /\ (forall c, In c cs -> closedWalk (adjacencyList g) c)
              /\ Detect.detectCircularDependencies files root g = Detect.circularPattern cs)
  /\ (forall A B, In A (JsMap.keys (nodes g)) ->
                  In B (getImports g A) -> In A (getImports g B) ->
        exists p, Detect.detectCircularDependencies files root g = Some p
                  /\ pattern p = "Circular Dependencies")
  /\ (forall A B, onlyMutualEdges (adjacencyList g) A B -> In A (JsMap.keys (nodes g)) ->
        exists X Y p, isTwoCycle [X; Y; X]
                      /\ Detect.findCycles g = Some [[X; Y; X]]
                      /\ Detect.detectCircularDependencies files root g = Some p
                      /\ evidence p = singleCycleEvidence [X; Y; X])
  /\ (acyclic (adjacencyList g) -> Detect.detectCircularDependencies files root g = None)
  /\ (forall p, Detect.detectCircularDependencies files root g = Some p ->
        exists cs, Detect.findCycles g = Some cs
                   /\ NoDup (Js.dedupe (map Detect.printCycle cs))
                   /\ (forall s, In s (Js.dedupe (map Detect.printCycle cs))
                                 <-> In s (map Detect.printCycle cs))
                   /\ (confidence p
                       == Qmin 1 (natQ (List.length (Js.dedupe (map Detect.printCycle cs))) / 5))%Q).
Proof.
  destruct (findCycles_run g) as [st [_ [_ [_ Hfind]]]].
  assert (Hdetect : Detect.detectCircularDependencies files root g
                    = Detect.circularPattern (Detect.cycles st)).
  { unfold Detect.detectCircularDependencies. now rewrite Hfind. }
  split; [|split; [|split; [|split]]].
  - exists (Detect.cycles st). split; [assumption|]. split; [|assumption].
    now apply findCycles_sound.
  - intros A B HA HAB HBA.
    destruct (findCycles_mutual g A B HA HAB HBA) as [cs [Hcs Hne]].
    rewrite Hdetect. rewrite Hfind in Hcs. injection Hcs as Heq. rewrite Heq.
    unfold Detect.circularPattern. destruct cs as [|c cs']; [congruence|].
    simpl. eexists. split; reflexivity.
  - intros A B Honly HA.
    destruct (findCycles_two_edges g A B Honly HA) as [X [Y [Hne Hcs]]].
    exists X, Y. eexists. split; [now exists X, Y|]. split; [assumption|].
    unfold Detect.detectCircularDependencies. rewrite Hcs.
    unfold Detect.circularPattern. cbn [List.length Nat.eqb]. split; [reflexivity|].
    reflexivity.
  - intros Hacyc. rewrite Hdetect. apply circularPattern_none.
    destruct (Detect.cycles st) as [|c cs] eqn:Hc; [reflexivity|]. exfalso.
    apply (closedWalk_not_acyclic (adjacencyList g) c); [|assumption].
    apply (findCycles_sound g _ Hfind). now left.
  - intros p Hp. exists (Detect.cycles st). split; [assumption|].
    destruct (dedupe_spec (map Detect.printCycle (Detect.cycles st))) as [Hnd Hin].
    split; [assumption|]. split; [assumption|].
    rewrite Hdetect in Hp. unfold Detect.circularPattern in Hp.
    destruct (List.length (Detect.cycles st) =? 0); [discriminate|].
    inversion Hp. cbn [confidence]. unfold Detect.uniqueCycles.
    rewrite length_map. apply qminimum_Qmin.
Qed.

Lemma makeCycleGraph_only_mutual :
  onlyMutualEdges (adjacencyList makeCycleGraph) "/tmp/repo/a.ts" "/tmp/repo/b.ts".
Proof.
  split; [discriminate|]. split; [reflexivity|]. split; [reflexivity|].
  intros x HxA HxB. unfold getOrEmpty, makeCycleGraph. cbn [adjacencyList JsMap.get].
  destruct (String.eqb "/tmp/repo/a.ts" x) eqn:Ea.
  - apply String.eqb_eq in Ea. congruence.
  - destruct (String.eqb "/tmp/repo/b.ts" x) eqn:Eb.
    + apply String.eqb_eq in Eb. congruence.
    + now destruct (String.eqb "/tmp/repo/dead.ts" x).
Qed.

Lemma C4_witness :
  (exists X Y p,
      isTwoCycle [X; Y; X]
      /\ Detect.findCycles makeCycleGraph = Some [[X; Y; X]]
      /\ Detect.detectCircularDependencies [] "/tmp/repo" makeCycleGraph = Some p
      /\ evidence p = singleCycleEvidence [X; Y; X])
  /\ (exists p, Detect.detectCircularDependencies [] "/tmp/repo" makeCycleGraph = Some p
                /\ pattern p = "Circular Dependencies").
Proof.
  destruct (C4_circular_dependencies makeCycleGraph [] "/tmp/repo")
    as [_ [Hmutual [Honly _]]].
  split.
  - apply (Honly "/tmp/repo/a.ts" "/tmp/repo/b.ts").
    + exact makeCycleGraph_only_mutual.
    + simpl. now left.
  - apply (Hmutual "/tmp/repo/a.ts" "/tmp/repo/b.ts").
    + simpl. now left.
    + simpl. now left.
    + simpl. now left.
Defined.

(** C4, counterexample to the claim as stated. In this graph, built by
    the graph builder, a and b import each other, and a also imports c,
    which imports b. The search goes from a to c to b, finds a on the
    stack and records the cycle a, c, b, a; b is then already visited
    when a's second edge is looked at, so the 2-cycle of a and b is never
    recorded. The evidence holds one cycle, of four entries. *)
Lemma C4_counterexample :
  In "/r/b.ts" (getImports detourGraph "/r/a.ts")
  /\ In "/r/a.ts" (getImports detourGraph "/r/b.ts")
  /\ Detect.findCycles detourGraph = Some [["/r/a.ts"; "/r/c.ts"; "/r/b.ts"; "/r/a.ts"]]
  /\ exampleCycles [["/r/a.ts"; "/r/c.ts"; "/r/b.ts"; "/r/a.ts"]]
     = [["/r/a.ts"; "/r/c.ts"; "/r/b.ts"; "/r/a.ts"]]
  /\ (exists p, Detect.detectCircularDependencies [] "/r" detourGraph = Some p
                /\ evidence p
                   = ["Detected 1 cycles (longest length: 4)";
                      Detect.cycleLine ["/r/a.ts"; "/r/c.ts"; "/r/b.ts"; "/r/a.ts"]])
  /\ ~ isTwoCycle ["/r/a.ts"; "/r/c.ts"; "/r/b.ts"; "/r/a.ts"].
Proof.
  split; [vm_compute; tauto|]. split; [vm_compute; tauto|].
  split; [reflexivity|]. split; [reflexivity|]. split.
  - eexists. split; reflexivity.
  - intros [x [y [_ H]]]. discriminate H.
Qed.

(* ===================================================================== *)
(** * Further properties of the pipeline *)
(* ===================================================================== *)

(** ** Induction over the operations of a builder *)

Section BuilderInduction.

Variable h : Host.
Variable P : GraphBuilder -> Prop.

Hypothesis P_addNode : forall b pf, P b -> P (addNode h b pf).
Hypothesis P_withEdge : forall b s t i,
  P b ->
  JsMap.has (nodes (graph b)) s = true ->
  JsMap.has (nodes (graph b)) t = true ->
  ~ In (s, t) (map endpoints (edges (graph b))) ->
  P (withEdge b s t i).

Lemma addEdge_preserves (b : GraphBuilder) (s t : string) (i : option (list string)) :
  P b -> P (addEdge b s t i).
Proof.
  intros Hb.
  destruct (addEdge_cases b s t i) as [[Heq _]|[Hs [Ht [Hnew Heq]]]]; rewrite Heq;
    [assumption | now apply P_withEdge].
Qed.

Lemma processImports_preserves (pf : ParsedFile) (b : GraphBuilder) :
  P b -> P (processImports h b pf).
Proof.
  unfold processImports. revert b.
  induction (pf_imports pf) as [|imp imps IH]; intros b Hb; simpl; [assumption|].
  apply IH. unfold processImport.
  destruct (resolveImport h b (imp_source imp) (pf_filePath pf)) as [target|];
    [|assumption].
  destruct (String.eqb target ""); [assumption | now apply addEdge_preserves].
Qed.

Lemma fold_applyOp_preserves (ops : list BuilderOp) : forall b,
  P b -> P (fold_left (applyOp h) ops b).
Proof.
  induction ops as [|op ops IH]; intros b Hb; simpl; [assumption|].
  apply IH. destruct op; simpl.
  - now apply P_addNode.
  - now apply addEdge_preserves.
  - now apply processImports_preserves.
Qed.

End BuilderInduction.

(** ** What every state of a builder satisfies *)

Lemma addEdge_withEdge (b : GraphBuilder) (s t : string) (i : option (list string)) :
  JsMap.has (nodes (graph b)) s = true ->
  JsMap.has (nodes (graph b)) t = true ->
  ~ In (s, t) (map endpoints (edges (graph b))) ->
  addEdge b s t i = withEdge b s t i.
Proof.
  intros Hs Ht Hnew.
  destruct (addEdge_cases b s t i) as [[_ [H|[H|H]]]|[_ [_ [_ Heq]]]];
    [congruence | congruence | contradiction | exact Heq].
Qed.

Lemma flat_map_same {B} (f f' : string -> list B) (ks : list string) :
  (forall k, In k ks -> f' k = f k) -> flat_map f' ks = flat_map f ks.
Proof.
  induction ks as [|k ks IH]; intros H; simpl; [reflexivity|].
  rewrite (H k (or_introl eq_refl)), IH; [reflexivity|].
  intros k' Hk'. apply H. now right.
Qed.

(** One list of a family grows by one element at its end. *)
Lemma flat_map_push {B} (f f' : string -> list B) (x : B) (s : string) (ks : list string) :
  NoDup ks -> In s ks ->
  (forall k, f' k = if String.eqb s k then f k ++ [x] else f k) ->
  Permutation (flat_map f' ks) (flat_map f ks ++ [x]).
Proof.
  intros Hnd Hin Hf. induction Hnd as [|k ks Hk Hnd IH]; [contradiction|].
  simpl. destruct Hin as [Heq|Hin].
  - subst k. rewrite Hf, String.eqb_refl.
    rewrite (flat_map_same f f' ks).
    + rewrite <- !app_assoc. apply Permutation_app_head, Permutation_app_comm.
    + intros k Hin. rewrite Hf.
      destruct (String.eqb s k) eqn:E; [|reflexivity].
      apply String.eqb_eq in E. now subst.
  - rewrite Hf. destruct (String.eqb s k) eqn:E.
    + apply String.eqb_eq in E. now subst.
    + rewrite <- app_assoc. apply Permutation_app_head. now apply IH.
Qed.

Lemma unregistered_no_imports (g : Graph) (n : string) :
  wellFormed g -> ~ In n (JsMap.keys (nodes g)) ->
  getImports g n = [] /\ getImporters g n = [].
Proof.
  intros [Hd [_ Ha]] Hn. split.
  - destruct (getImports g n) as [|t l] eqn:E; [reflexivity|]. exfalso.
    destruct (Ha n t) as [[Hfwd _] _]. rewrite E in Hfwd.
    specialize (Hfwd (or_introl eq_refl)). apply in_map_iff in Hfwd.
    destruct Hfwd as [e [He Hin]]. inversion He. subst.
    apply Hn. now apply Hd.
  - destruct (getImporters g n) as [|s l] eqn:E; [reflexivity|]. exfalso.
    destruct (Ha s n) as [_ [Hrev _]]. rewrite E in Hrev.
    specialize (Hrev (or_introl eq_refl)). apply in_map_iff in Hrev.
    destruct Hrev as [e [He Hin]]. inversion He. subst.
    apply Hn. now apply Hd.
Qed.

Lemma indexFile_values (h : Host) (b : GraphBuilder) (filePath k v : string) :
  JsMap.get (filePathMap (indexFile h b filePath)) k = Some v ->
  v = filePath \/ JsMap.get (filePathMap b) k = Some v.
Proof.
  unfold indexFile. cbn [filePathMap].
  destruct (negb (String.eqb (Path.extname filePath) "")).
  - destruct (Js.startsWith _ "src.");
      repeat (rewrite get_set;
              match goal with
              | |- context [String.eqb ?a k] => destruct (String.eqb a k)
              end;
              [intros H; inversion H; now left|]);
      intros H; now right.
  - repeat (rewrite get_set;
            match goal with
            | |- context [String.eqb ?a k] => destruct (String.eqb a k)
            end;
            [intros H; inversion H; now left|]);
      intros H; now right.
Qed.

Section BuilderState.

Variable h : Host.

Lemma newGraphBuilder_inv (root : option string) : builderInv (newGraphBuilder h root).
Proof.
  unfold builderInv, newGraphBuilder. simpl. split; [apply createGraph_wellFormed|].
  split; [constructor|]. split; [split; apply Permutation_refl|].
  split; intros k v H; discriminate H.
Qed.

Lemma addNode_inv (b : GraphBuilder) (pf : ParsedFile) :
  builderInv b -> builderInv (addNode h b pf).
Proof.
  intros [Hwf [Hnd [[Hf Hb] [Hv Hp]]]].
  split; [now apply addNode_wellFormed|].
  unfold addNode. rewrite indexFile_graph. cbn [graph nodes edges].
  split; [now apply keys_set_NoDup|]. split; [|split].
  - unfold edgesCounted, forwardPairs, backwardPairs, getImports, getImporters in *.
    cbn [nodes edges adjacencyList reverseAdjacencyList]. rewrite keys_set.
    destruct (JsMap.has (nodes (graph b)) (pf_filePath pf)) eqn:E; [now split|].
    assert (Hn : ~ In (pf_filePath pf) (JsMap.keys (nodes (graph b)))).
    { intros H. apply has_In_keys in H. congruence. }
    destruct (unregistered_no_imports _ _ Hwf Hn) as [H1 H2].
    unfold getImports, getImporters in H1, H2.
    rewrite !flat_map_app. simpl. rewrite H1, H2. simpl. rewrite !app_nil_r. now split.
  - intros k v Hget. apply indexFile_values in Hget. cbn [filePathMap] in Hget.
    destruct Hget as [Hget|Hget].
    + subst v. apply has_In_keys. rewrite has_set, String.eqb_refl. reflexivity.
    + apply In_keys_set. now apply (Hv k).
  - intros k n. rewrite get_set. destruct (String.eqb (pf_filePath pf) k) eqn:E.
    + apply String.eqb_eq in E. intros H. inversion H. now subst.
    + apply Hp.
Qed.

Lemma withEdge_inv (b : GraphBuilder) (s t : string) (i : option (list string)) :
  builderInv b ->
  JsMap.has (nodes (graph b)) s = true ->
  JsMap.has (nodes (graph b)) t = true ->
  ~ In (s, t) (map endpoints (edges (graph b))) ->
  builderInv (withEdge b s t i).
Proof.
  intros [Hwf [Hnd [[Hf Hb] [Hv Hp]]]] Hs Ht Hnew.
  split.
  { rewrite <- (addEdge_withEdge b s t i Hs Ht Hnew). now apply addEdge_wellFormed. }
  unfold withEdge. cbn [graph nodes edges filePathMap].
  split; [assumption|]. split; [|split; assumption].
  unfold edgesCounted, forwardPairs, backwardPairs, getImports, getImporters in *.
  cbn [nodes edges adjacencyList reverseAdjacencyList].
  rewrite map_app. simpl. unfold endpoints at 2 4. simpl. split.
  - etransitivity; [|apply Permutation_app_tail; exact Hf].
    apply (flat_map_push _ _ _ s); [assumption | now apply has_In_keys|].
    intros k. rewrite getOrEmpty_pushAt. destruct (String.eqb s k) eqn:E; [|reflexivity].
    apply String.eqb_eq in E. subst k. now rewrite map_app.
  - etransitivity; [|apply Permutation_app_tail; exact Hb].
    apply (flat_map_push _ _ _ t); [assumption | now apply has_In_keys|].
    intros k. rewrite getOrEmpty_pushAt. destruct (String.eqb t k) eqn:E; [|reflexivity].
    apply String.eqb_eq in E. subst k. now rewrite map_app.
Qed.

Lemma runOps_inv (root : option string) (ops : list BuilderOp) :
  builderInv (runOps h root ops).
Proof.
  unfold runOps. apply (fold_applyOp_preserves h builderInv).
  - apply addNode_inv.
  - apply withEdge_inv.
  - apply newGraphBuilder_inv.
Qed.

End BuilderState.

(** ** The adjacency lists of a builder graph *)

Lemma NoDup_flat_map_part {A B} (f : A -> list B) (ks : list A) (k : A) :
  NoDup (flat_map f ks) -> In k ks -> NoDup (f k).
Proof.
  induction ks as [|x ks IH]; intros Hnd Hin; [contradiction|]. simpl in Hnd.
  destruct Hin as [Heq|Hin].
  - subst x. now apply NoDup_app_remove_r in Hnd.
  - apply IH; [|assumption]. now apply NoDup_app_remove_l in Hnd.
Qed.

Lemma builder_lists_NoDup (h : Host) (root : option string) (ops : list BuilderOp) (n : string) :
  NoDup (getImports (graph (runOps h root ops)) n)
  /\ NoDup (getImporters (graph (runOps h root ops)) n).
Proof.
  destruct (runOps_inv h root ops) as [Hwf [Hnd [[Hf Hb] _]]].
  destruct (in_dec string_dec n (JsMap.keys (nodes (graph (runOps h root ops)))))
    as [Hin|Hout].
  - destruct Hwf as [_ [Hdup _]]. unfold noDuplicateEdges in Hdup. split.
    + apply (NoDup_map_inv (fun t => (n, t))).
      apply (NoDup_flat_map_part
               (fun s => map (fun t => (s, t)) (getImports (graph (runOps h root ops)) s))
               (JsMap.keys (nodes (graph (runOps h root ops)))) n); [|assumption].
      apply (Permutation_NoDup (Permutation_sym Hf) Hdup).
    + apply (NoDup_map_inv (fun s => (s, n))).
      apply (NoDup_flat_map_part
               (fun t => map (fun s => (s, t)) (getImporters (graph (runOps h root ops)) t))
               (JsMap.keys (nodes (graph (runOps h root ops)))) n); [|assumption].
      apply (Permutation_NoDup (Permutation_sym Hb) Hdup).
  - destruct (unregistered_no_imports _ _ Hwf Hout) as [H1 H2].
    rewrite H1, H2. split; constructor.
Qed.

(** X1. In every graph a builder produces the adjacency lists mirror
    the edge list: [t] is among [getImports g s] exactly when [s] is
    among [getImporters g t], and exactly when an edge from [s] to [t]
    is stored; neither list names a file twice. *)
Theorem X1_adjacency_mirrors_edges
        (h : Host) (root : option string) (ops : list BuilderOp) (s t : string) :
  let g := graph (runOps h root ops) in
  (In t (getImports g s) <-> In s (getImporters g t))
  /\ (In t (getImports g s)
      <-> exists e, In e (edges g) /\ edge_source e = s /\ edge_target e = t)
  /\ NoDup (getImports g s)
  /\ NoDup (getImporters g t).
Proof.
  intros g. destruct (runOps_wellFormed h root ops) as [_ [_ Ha]].
  destruct (Ha s t) as [Hfwd Hrev]. fold g in Hfwd, Hrev.
  split; [now rewrite Hfwd, Hrev|]. split.
  - rewrite Hfwd, in_map_iff. split.
    + intros [e [He Hin]]. inversion He. exists e. auto.
    + intros [e [Hin [Hs Ht]]]. exists e. unfold endpoints. now subst.
  - split.
    + apply (builder_lists_NoDup h root ops s).
    + apply (builder_lists_NoDup h root ops t).
Qed.

(** ** Graph statistics *)

Lemma natQ_nonzero (n : nat) : 0 < n -> ~ (natQ n == 0)%Q.
Proof. unfold natQ, Qeq. simpl. lia. Qed.

Lemma natQ_nonneg (n : nat) : (0 <= natQ n)%Q.
Proof. unfold natQ, Qle. simpl. lia. Qed.

Lemma natQ_pos (n : nat) : 0 < n -> (0 < natQ n)%Q.
Proof. unfold natQ, Qlt. simpl. lia. Qed.

Lemma stats_fold (g : Graph) (ks : list string) : forall acc,
  let r := fold_left (Stats.step g) ks acc in
  Stats.run_totalDegree r
  = Stats.run_totalDegree acc
    + list_sum (map (getInDegree g) ks) + list_sum (map (getOutDegree g) ks)
  /\ Stats.run_maxInDegree acc <= Stats.run_maxInDegree r
  /\ Stats.run_maxOutDegree acc <= Stats.run_maxOutDegree r
  /\ (forall n, In n ks ->
        getInDegree g n <= Stats.run_maxInDegree r
        /\ getOutDegree g n <= Stats.run_maxOutDegree r)
  /\ (forall bound,
        Stats.run_maxInDegree acc <= bound ->
        (forall n, In n ks -> getInDegree g n <= bound) ->
        Stats.run_maxInDegree r <= bound)
  /\ (forall bound,
        Stats.run_maxOutDegree acc <= bound ->
        (forall n, In n ks -> getOutDegree g n <= bound) ->
        Stats.run_maxOutDegree r <= bound).
Proof.
  induction ks as [|k ks IH]; intros acc; cbn zeta.
  - simpl. repeat split; try lia; intros; try contradiction; assumption.
  - simpl fold_left. specialize (IH (Stats.step g acc k)). cbn zeta in IH.
    set (r := fold_left (Stats.step g) ks (Stats.step g acc k)) in *.
    destruct IH as [Ht [Hi [Ho [Hall [Hbi Hbo]]]]].
    change (Stats.run_totalDegree (Stats.step g acc k))
      with (Stats.run_totalDegree acc + (getInDegree g k + getOutDegree g k)) in Ht.
    change (Stats.run_maxInDegree (Stats.step g acc k))
      with (Nat.max (Stats.run_maxInDegree acc) (getInDegree g k)) in Hi, Hbi.
    change (Stats.run_maxOutDegree (Stats.step g acc k))
      with (Nat.max (Stats.run_maxOutDegree acc) (getOutDegree g k)) in Ho, Hbo.
    split; [simpl; lia|]. split; [lia|]. split; [lia|]. split; [|split].
    + intros n [Hn|Hn]; [subst n; lia | now apply Hall].
    + intros bound Hacc Hks. apply Hbi.
      * specialize (Hks k (or_introl eq_refl)). lia.
      * intros n Hn. apply Hks. now right.
    + intros bound Hacc Hks. apply Hbo.
      * specialize (Hks k (or_introl eq_refl)). lia.
      * intros n Hn. apply Hks. now right.
Qed.

Lemma degree_sums (h : Host) (root : option string) (ops : list BuilderOp) :
  let g := graph (runOps h root ops) in
  list_sum (map (getInDegree g) (JsMap.keys (nodes g))) = List.length (edges g)
  /\ list_sum (map (getOutDegree g) (JsMap.keys (nodes g))) = List.length (edges g).
Proof.
  intros g. destruct (runOps_inv h root ops) as [_ [_ [[Hf Hb] _]]]. fold g in Hf, Hb.
  apply Permutation_length in Hf, Hb.
  unfold forwardPairs, backwardPairs in Hf, Hb.
  rewrite length_flat_map, length_map in Hf, Hb. split.
  - rewrite <- Hb. f_equal. apply map_ext. intros n. now rewrite length_map.
  - rewrite <- Hf. f_equal. apply map_ext. intros n. now rewrite length_map.
Qed.

Lemma builder_degree_le_nodes (h : Host) (root : option string) (ops : list BuilderOp)
      (n : string) :
  let g := graph (runOps h root ops) in
  getInDegree g n <= List.length (JsMap.keys (nodes g))
  /\ getOutDegree g n <= List.length (JsMap.keys (nodes g)).
Proof.
  intros g. destruct (builder_lists_NoDup h root ops n) as [Ho Hi]. fold g in Ho, Hi.
  destruct (runOps_wellFormed h root ops) as [Hd [_ Ha]]. fold g in Hd, Ha.
  unfold getInDegree, getOutDegree. split.
  - apply NoDup_incl_length; [assumption|]. intros m Hm.
    apply (Ha m n) in Hm. apply in_map_iff in Hm. destruct Hm as [e [He Hin]].
    inversion He. subst. now apply Hd.
  - apply NoDup_incl_length; [assumption|]. intros m Hm.
    apply (Ha n m) in Hm. apply in_map_iff in Hm. destruct Hm as [e [He Hin]].
    inversion He. subst. now apply Hd.
Qed.

(** X2. The statistics of a graph made by a builder: the average
    degree is the quotient of twice the number of edges by the number of
    nodes (each edge counts once as an import and once as an importer),
    and 0 for a graph without nodes, which has no edge either; the two
    maxima bound the degrees of every node, and no degree exceeds the
    number of nodes. *)
Theorem X2_graph_stats (h : Host) (root : option string) (ops : list BuilderOp) :
  let g := graph (runOps h root ops) in
  let st := Stats.getGraphStats g in
  Stats.nodeCount st = List.length (JsMap.keys (nodes g))
  /\ Stats.edgeCount st = List.length (edges g)
  /\ (0 < Stats.nodeCount st ->
      (Stats.avgDegree st == natQ (2 * Stats.edgeCount st) / natQ (Stats.nodeCount st))%Q)
  /\ (Stats.nodeCount st = 0 -> Stats.avgDegree st = 0%Q /\ Stats.edgeCount st = 0)
  /\ (forall n, In n (JsMap.keys (nodes g)) ->
        getInDegree g n <= Stats.maxInDegree st
        /\ getOutDegree g n <= Stats.maxOutDegree st)
  /\ Stats.maxInDegree st <= Stats.nodeCount st
  /\ Stats.maxOutDegree st <= Stats.nodeCount st.
Proof.
  intros g st.
  assert (Hsize : JsMap.size (nodes g) = List.length (JsMap.keys (nodes g))).
  { unfold JsMap.size, JsMap.keys. now rewrite length_map. }
  destruct (stats_fold g (JsMap.keys (nodes g)) (Stats.mkRunning 0 0 0))
    as [Ht [_ [_ [Hall [Hbi Hbo]]]]].
  destruct (degree_sums h root ops) as [Hin Hout]. fold g in Hin, Hout.
  rewrite Hin, Hout in Ht. cbn [Stats.run_totalDegree] in Ht.
  unfold st, Stats.getGraphStats.
  cbn [Stats.nodeCount Stats.edgeCount Stats.avgDegree Stats.maxInDegree
       Stats.maxOutDegree].
  split; [exact Hsize|]. split; [reflexivity|].
  split; [|split; [|split; [exact Hall|split]]].
  - intros Hpos. rewrite Ht. apply Nat.ltb_lt in Hpos. rewrite Hpos.
    replace (0 + List.length (edges g) + List.length (edges g))
      with (2 * List.length (edges g)) by lia.
    apply Qeq_refl.
  - intros Hzero. rewrite Hzero. split; [reflexivity|].
    destruct (runOps_wellFormed h root ops) as [Hd _]. fold g in Hd.
    destruct (edges g) as [|e es] eqn:Ee; [reflexivity|].
    exfalso. assert (He : In e (edges g)) by (rewrite Ee; now left).
    destruct (Hd e He) as [Hs _].
    destruct (JsMap.keys (nodes g)); [contradiction | simpl in Hsize; lia].
  - rewrite Hsize. apply Hbi; [simpl; lia|]. intros n _.
    apply (builder_degree_le_nodes h root ops n).
  - rewrite Hsize. apply Hbo; [simpl; lia|]. intros n _.
    apply (builder_degree_le_nodes h root ops n).
Qed.

(** ** Import resolution and the index of a builder *)

Lemma firstHit_value (m : JsMap.t string) (candidates : list string) (v : string) :
  firstHit m candidates = Some v -> exists k, JsMap.get m k = Some v.
Proof.
  induction candidates as [|c rest IH]; simpl; [discriminate|].
  destruct (JsMap.has m c); [|assumption]. intros H. now exists c.
Qed.

Lemma firstExisting_exists (h : Host) (candidates : list string) (c : string) :
  firstExisting h candidates = Some c -> existsSync h c = true.
Proof.
  induction candidates as [|x rest IH]; simpl; [discriminate|].
  destruct (existsSync h x) eqn:E; [|assumption]. intros H. inversion H. now subst.
Qed.

Lemma orElse_Some {A} (a b : option A) (x : A) :
  orElse a b = Some x -> a = Some x \/ b = Some x.
Proof. destruct a; simpl; auto. Qed.

(** Where the answer of [resolveImport] comes from: an entry of the
    index, or the check of the filesystem. *)
Lemma resolveImport_source (h : Host) (b : GraphBuilder) (importPath fromFile target : string) :
  resolveImport h b importPath fromFile = Some target ->
  (exists k, JsMap.get (filePathMap b) k = Some target) \/ existsSync h target = true.
Proof.
  unfold resolveImport. cbv zeta.
  destruct (JsMap.has (filePathMap b) importPath);
    [intros H; left; eexists; exact H|].
  intros H. apply orElse_Some in H. destruct H as [H|H].
  - destruct (Js.startsWith importPath "."); [|discriminate].
    match type of H with
    | (if ?c then _ else _) = _ => destruct c; [left; eexists; exact H|]
    end.
    apply orElse_Some in H. destruct H as [H|H];
      [left; now apply (firstHit_value _ _ _ H)|].
    apply orElse_Some in H. destruct H as [H|H];
      [left; now apply (firstHit_value _ _ _ H)|].
    apply orElse_Some in H. destruct H as [H|H];
      right; now apply (firstExisting_exists _ _ _ H).
  - unfold moduleLookup in H.
    match type of H with
    | (if ?c then _ else _) = _ => destruct c; [left; eexists; exact H | discriminate]
    end.
Qed.

(** X3. Whatever [resolveImport] answers on a builder, after any
    sequence of operations, is a registered node of the graph or a path
    that the filesystem check found: the index never maps a key to a file
    that was not added as a node. *)
Theorem X3_resolveImport_target
        (h : Host) (root : option string) (ops : list BuilderOp)
        (importPath fromFile target : string) :
  resolveImport h (runOps h root ops) importPath fromFile = Some target ->
  In target (JsMap.keys (nodes (graph (runOps h root ops))))
  \/ existsSync h target = true.
Proof.
  intros H. destruct (runOps_inv h root ops) as [_ [_ [_ [Hv _]]]].
  apply resolveImport_source in H. destruct H as [[k Hk]|H]; [left | now right].
  now apply (Hv k).
Qed.

Lemma X3_witness :
  In "/repo/src/helper.ts"
     (JsMap.keys (nodes (graph (runOps sampleHost (Some "/repo")
                                       (map OpAddNode fixtureFiles)))))
  \/ existsSync sampleHost "/repo/src/helper.ts" = true.
Proof.
  apply (X3_resolveImport_target sampleHost (Some "/repo") (map OpAddNode fixtureFiles)
                                 "./helper" "/repo/src/simple.ts").
  vm_compute. reflexivity.
Defined.

Lemma indexFile_own_path (h : Host) (b : GraphBuilder) (filePath : string) :
  JsMap.get (filePathMap (indexFile h b filePath)) filePath = Some filePath.
Proof.
  unfold indexFile. cbn [filePathMap].
  destruct (negb (String.eqb (Path.extname filePath) "")).
  - destruct (Js.startsWith _ "src.").
    + do 5 apply get_set_keep. apply get_set_same.
    + do 4 apply get_set_keep. apply get_set_same.
  - apply get_set_keep. apply get_set_same.
Qed.

(** X4. Adding a node is followed by successful lookups: [getNode]
    finds the node under the file's path, with the number of the file's
    definitions as metadata, and [resolveImport] resolves the file's own
    path to the file, from any importing file. This holds for any
    builder, also when the path was registered before. *)
Theorem X4_addNode_then_lookup
        (h : Host) (b : GraphBuilder) (pf : ParsedFile) (fromFile : string) :
  getNode (graph (addNode h b pf)) (pf_filePath pf)
  = Some (mkNode (pf_filePath pf) (pf_filePath pf) (pf_language pf)
                 (Some (List.length (pf_definitions pf))))
  /\ resolveImport h (addNode h b pf) (pf_filePath pf) fromFile = Some (pf_filePath pf)
  /\ edges (graph (addNode h b pf)) = edges (graph b).
Proof.
  split; [|split].
  - unfold getNode, addNode. rewrite indexFile_graph. cbn [graph nodes].
    apply get_set_same.
  - unfold resolveImport.
    assert (Hget : JsMap.get (filePathMap (addNode h b pf)) (pf_filePath pf)
                   = Some (pf_filePath pf)).
    { unfold addNode. apply indexFile_own_path. }
    unfold JsMap.has. now rewrite Hget.
  - unfold addNode. now rewrite indexFile_graph.
Qed.

(** ** The nodes and the edges of [buildGraph] *)

Lemma addEdge_nodes (b : GraphBuilder) (s t : string) (i : option (list string)) :
  nodes (graph (addEdge b s t i)) = nodes (graph b).
Proof.
  destruct (addEdge_cases b s t i) as [[Heq _]|[_ [_ [_ Heq]]]]; now rewrite Heq.
Qed.

Lemma addEdge_repoRoot (b : GraphBuilder) (s t : string) (i : option (list string)) :
  repoRoot (addEdge b s t i) = repoRoot b.
Proof.
  destruct (addEdge_cases b s t i) as [[Heq _]|[_ [_ [_ Heq]]]]; now rewrite Heq.
Qed.

Lemma no_edge_added (es : list Edge) (n : nat) (source : string) :
  exists added,
    es = es ++ added /\ List.length added <= n
    /\ forall e, In e added -> edge_source e = source.
Proof.
  exists []. rewrite app_nil_r. split; [reflexivity|]. split; [simpl; lia|].
  intros e [].
Qed.

(** What one import adds: nothing, or one edge that leaves the file. *)
Lemma processImport_step (h : Host) (pf : ParsedFile) (b : GraphBuilder)
      (imp : ImportDeclaration) :
  let b' := processImport h pf b imp in
  nodes (graph b') = nodes (graph b)
  /\ filePathMap b' = filePathMap b
  /\ repoRoot b' = repoRoot b
  /\ exists added,
       edges (graph b') = edges (graph b) ++ added
       /\ List.length added <= 1
       /\ forall e, In e added -> edge_source e = pf_filePath pf.
Proof.
  cbn zeta. unfold processImport.
  destruct (resolveImport h b (imp_source imp) (pf_filePath pf)) as [target|].
  2: { do 3 (split; [reflexivity|]). apply no_edge_added. }
  destruct (String.eqb target "").
  { do 3 (split; [reflexivity|]). apply no_edge_added. }
  split; [apply addEdge_nodes|]. split; [apply addEdge_filePathMap|].
  split; [apply addEdge_repoRoot|].
  destruct (addEdge_cases b (pf_filePath pf) target (Some (imp_names imp)))
    as [[Heq _]|[_ [_ [_ Heq]]]]; rewrite Heq.
  - apply no_edge_added.
  - exists [mkEdge (pf_filePath pf) target (Some (imp_names imp))]. simpl.
    split; [reflexivity|]. split; [lia|]. intros e [He|[]]. now subst e.
Qed.

Lemma processImports_steps (h : Host) (pf : ParsedFile) (imps : list ImportDeclaration) :
  forall b,
    let b' := fold_left (processImport h pf) imps b in
    nodes (graph b') = nodes (graph b)
    /\ filePathMap b' = filePathMap b
    /\ repoRoot b' = repoRoot b
    /\ exists added,
         edges (graph b') = edges (graph b) ++ added
         /\ List.length added <= List.length imps
         /\ forall e, In e added -> edge_source e = pf_filePath pf.
Proof.
  induction imps as [|imp imps IH]; intros b; cbn zeta; simpl fold_left.
  - do 3 (split; [reflexivity|]). apply no_edge_added.
  - destruct (IH (processImport h pf b imp)) as [Hn [Hm [Hr [added [He [Hl Hs]]]]]].
    destruct (processImport_step h pf b imp) as [Hn1 [Hm1 [Hr1 [added1 [He1 [Hl1 Hs1]]]]]].
    split; [congruence|]. split; [congruence|]. split; [congruence|].
    exists (added1 ++ added). split; [|split].
    + rewrite He, He1. now rewrite app_assoc.
    + rewrite length_app. simpl. lia.
    + intros e Hin. apply in_app_or in Hin. destruct Hin; auto.
Qed.

(** X6. Processing the imports of a file leaves the nodes, the index
    and the root of the builder as they were, and only appends edges: at
    most one per import declaration, each leaving that file. When the
    file itself is not a registered node, nothing is added at all. *)
Theorem X6_processImports_effect (h : Host) (b : GraphBuilder) (pf : ParsedFile) :
  let b' := processImports h b pf in
  nodes (graph b') = nodes (graph b)
  /\ filePathMap b' = filePathMap b
  /\ repoRoot b' = repoRoot b
  /\ (exists added,
        edges (graph b') = edges (graph b) ++ added
        /\ List.length added <= List.length (pf_imports pf)
        /\ forall e, In e added -> edge_source e = pf_filePath pf)
  /\ (JsMap.has (nodes (graph b)) (pf_filePath pf) = false -> b' = b).
Proof.
  cbn zeta. unfold processImports.
  destruct (processImports_steps h pf (pf_imports pf) b) as [Hn [Hm [Hr Ha]]].
  split; [assumption|]. split; [assumption|]. split; [assumption|].
  split; [assumption|]. intros E.
  clear Hn Hm Hr Ha. induction (pf_imports pf) as [|imp imps IH]; simpl; [reflexivity|].
  assert (Hstep : processImport h pf b imp = b).
  { unfold processImport.
    destruct (resolveImport h b (imp_source imp) (pf_filePath pf)) as [target|];
      [|reflexivity].
    destruct (String.eqb target ""); [reflexivity|].
    unfold addEdge. now rewrite E. }
  now rewrite Hstep.
Qed.

Lemma X6_witness :
  processImports sampleHost (newGraphBuilder sampleHost (Some "/repo"))
                 (sampleParsed "/repo/src/simple.ts" ["./helper"])
  = newGraphBuilder sampleHost (Some "/repo").
Proof.
  apply (X6_processImports_effect sampleHost (newGraphBuilder sampleHost (Some "/repo"))
                                  (sampleParsed "/repo/src/simple.ts" ["./helper"])).
  reflexivity.
Defined.

Lemma dedupe_acc_ext (l : list string) : forall seen seen',
  (forall x, In x seen <-> In x seen') ->
  Js.dedupe_acc seen l = Js.dedupe_acc seen' l.
Proof.
  induction l as [|y l IH]; intros seen seen' Hs; simpl; [reflexivity|].
  assert (E : existsb (String.eqb y) seen = existsb (String.eqb y) seen').
  { destruct (existsb (String.eqb y) seen) eqn:E1; symmetry.
    - apply existsb_eqb_In. apply Hs. now apply existsb_eqb_In.
    - destruct (existsb (String.eqb y) seen') eqn:E2; [|reflexivity].
      apply existsb_eqb_In, Hs, existsb_eqb_In in E2. congruence. }
  rewrite E. destruct (existsb (String.eqb y) seen').
  - now apply IH.
  - f_equal. apply IH. intros x. simpl. now rewrite Hs.
Qed.

Lemma addNode_keys (h : Host) (pfs : list ParsedFile) : forall b,
  JsMap.keys (nodes (graph (fold_left (addNode h) pfs b)))
  = JsMap.keys (nodes (graph b))
    ++ Js.dedupe_acc (JsMap.keys (nodes (graph b))) (map pf_filePath pfs).
Proof.
  induction pfs as [|pf pfs IH]; intros b; simpl.
  - now rewrite app_nil_r.
  - rewrite IH.
    assert (Hk : JsMap.keys (nodes (graph (addNode h b pf)))
                 = if JsMap.has (nodes (graph b)) (pf_filePath pf)
                   then JsMap.keys (nodes (graph b))
                   else JsMap.keys (nodes (graph b)) ++ [pf_filePath pf]).
    { unfold addNode. rewrite indexFile_graph. cbn [graph nodes]. apply keys_set. }
    rewrite Hk.
    destruct (JsMap.has (nodes (graph b)) (pf_filePath pf)) eqn:E.
    + assert (Hx : existsb (String.eqb (pf_filePath pf)) (JsMap.keys (nodes (graph b)))
                   = true).
      { apply existsb_eqb_In. now apply has_In_keys. }
      now rewrite Hx.
    + assert (Hx : existsb (String.eqb (pf_filePath pf)) (JsMap.keys (nodes (graph b)))
                   = false).
      { destruct (existsb _ _) eqn:Ex; [|reflexivity].
        apply existsb_eqb_In, has_In_keys in Ex. congruence. }
      rewrite Hx, <- app_assoc. simpl. do 2 f_equal.
      apply dedupe_acc_ext. intros x. rewrite in_app_iff. simpl. tauto.
Qed.

Lemma addNode_edges (h : Host) (pfs : list ParsedFile) : forall b,
  edges (graph (fold_left (addNode h) pfs b)) = edges (graph b).
Proof.
  induction pfs as [|pf pfs IH]; intros b; simpl; [reflexivity|].
  rewrite IH. unfold addNode. now rewrite indexFile_graph.
Qed.

Lemma processImports_all (h : Host) (pfs : list ParsedFile) : forall b,
  let b' := fold_left (processImports h) pfs b in
  nodes (graph b') = nodes (graph b)
  /\ List.length (edges (graph b'))
     <= List.length (edges (graph b))
        + list_sum (map (fun pf => List.length (pf_imports pf)) pfs).
Proof.
  induction pfs as [|pf pfs IH]; intros b; cbn zeta; simpl fold_left.
  - split; [reflexivity | simpl; lia].
  - destruct (IH (processImports h b pf)) as [Hn Hl].
    destruct (processImports_steps h pf (pf_imports pf) b)
      as [Hn1 [_ [_ [added [He [Hl1 _]]]]]].
    fold (processImports h b pf) in Hn1, He.
    split; [congruence|]. rewrite He, length_app in Hl. simpl. lia.
Qed.

(** X5. [buildGraph] creates exactly one node per distinct file path of
    its input, in the order of first appearance; each parsed file is
    found under its path; and the graph has at most as many edges as the
    parsed files have import declarations. *)
Theorem X5_buildGraph_nodes_and_edges
        (h : Host) (parsedFiles : list ParsedFile) (root : option string) :
  let g := buildGraph h parsedFiles root in
  JsMap.keys (nodes g) = Js.dedupe (map pf_filePath parsedFiles)
  /\ (forall pf, In pf parsedFiles ->
        exists n, getNode g (pf_filePath pf) = Some n
                  /\ node_filePath n = pf_filePath pf)
  /\ List.length (edges g)
     <= list_sum (map (fun pf => List.length (pf_imports pf)) parsedFiles).
Proof.
  intros g.
  destruct (processImports_all h parsedFiles
              (fold_left (addNode h) parsedFiles (newGraphBuilder h root))) as [Hn Hl].
  assert (Hkeys : JsMap.keys (nodes g) = Js.dedupe (map pf_filePath parsedFiles)).
  { unfold g, buildGraph, build. cbv zeta. rewrite Hn, addNode_keys. reflexivity. }
  assert (He0 : edges (graph (fold_left (addNode h) parsedFiles (newGraphBuilder h root)))
                = []).
  { now rewrite addNode_edges. }
  split; [exact Hkeys|]. split.
  - intros pf Hin.
    assert (Hk : In (pf_filePath pf) (JsMap.keys (nodes g))).
    { rewrite Hkeys. apply dedupe_spec. now apply in_map. }
    apply has_In_keys in Hk. unfold JsMap.has in Hk. unfold getNode.
    destruct (JsMap.get (nodes g) (pf_filePath pf)) as [n|] eqn:E; [|discriminate].
    exists n. split; [reflexivity|].
    unfold g in E. rewrite buildGraph_runOps in E.
    destruct (runOps_inv h root (map OpAddNode parsedFiles
                                     ++ map OpProcessImports parsedFiles))
      as [_ [_ [_ [_ Hp]]]].
    now apply Hp.
  - unfold g, buildGraph, build. cbv zeta. rewrite He0 in Hl. exact Hl.
Qed.

(** ** PageRank: the ranking *)

Lemma firstn_seq (n : nat) : forall start len,
  firstn n (seq start len) = seq start (Nat.min n len).
Proof.
  induction n as [|n IH]; intros start len; [reflexivity|].
  destruct len as [|len]; [reflexivity|]. simpl. now rewrite IH.
Qed.

Lemma assignRanks_ranks (l : list RankedFile) : forall i,
  map rf_rank (PageRank.assignRanks i l) = seq (i + 1) (List.length l).
Proof.
  induction l as [|rf l IH]; intros i; simpl; [reflexivity|].
  rewrite IH. now rewrite Nat.add_succ_l.
Qed.

Lemma assignRanks_length (l : list RankedFile) : forall i,
  List.length (PageRank.assignRanks i l) = List.length l.
Proof. induction l as [|rf l IH]; intros i; simpl; [reflexivity | now rewrite IH]. Qed.

Lemma assignRanks_degrees (l : list RankedFile) : forall i rf,
  In rf (PageRank.assignRanks i l) ->
  exists rf0, In rf0 l /\ rf_file rf = rf_file rf0
              /\ rf_inDegree rf = rf_inDegree rf0 /\ rf_outDegree rf = rf_outDegree rf0.
Proof.
  induction l as [|x l IH]; intros i rf H; simpl in H; [contradiction|].
  destruct H as [H|H].
  - exists x. subst rf. simpl. auto.
  - destruct (IH _ _ H) as [rf0 [H0 H1]]. exists rf0. split; [now right | assumption].
Qed.

Lemma assignRanks_sorted (l : list RankedFile) :
  StronglySorted byScoreDesc l ->
  forall i, StronglySorted byScoreDesc (PageRank.assignRanks i l).
Proof.
  induction 1 as [|a l Hs IH Hall]; intros i; simpl; constructor.
  - apply IH.
  - apply Forall_forall. intros rf Hrf. apply assignRanks_In in Hrf.
    destruct Hrf as [rf0 [Hin [_ Hscore]]]. rewrite Forall_forall in Hall.
    unfold byScoreDesc in *. simpl. rewrite Hscore. now apply Hall.
Qed.

(** X7. The list [pageRank] returns has one entry per node; its ranks
    are 1, 2, ..., N in this order; its scores never increase along the
    list; every entry carries the in-degree and the out-degree of its
    file in the graph; and [getTopFiles] of it, for any [n], holds the
    entries of rank 1 to min(n, N). *)
Theorem X7_pageRank_ranking (g : Graph) (iterations : nat) (d : Q) (n : nat) :
  let ranked := PageRank.pageRank g iterations d in
  List.length ranked = JsMap.size (nodes g)
  /\ map rf_rank ranked = seq 1 (List.length ranked)
  /\ StronglySorted byScoreDesc ranked
  /\ (forall rf, In rf ranked ->
        rf_inDegree rf = getInDegree g (rf_file rf)
        /\ rf_outDegree rf = getOutDegree g (rf_file rf))
  /\ map rf_rank (PageRank.getTopFiles ranked n) = seq 1 (Nat.min n (List.length ranked)).
Proof.
  intros ranked.
  assert (Hsize : JsMap.size (nodes g) = List.length (JsMap.keys (nodes g))).
  { unfold JsMap.size, JsMap.keys. now rewrite length_map. }
  assert (Hranks : map rf_rank ranked = seq 1 (List.length ranked)).
  { unfold ranked, PageRank.pageRank.
    destruct (List.length (JsMap.keys (nodes g)) =? 0); [reflexivity|].
    now rewrite assignRanks_ranks, assignRanks_length. }
  split; [|split; [exact Hranks|split; [|split]]].
  - rewrite Hsize. unfold ranked, PageRank.pageRank.
    destruct (List.length (JsMap.keys (nodes g)) =? 0) eqn:E.
    + apply Nat.eqb_eq in E. now rewrite E.
    + rewrite assignRanks_length.
      rewrite (Permutation_length (sortStable_perm _ _)). apply length_map.
  - unfold ranked, PageRank.pageRank.
    destruct (List.length (JsMap.keys (nodes g)) =? 0); [constructor|].
    apply assignRanks_sorted. apply (sortStable_sorted rf_score).
  - intros rf Hin. unfold ranked, PageRank.pageRank in Hin.
    destruct (List.length (JsMap.keys (nodes g)) =? 0); [contradiction|].
    apply assignRanks_degrees in Hin. destruct Hin as [rf0 [Hin [Hf [Hi Ho]]]].
    apply (Permutation_in _ (sortStable_perm _ _)) in Hin.
    apply in_map_iff in Hin. destruct Hin as [file [Hrf0 _]]. subst rf0.
    simpl in *. now rewrite Hi, Ho, Hf.
  - unfold PageRank.getTopFiles, Js.take. rewrite <- firstn_map, Hranks.
    apply firstn_seq.
Qed.

(** ** PageRank: bounds on the scores *)

Section ScoreBounds.

Variable g : Graph.
Variable d : Q.
Hypothesis d_nonneg : (0 <= d)%Q.
Hypothesis d_le_1 : (d <= 1)%Q.

Let nodeList := JsMap.keys (nodes g).
Let N := List.length nodeList.

Lemma floor_nonneg : (0 <= (1 - d) / natQ N)%Q.
Proof.
  destruct N as [|k] eqn:E.
  - unfold natQ. simpl. unfold Qdiv, Qinv. simpl. rewrite Qmult_0_r. apply Qle_refl.
  - apply Qle_shift_div_l; [apply natQ_pos; lia|].
    rewrite Qmult_0_l. unfold Qminus. rewrite <- (Qplus_opp_r d).
    now apply Qplus_le_l.
Qed.

Lemma addContribution_ge (scores : JsMap.t Q) (importers : list string) :
  (forall m, (0 <= PageRank.scoreOr0 scores m)%Q) ->
  forall base, (base <= fold_left (PageRank.addContribution g d scores) importers base)%Q.
Proof.
  intros Hsc. induction importers as [|m l IH]; intros base; simpl.
  - apply Qle_refl.
  - eapply Qle_trans; [|apply IH]. unfold PageRank.addContribution.
    destruct (0 <? getOutDegree g m) eqn:E; [|apply Qle_refl].
    apply Nat.ltb_lt in E. rewrite <- (Qplus_0_r base) at 1.
    apply Qplus_le_r. apply Qmult_le_0_compat; [assumption|].
    apply Qle_shift_div_l; [now apply natQ_pos|]. rewrite Qmult_0_l. apply Hsc.
Qed.

Lemma nodeScore_ge (scores : JsMap.t Q) (node : string) :
  (forall m, (0 <= PageRank.scoreOr0 scores m)%Q) ->
  ((1 - d) / natQ N <= PageRank.nodeScore g d N scores node)%Q.
Proof. intros Hsc. unfold PageRank.nodeScore. now apply addContribution_ge. Qed.

Lemma iteration_nonneg (scores : JsMap.t Q) :
  (forall m, (0 <= PageRank.scoreOr0 scores m)%Q) ->
  forall m, (0 <= PageRank.scoreOr0 (PageRank.iteration g d N nodeList scores) m)%Q.
Proof.
  intros Hsc m. unfold PageRank.scoreOr0 at 1. rewrite iteration_get.
  fold nodeList. destruct (existsb (String.eqb m) nodeList).
  - eapply Qle_trans; [apply floor_nonneg | now apply nodeScore_ge].
  - apply Hsc.
Qed.

Lemma initScores_value (m : string) :
  In m nodeList -> PageRank.scoreOr0 (PageRank.initScores nodeList N) m = (1 / natQ N)%Q.
Proof.
  intros Hm. unfold PageRank.scoreOr0, N, nodeList. rewrite initScores_get.
  apply existsb_eqb_In in Hm. unfold nodeList in Hm. now rewrite Hm.
Qed.

Lemma initScores_nonneg (m : string) :
  (0 <= PageRank.scoreOr0 (PageRank.initScores nodeList N) m)%Q.
Proof.
  unfold PageRank.scoreOr0, N, nodeList. rewrite initScores_get. fold nodeList. fold N.
  destruct (existsb (String.eqb m) nodeList) eqn:E; [|apply Qle_refl].
  apply existsb_eqb_In in E.
  assert (0 < N) by (unfold N; destruct nodeList; [contradiction | simpl; lia]).
  apply Qle_shift_div_l; [now apply natQ_pos|]. rewrite Qmult_0_l. discriminate.
Qed.

Lemma floor_le_start : 0 < N -> ((1 - d) / natQ N <= 1 / natQ N)%Q.
Proof.
  intros HN. apply Qle_shift_div_l; [now apply natQ_pos|].
  assert (E : ((1 - d) / natQ N * natQ N == 1 - d)%Q) by (field; now apply natQ_nonzero).
  rewrite E. unfold Qminus. rewrite <- (Qplus_0_r 1) at 2. apply Qplus_le_r.
  apply (Qopp_le_compat 0 d). assumption.
Qed.

Lemma iterateScores_floor (rounds : nat) : forall scores,
  (forall m, (0 <= PageRank.scoreOr0 scores m)%Q) ->
  (forall m, In m nodeList -> ((1 - d) / natQ N <= PageRank.scoreOr0 scores m)%Q) ->
  (forall m, (0 <= PageRank.scoreOr0
                     (PageRank.iterateScores g d N nodeList rounds scores) m)%Q)
  /\ forall m, In m nodeList ->
       ((1 - d) / natQ N
        <= PageRank.scoreOr0 (PageRank.iterateScores g d N nodeList rounds scores) m)%Q.
Proof.
  induction rounds as [|r IH]; intros scores Hnn Hfl; simpl; [now split|].
  apply IH.
  - now apply iteration_nonneg.
  - intros m Hm. unfold PageRank.scoreOr0 at 1. rewrite iteration_get. fold nodeList.
    apply existsb_eqb_In in Hm. rewrite Hm. now apply nodeScore_ge.
Qed.

Lemma finalScores_floor (iterations : nat) (m : string) :
  In m nodeList ->
  ((1 - d) / natQ N <= PageRank.scoreOr0 (PageRank.finalScores g iterations d) m)%Q.
Proof.
  intros Hm. unfold PageRank.finalScores. fold nodeList. fold N.
  apply iterateScores_floor; [apply initScores_nonneg | | assumption].
  intros m' Hm'. rewrite (initScores_value m' Hm'). apply floor_le_start.
  unfold N. destruct nodeList; [contradiction | simpl; lia].
Qed.

End ScoreBounds.

(** X8. With a damping factor between 0 and 1, every score [pageRank]
    returns is at least (1 - d)/N, the share of the random jump, whatever
    the graph and the number of iterations; so with d < 1 no file has a
    score of zero or less. *)
Theorem X8_pageRank_score_floor (g : Graph) (iterations : nat) (d : Q) (rf : RankedFile) :
  (0 <= d)%Q -> (d <= 1)%Q ->
  In rf (PageRank.pageRank g iterations d) ->
  (scoreFloor g d <= rf_score rf)%Q /\ ((d < 1)%Q -> (0 < rf_score rf)%Q).
Proof.
  intros Hd0 Hd1 Hin.
  assert (Hfloor : (scoreFloor g d <= rf_score rf)%Q).
  { unfold PageRank.pageRank in Hin.
    destruct (List.length (JsMap.keys (nodes g)) =? 0); [contradiction|].
    apply assignRanks_In in Hin. destruct Hin as [rf0 [Hin [_ Hs]]].
    apply (Permutation_in _ (sortStable_perm _ _)) in Hin.
    apply in_map_iff in Hin. destruct Hin as [file [Hrf0 Hfile]]. subst rf0.
    rewrite Hs. simpl. now apply finalScores_floor. }
  split; [exact Hfloor|]. intros Hlt.
  eapply Qlt_le_trans; [|exact Hfloor]. unfold scoreFloor.
  assert (HN : 0 < List.length (JsMap.keys (nodes g))).
  { unfold PageRank.pageRank in Hin.
    destruct (List.length (JsMap.keys (nodes g))); [contradiction | lia]. }
  apply Qlt_shift_div_l; [now apply natQ_pos|]. rewrite Qmult_0_l.
  unfold Qminus. rewrite <- (Qplus_opp_r d). now apply Qplus_lt_l.
Qed.

Lemma X8_witness :
  (scoreFloor cohesionGraph (85 # 100) <= 15 # 300)%Q
  /\ ((85 # 100 < 1)%Q -> (0 < 15 # 300)%Q).
Proof.
  apply (X8_pageRank_score_floor cohesionGraph 1 (85 # 100)
           (mkRankedFile "a" (15 # 300) 3 0 1)).
  - discriminate.
  - discriminate.
  - vm_compute. tauto.
Defined.

(** ** PageRank: the files that nothing imports *)

Open Scope Q_scope.

Lemma iterateScores_unreferenced (g : Graph) (d : Q) (m : string) (rounds : nat) :
  let nodeList := JsMap.keys (nodes g) in
  let N := List.length nodeList in
  In m nodeList -> getImporters g m = [] ->
  forall scores,
    PageRank.scoreOr0 (PageRank.iterateScores g d N nodeList (S rounds) scores) m
    = (1 - d) / natQ N.
Proof.
  intros nodeList N Hm Hnone.
  assert (Hone : forall scores,
             PageRank.scoreOr0 (PageRank.iteration g d N nodeList scores) m
             = (1 - d) / natQ N).
  { intros scores. unfold PageRank.scoreOr0. rewrite iteration_get. fold nodeList.
    apply existsb_eqb_In in Hm. rewrite Hm.
    unfold PageRank.nodeScore. unfold getImporters in Hnone. now rewrite Hnone. }
  induction rounds as [|r IH]; intros scores.
  - apply Hone.
  - change (PageRank.iterateScores g d N nodeList (S (S r)) scores)
      with (PageRank.iterateScores g d N nodeList (S r)
              (PageRank.iteration g d N nodeList scores)).
    apply IH.
Qed.

Lemma pageRank_entry (g : Graph) (iterations : nat) (d : Q) (rf : RankedFile) :
  In rf (PageRank.pageRank g iterations d) ->
  In (rf_file rf) (JsMap.keys (nodes g))
  /\ rf_score rf = PageRank.scoreOr0 (PageRank.finalScores g iterations d) (rf_file rf).
Proof.
  intros Hin. unfold PageRank.pageRank in Hin.
  destruct (List.length (JsMap.keys (nodes g)) =? 0); [contradiction|].
  apply assignRanks_In in Hin. destruct Hin as [rf0 [Hin [Hf Hs]]].
  apply (Permutation_in _ (sortStable_perm _ _)) in Hin.
  apply in_map_iff in Hin. destruct Hin as [file [Hrf0 Hfile]]. subst rf0.
  cbn [rf_file rf_score] in Hf, Hs. rewrite Hf, Hs. now split.
Qed.

(** X9. After at least one round, a file that nothing imports has
    exactly the score (1 - d)/N, the share of the random jump, and with a
    damping factor between 0 and 1 no file of the ranking has a smaller
    score: the files that nothing imports tie at the bottom of the
    ranking. *)
Theorem X9_unreferenced_files_score
        (g : Graph) (iterations : nat) (d : Q) (rf : RankedFile) :
  In rf (PageRank.pageRank g (S iterations) d) ->
  getInDegree g (rf_file rf) = 0%nat ->
  rf_score rf = scoreFloor g d
  /\ (0 <= d -> d <= 1 ->
      forall other, In other (PageRank.pageRank g (S iterations) d) ->
                    rf_score rf <= rf_score other).
Proof.
  intros Hin Hdeg.
  destruct (pageRank_entry g (S iterations) d rf Hin) as [Hfile Hscore].
  assert (Hfloor : rf_score rf = scoreFloor g d).
  { rewrite Hscore. unfold PageRank.finalScores, scoreFloor. cbv zeta.
    apply iterateScores_unreferenced; [exact Hfile|].
    unfold getInDegree in Hdeg. now apply length_zero_iff_nil. }
  split; [exact Hfloor|]. intros Hd0 Hd1 other Hother.
  rewrite Hfloor.
  destruct (pageRank_entry g (S iterations) d other Hother) as [Hofile Hoscore].
  rewrite Hoscore. unfold scoreFloor. now apply finalScores_floor.
Qed.

Lemma X9_witness :
  15 # 300 = scoreFloor cohesionGraph (85 # 100)
  /\ (0 <= 85 # 100 -> 85 # 100 <= 1 ->
      forall other, In other (PageRank.pageRank cohesionGraph 1 (85 # 100)) ->
                    15 # 300 <= rf_score other).
Proof.
  apply (X9_unreferenced_files_score cohesionGraph 0 (85 # 100)
           (mkRankedFile "a" (15 # 300) 3 0 1)).
  - vm_compute. tauto.
  - reflexivity.
Defined.

Close Scope Q_scope.

(** ** Normalising twice *)

Open Scope Q_scope.



Close Scope Q_scope.

(** ** The cycle detector finds a cycle whenever there is one *)

Section DfsCycle.

Variable adj : JsMap.t (list string).
Variable C : list string.
Hypothesis feeding : selfFeeding adj C.

Lemma visitNeighbor_cycle (fuel : nat) path nb st st' :
  recCycle C (Detect.dfs fuel adj) ->
  stackOnPath st path -> cycleInv C st ->
  Detect.visitNeighbor (Detect.dfs fuel adj) path nb st = Some st' ->
  cycleInv C st'.
Proof.
  intros Hrec Hsp Hinv. unfold Detect.visitNeighbor.
  destruct (Detect.setHas (Detect.stack st) nb) eqn:Hs.
  - destruct (Detect.indexOf path nb); intros H; inversion H; subst; [|assumption].
    left. simpl. now destruct (Detect.cycles st).
  - destruct (Detect.setHas (Detect.visited st) nb) eqn:Hv; simpl; intros H.
    + inversion H. now subst.
    + now apply (Hrec _ _ _ _ H).
Qed.

(** The loop over the neighbours keeps the invariant, and a neighbour
    that belongs to [C] forces a recorded cycle: it is on the stack, or it
    was finished before, or it is finished by the recursive call. *)
Lemma visitNeighbors_cycle (fuel : nat) path nbrs : forall st st',
  recCycle C (Detect.dfs fuel adj) ->
  stackOnPath st path -> cycleInv C st ->
  Detect.visitNeighbors (Detect.dfs fuel adj) path nbrs st = Some st' ->
  cycleInv C st'
  /\ forall Y, In Y nbrs -> In Y C -> Detect.cycles st' <> [].
Proof.
  induction nbrs as [|nb nbrs IH]; intros st st' Hrec Hsp Hinv H; simpl in H.
  - inversion H. subst. split; [assumption | intros Y []].
  - destruct (Detect.visitNeighbor (Detect.dfs fuel adj) path nb st) as [s1|] eqn:E;
      [|discriminate].
    pose proof (visitNeighbor_extends _ path nb st s1 (dfs_extends adj fuel) E) as Hext1.
    pose proof (visitNeighbors_extends _ path nbrs s1 st' (dfs_extends adj fuel) H) as Hext2.
    assert (Hs1 : Detect.stack s1 = Detect.stack st) by (now destruct Hext1).
    assert (Hinv1 : cycleInv C s1) by (eapply visitNeighbor_cycle; eauto).
    destruct (IH s1 st') as [Hinv' Hhits]; auto.
    { intros x Hx. apply Hsp. now rewrite <- Hs1. }
    split; [assumption|].
    intros Y [->|HY] HC; [|now apply (Hhits Y)].
    apply (extends_found s1 st' Hext2).
    unfold Detect.visitNeighbor in E.
    destruct (Detect.setHas (Detect.stack st) Y) eqn:HsY.
    + destruct (indexOf_found path Y (Hsp Y HsY)) as [i Hi]. rewrite Hi in E.
      inversion E. simpl. now destruct (Detect.cycles st).
    + destruct Hinv1 as [Hfound|Hun]; [assumption|]. exfalso.
      specialize (Hun Y HC). unfold finished in Hun. rewrite Hs1, HsY in Hun.
      destruct (Detect.setHas (Detect.visited st) Y) eqn:HvY; simpl in E.
      * inversion E. subst s1. rewrite HvY in Hun. discriminate.
      * destruct (dfs_extends adj fuel _ _ _ _ E HsY) as [_ Hvis].
        rewrite Hvis in Hun. discriminate.
Qed.

Lemma dfs_cycle (fuel : nat) : recCycle C (Detect.dfs fuel adj).
Proof.
  induction fuel as [|fuel IH]; intros X path st st' H Hv Hs Hsp Hinv; [discriminate|].
  cbn [Detect.dfs] in H.
  destruct (Detect.visitNeighbors (Detect.dfs fuel adj) (path ++ [X]) (getOrEmpty adj X)
              (Detect.mkDfs (Detect.setAdd (Detect.visited st) X)
                            (Detect.setAdd (Detect.stack st) X) (Detect.cycles st)))
    as [st2|] eqn:E; [|discriminate].
  inversion H. subst st'. clear H.
  assert (Hsp1 : stackOnPath
                   (Detect.mkDfs (Detect.setAdd (Detect.visited st) X)
                                 (Detect.setAdd (Detect.stack st) X) (Detect.cycles st))
                   (path ++ [X])).
  { intros x Hx. simpl in Hx. rewrite setHas_setAdd in Hx.
    apply in_or_app. destruct (String.eqb X x) eqn:Ex.
    - apply String.eqb_eq in Ex. subst. right. now left.
    - left. now apply Hsp. }
  assert (Hinv1 : cycleInv C
                    (Detect.mkDfs (Detect.setAdd (Detect.visited st) X)
                                  (Detect.setAdd (Detect.stack st) X) (Detect.cycles st))).
  { destruct Hinv as [Hfound|Hun]; [now left|]. right. intros Z HZ.
    rewrite finished_push. destruct (String.eqb X Z); [reflexivity | now apply Hun]. }
  destruct (visitNeighbors_cycle fuel _ _ _ _ IH Hsp1 Hinv1 E) as [Hinv2 Hhits].
  destruct (Detect.cycles st2) as [|c cs] eqn:Hc; [|left; simpl; discriminate].
  destruct Hinv2 as [Hfound|Hun]; [congruence|].
  right. intros Z HZ.
  destruct (string_dec X Z) as [->|Hne].
  - exfalso. destruct (feeding Z HZ) as [Y [HY HYC]].
    now apply (Hhits Y HY HYC).
  - specialize (Hun Z HZ). unfold finished in *. simpl. rewrite setHas_setDelete.
    apply String.eqb_neq in Hne. now rewrite Hne.
Qed.

Lemma dfsAll_cycle (fuel : nat) (nodeList : list string) : forall st st',
  Detect.stack st = [] -> cycleInv C st ->
  Detect.dfsAll fuel adj nodeList st = Some st' -> cycleInv C st'.
Proof.
  induction nodeList as [|node rest IH]; intros st st' Hstack Hinv H;
    cbn [Detect.dfsAll] in H.
  - inversion H. now subst.
  - destruct (Detect.setHas (Detect.visited st) node) eqn:Hv; cbn [negb] in H.
    + now apply (IH st st').
    + destruct (Detect.dfs fuel adj node [] st) as [s1|] eqn:E; [|discriminate].
      apply (IH s1 st'); [| |assumption].
      * destruct (dfs_extends adj fuel _ _ _ _ E) as [[Hs _] _]; [now rewrite Hstack|].
        congruence.
      * apply (dfs_cycle fuel _ _ _ _ E); auto.
        -- now rewrite Hstack.
        -- intros x Hx. rewrite Hstack in Hx. discriminate.
Qed.

End DfsCycle.

(** In a closed walk every node but the last has its successor in the
    walk. *)
Lemma chain_next (adj : JsMap.t (list string)) (l : list string) : forall z,
  chain adj (l ++ [z]) ->
  forall X, In X l -> exists Y, edgeIn adj X Y /\ (In Y l \/ Y = z).
Proof.
  induction l as [|x l IH]; intros z Hch X HX; [contradiction|].
  destruct l as [|y l].
  - destruct HX as [<-|[]]. simpl in Hch. exists z. split; [tauto | now right].
  - change ((x :: y :: l) ++ [z]) with (x :: (y :: l) ++ [z]) in Hch.
    change ((y :: l) ++ [z]) with (y :: l ++ [z]) in Hch.
    destruct Hch as [Hxy Hrest]. destruct HX as [<-|HX].
    + exists y. split; [assumption | left; right; now left].
    + destruct (IH z Hrest X HX) as [Y [HY Hin]]. exists Y. split; [assumption|].
      destruct Hin as [Hin|Hin]; [left; now right | now right].
Qed.

Lemma closedWalk_selfFeeding (adj : JsMap.t (list string)) (v : string) (mid : list string) :
  chain adj (v :: mid ++ [v]) -> selfFeeding adj (v :: mid).
Proof.
  intros Hch X HX.
  destruct (chain_next adj (v :: mid) v Hch X HX) as [Y [HY [Hin| ->]]].
  - now exists Y.
  - exists v. split; [assumption | now left].
Qed.

Lemma findCycles_complete (g : Graph) :
  registeredCycle g -> exists cs, Detect.findCycles g = Some cs /\ cs <> [].
Proof.
  intros [c [x [[v [mid [Hc Hch]]] [Hxc Hx]]]].
  destruct (findCycles_run g) as [st [Hrun [Hstack [Hall Hfind]]]].
  exists (Detect.cycles st). split; [assumption|].
  subst c.
  assert (Hinv : cycleInv (v :: mid) st).
  { apply (dfsAll_cycle (adjacencyList g) (v :: mid)
                        (closedWalk_selfFeeding _ v mid Hch) (Detect.dfsFuel g)
                        (JsMap.keys (nodes g)) (Detect.mkDfs [] [] []) st);
      [reflexivity | right; intros; reflexivity | exact Hrun]. }
  destruct Hinv as [Hfound|Hun]; [assumption|]. exfalso.
  assert (HxC : In x (v :: mid)).
  { change (v :: mid ++ [v]) with ((v :: mid) ++ [v]) in Hxc.
    apply in_app_or in Hxc. destruct Hxc as [H|[<-|[]]]; [assumption | now left]. }
  specialize (Hun x HxC). unfold finished in Hun.
  rewrite (Hall x Hx), Hstack in Hun. discriminate.
Qed.

(** X11. The Circular Dependencies detector fires whenever the graph
    has an import cycle of any length through a registered node, and only
    when the graph has an import cycle: the search never overlooks every
    cycle, although it need not report each of them. *)
Theorem X11_cycle_detector_complete (g : Graph) (files : list string) (root : string) :
  (registeredCycle g ->
   exists p, Detect.detectCircularDependencies files root g = Some p
             /\ pattern p = "Circular Dependencies"
             /\ evidence p <> [])
  /\ ((exists p, Detect.detectCircularDependencies files root g = Some p) ->
      exists c, closedWalk (adjacencyList g) c).
Proof.
  unfold Detect.detectCircularDependencies. split.
  - intros Hcyc. destruct (findCycles_complete g Hcyc) as [cs [Hfind Hne]].
    rewrite Hfind. unfold Detect.circularPattern.
    destruct cs as [|c cs]; [congruence|]. simpl Nat.eqb. cbv iota.
    eexists. split; [reflexivity|]. simpl. split; [reflexivity | discriminate].
  - intros [p Hp]. destruct (Detect.findCycles g) as [cs|] eqn:Hfind; [|discriminate].
    destruct cs as [|c cs]; [discriminate|].
    exists c. apply (findCycles_sound g (c :: cs) Hfind). now left.
Qed.

Lemma X11_witness :
  exists p, Detect.detectCircularDependencies [] "/r" detourGraph = Some p
            /\ pattern p = "Circular Dependencies"
            /\ evidence p <> [].
Proof.
  apply (X11_cycle_detector_complete detourGraph [] "/r").
  exists ["/r/a.ts"; "/r/b.ts"; "/r/a.ts"], "/r/a.ts".
  split; [|split; [now left | vm_compute; now left]].
  exists "/r/a.ts", ["/r/b.ts"]. split; [reflexivity|].
  vm_compute. tauto.
Defined.

(** ** The findings of the detectors *)

Open Scope Q_scope.

Lemma Qdiv_nonneg (a b : Q) : 0 <= a -> 0 <= b -> 0 <= a / b.
Proof.
  intros Ha Hb. unfold Qdiv. apply Qmult_le_0_compat; [assumption|].
  now apply Qinv_le_0_compat.
Qed.

Lemma qminimum_bounds (a b : Q) :
  0 <= a -> 0 <= b -> 0 <= Detect.qminimum a b /\ Detect.qminimum a b <= a.
Proof.
  intros Ha Hb. unfold Detect.qminimum. destruct (Qle_bool a b) eqn:E.
  - split; [assumption | apply Qle_refl].
  - split; [assumption|]. destruct (Qlt_le_dec b a) as [H|H]; [now apply Qlt_le_weak|].
    apply Qle_bool_iff in H. congruence.
Qed.

Lemma ratio_confidence (k n : nat) (cap : Q) (extra : Q) :
  0 <= cap -> cap <= 1 -> 0 <= extra ->
  0 <= Detect.qminimum cap (natQ k / natQ n + extra)
  /\ Detect.qminimum cap (natQ k / natQ n + extra) <= 1.
Proof.
  intros Hc0 Hc1 He.
  assert (Hr : 0 <= natQ k / natQ n + extra).
  { rewrite <- (Qplus_0_r 0). apply Qplus_le_compat; [|assumption].
    apply Qdiv_nonneg; apply natQ_nonneg. }
  destruct (qminimum_bounds cap _ Hc0 Hr) as [H1 H2].
  split; [assumption | eapply Qle_trans; eassumption].
Qed.

Ltac finding_constant :=
  unfold findingOf; simpl;
  repeat split; try reflexivity; try discriminate.

Lemma detectMVC_finding (h : Host) : detectorOf "MVC (Model-View-Controller)" (Detect.detectMVC h).
Proof.
  intros files root g p. unfold Detect.detectMVC. cbv zeta.
  destruct (Detect.some _ _); [|discriminate].
  destruct (Detect.some _ _); [|discriminate].
  destruct (Detect.some _ _); [|discriminate].
  simpl. intros H. inversion H. finding_constant.
Qed.

Lemma detectLayeredArch_finding (h : Host) :
  detectorOf "Layered Architecture" (Detect.detectLayeredArch h).
Proof.
  intros files root g p. unfold Detect.detectLayeredArch. cbv zeta.
  destruct (Detect.some _ _); destruct (Detect.some _ _); destruct (Detect.some _ _);
    simpl; intros H; inversion H; finding_constant.
Qed.

Lemma detectFeatureBased_finding (h : Host) :
  detectorOf "Feature-based Organization" (Detect.detectFeatureBased h).
Proof.
  intros files root g p. unfold Detect.detectFeatureBased. cbv zeta.
  destruct (Detect.some _ _); [|discriminate].
  destruct (2 <=? _); [|discriminate].
  intros H. inversion H. finding_constant.
Qed.

Lemma detectMonorepo_finding (h : Host) : detectorOf "Monorepo" (Detect.detectMonorepo h).
Proof.
  intros files root g p. unfold Detect.detectMonorepo. cbv zeta.
  destruct (Detect.some _ _); destruct (Detect.some _ _);
    simpl; intros H; inversion H; finding_constant.
Qed.

Lemma detectBarrelExports_finding (h : Host) :
  detectorOf "Barrel Exports" (Detect.detectBarrelExports h).
Proof.
  intros files root g p. unfold Detect.detectBarrelExports. cbv zeta.
  destruct (_ && _); [|discriminate].
  intros H. inversion H. unfold findingOf. cbn [pattern confidence evidence].
  destruct (Qlt_bool _ _); repeat split; try reflexivity; discriminate.
Qed.

Lemma detectDDD_finding (h : Host) :
  detectorOf "Domain-Driven Design (DDD)" (Detect.detectDDD h).
Proof.
  intros files root g p. unfold Detect.detectDDD. cbv zeta.
  destruct (Detect.some _ _); destruct (Detect.some _ _); destruct (Detect.some _ _);
    destruct (Detect.some _ _); destruct (Detect.some _ _);
    simpl; intros H; inversion H; finding_constant.
Qed.

Lemma detectCircularDependencies_finding :
  detectorOf "Circular Dependencies" Detect.detectCircularDependencies.
Proof.
  intros files root g p. unfold Detect.detectCircularDependencies.
  destruct (Detect.findCycles g) as [cs|]; [|discriminate].
  unfold Detect.circularPattern. destruct (List.length cs =? 0); [discriminate|].
  intros H. inversion H. unfold findingOf. cbn [pattern confidence evidence].
  split; [reflexivity|].
  destruct (qminimum_bounds 1 (natQ (List.length (Detect.uniqueCycles cs)) / 5))
    as [Hlo Hhi]; [discriminate | apply Qdiv_nonneg; [apply natQ_nonneg | discriminate] |].
  repeat split; try assumption. discriminate.
Qed.

Lemma detectDeadCode_finding :
  detectorOf "Unreferenced Files (Potential Dead Code)" Detect.detectDeadCode.
Proof.
  intros files root g p. unfold Detect.detectDeadCode. cbv zeta.
  destruct (List.length _ =? 0); [discriminate|].
  intros H. inversion H. unfold findingOf. cbn [pattern confidence evidence].
  split; [reflexivity|].
  match goal with
  | |- context [Detect.qminimum ?a ?b] =>
    destruct (qminimum_bounds a b) as [Hlo Hhi];
      [discriminate | apply Qdiv_nonneg; apply natQ_nonneg |]
  end.
  repeat split; try assumption; [|discriminate].
  eapply Qle_trans; [exact Hhi | discriminate].
Qed.

Lemma detectTests_finding (h : Host) : detectorOf "Tests Present" (Detect.detectTests h).
Proof.
  intros files root g p. unfold Detect.detectTests. cbv zeta.
  destruct (List.length _ =? 0); [discriminate|].
  intros H. inversion H. unfold findingOf. cbn [pattern confidence evidence].
  split; [reflexivity|].
  match goal with
  | |- context [Detect.qminimum 1 (natQ ?k / natQ ?n + ?e)] =>
    destruct (ratio_confidence k n 1 e) as [Hlo Hhi]; try discriminate
  end.
  repeat split; try assumption. discriminate.
Qed.

Lemma detectConfigs_finding (h : Host) : detectorOf "Config Heavy" (Detect.detectConfigs h).
Proof.
  intros files root g p. unfold Detect.detectConfigs. cbv zeta.
  destruct (List.length _ =? 0); [discriminate|].
  intros H. inversion H. unfold findingOf. cbn [pattern confidence evidence].
  split; [reflexivity|].
  match goal with
  | |- context [Detect.qminimum 1 (natQ ?k / natQ ?n + ?e)] =>
    destruct (ratio_confidence k n 1 e) as [Hlo Hhi]; try discriminate
  end.
  repeat split; try assumption. discriminate.
Qed.

Lemma detectHotspots_finding : detectorOf "Graph Hotspots" Detect.detectHotspots.
Proof.
  intros files root g p. unfold Detect.detectHotspots. cbv zeta.
  destruct (JsMap.size (nodes g) =? 0); [discriminate|].
  destruct (Js.take 3 _) as [|first rest]; [discriminate|].
  intros H. inversion H. unfold findingOf. cbn [pattern confidence evidence].
  split; [reflexivity|].
  match goal with
  | |- context [Detect.qminimum ?a ?b] =>
    destruct (qminimum_bounds a b) as [Hlo Hhi];
      [discriminate | apply Qdiv_nonneg; apply natQ_nonneg |]
  end.
  repeat split; try assumption. discriminate.
Qed.

Lemma PATTERN_DETECTORS_names (h : Host) :
  Forall2 detectorOf patternNames (Detect.PATTERN_DETECTORS h).
Proof.
  unfold patternNames, Detect.PATTERN_DETECTORS.
  repeat (apply Forall2_cons;
          [first [ apply detectMVC_finding | apply detectLayeredArch_finding
                 | apply detectFeatureBased_finding | apply detectMonorepo_finding
                 | apply detectBarrelExports_finding | apply detectDDD_finding
                 | apply detectCircularDependencies_finding | apply detectDeadCode_finding
                 | apply detectTests_finding | apply detectConfigs_finding
                 | apply detectHotspots_finding ]|]).
  apply Forall2_nil.
Qed.

Close Scope Q_scope.

(** What [runDetectors] collects from detectors with distinct names. *)
Lemma runDetectors_findings (files : list string) (root : string) (g : Graph)
      (names : list string) (detectors : list Detect.PatternDetector) :
  Forall2 detectorOf names detectors ->
  NoDup names ->
  let found := Detect.runDetectors detectors files root g in
  (forall p, In p found -> In (pattern p) names /\ findingOf (pattern p) p)
  /\ NoDup (map pattern found)
  /\ List.length found <= List.length names.
Proof.
  intros Hall. induction Hall as [|name d names ds Hd Hrest IH]; intros Hnd; cbn zeta.
  - simpl. split; [intros p []|]. split; [constructor | lia].
  - inversion Hnd as [|? ? Hnot Hnd']; subst.
    destruct (IH Hnd') as [Hin [Hdup Hlen]]. cbn zeta in Hin, Hdup, Hlen.
    unfold Detect.runDetectors in *. simpl flat_map.
    destruct (d files root g) as [p0|] eqn:E; simpl app.
    + pose proof (Hd files root g p0 E) as Hp0.
      assert (Hname : pattern p0 = name) by (now destruct Hp0).
      split; [|split].
      * intros p [<-|Hp].
        -- rewrite Hname at 1. split; [now left | now rewrite Hname].
        -- destruct (Hin p Hp) as [H1 H2]. split; [now right | assumption].
      * simpl. constructor; [|assumption].
        intros Hc. apply in_map_iff in Hc. destruct Hc as [q [Hq Hqin]].
        apply Hnot. rewrite <- Hname, <- Hq. now apply Hin.
      * simpl. lia.
    + split; [|split].
      * intros p Hp. destruct (Hin p Hp) as [H1 H2]. split; [now right | assumption].
      * assumption.
      * simpl. lia.
Qed.

(** X12. Whatever [detectPatterns] returns is well-formed: every
    finding has one of the eleven pattern names, a confidence between 0
    and 1 and at least one line of evidence; no pattern is reported
    twice, so there are at most eleven findings. *)
Theorem X12_findings_well_formed
        (h : Host) (input : Detect.DetectPatternsInput) (patterns : list Pattern) :
  Detect.detectPatterns h input = Detect.Returned patterns ->
  (forall p, In p patterns ->
     In (pattern p) patternNames
     /\ (0 <= confidence p)%Q /\ (confidence p <= 1)%Q
     /\ evidence p <> [])
  /\ NoDup (map pattern patterns)
  /\ List.length patterns <= 11.
Proof.
  unfold Detect.detectPatterns.
  destruct (Detect.in_repoRoot input) as [root|]; [|discriminate].
  destruct (String.eqb root ""); [discriminate|].
  set (found := Detect.runDetectors (Detect.PATTERN_DETECTORS h) (Detect.in_files input)
                                    root (Detect.in_graph input)).
  assert (Hnd : NoDup patternNames).
  { unfold patternNames.
    repeat (constructor; [simpl; intros Hc; repeat destruct Hc as [Hc|Hc];
                          try discriminate Hc; try contradiction|]).
    constructor. }
  destruct (runDetectors_findings (Detect.in_files input) root (Detect.in_graph input)
              patternNames (Detect.PATTERN_DETECTORS h)
              (PATTERN_DETECTORS_names h) Hnd) as [Hin [Hdup Hlen]].
  cbn zeta in Hin, Hdup, Hlen. fold found in Hin, Hdup, Hlen.
  pose proof (sortStable_perm (descendingBy confidence) found) as Hperm.
  assert (Hlen' : List.length (sortStable (descendingBy confidence) found) <= 11).
  { rewrite (Permutation_length Hperm). exact Hlen. }
  clearbody found.
  intros H. injection H as Hp. subst patterns.
  split; [|split].
  - intros p Hp'. apply (Permutation_in _ Hperm) in Hp'.
    destruct (Hin p Hp') as [H1 [_ [H2 [H3 H4]]]]. auto.
  - apply (Permutation_NoDup (Permutation_sym (Permutation_map pattern Hperm)) Hdup).
  - exact Hlen'.
Qed.

Lemma X12_witness :
  NoDup (map pattern
             (sortStable (descendingBy confidence)
                (Detect.runDetectors (Detect.PATTERN_DETECTORS sampleHost)
                   (Detect.in_files monorepoInput) "/repo"
                   (Detect.in_graph monorepoInput)))).
Proof.
  apply (X12_findings_well_formed sampleHost monorepoInput). reflexivity.
Defined.

(** ** The dead-code detector *)

Lemma noImporter_inDegree (g : Graph) (f : string) :
  Detect.noImporter g f = (getInDegree g f =? 0).
Proof.
  unfold Detect.noImporter, getInDegree, getImporters, getOrEmpty.
  now destruct (JsMap.get (reverseAdjacencyList g) f).
Qed.

Lemma filter_nil_iff {A} (f : A -> bool) (l : list A) :
  filter f l = [] <-> forall x, In x l -> f x = false.
Proof.
  induction l as [|y l IH]; simpl.
  - split; [intros _ x [] | reflexivity].
  - destruct (f y) eqn:E.
    + split; [discriminate|]. intros H. specialize (H y (or_introl eq_refl)). congruence.
    + rewrite IH. split.
      * intros H x [<-|Hx]; [assumption | now apply H].
      * intros H x Hx. apply H. now right.
Qed.

(** X13. The Unreferenced Files detector stays silent exactly when
    every registered node has at least one importer. When it fires, the
    nodes it counts are the registered nodes of in-degree 0, and its
    confidence is min(0.9, count / max(3, number of nodes)). *)
Theorem X13_dead_code_detector (files : list string) (root : string) (g : Graph) :
  (Detect.detectDeadCode files root g = None
   <-> forall n, In n (JsMap.keys (nodes g)) -> 0 < getInDegree g n)
  /\ forall p, Detect.detectDeadCode files root g = Some p ->
       unreferenced g <> []
       /\ (confidence p
           == Qmin (9 # 10)
                   (natQ (List.length (unreferenced g))
                    / natQ (Nat.max 3 (JsMap.size (nodes g)))))%Q
       /\ hd "" (evidence p)
          = "Found " +++ Js.showNat (List.length (unreferenced g))
                     +++ " files with no importers".
Proof.
  assert (E : filter (Detect.noImporter g) (JsMap.keys (nodes g)) = unreferenced g).
  { unfold unreferenced. apply filter_ext. intros n. apply noImporter_inDegree. }
  unfold Detect.detectDeadCode. cbv zeta. rewrite E. split.
  - destruct (unreferenced g) as [|x l] eqn:Hu; simpl.
    + split; [|reflexivity]. intros _ n Hn.
      unfold unreferenced in Hu. rewrite filter_nil_iff in Hu.
      specialize (Hu n Hn). apply Nat.eqb_neq in Hu. lia.
    + split; [discriminate|]. intros H. exfalso.
      assert (Hx : In x (unreferenced g)) by (rewrite Hu; now left).
      unfold unreferenced in Hx. apply filter_In in Hx. destruct Hx as [Hx H0].
      apply Nat.eqb_eq in H0. specialize (H x Hx). lia.
  - intros p. destruct (unreferenced g) as [|x l] eqn:Hu; [discriminate|].
    simpl Nat.eqb. cbv iota. intros H. injection H as <-.
    cbn [confidence evidence hd]. split; [discriminate|]. split; [|reflexivity].
    apply qminimum_Qmin.
Qed.

(** ** Entry points *)

Lemma StronglySorted_weaken {A} (R R' : A -> A -> Prop) (l : list A) :
  (forall a b, R a b -> R' a b) -> StronglySorted R l -> StronglySorted R' l.
Proof.
  intros Himp. induction 1 as [|a l Hs IH Hall]; constructor; [assumption|].
  apply Forall_forall. intros b Hb. rewrite Forall_forall in Hall. now apply Himp, Hall.
Qed.

Lemma natQ_le (a b : nat) : (natQ a <= natQ b)%Q -> a <= b.
Proof. unfold natQ, Qle. simpl. lia. Qed.

Lemma natQ_lt_pos (q : Q) (n : nat) : (0 <= q)%Q -> (q < natQ n)%Q -> 0 < n.
Proof.
  intros H0 Hlt. destruct n as [|n]; [|lia]. exfalso.
  apply (Qlt_irrefl 0). eapply Qle_lt_trans; [exact H0 | exact Hlt].
Qed.

(** A degree that counts as high is at least 1. *)
Lemma isHigh_pos (degree : nat) (avg : Q) :
  (0 <= avg)%Q -> EntryPoints.isHigh degree avg = true -> 0 < degree.
Proof.
  intros Havg H. unfold EntryPoints.isHigh in H. apply Qlt_bool_true in H.
  apply (natQ_lt_pos (avg * EntryPoints.threshold)); [|assumption].
  apply Qmult_le_0_compat; [assumption | discriminate].
Qed.

Lemma classifyFile_types (inDegree outDegree : nat) (avgIn avgOut : Q) :
  (0 <= avgIn)%Q -> (0 <= avgOut)%Q ->
  let t := EntryPoints.cls_type (EntryPoints.classifyFile inDegree outDegree avgIn avgOut) in
  (t = EntryPoints.leaf <-> inDegree = 0 /\ outDegree = 0)
  /\ (t = EntryPoints.entry -> 0 < inDegree)
  /\ (t = EntryPoints.hub -> 0 < inDegree /\ 0 < outDegree)
  /\ (t = EntryPoints.aggregator -> 0 < outDegree).
Proof.
  intros Hin Hout. cbn zeta. unfold EntryPoints.classifyFile. cbv zeta.
  pose proof (isHigh_pos inDegree avgIn Hin) as Hi.
  pose proof (isHigh_pos outDegree avgOut Hout) as Ho.
  destruct (EntryPoints.isHigh inDegree avgIn);
    destruct (EntryPoints.isHigh outDegree avgOut); simpl.
  - specialize (Hi eq_refl). specialize (Ho eq_refl).
    repeat split; try discriminate; try lia; intros; lia.
  - specialize (Hi eq_refl).
    repeat split; try discriminate; try lia; intros; lia.
  - specialize (Ho eq_refl).
    repeat split; try discriminate; try lia; intros; lia.
  - destruct inDegree as [|i]; destruct outDegree as [|o]; simpl;
      repeat split; try discriminate; try lia; intros; try lia; try discriminate;
      try (destruct H; discriminate).
Qed.

(** X14. [findEntryPoints] lists every node once, in descending order
    of in-degree, each with the in-degree and the out-degree its file has
    in the graph; for a graph without nodes the list is empty. *)
Theorem X14_findEntryPoints_listing (g : Graph) :
  let eps := EntryPoints.findEntryPoints g in
  Permutation (map EntryPoints.ep_file eps) (map node_filePath (getAllNodes g))
  /\ StronglySorted byInDegreeDesc eps
  /\ (forall ep, In ep eps ->
        EntryPoints.ep_inDegree ep = getInDegree g (EntryPoints.ep_file ep)
        /\ EntryPoints.ep_outDegree ep = getOutDegree g (EntryPoints.ep_file ep)
        /\ exists reason, EntryPoints.ep_reason ep = Some reason).
Proof.
  cbn zeta. unfold EntryPoints.findEntryPoints. cbv zeta.
  destruct (List.length (getAllNodes g) =? 0) eqn:E.
  - apply Nat.eqb_eq, length_zero_iff_nil in E. rewrite E. simpl.
    split; [constructor|]. split; [constructor | intros ep []].
  - match goal with
    | |- context [sortStable ?cmp ?l] =>
      pose proof (sortStable_perm cmp l) as Hperm; set (entries := l) in *
    end.
    split; [|split].
    + etransitivity; [apply Permutation_map; exact Hperm|].
      unfold entries. rewrite map_map. simpl. apply Permutation_refl.
    + apply (StronglySorted_weaken
               (fun a b => (natQ (EntryPoints.ep_inDegree b)
                            <= natQ (EntryPoints.ep_inDegree a))%Q)).
      * intros a b. apply natQ_le.
      * apply (sortStable_sorted (fun ep => natQ (EntryPoints.ep_inDegree ep))).
    + intros ep Hep. apply (Permutation_in _ Hperm) in Hep.
      unfold entries in Hep. apply in_map_iff in Hep. destruct Hep as [node [<- _]].
      simpl. repeat split. eexists. reflexivity.
Qed.

(** X15. How [findEntryPoints] classifies: a file is a leaf exactly
    when nothing imports it and it imports nothing; an entry point has at
    least one importer, an aggregator imports at least one file, and a hub
    does both. *)
Theorem X15_findEntryPoints_types (g : Graph) (ep : EntryPoints.EntryPoint) :
  In ep (EntryPoints.findEntryPoints g) ->
  (EntryPoints.ep_type ep = EntryPoints.leaf
   <-> getInDegree g (EntryPoints.ep_file ep) = 0
       /\ getOutDegree g (EntryPoints.ep_file ep) = 0)
  /\ (EntryPoints.ep_type ep = EntryPoints.entry
      -> 0 < getInDegree g (EntryPoints.ep_file ep))
  /\ (EntryPoints.ep_type ep = EntryPoints.hub
      -> 0 < getInDegree g (EntryPoints.ep_file ep)
         /\ 0 < getOutDegree g (EntryPoints.ep_file ep))
  /\ (EntryPoints.ep_type ep = EntryPoints.aggregator
      -> 0 < getOutDegree g (EntryPoints.ep_file ep)).
Proof.
  unfold EntryPoints.findEntryPoints. cbv zeta.
  destruct (List.length (getAllNodes g) =? 0); [intros []|].
  intros Hep. apply (Permutation_in _ (sortStable_perm _ _)) in Hep.
  apply in_map_iff in Hep. destruct Hep as [node [<- _]].
  unfold EntryPoints.entryOf. cbv zeta.
  cbn [EntryPoints.ep_type EntryPoints.ep_file].
  apply classifyFile_types; apply Qdiv_nonneg; apply natQ_nonneg.
Qed.

Lemma X15_witness :
  (EntryPoints.leaf = EntryPoints.leaf
   <-> getInDegree starGraph "/r/lonely.ts" = 0 /\ getOutDegree starGraph "/r/lonely.ts" = 0)
  /\ (EntryPoints.leaf = EntryPoints.entry -> 0 < getInDegree starGraph "/r/lonely.ts")
  /\ (EntryPoints.leaf = EntryPoints.hub
      -> 0 < getInDegree starGraph "/r/lonely.ts"
         /\ 0 < getOutDegree starGraph "/r/lonely.ts")
  /\ (EntryPoints.leaf = EntryPoints.aggregator
      -> 0 < getOutDegree starGraph "/r/lonely.ts").
Proof.
  apply (X15_findEntryPoints_types starGraph
           (EntryPoints.mkEntryPoint "/r/lonely.ts" 0 0 EntryPoints.leaf
              (Some "Isolated file with no connections"))).
  vm_compute. tauto.
Defined.

(** ** Clustering by directory *)

(** What [pushAt] does to the entries of a map. *)
Lemma pushAt_entries (m : JsMap.t (list string)) (k v : string) :
  (exists pre files post,
     m = pre ++ (k, files) :: post
     /\ pushAt m k v = pre ++ (k, files ++ [v]) :: post)
  \/ (~ In k (JsMap.keys m) /\ pushAt m k v = m ++ [(k, [v])]).
Proof.
  unfold pushAt. destruct (JsMap.has m k) eqn:Hh; cbn [negb].
  - left. unfold getOrEmpty, JsMap.has in *.
    induction m as [|[k0 l0] m IH]; simpl in *; [discriminate|].
    destruct (String.eqb k0 k) eqn:E.
    + apply String.eqb_eq in E. subst k0. exists [], l0, m. split; reflexivity.
    + destruct (IH Hh) as [pre [files [post [Hm Hp]]]].
      exists ((k0, l0) :: pre), files, post. split.
      * simpl. now rewrite Hm at 1.
      * simpl. now rewrite Hp.
  - right. assert (Hk : ~ In k (JsMap.keys m)).
    { intros H. apply has_In_keys in H. congruence. }
    split; [assumption|]. unfold getOrEmpty. rewrite get_set_same. simpl.
    clear Hh. induction m as [|[k0 l0] m IH]; simpl.
    + now rewrite String.eqb_refl.
    + simpl in Hk. destruct (String.eqb k0 k) eqn:E.
      * apply String.eqb_eq in E. tauto.
      * simpl. rewrite E. f_equal. apply IH. tauto.
Qed.

Lemma pushAt_keys (m : JsMap.t (list string)) (k v : string) :
  JsMap.keys (pushAt m k v)
  = if JsMap.has m k then JsMap.keys m else JsMap.keys m ++ [k].
Proof.
  unfold pushAt. destruct (JsMap.has m k) eqn:Hh; cbn [negb].
  - rewrite keys_set. now rewrite Hh.
  - rewrite !keys_set, Hh, has_set, String.eqb_refl. reflexivity.
Qed.

Lemma pushAt_filesOf (m : JsMap.t (list string)) (k v : string) :
  Permutation (filesOf (pushAt m k v)) (filesOf m ++ [v]).
Proof.
  unfold filesOf.
  destruct (pushAt_entries m k v) as [[pre [files [post [Hm Hp]]]]|[_ Hp]]; rewrite Hp.
  - rewrite Hm, !flat_map_app. simpl. rewrite <- !app_assoc.
    apply Permutation_app_head. apply Permutation_app_head.
    apply Permutation_app_comm.
  - rewrite flat_map_app. simpl. reflexivity.
Qed.

Lemma pushAt_inv (idOf : string -> string) (m : JsMap.t (list string)) (v : string) :
  clusterMapInv idOf m -> clusterMapInv idOf (pushAt m (idOf v) v).
Proof.
  intros [Hnd Hall]. split.
  - rewrite pushAt_keys. destruct (JsMap.has m (idOf v)) eqn:Hh; [assumption|].
    apply NoDup_snoc; [assumption|]. intros H. apply has_In_keys in H. congruence.
  - intros k files Hin.
    destruct (pushAt_entries m (idOf v) v) as [[pre [fs [post [Hm Hp]]]]|[_ Hp]];
      rewrite Hp in Hin.
    + apply in_app_or in Hin. destruct Hin as [Hin|[Heq|Hin]].
      * apply Hall. rewrite Hm. apply in_or_app. now left.
      * inversion Heq. subst k files. split; [now destruct fs|].
        intros f Hf. apply in_app_or in Hf. destruct Hf as [Hf|[<-|[]]]; [|reflexivity].
        apply (Hall (idOf v) fs); [|assumption].
        rewrite Hm. apply in_or_app. right. now left.
      * apply Hall. rewrite Hm. apply in_or_app. right. now right.
    + apply in_app_or in Hin. destruct Hin as [Hin|[Heq|[]]]; [now apply Hall|].
      inversion Heq. subst k files. split; [discriminate|].
      intros f [<-|[]]. reflexivity.
Qed.

Lemma clusterMapOf_spec (h : Host) (repoRoot : string) (maxDepth : nat)
      (nodeList : list Node) :
  let m := DirectoryClustering.clusterMapOf h repoRoot maxDepth nodeList in
  clusterMapInv (DirectoryClustering.clusterIdOf h repoRoot maxDepth) m
  /\ Permutation (filesOf m) (map node_filePath nodeList).
Proof.
  cbn zeta. unfold DirectoryClustering.clusterMapOf.
  assert (Hgen : forall m0 acc,
             clusterMapInv (DirectoryClustering.clusterIdOf h repoRoot maxDepth) m0 ->
             Permutation (filesOf m0) acc ->
             let m := fold_left
                        (fun clusterMap node =>
                           pushAt clusterMap
                                  (DirectoryClustering.clusterIdOf h repoRoot maxDepth
                                                                   (node_filePath node))
                                  (node_filePath node)) nodeList m0 in
             clusterMapInv (DirectoryClustering.clusterIdOf h repoRoot maxDepth) m
             /\ Permutation (filesOf m) (acc ++ map node_filePath nodeList)).
  { induction nodeList as [|node rest IH]; intros m0 acc Hinv Hperm; cbn zeta; simpl.
    - rewrite app_nil_r. now split.
    - destruct (IH (pushAt m0 (DirectoryClustering.clusterIdOf h repoRoot maxDepth
                                                               (node_filePath node))
                           (node_filePath node))
                   (acc ++ [node_filePath node])) as [H1 H2].
      + now apply pushAt_inv.
      + etransitivity; [apply pushAt_filesOf|]. now apply Permutation_app_tail.
      + split; [assumption|]. now rewrite <- app_assoc in H2. }
  apply (Hgen JsMap.empty []).
  - split; [constructor | intros k files []].
  - constructor.
Qed.

(** The clusters before they are sorted: one per entry of the map. *)
Lemma clusters_of_entries (g : Graph) (idOf : string -> string) (m : JsMap.t (list string)) :
  (forall k files, In (k, files) m -> files <> []) ->
  let cs := flat_map (DirectoryClustering.clusterOfEntry g) m in
  map DirectoryClustering.dc_clusterId cs = JsMap.keys m
  /\ flat_map DirectoryClustering.dc_files cs = filesOf m
  /\ forall c, In c cs ->
       In (DirectoryClustering.dc_clusterId c, DirectoryClustering.dc_files c) m
       /\ DirectoryClustering.dc_cohesion c
          = Clustering.calculateCohesion g (DirectoryClustering.dc_files c)
       /\ DirectoryClustering.dc_name c
          = DirectoryClustering.generateClusterName (DirectoryClustering.dc_clusterId c).
Proof.
  induction m as [|[k files] m IH]; intros Hne; cbn zeta.
  - simpl. split; [reflexivity|]. split; [reflexivity|]. intros c [].
  - destruct IH as [Hk [Hf Hc]]; [intros k' fs' H; apply (Hne k'); now right|].
    cbn zeta in Hk, Hf, Hc.
    assert (Hfiles : files <> []) by (apply (Hne k); now left).
    assert (Hhead : DirectoryClustering.clusterOfEntry g (k, files)
                    = [DirectoryClustering.mkDirCluster k
                         (DirectoryClustering.generateClusterName k) files
                         (Clustering.calculateCohesion g files)
                         (Js.showNat (List.length files) +++ " files in "
                            +++ (if String.eqb k "" then "root directory" else k))]).
    { unfold DirectoryClustering.clusterOfEntry. destruct files; [congruence | reflexivity]. }
    cbn [flat_map]. rewrite Hhead. cbn [app map flat_map DirectoryClustering.dc_clusterId
                                        DirectoryClustering.dc_files JsMap.keys fst].
    rewrite Hk. unfold filesOf in *. cbn [flat_map snd]. rewrite Hf.
    split; [reflexivity|]. split; [reflexivity|].
    intros cl [<-|Hin].
    + cbn [DirectoryClustering.dc_clusterId DirectoryClustering.dc_files
           DirectoryClustering.dc_cohesion DirectoryClustering.dc_name].
      split; [now left | split; reflexivity].
    + destruct (Hc cl Hin) as [H1 H2]. split; [now right | assumption].
Qed.

Lemma clusterByDirectory_files (h : Host) (g : Graph) (repoRoot : string) (maxDepth : nat) :
  Permutation (flat_map DirectoryClustering.dc_files
                        (DirectoryClustering.clusterByDirectory h g repoRoot maxDepth))
              (map node_filePath (getAllNodes g))
  /\ forall c, In c (DirectoryClustering.clusterByDirectory h g repoRoot maxDepth) ->
       DirectoryClustering.dc_files c <> [].
Proof.
  unfold DirectoryClustering.clusterByDirectory. cbv zeta.
  destruct (clusterMapOf_spec h repoRoot maxDepth (getAllNodes g)) as [[Hnd Hall] Hperm].
  cbn zeta in Hnd, Hall, Hperm.
  set (m := DirectoryClustering.clusterMapOf h repoRoot maxDepth (getAllNodes g)) in *.
  destruct (clusters_of_entries g (DirectoryClustering.clusterIdOf h repoRoot maxDepth) m)
    as [Hk [Hf Hc]]; [intros k files H; now apply (Hall k files)|].
  cbn zeta in Hk, Hf, Hc.
  set (cs := flat_map (DirectoryClustering.clusterOfEntry g) m) in *.
  pose proof (sortStable_perm
                (descendingBy (fun c => natQ (List.length (DirectoryClustering.dc_files c))))
                cs) as Hsort.
  split.
  - etransitivity; [|exact Hperm]. rewrite <- Hf.
    apply Permutation_flat_map. exact Hsort.
  - intros c Hin. apply (Permutation_in _ Hsort) in Hin.
    destruct (Hc c Hin) as [Hentry _]. now destruct (Hall _ _ Hentry).
Qed.

(** X16. [clusterByDirectory] partitions the nodes: the files of its
    clusters are the file paths of the nodes, each listed once per node;
    no cluster is empty; no two clusters have the same id; every file
    sits in the cluster whose id is computed from its own path; the
    clusters come in descending order of size, each with the cohesion of
    its files and the name generated from its id. *)
Theorem X16_clusterByDirectory_partition
        (h : Host) (g : Graph) (repoRoot : string) (maxDepth : nat) :
  let cs := DirectoryClustering.clusterByDirectory h g repoRoot maxDepth in
  Permutation (flat_map DirectoryClustering.dc_files cs)
              (map node_filePath (getAllNodes g))
  /\ NoDup (map DirectoryClustering.dc_clusterId cs)
  /\ StronglySorted bySizeDesc cs
  /\ forall c, In c cs ->
       DirectoryClustering.dc_files c <> []
       /\ (forall f, In f (DirectoryClustering.dc_files c) ->
             DirectoryClustering.clusterIdOf h repoRoot maxDepth f
             = DirectoryClustering.dc_clusterId c)
       /\ DirectoryClustering.dc_cohesion c
          = Clustering.calculateCohesion g (DirectoryClustering.dc_files c)
       /\ DirectoryClustering.dc_name c
          = DirectoryClustering.generateClusterName (DirectoryClustering.dc_clusterId c).
Proof.
  cbn zeta. unfold DirectoryClustering.clusterByDirectory. cbv zeta.
  destruct (clusterMapOf_spec h repoRoot maxDepth (getAllNodes g)) as [[Hnd Hall] Hperm].
  cbn zeta in Hnd, Hall, Hperm.
  set (m := DirectoryClustering.clusterMapOf h repoRoot maxDepth (getAllNodes g)) in *.
  destruct (clusters_of_entries g (DirectoryClustering.clusterIdOf h repoRoot maxDepth) m)
    as [Hk [Hf Hc]]; [intros k files H; now apply (Hall k files)|].
  cbn zeta in Hk, Hf, Hc.
  set (cs := flat_map (DirectoryClustering.clusterOfEntry g) m) in *.
  pose proof (sortStable_perm
                (descendingBy (fun c => natQ (List.length (DirectoryClustering.dc_files c))))
                cs) as Hsort.
  split; [|split; [|split]].
  - etransitivity; [|exact Hperm]. rewrite <- Hf.
    apply Permutation_flat_map. exact Hsort.
  - apply (Permutation_NoDup
             (Permutation_sym (Permutation_map DirectoryClustering.dc_clusterId Hsort))).
    now rewrite Hk.
  - apply (StronglySorted_weaken
             (fun a b => (natQ (List.length (DirectoryClustering.dc_files b))
                          <= natQ (List.length (DirectoryClustering.dc_files a)))%Q)).
    + intros a b. apply natQ_le.
    + apply (sortStable_sorted
               (fun c => natQ (List.length (DirectoryClustering.dc_files c)))).
  - intros c Hin. apply (Permutation_in _ Hsort) in Hin.
    destruct (Hc c Hin) as [Hentry [Hcoh Hname]].
    destruct (Hall _ _ Hentry) as [Hne Hid]. auto.
Qed.

(** ** The range of the cohesion *)

Lemma flat_map_length_le {A B} (f : A -> list B) (c : nat) (l : list A) :
  (forall x, In x l -> List.length (f x) <= c) ->
  List.length (flat_map f l) <= List.length l * c.
Proof.
  induction l as [|x l IH]; intros H; simpl; [lia|].
  rewrite length_app. specialize (H x (or_introl eq_refl)) as Hx.
  assert (List.length (flat_map f l) <= List.length l * c).
  { apply IH. intros y Hy. apply H. now right. }
  lia.
Qed.

Lemma offDiagonal_length (files : list string) :
  List.length (offDiagonal files) <= List.length files * (List.length files - 1).
Proof.
  unfold offDiagonal. apply flat_map_length_le. intros s Hs.
  rewrite length_map. pose proof (remove_length_lt string_dec files s Hs). lia.
Qed.

(** Dropping entries keeps the keys distinct. *)
Lemma filter_keys_distinct {A B} (key : A -> B) (keep : A -> bool) :
  forall entries, NoDup (map key entries) -> NoDup (map key (filter keep entries)).
Proof.
  intros entries. induction entries as [|e entries IH]; cbn [filter map]; intros Hnd.
  - exact Hnd.
  - apply NoDup_cons_iff in Hnd. destruct Hnd as [Hfresh Hrest].
    destruct (keep e); cbn [map]; [|now apply IH].
    apply NoDup_cons; [|now apply IH].
    rewrite in_map_iff. intros [e' [Hkey He']].
    apply filter_In in He'. apply Hfresh. rewrite <- Hkey. now apply in_map.
Qed.

Lemma internal_edges_bound (g : Graph) (files : list string) :
  noDuplicateEdges g -> noSelfImport g ->
  Clustering.internalEdgeCount g files <= List.length files * (List.length files - 1).
Proof.
  intros Hdup Hself. unfold Clustering.internalEdgeCount.
  etransitivity; [|apply offDiagonal_length].
  rewrite <- (length_map endpoints).
  apply NoDup_incl_length; [now apply filter_keys_distinct|].
  intros [s t] Hin. apply in_map_iff in Hin. destruct Hin as [e [He Hin]].
  apply filter_In in Hin. destruct Hin as [Hin Hint].
  unfold Clustering.isInternal in Hint. apply andb_true_iff in Hint.
  destruct Hint as [Hs Ht]. apply setHas_In in Hs, Ht.
  unfold endpoints in He. inversion He. subst s t.
  unfold offDiagonal. apply in_flat_map. exists (edge_source e). split; [assumption|].
  apply in_map. apply in_in_remove; [|assumption].
  intros Heq. apply (Hself e Hin). now symmetry.
Qed.

(** X17. The cohesion of a set of files is never negative, and in a
    graph whose edges have distinct (source, target) pairs and in which no
    file imports itself it is at most 1: there are at most n(n-1) edges
    between n files. *)
Theorem X17_cohesion_range (g : Graph) (files : list string) :
  noDuplicateEdges g -> noSelfImport g ->
  (0 <= Clustering.calculateCohesion g files)%Q
  /\ (Clustering.calculateCohesion g files <= 1)%Q.
Proof.
  intros Hdup Hself. unfold Clustering.calculateCohesion.
  destruct (List.length files <=? 1) eqn:E1; [split; discriminate|].
  apply Nat.leb_gt in E1.
  destruct (List.length files * (List.length files - 1) =? 0) eqn:E2;
    [apply Nat.eqb_eq in E2; nia|].
  apply Nat.eqb_neq in E2. split.
  - apply Qdiv_nonneg; apply natQ_nonneg.
  - apply Qle_shift_div_r; [apply natQ_pos; lia|]. rewrite Qmult_1_l.
    pose proof (internal_edges_bound g files Hdup Hself) as Hb.
    unfold natQ, Qle. simpl. lia.
Qed.

Lemma X17_witness :
  (0 <= Clustering.calculateCohesion detourGraph ["/r/a.ts"; "/r/b.ts"; "/r/c.ts"])%Q
  /\ (Clustering.calculateCohesion detourGraph ["/r/a.ts"; "/r/b.ts"; "/r/c.ts"] <= 1)%Q.
Proof.
  apply (X17_cohesion_range detourGraph ["/r/a.ts"; "/r/b.ts"; "/r/c.ts"]).
  - unfold noDuplicateEdges. vm_compute.
    repeat (constructor; [simpl; intros Hc; repeat destruct Hc as [Hc|Hc];
                          try discriminate Hc; try contradiction|]).
    constructor.
  - intros e He. vm_compute in He.
    repeat (destruct He as [<-|He]; [vm_compute; discriminate|]). contradiction.
Defined.

(** ** The clusters of [detectClusters] *)

Lemma mergeStep_shape (minSize : nat) (clusters : list DirectoryClustering.DirCluster) :
  forall large small,
    fold_left (DirectoryClustering.mergeStep minSize) clusters (large, small)
    = (large ++ filter (keptCluster minSize) clusters,
       small ++ flat_map DirectoryClustering.dc_files
                         (filter (mergedCluster minSize) clusters)).
Proof.
  induction clusters as [|c cs IH]; intros large small; cbn [fold_left filter flat_map].
  - now rewrite !app_nil_r.
  - unfold DirectoryClustering.mergeStep at 2, mergedCluster, keptCluster.
    cbn [fst snd].
    destruct (minSize <=? List.length (DirectoryClustering.dc_files c));
      cbn [negb]; rewrite IH; unfold mergedCluster, keptCluster.
    + now rewrite <- app_assoc.
    + cbn [flat_map]. now rewrite <- app_assoc.
Qed.

Lemma mergeSmallClusters_shape (minSize : nat)
      (clusters : list DirectoryClustering.DirCluster) :
  let small := flat_map DirectoryClustering.dc_files
                        (filter (mergedCluster minSize) clusters) in
  DirectoryClustering.mergeSmallClusters clusters minSize
  = filter (keptCluster minSize) clusters
    ++ match small with
       | [] => []
       | _ :: _ => [DirectoryClustering.otherCluster small]
       end.
Proof.
  cbn zeta. unfold DirectoryClustering.mergeSmallClusters.
  rewrite mergeStep_shape. cbn [app].
  destruct (flat_map DirectoryClustering.dc_files (filter (mergedCluster minSize) clusters));
    cbn; [now rewrite app_nil_r | reflexivity].
Qed.

Lemma kept_and_merged_files (minSize : nat)
      (clusters : list DirectoryClustering.DirCluster) :
  Permutation (flat_map DirectoryClustering.dc_files (filter (keptCluster minSize) clusters)
               ++ flat_map DirectoryClustering.dc_files
                           (filter (mergedCluster minSize) clusters))
              (flat_map DirectoryClustering.dc_files clusters).
Proof.
  induction clusters as [|c cs IH]; cbn [filter flat_map]; [constructor|].
  unfold mergedCluster at 1. destruct (keptCluster minSize c); cbn [negb flat_map].
  - rewrite <- app_assoc. now apply Permutation_app_head.
  - etransitivity; [apply Permutation_app_swap_app|].
    now apply Permutation_app_head.
Qed.

(** On cluster objects whose names are strings the two renderings of
    [mergeSmallClusters] agree. *)
Lemma asClusters_filter (minSize : nat) (cs : list DirectoryClustering.DirCluster) :
  forall named, DirectoryClustering.asClusters cs = Some named ->
    DirectoryClustering.asClusters (filter (keptCluster minSize) cs)
    = Some (filter (isLarge minSize) named)
    /\ flat_map DirectoryClustering.dc_files (filter (mergedCluster minSize) cs)
       = flat_map cl_files (filter (isSmall minSize) named).
Proof.
  induction cs as [|c cs IH]; intros named H; cbn [DirectoryClustering.asClusters] in H.
  - injection H as <-. now split.
  - destruct (DirectoryClustering.asCluster c) as [c'|] eqn:Ec; [|discriminate].
    destruct (DirectoryClustering.asClusters cs) as [rest|]; [|discriminate].
    injection H as <-. destruct (IH rest eq_refl) as [Hk Hm].
    assert (Hfiles : cl_files c' = DirectoryClustering.dc_files c).
    { unfold DirectoryClustering.asCluster in Ec.
      destruct (DirectoryClustering.dc_name c); [|discriminate]. now injection Ec as <-. }
    cbn [filter]. unfold mergedCluster, keptCluster, isSmall, isLarge in *.
    rewrite Hfiles.
    destruct (minSize <=? List.length (DirectoryClustering.dc_files c)); cbn [negb].
    + cbn [DirectoryClustering.asClusters]. rewrite Ec, Hk. now split.
    + cbn [flat_map]. rewrite Hfiles, Hm. now split.
Qed.

Lemma asClusters_app (a b : list DirectoryClustering.DirCluster) :
  forall a' b',
    DirectoryClustering.asClusters a = Some a' ->
    DirectoryClustering.asClusters b = Some b' ->
    DirectoryClustering.asClusters (a ++ b) = Some (a' ++ b').
Proof.
  induction a as [|c a IH]; intros a' b' Ha Hb; cbn [DirectoryClustering.asClusters] in Ha.
  - injection Ha as <-. exact Hb.
  - destruct (DirectoryClustering.asCluster c) as [c'|] eqn:Ec; [|discriminate].
    destruct (DirectoryClustering.asClusters a) as [rest|]; [|discriminate].
    injection Ha as <-. cbn [app DirectoryClustering.asClusters].
    now rewrite Ec, (IH rest b' eq_refl Hb).
Qed.

Lemma mergeSmallClusters_named (minSize : nat) (cs : list DirectoryClustering.DirCluster)
      (named : list Cluster) :
  DirectoryClustering.asClusters cs = Some named ->
  DirectoryClustering.asClusters (DirectoryClustering.mergeSmallClusters cs minSize)
  = Some (Clustering.mergeSmallClusters named minSize).
Proof.
  intros H. rewrite mergeSmallClusters_shape, mergeSmallClusters_eq.
  destruct (asClusters_filter minSize cs named H) as [Hk Hm].
  apply asClusters_app; [exact Hk|]. rewrite Hm.
  destruct (flat_map cl_files (filter (isSmall minSize) named)); reflexivity.
Qed.

(** X18. [detectClusters] throws exactly when the root is absent or the
    empty string, and returns clusters otherwise, also when a directory
    has the name of a member that every object inherits. The clusters it
    returns partition the nodes: their files are the file paths of the
    nodes, each listed once per node; no cluster is empty, and every
    cluster has at least three files, except the cluster Other that
    collects the files of the smaller directories. When all names are
    strings the clusters are those of [Clustering.mergeSmallClusters]. *)
Theorem X18_detectClusters_partition
        (h : Host) (input : DirectoryClustering.DetectClustersInput) :
  ((exists message, DirectoryClustering.detectClusters h input = Detect.Thrown message)
   <-> DirectoryClustering.dci_repoRoot input = None
       \/ DirectoryClustering.dci_repoRoot input = Some "")
  /\ (forall root, DirectoryClustering.dci_repoRoot input = Some root -> root <> "" ->
        DirectoryClustering.detectClusters h input
        = Detect.Returned
            (DirectoryClustering.mergeSmallClusters
               (DirectoryClustering.clusterByDirectory
                  h (DirectoryClustering.dci_graph input) root 2) 3))
  /\ forall clusters,
       DirectoryClustering.detectClusters h input = Detect.Returned clusters ->
       Permutation (flat_map DirectoryClustering.dc_files clusters)
                   (map node_filePath (getAllNodes (DirectoryClustering.dci_graph input)))
       /\ (forall c, In c clusters ->
             DirectoryClustering.dc_files c <> []
             /\ (3 <= List.length (DirectoryClustering.dc_files c)
                 \/ (DirectoryClustering.dc_clusterId c = "other"
                     /\ DirectoryClustering.dc_name c
                        = DirectoryClustering.NameText "Other")))
       /\ (forall root named,
             DirectoryClustering.dci_repoRoot input = Some root ->
             DirectoryClustering.asClusters
               (DirectoryClustering.clusterByDirectory
                  h (DirectoryClustering.dci_graph input) root 2) = Some named ->
             DirectoryClustering.asClusters clusters
             = Some (Clustering.mergeSmallClusters named 3)).
Proof.
  unfold DirectoryClustering.detectClusters. split; [|split].
  - destruct (DirectoryClustering.dci_repoRoot input) as [root|].
    + destruct (String.eqb root "") eqn:E.
      * apply String.eqb_eq in E. subst. split; [now right | now eexists].
      * apply String.eqb_neq in E. split.
        -- intros [message Hm]. discriminate.
        -- intros [H|H]; [discriminate | congruence].
    + split; [now left | now eexists].
  - intros root Hroot Hne. rewrite Hroot.
    apply String.eqb_neq in Hne. now rewrite Hne.
  - intros clusters.
    destruct (DirectoryClustering.dci_repoRoot input) as [root|]; [|discriminate].
    destruct (String.eqb root ""); [discriminate|].
    intros H. injection H as <-.
    set (cs := DirectoryClustering.clusterByDirectory
                 h (DirectoryClustering.dci_graph input) root 2).
    destruct (clusterByDirectory_files h (DirectoryClustering.dci_graph input) root 2)
      as [Hperm Hne]. fold cs in Hperm, Hne.
    pose proof (mergeSmallClusters_shape 3 cs) as Hshape. cbn zeta in Hshape.
    split; [|split].
    + rewrite Hshape, flat_map_app.
      etransitivity; [|exact Hperm].
      etransitivity; [|apply (kept_and_merged_files 3)].
      apply Permutation_app_head.
      destruct (flat_map DirectoryClustering.dc_files (filter (mergedCluster 3) cs));
        cbn; [constructor | now rewrite app_nil_r].
    + intros c Hin. rewrite Hshape in Hin.
      apply in_app_or in Hin. destruct Hin as [Hin|Hin].
      * apply filter_In in Hin. destruct Hin as [Hin Hlarge].
        unfold keptCluster in Hlarge. apply Nat.leb_le in Hlarge.
        split; [|now left]. intros Hnil. rewrite Hnil in Hlarge. cbn in Hlarge. lia.
      * destruct (flat_map DirectoryClustering.dc_files (filter (mergedCluster 3) cs))
          as [|f fs] eqn:Hs; [contradiction|].
        destruct Hin as [<-|[]]. cbn. split; [discriminate | right; now split].
    + intros root' named Hroot Hnamed. injection Hroot as <-.
      now apply mergeSmallClusters_named.
Qed.

Lemma X18_witness :
  DirectoryClustering.detectClusters
    sampleHost (DirectoryClustering.mkClustersInput constructorGraph (Some "/r"))
  = Detect.Returned
      (DirectoryClustering.mergeSmallClusters
         (DirectoryClustering.clusterByDirectory sampleHost constructorGraph "/r" 2) 3)
  /\ map DirectoryClustering.dc_name
         (DirectoryClustering.mergeSmallClusters
            (DirectoryClustering.clusterByDirectory sampleHost constructorGraph "/r" 2) 3)
     = [DirectoryClustering.NameInherited "constructor"; DirectoryClustering.NameText "Other"].
Proof.
  split; [|vm_compute; reflexivity].
  apply (proj1 (proj2 (X18_detectClusters_partition
                         sampleHost
                         (DirectoryClustering.mkClustersInput constructorGraph (Some "/r"))))
               "/r" eq_refl).
  discriminate.
Defined.

(** ** File system utilities *)

(** With a non-empty exclusion list [shouldExcludeDir] excludes the
    listed names and every name that starts with a dot. *)
Lemma shouldExcludeDir_nonempty (dirName : string) (first : string) (others : list string) :
  FileSystem.shouldExcludeDir dirName (first :: others) = true
  <-> In dirName (first :: others) \/ Js.startsWith dirName "." = true.
Proof.
  unfold FileSystem.shouldExcludeDir. rewrite existsb_exists. split.
  - intros [x [Hx Hor]]. apply orb_true_iff in Hor. destruct Hor as [Heq|Hdot].
    + apply String.eqb_eq in Heq. subst x. now left.
    + now right.
  - intros [Hin|Hdot].
    + exists dirName. split; [assumption|]. now rewrite String.eqb_refl.
    + exists first. split; [now left|]. rewrite Hdot. apply orb_true_r.
Qed.

Lemma extname_shape (p : string) :
  Path.extname p = "" \/ Js.startsWith (Path.extname p) "." = true.
Proof.
  unfold Path.extname. cbv zeta.
  destruct (Path.dropWhile _ (Path.lastComponentRev p)) as [|c before]; [now left|].
  destruct before as [|b before']; [now left|].
  destruct (String.eqb _ ".."); [now left|]. right.
  unfold Js.startsWith, Path.unchars. cbn [string_of_list_ascii].
  rewrite prefix_dot. reflexivity.
Qed.

Lemma table_lookup (ext : string) (l : Language) :
  JsMap.get FileSystem.EXTENSION_TO_LANGUAGE ext = Some l ->
  In ext extensions
  /\ (l = typescript \/ l = javascript -> TsParser.languageOfExt ext = l).
Proof.
  unfold FileSystem.EXTENSION_TO_LANGUAGE. cbn [JsMap.get].
  repeat match goal with
         | |- context [String.eqb ?k ext] =>
           let E := fresh "E" in
           destruct (String.eqb k ext) eqn:E;
             [apply String.eqb_eq in E; subst ext; intros H; inversion H;
              split; [apply existsb_eqb_In; reflexivity
                     | intros [Hl|Hl]; try discriminate Hl; reflexivity]
             | clear E]
         end.
  discriminate.
Qed.

(** X20. [detectLanguage] knows a file exactly when its extension is
    one of those the graph builder tries when it resolves an import. A
    file it calls TypeScript or JavaScript is given the same language by
    the TS/JS parser. The extension it looks up is empty or starts with a
    dot. *)
Theorem X20_detectLanguage (filePath : string) :
  ((exists l, FileSystem.detectLanguage filePath = Some l)
   <-> In (Path.extname filePath) extensions)
  /\ (forall l ph pf,
        FileSystem.detectLanguage filePath = Some l ->
        l = typescript \/ l = javascript ->
        TsParser.parse ph filePath = Some pf ->
        pf_language pf = l /\ pf_filePath pf = filePath)
  /\ (Path.extname filePath = "" \/ Js.startsWith (Path.extname filePath) "." = true).
Proof.
  unfold FileSystem.detectLanguage. split; [|split; [|apply extname_shape]].
  - split.
    + intros [l Hl]. now apply table_lookup in Hl.
    + intros Hin. unfold extensions in Hin. simpl in Hin.
      repeat (destruct Hin as [<-|Hin]; [eexists; reflexivity|]). contradiction.
  - intros l ph pf Hl Hkind Hparse. apply table_lookup in Hl. destruct Hl as [_ Hlang].
    unfold TsParser.parse in Hparse.
    destruct (readFile ph filePath) as [content|]; [|discriminate].
    cbv zeta in Hparse. injection Hparse as <-. simpl. split; [now apply Hlang | reflexivity].
Qed.

(** ** Splitting at a character *)

Lemma prefix_char (c0 c : ascii) (s : string) :
  String.prefix (String c0 "") (String c s) = Ascii.eqb c c0.
Proof.
  change (String.prefix (String c0 "") (String c s))
    with (if ascii_dec c0 c then String.prefix "" s else false).
  destruct (ascii_dec c0 c) as [E|E].
  - subst. rewrite Ascii.eqb_refl. now destruct s.
  - symmetry. apply Ascii.eqb_neq. congruence.
Qed.

Lemma split_aux_pieces (c0 : ascii) (s : string) : forall fuel acc,
  String.length s < fuel ->
  Js.split_aux fuel (String c0 "") acc s = piecesFrom c0 acc s.
Proof.
  induction s as [|c s IH]; intros fuel acc Hf;
    (destruct fuel as [|fuel]; [simpl in Hf; lia|]).
  - reflexivity.
  - cbn [Js.split_aux piecesFrom]. rewrite prefix_char.
    destruct (Ascii.eqb c c0).
    + assert (Hs : Js.sliceFrom (String c s) (String.length (String c0 "")) = s).
      { unfold Js.sliceFrom. simpl. rewrite Nat.sub_0_r. apply substring_all. }
      rewrite Hs. f_equal. apply IH. simpl in Hf. lia.
    + apply IH. simpl in Hf. lia.
Qed.

Lemma split_pieces (c0 : ascii) (s : string) :
  Js.split s (String c0 "") = piecesFrom c0 "" s.
Proof. unfold Js.split. apply split_aux_pieces. lia. Qed.

Lemma piecesFrom_app (c0 : ascii) (a b : string) : forall acc,
  piecesFrom c0 acc (a +++ String c0 b) = piecesFrom c0 acc a ++ piecesFrom c0 "" b.
Proof.
  induction a as [|c a IH]; intros acc; simpl.
  - now rewrite Ascii.eqb_refl.
  - destruct (Ascii.eqb c c0); [now rewrite IH | apply IH].
Qed.

(** Splitting a text made of two parts joined by the separator gives
    the pieces of the first part, then those of the second. *)
Lemma split_app (c0 : ascii) (a b : string) :
  Js.split (a +++ String c0 b) (String c0 "")
  = Js.split a (String c0 "") ++ Js.split b (String c0 "").
Proof. rewrite !split_pieces. apply piecesFrom_app. Qed.

Lemma split_empty (sep : string) : Js.split "" sep = [""].
Proof. reflexivity. Qed.

(** ** Counting lines of code *)

Lemma nonEmptyLines_app (a b : string) :
  FileSystem.nonEmptyLines (a +++ newline +++ b)
  = FileSystem.nonEmptyLines a ++ FileSystem.nonEmptyLines b.
Proof.
  unfold FileSystem.nonEmptyLines, newline.
  change (String "010" "" +++ b) with (String "010"%char b).
  now rewrite split_app, filter_app.
Qed.

(** X21. [countLinesOfCode] answers 0 for a file that cannot be read
    and for an empty file; and for a file whose content is the content of
    one file, a line break, and the content of another, it answers the
    sum of the counts of the two: blank lines add nothing. *)
Theorem X21_countLinesOfCode
        (readFile : string -> option string) (whole part1 part2 : string) (a b : string) :
  readFile part1 = Some a -> readFile part2 = Some b ->
  readFile whole = Some (a +++ newline +++ b) ->
  FileSystem.countLinesOfCode readFile whole
  = FileSystem.countLinesOfCode readFile part1 + FileSystem.countLinesOfCode readFile part2
  /\ FileSystem.countLinesOfCode (fun _ => None) whole = 0
  /\ FileSystem.countLinesOfCode (fun _ => Some "") whole = 0
  /\ FileSystem.countLinesOfCode (fun _ => Some (a +++ newline +++ "")) whole
     = FileSystem.countLinesOfCode (fun _ => Some a) whole.
Proof.
  intros Ha Hb Hw. unfold FileSystem.countLinesOfCode. cbv beta.
  rewrite Ha, Hb, Hw, !nonEmptyLines_app, !length_app.
  split; [reflexivity|]. split; [reflexivity|]. split; [reflexivity|].
  change (FileSystem.nonEmptyLines EmptyString) with (@nil string).
  simpl. lia.
Qed.

Lemma X21_witness :
  FileSystem.countLinesOfCode threeFiles "whole"
  = FileSystem.countLinesOfCode threeFiles "part1"
    + FileSystem.countLinesOfCode threeFiles "part2".
Proof.
  apply (X21_countLinesOfCode threeFiles "whole" "part1" "part2"
                              ("let a = 1;" +++ newline +++ "  ")
                              ("" +++ newline +++ "let b = 2;"));
    reflexivity.
Defined.

(** ** String literals of the syntax tree *)

Lemma substring_prefix (a b : string) :
  String.substring 0 (String.length a) (a +++ b) = a.
Proof. induction a as [|c a IH]; simpl; [now destruct b | now rewrite IH]. Qed.

Lemma substring_suffix (a b : string) :
  String.substring (String.length a) (String.length b) (a +++ b) = b.
Proof. induction a as [|c a IH]; simpl; [apply substring_all | exact IH]. Qed.

Lemma length_append (a b : string) :
  String.length (a +++ b) = String.length a + String.length b.
Proof. induction a as [|c a IH]; simpl; [reflexivity | now rewrite IH]. Qed.

Lemma endsWith_app (a p : string) : Js.endsWith (a +++ p) p = true.
Proof.
  unfold Js.endsWith, Js.sliceFrom. rewrite length_append.
  replace (String.length a + String.length p - String.length p)
    with (String.length a) by lia.
  replace (String.length a + String.length p - String.length a)
    with (String.length p) by lia.
  rewrite substring_suffix, String.eqb_refl.
  apply andb_true_iff. split; [apply Nat.leb_le; lia | reflexivity].
Qed.

Lemma quoted_shape (q : ascii) (s : string) :
  let t := String q "" +++ s +++ String q "" in
  Js.startsWith t (String q "") = true
  /\ Js.endsWith t (String q "") = true
  /\ Js.slice1m1 t = s.
Proof.
  cbv zeta. split; [|split].
  - unfold Js.startsWith. cbn [append]. rewrite prefix_char. apply Ascii.eqb_refl.
  - cbn [append]. change (String q (s +++ String q "")) with ((String q s) +++ String q "").
    apply endsWith_app.
  - unfold Js.slice1m1. cbn [append String.length String.substring].
    rewrite length_append. cbn [String.length].
    replace (S (String.length s + 1) - 2) with (String.length s) by lia.
    apply substring_prefix.
Qed.

(** X22. [extractStringLiteral] undoes quoting: for the text of a
    string between two double quotes, two single quotes or two backticks
    it returns the string, whatever characters the string holds. It
    returns nothing for a missing node and for an empty text, and the
    empty string for a text that is one quote character alone. *)
Theorem X22_extractStringLiteral (s : string) :
  TsParser.extractStringLiteral
    (Some (textNode (TsParser.dquote +++ s +++ TsParser.dquote))) = Some s
  /\ TsParser.extractStringLiteral
       (Some (textNode (TsParser.squote +++ s +++ TsParser.squote))) = Some s
  /\ TsParser.extractStringLiteral
       (Some (textNode (TsParser.backtick +++ s +++ TsParser.backtick))) = Some s
  /\ TsParser.extractStringLiteral None = None
  /\ TsParser.extractStringLiteral (Some (textNode "")) = None
  /\ TsParser.extractStringLiteral (Some (textNode TsParser.squote)) = Some "".
Proof.
  unfold TsParser.extractStringLiteral, textNode, Ts.text.
  unfold TsParser.dquote, TsParser.squote, TsParser.backtick.
  destruct (quoted_shape "034" s) as [A1 [A2 A3]].
  destruct (quoted_shape "039" s) as [B1 [B2 B3]].
  destruct (quoted_shape "096" s) as [C1 [C2 C3]].
  cbn zeta in A1, A2, A3, B1, B2, B3, C1, C2, C3.
  split; [now rewrite A1, A2, A3|].
  split.
  { rewrite B1, B2, B3. cbn [andb]. now rewrite orb_true_r. }
  split.
  { rewrite C1, C2, C3. cbn [andb]. now rewrite orb_true_r. }
  repeat split; reflexivity.
Qed.

(** ** The hotspot detector *)

Lemma sorted_head_max {A} (key : A -> Q) (l : list A) (first : A) (rest : list A) :
  sortStable (descendingBy key) l = first :: rest ->
  In first l /\ forall x, In x l -> (key x <= key first)%Q.
Proof.
  intros E.
  pose proof (sortStable_perm (descendingBy key) l) as Hperm.
  pose proof (sortStable_sorted key l) as Hsorted.
  rewrite E in Hperm, Hsorted. split.
  - apply (Permutation_in _ Hperm). now left.
  - intros x Hx. apply (Permutation_in _ (Permutation_sym Hperm)) in Hx.
    destruct Hx as [<-|Hx]; [apply Qle_refl|].
    inversion Hsorted as [|? ? _ Hall]; subst.
    rewrite Forall_forall in Hall. now apply Hall.
Qed.

(** X23. The hotspot detector is silent exactly on a graph without
    nodes. Otherwise its finding is about the file with the most edges,
    incoming and outgoing together: that file is the first line of the
    evidence, the confidence is its number of edges divided by the number
    of nodes, capped at 1, and the evidence has one line for each of at
    most three files. *)
Theorem X23_hotspots_detector (files : list string) (root : string) (g : Graph) :
  let keys := JsMap.keys (nodes g) in
  (Detect.detectHotspots files root g = None <-> keys = [])
  /\ forall p, Detect.detectHotspots files root g = Some p ->
       exists top,
         In top keys
         /\ (forall f, In f keys -> totalDegree g f <= totalDegree g top)
         /\ (confidence p
             == Qmin 1 (natQ (totalDegree g top) / natQ (List.length keys)))%Q
         /\ List.length (evidence p) = Nat.min 3 (List.length keys)
         /\ hd "" (evidence p) = hotspotLine g top.
Proof.
  cbv zeta. unfold Detect.detectHotspots. cbv zeta.
  assert (Hsize : JsMap.size (nodes g) = List.length (JsMap.keys (nodes g))).
  { unfold JsMap.size, JsMap.keys. now rewrite length_map. }
  rewrite Hsize.
  destruct (List.length (JsMap.keys (nodes g)) =? 0) eqn:E.
  - apply Nat.eqb_eq, length_zero_iff_nil in E.
    split; [tauto | discriminate].
  - apply Nat.eqb_neq in E.
    replace (Nat.max 1 (List.length (JsMap.keys (nodes g))))
      with (List.length (JsMap.keys (nodes g))) by lia.
    match goal with
    | |- context [sortStable ?cmp ?l] =>
      pose proof (sortStable_perm cmp l) as Hperm;
        pose proof (sorted_head_max (fun s => natQ (Detect.sc_total s)) l) as Hmax;
        set (scored := l) in *;
        destruct (sortStable cmp scored) as [|first rest] eqn:Es
    end.
    { apply Permutation_length in Hperm. unfold scored in Hperm.
      rewrite length_map in Hperm. simpl in Hperm. lia. }
    destruct (Hmax first rest eq_refl) as [Hin Hle].
    unfold Js.take. change (firstn 3 (first :: rest)) with (first :: firstn 2 rest).
    pose proof (length_firstn 2 rest) as Htwo. set (two := firstn 2 rest) in *.
    split.
    + split; [discriminate|]. intros K. rewrite K in E. now elim E.
    + intros p Hp. injection Hp as <-. cbn [confidence evidence].
      unfold scored in Hin. apply in_map_iff in Hin.
      destruct Hin as [top [Hfirst Htop]]. exists top.
      split; [exact Htop|]. split; [|split; [|split]].
      * intros f Hf. apply natQ_le. unfold totalDegree.
        assert (Hf' : In (Detect.mkScored f (getInDegree g f) (getOutDegree g f)
                            (getInDegree g f + getOutDegree g f)) scored).
        { unfold scored. apply in_map_iff. exists f. now split. }
        apply Hle in Hf'. rewrite <- Hfirst in Hf'. exact Hf'.
      * rewrite qminimum_Qmin. rewrite <- Hfirst. cbn [Detect.sc_total].
        apply Qeq_refl.
      * cbn [map List.length]. rewrite length_map, Htwo.
        apply Permutation_length in Hperm. unfold scored in Hperm.
        rewrite length_map in Hperm. cbn [List.length] in Hperm. lia.
      * cbn [map hd]. rewrite <- Hfirst. reflexivity.
Qed.

(** ** The parser: result, line numbers, the fallback path *)

Ltac line_case H :=
  match type of H with
  | In _ (match ?x with _ => _ end) =>
    destruct x; [destruct H as [<-|[]]; reflexivity | destruct H]
  end.

Lemma fallbackLine_at (filePath : string) (idx : nat) (line : string) :
  linesAt (TsParser.fallbackLine filePath idx line) (idx + 1).
Proof.
  unfold linesAt, TsParser.fallbackLine. cbv zeta.
  cbn [TsParser.ex_imports TsParser.ex_definitions]. split.
  - intros imp H. rewrite !in_app_iff in H.
    destruct H as [H|[H|[H|H]]]; line_case H.
  - intros d H. line_case H.
Qed.

Lemma commonJsLine_at (filePath : string) (idx : nat) (line : string) :
  linesAt (TsParser.commonJsLine filePath idx line) (idx + 1).
Proof.
  unfold linesAt, TsParser.commonJsLine. cbv zeta.
  cbn [TsParser.ex_imports TsParser.ex_definitions]. split.
  - intros imp H. line_case H.
  - intros d H. line_case H.
Qed.

Lemma mapi_from_In {A B} (f : nat -> A -> B) (l : list A) : forall i y,
  In y (TsParser.mapi_from f i l) ->
  exists k x, k < List.length l /\ y = f (i + k) x.
Proof.
  induction l as [|a l IH]; intros i y H; simpl in H; [contradiction|].
  destruct H as [<-|H].
  - exists 0, a. split; [simpl; lia | now rewrite Nat.add_0_r].
  - destruct (IH _ _ H) as [k [x [Hk ->]]].
    exists (S k), x. split; [simpl; lia | f_equal; lia].
Qed.

Lemma perLine_lines (f : nat -> string -> TsParser.Extracted) (content : string) :
  (forall idx line, linesAt (f idx line) (idx + 1)) ->
  (forall imp, In imp (flat_map TsParser.ex_imports (TsParser.perLine f content)) ->
     exists l, imp_line imp = Some l /\ 1 <= l <= lineCount content)
  /\ (forall d, In d (flat_map TsParser.ex_definitions (TsParser.perLine f content)) ->
        1 <= def_line d <= lineCount content).
Proof.
  intros Hf. unfold TsParser.perLine, lineCount, newline. split.
  - intros imp H. apply in_flat_map in H. destruct H as [e [He Himp]].
    apply mapi_from_In in He. destruct He as [k [x [Hk ->]]].
    apply (proj1 (Hf _ _)) in Himp. exists (0 + k + 1). split; [exact Himp | lia].
  - intros d H. apply in_flat_map in H. destruct H as [e [He Hd]].
    apply mapi_from_In in He. destruct He as [k [x [Hk ->]]].
    apply (proj2 (Hf _ _)) in Hd. rewrite Hd. lia.
Qed.

(** A [require] that the CommonJS scan finds on a line, the fallback
    scan finds on the same line. *)
Lemma commonJsLine_in_fallbackLine (filePath : string) (idx : nat) (line : string)
      (imp : ImportDeclaration) :
  In imp (TsParser.ex_imports (TsParser.commonJsLine filePath idx line)) ->
  In imp (TsParser.ex_imports (TsParser.fallbackLine filePath idx line)).
Proof.
  unfold TsParser.commonJsLine, TsParser.fallbackLine. cbv zeta.
  cbn [TsParser.ex_imports]. intros H.
  apply in_or_app. right. apply in_or_app. left. exact H.
Qed.

Lemma mapi_from_imports (filePath : string) (imp : ImportDeclaration) (l : list string) :
  forall i,
  In imp (flat_map TsParser.ex_imports
            (TsParser.mapi_from (TsParser.commonJsLine filePath) i l)) ->
  In imp (flat_map TsParser.ex_imports
            (TsParser.mapi_from (TsParser.fallbackLine filePath) i l)).
Proof.
  induction l as [|x l IH]; intros i H; [exact H|].
  cbn [TsParser.mapi_from flat_map] in *. apply in_app_or in H. apply in_or_app.
  destruct H as [H|H]; [left; now apply commonJsLine_in_fallbackLine | right; now apply IH].
Qed.

Lemma extractCommonJS_in_fallback (content filePath : string) (imp : ImportDeclaration) :
  In imp (TsParser.ex_imports (TsParser.extractCommonJS content filePath)) ->
  In imp (TsParser.ex_imports (TsParser.extractFallback content filePath)).
Proof.
  unfold TsParser.extractCommonJS, TsParser.extractFallback, TsParser.perLine.
  cbv zeta. cbn [TsParser.ex_imports]. apply mapi_from_imports.
Qed.

(** X24. [parse] fails exactly when the file cannot be read. Otherwise
    the parsed file carries the path it was asked for, its language is
    JavaScript exactly for the extensions .js, .jsx, .mjs and .cjs and
    TypeScript for every other one, and its exports are the names found
    in the syntax tree or by the fallback scan, each once, followed by
    the names of the CommonJS scan: without the latter no name repeats. *)
Theorem X24_parse_result (ph : ParserHost) (filePath : string) :
  (TsParser.parse ph filePath = None <-> readFile ph filePath = None)
  /\ forall pf, TsParser.parse ph filePath = Some pf ->
       pf_filePath pf = filePath
       /\ (pf_language pf = javascript
           <-> In (Path.extname filePath) [".js"; ".jsx"; ".mjs"; ".cjs"])
       /\ (pf_language pf = typescript
           <-> ~ In (Path.extname filePath) [".js"; ".jsx"; ".mjs"; ".cjs"])
       /\ exists content found,
            readFile ph filePath = Some content
            /\ NoDup found
            /\ pf_exports pf
               = found ++ TsParser.ex_exports (TsParser.extractCommonJS content filePath)
            /\ (TsParser.ex_exports (TsParser.extractCommonJS content filePath) = []
                -> NoDup (pf_exports pf)).
Proof.
  unfold TsParser.parse.
  destruct (readFile ph filePath) as [content|]; [|split; [tauto | discriminate]].
  split; [split; discriminate|]. cbv zeta.
  intros pf H. injection H as <-.
  cbn [pf_filePath pf_language pf_exports].
  split; [reflexivity|].
  assert (Hlang : forall ext,
             (TsParser.languageOfExt ext = javascript
              <-> In ext [".js"; ".jsx"; ".mjs"; ".cjs"])
             /\ (TsParser.languageOfExt ext = typescript
                 <-> ~ In ext [".js"; ".jsx"; ".mjs"; ".cjs"])).
  { intros ext. unfold TsParser.languageOfExt. cbn [In].
    destruct (String.eqb_spec ext ".js") as [->|N1]; cbn [orb].
    { split; split; try tauto; try discriminate. }
    destruct (String.eqb_spec ext ".jsx") as [->|N2]; cbn [orb].
    { split; split; try tauto; try discriminate. }
    destruct (String.eqb_spec ext ".mjs") as [->|N3]; cbn [orb].
    { split; split; try tauto; try discriminate. }
    destruct (String.eqb_spec ext ".cjs") as [->|N4]; cbn [orb].
    { split; split; try tauto; try discriminate. }
    split; split; try tauto; try discriminate.
    - intros [E|[E|[E|[E|[]]]]]; congruence.
    - intros _ [E|[E|[E|[E|[]]]]]; congruence. }
  split; [apply Hlang|]. split; [apply Hlang|].
  exists content.
  match goal with
  | |- context [TsParser.ex_exports ?e ++ _] => exists (TsParser.ex_exports e)
  end.
  split; [reflexivity|].
  assert (Hnd : forall e, NoDup (TsParser.ex_exports
                                     match treeSitterParse ph
                                             (String.eqb (Path.extname filePath) ".tsx"
                                              || String.eqb (Path.extname filePath) ".jsx")
                                             content with
                                     | Some root =>
                                       TsParser.mkExtracted
                                         (TsParser.extractImports root filePath)
                                         (TsParser.extractExports root)
                                         (TsParser.extractDefinitions root)
                                     | None => TsParser.extractFallback content e
                                     end)).
  { intros e. destruct (treeSitterParse ph _ content) as [root|].
    - cbn [TsParser.ex_exports]. unfold TsParser.extractExports. cbv zeta.
      apply dedupe_spec.
    - unfold TsParser.extractFallback. cbv zeta. cbn [TsParser.ex_exports].
      apply dedupe_spec. }
  split; [apply Hnd|]. split; [reflexivity|].
  intros E. unfold TsParser.extractCommonJS in E. cbv zeta in E.
  cbn [TsParser.ex_exports] in E. rewrite E, app_nil_r. apply Hnd.
Qed.

(** X25. When tree-sitter cannot parse a file, every import and every
    definition of the parsed file carries a line number between 1 and the
    number of lines of the file. And every [require] that the CommonJS
    scan finds was found by the fallback scan already: unless its path is
    external, the parsed file lists that import twice. *)
Theorem X25_parse_fallback
        (ph : ParserHost) (filePath content : string) (pf : ParsedFile) :
  readFile ph filePath = Some content ->
  treeSitterParse ph (usesTsxGrammar filePath) content = None ->
  TsParser.parse ph filePath = Some pf ->
  (forall imp, In imp (pf_imports pf) ->
     exists l, imp_line imp = Some l /\ 1 <= l <= lineCount content)
  /\ (forall d, In d (pf_definitions pf) -> 1 <= def_line d <= lineCount content)
  /\ (forall imp,
        In imp (TsParser.ex_imports (TsParser.extractCommonJS content filePath)) ->
        isExternalImport (imp_source imp) = false ->
        exists l1 l2 l3, pf_imports pf = l1 ++ imp :: l2 ++ imp :: l3).
Proof.
  intros Hread Hts Hparse. unfold TsParser.parse in Hparse.
  unfold usesTsxGrammar in Hts. rewrite Hread in Hparse. cbv zeta in Hparse.
  rewrite Hts in Hparse.
  assert (Himp : pf_imports pf
                 = filter (fun i => negb (isExternalImport (imp_source i)))
                          (TsParser.ex_imports (TsParser.extractFallback content filePath)
                           ++ TsParser.ex_imports
                                (TsParser.extractCommonJS content filePath)))
    by (injection Hparse as <-; reflexivity).
  assert (Hdef : pf_definitions pf
                 = TsParser.ex_definitions (TsParser.extractFallback content filePath)
                   ++ TsParser.ex_definitions (TsParser.extractCommonJS content filePath))
    by (injection Hparse as <-; reflexivity).
  rewrite Himp, Hdef. clear Hparse Himp Hdef.
  destruct (perLine_lines (TsParser.fallbackLine filePath) content
                          (fallbackLine_at filePath)) as [Fi Fd].
  destruct (perLine_lines (TsParser.commonJsLine filePath) content
                          (commonJsLine_at filePath)) as [Ci Cd].
  split; [|split].
  - intros imp H. apply filter_In in H. destruct H as [H _].
    apply in_app_or in H. destruct H as [H|H]; [now apply Fi | now apply Ci].
  - intros d H. apply in_app_or in H. destruct H as [H|H]; [now apply Fd | now apply Cd].
  - intros imp Hc Hext. rewrite filter_app.
    assert (Hkeep : negb (isExternalImport (imp_source imp)) = true) by now rewrite Hext.
    assert (H1 : In imp (filter (fun i => negb (isExternalImport (imp_source i)))
                           (TsParser.ex_imports (TsParser.extractFallback content filePath)))).
    { apply filter_In. split; [now apply extractCommonJS_in_fallback | exact Hkeep]. }
    assert (H2 : In imp (filter (fun i => negb (isExternalImport (imp_source i)))
                           (TsParser.ex_imports (TsParser.extractCommonJS content filePath)))).
    { apply filter_In. now split. }
    apply in_split in H1. destruct H1 as [a1 [a2 E1]].
    apply in_split in H2. destruct H2 as [b1 [b2 E2]].
    exists a1, (a2 ++ b1), b2. rewrite E1, E2.
    rewrite <- !app_assoc. reflexivity.
Qed.

Lemma X25_witness :
  (forall imp, In imp (pf_imports requireParsed) ->
     exists l, imp_line imp = Some l /\ 1 <= l <= lineCount requireContent)
  /\ (forall d, In d (pf_definitions requireParsed) ->
        1 <= def_line d <= lineCount requireContent)
  /\ (forall imp,
        In imp (TsParser.ex_imports (TsParser.extractCommonJS requireContent "/r/m.js")) ->
        isExternalImport (imp_source imp) = false ->
        exists l1 l2 l3, pf_imports requireParsed = l1 ++ imp :: l2 ++ imp :: l3).
Proof.
  apply (X25_parse_fallback requireHost "/r/m.js" requireContent requireParsed);
    reflexivity.
Defined.

(** ** Line scans: one entry per line at most *)

Section LineScan.

Context {A : Type}.
Variable f : nat -> string -> list A.
Variable lineOf : A -> nat.
Hypothesis f_line : forall idx line x, In x (f idx line) -> lineOf x = idx + 1.
Hypothesis f_one : forall idx line, List.length (f idx line) <= 1.

Lemma mapi_lines (l : list string) : forall i,
  let out := flat_map (fun pushed => pushed) (TsParser.mapi_from f i l) in
  StronglySorted lt (map lineOf out)
  /\ forall x, In x out -> i < lineOf x <= i + List.length l.
Proof.
  induction l as [|a l IH]; intros i; cbn zeta; cbn [TsParser.mapi_from flat_map].
  - split; [constructor | intros x []].
  - destruct (IH (S i)) as [Hsorted Hrange]. cbn zeta in Hsorted, Hrange.
    pose proof (f_line i a) as Hline. pose proof (f_one i a) as Hone.
    destruct (f i a) as [|x [|y rest]]; [| |simpl in Hone; lia].
    + cbn [app]. split; [exact Hsorted|].
      intros x Hx. apply Hrange in Hx. cbn [List.length]. lia.
    + cbn [app map]. specialize (Hline x (or_introl eq_refl)). split.
      * constructor; [exact Hsorted|]. apply Forall_forall. intros n Hn.
        apply in_map_iff in Hn. destruct Hn as [z [<- Hz]].
        apply Hrange in Hz. lia.
      * intros z [<-|Hz]; [cbn [List.length]; lia|].
        apply Hrange in Hz. cbn [List.length]. lia.
Qed.

Lemma forEachLine_lines (content : string) :
  StronglySorted lt (map lineOf (PursParser.forEachLine f content))
  /\ forall x, In x (PursParser.forEachLine f content) ->
       1 <= lineOf x <= lineCount content.
Proof.
  unfold PursParser.forEachLine, lineCount, newline.
  destruct (mapi_lines (Js.split content (String "010"%char "")) 0) as [Hs Hr].
  split; [exact Hs|]. intros x Hx. apply Hr in Hx. lia.
Qed.

End LineScan.

Lemma importOfLine_line (re : Regex.regex) (source names : nat) (filePath : string)
      (idx : nat) (line : string) (imp : ImportDeclaration) :
  In imp (PursParser.importOfLine re source names filePath idx line) ->
  imp_line imp = Some (idx + 1).
Proof.
  unfold PursParser.importOfLine. destruct (Regex.exec re line); [|intros []].
  intros [<-|[]]. reflexivity.
Qed.

Lemma importOfLine_one (re : Regex.regex) (source names : nat) (filePath : string)
      (idx : nat) (line : string) :
  List.length (PursParser.importOfLine re source names filePath idx line) <= 1.
Proof.
  unfold PursParser.importOfLine. destruct (Regex.exec re line); simpl; lia.
Qed.

Lemma definitionOfLine_line (idx : nat) (line : string) (d : Definition_) :
  In d (PursParser.definitionOfLine idx line) ->
  def_line d = idx + 1 /\ (def_type d = KFunction \/ def_type d = KVariable).
Proof.
  unfold PursParser.definitionOfLine.
  destruct (Regex.exec PursParser.reTypeSig line).
  - intros [<-|[]]. split; [reflexivity | now left].
  - destruct (Regex.exec PursParser.reValue line); [|intros []].
    intros [<-|[]]. split; [reflexivity | now right].
Qed.

Lemma definitionOfLine_one (idx : nat) (line : string) :
  List.length (PursParser.definitionOfLine idx line) <= 1.
Proof.
  unfold PursParser.definitionOfLine.
  destruct (Regex.exec PursParser.reTypeSig line); [simpl; lia|].
  destruct (Regex.exec PursParser.reValue line); simpl; lia.
Qed.

(** The imports of a line scan: strictly increasing lines, all within
    the file. *)
Lemma scanned_imports (re : Regex.regex) (source names : nat) (content filePath : string) :
  let imports :=
    PursParser.forEachLine (PursParser.importOfLine re source names filePath) content in
  StronglySorted lt (map lineOfImport imports)
  /\ forall imp, In imp imports ->
       exists l, imp_line imp = Some l /\ 1 <= l <= lineCount content.
Proof.
  cbn zeta.
  assert (Hline : forall idx line x,
             In x (PursParser.importOfLine re source names filePath idx line) ->
             lineOfImport x = idx + 1).
  { intros idx line x Hx. apply importOfLine_line in Hx.
    unfold lineOfImport. now rewrite Hx. }
  destruct (forEachLine_lines _ lineOfImport Hline
              (importOfLine_one re source names filePath) content) as [Hs Hr].
  split; [exact Hs|]. intros imp Himp.
  assert (Hl : exists idx, imp_line imp = Some (idx + 1)).
  { unfold PursParser.forEachLine in Himp. apply in_flat_map in Himp.
    destruct Himp as [pushed [Hp Hin]]. apply mapi_from_In in Hp.
    destruct Hp as [k [x [_ ->]]]. apply importOfLine_line in Hin. eauto. }
  destruct Hl as [idx Hl]. exists (idx + 1). split; [exact Hl|].
  apply Hr in Himp. unfold lineOfImport in Himp. now rewrite Hl in Himp.
Qed.

Lemma scanned_definitions (content : string) :
  let defs := PursParser.forEachLine PursParser.definitionOfLine content in
  StronglySorted lt (map def_line defs)
  /\ forall d, In d defs ->
       1 <= def_line d <= lineCount content
       /\ (def_type d = KFunction \/ def_type d = KVariable).
Proof.
  cbn zeta.
  destruct (forEachLine_lines _ def_line
              (fun idx line x H => proj1 (definitionOfLine_line idx line x H))
              definitionOfLine_one content) as [Hs Hr].
  split; [exact Hs|]. intros d Hd. split; [now apply Hr|].
  unfold PursParser.forEachLine in Hd. apply in_flat_map in Hd.
  destruct Hd as [pushed [Hp Hin]]. apply mapi_from_In in Hp.
  destruct Hp as [k [x [_ ->]]]. now apply definitionOfLine_line in Hin.
Qed.

Lemma namesOfGroup_nonempty (m : Regex.captures) (i : nat) :
  ~ In "" (PursParser.namesOfGroup m i).
Proof.
  unfold PursParser.namesOfGroup. destruct (Regex.capture m i) as [s|]; [|intros []].
  destruct (String.eqb s ""); [intros []|].
  unfold TsParser.commaNames, Js.filterTruthy. intros H.
  apply filter_In in H. destruct H as [_ H]. discriminate.
Qed.

(** X26. The PureScript parser fails exactly when the file cannot be
    read. In the file it returns, the imports come with strictly
    increasing line numbers, and so do the definitions: a line gives at
    most one import and at most one definition. Every line number lies
    between 1 and the number of lines of the file, every definition is a
    function or a variable, and no export is the empty name. *)
Theorem X26_purescript_parse (ph : ParserHost) (filePath : string) :
  (PursParser.parse ph filePath = None <-> readFile ph filePath = None)
  /\ forall pf, PursParser.parse ph filePath = Some pf ->
       exists content,
         readFile ph filePath = Some content
         /\ pf_filePath pf = filePath /\ pf_language pf = purescript
         /\ StronglySorted lt (map lineOfImport (pf_imports pf))
         /\ (forall imp, In imp (pf_imports pf) ->
               exists l, imp_line imp = Some l /\ 1 <= l <= lineCount content)
         /\ StronglySorted lt (map def_line (pf_definitions pf))
         /\ (forall d, In d (pf_definitions pf) ->
               1 <= def_line d <= lineCount content
               /\ (def_type d = KFunction \/ def_type d = KVariable))
         /\ ~ In "" (pf_exports pf).
Proof.
  unfold PursParser.parse.
  destruct (readFile ph filePath) as [content|]; [|split; [tauto | discriminate]].
  split; [split; discriminate|].
  intros pf H. injection H as <-. exists content.
  cbn [pf_filePath pf_language pf_imports pf_definitions pf_exports].
  split; [reflexivity|]. split; [reflexivity|]. split; [reflexivity|].
  destruct (scanned_imports PursParser.reImport 1 4 content filePath) as [Is Ir].
  destruct (scanned_definitions content) as [Ds Dr].
  split; [exact Is|]. split; [exact Ir|]. split; [exact Ds|]. split; [exact Dr|].
  unfold PursParser.extractExports.
  destruct (PursParser.execMultiline PursParser.reHeader content);
    [apply namesOfGroup_nonempty | intros []].
Qed.

(** ** The Haskell parser: definitions of the syntax tree *)

Lemma SyntaxNode_children_ind (P : SyntaxNode -> Prop) :
  (forall type text named field row children,
      Forall P children -> P (SNode type text named field row children)) ->
  forall n, P n.
Proof.
  intros H. fix IH 1. intros [type text named field row children].
  apply H. induction children as [|c cs IHcs]; constructor; [apply IH | exact IHcs].
Qed.

Lemma traverseDefinitions_visitAll (node : SyntaxNode) :
  forall st, HsParser.traverseDefinitions node st = visitAll (preorder node) st.
Proof.
  induction node as [type text named field row children IH] using SyntaxNode_children_ind.
  intros st. cbn [HsParser.traverseDefinitions preorder]. unfold visitAll in *.
  cbn [fold_left].
  generalize (HsParser.visitBinding (SNode type text named field row children) st).
  clear st. induction IH as [|c cs Hc _ IHcs]; intros st; [reflexivity|].
  rewrite fold_left_app. rewrite <- (Hc st). apply IHcs.
Qed.

Lemma visitBinding_boundName (node : SyntaxNode) (st : HsParser.DefState) :
  HsParser.visitBinding node st
  = match boundName node with
    | name :: _ =>
      if Detect.setHas (fst st) name then st
      else (fst st ++ [name],
            snd st ++ [mkDefinition name KFunction (Ts.row node + 1) None])
    | [] => st
    end.
Proof.
  unfold HsParser.visitBinding, boundName.
  destruct (HsParser.isBinding node); [|reflexivity].
  destruct (HsParser.textOr _ _) as [name|]; [|reflexivity].
  destruct (String.eqb name ""); [reflexivity|]. cbn [negb andb].
  unfold Detect.setAdd. destruct (Detect.setHas (fst st) name); reflexivity.
Qed.

Lemma boundName_shape (node : SyntaxNode) :
  boundName node = [] \/ exists name, boundName node = [name] /\ name <> "".
Proof.
  unfold boundName. destruct (HsParser.isBinding node); [|now left].
  destruct (HsParser.textOr _ _) as [name|]; [|now left].
  destruct (String.eqb_spec name ""); [now left|]. right. now exists name.
Qed.

(** What the closure has collected after a run over nodes. *)
Lemma visitAll_collects (ns : list SyntaxNode) : forall st,
  (forall x, In x (fst st) <-> In x (map def_name (snd st))) ->
  map def_name (snd (visitAll ns st))
  = map def_name (snd st) ++ Js.dedupe_acc (fst st) (flat_map boundName ns)
  /\ forall d, In d (snd (visitAll ns st)) ->
       In d (snd st)
       \/ exists node, In node ns /\ boundName node = [def_name d]
                       /\ d = mkDefinition (def_name d) KFunction (Ts.row node + 1) None.
Proof.
  induction ns as [|n ns IH]; intros st Hst.
  - cbn. split; [now rewrite app_nil_r | tauto].
  - unfold visitAll. cbn [fold_left flat_map]. fold (visitAll ns (HsParser.visitBinding n st)).
    rewrite visitBinding_boundName.
    destruct (boundName_shape n) as [E|[name [E Hname]]]; rewrite E.
    + cbn [app]. destruct (IH st Hst) as [Hn Hd]. split; [exact Hn|].
      intros d Hin. destruct (Hd d Hin) as [H|[node [Hnode H]]]; [now left|].
      right. exists node. split; [now right | exact H].
    + cbn [app Js.dedupe_acc]. fold (Detect.setHas (fst st) name).
      destruct (Detect.setHas (fst st) name) eqn:Ehas.
      * destruct (IH st Hst) as [Hn Hd]. split; [exact Hn|].
        intros d Hin. destruct (Hd d Hin) as [H|[node [Hnode H]]]; [now left|].
        right. exists node. split; [now right | exact H].
      * set (d0 := mkDefinition name KFunction (Ts.row n + 1) None).
        assert (Hst' : forall x, In x (fst (fst st ++ [name], snd st ++ [d0]))
                                 <-> In x (map def_name
                                             (snd (fst st ++ [name], snd st ++ [d0])))).
        { intros x. cbn [fst snd]. rewrite map_app, !in_app_iff, Hst. reflexivity. }
        destruct (IH _ Hst') as [Hn Hd]. cbn [fst snd] in Hn, Hd. split.
        -- rewrite Hn, map_app, <- app_assoc. cbn [map app def_name d0]. f_equal. f_equal.
           apply dedupe_acc_ext. intros x. rewrite in_app_iff. cbn [In]. tauto.
        -- intros d Hin. destruct (Hd d Hin) as [H|[node [Hnode H]]].
           ++ apply in_app_or in H. destruct H as [H|[<-|[]]]; [now left|].
              right. exists n. split; [now left|]. split; [exact E | reflexivity].
           ++ right. exists node. split; [now right | exact H].
Qed.

(** X27. The definitions the Haskell parser reads off a syntax tree
    are the names bound in the tree, in the order in which a walk from
    the root meets them first, each once; every one is a function whose
    line is that of a node of the tree that binds the name. These are
    the definitions of the parsed file whenever the file has at most
    200000 bytes and tree-sitter parses it. *)
Theorem X27_haskell_definitions (root : SyntaxNode) :
  let defs := HsParser.extractDefinitions root in
  map def_name defs = Js.dedupe (flat_map boundName (preorder root))
  /\ NoDup (map def_name defs)
  /\ (forall d, In d defs ->
        def_name d <> "" /\ def_type d = KFunction
        /\ exists node, In node (preorder root) /\ boundName node = [def_name d]
                        /\ def_line d = Ts.row node + 1)
  /\ (forall node name, In node (preorder root) -> boundName node = [name] ->
        In name (map def_name defs))
  /\ forall h filePath size content pf,
       hh_stat h filePath = Some size -> (size <= HsParser.largeFileBytes)%N ->
       readFile (hh_files h) filePath = Some content ->
       hh_parse h content = Some root ->
       HsParser.parse h filePath = Some pf ->
       pf_definitions pf = defs.
Proof.
  cbn zeta. unfold HsParser.extractDefinitions.
  rewrite traverseDefinitions_visitAll.
  destruct (visitAll_collects (preorder root) ([], [])) as [Hn Hd];
    [intros x; cbn; tauto|].
  cbn [fst snd map app] in Hn, Hd. fold (Js.dedupe (flat_map boundName (preorder root))) in Hn.
  destruct (dedupe_spec (flat_map boundName (preorder root))) as [Hnd Hin].
  split; [exact Hn|]. split; [now rewrite Hn|]. split; [|split].
  - intros d Hdin. destruct (Hd d Hdin) as [[]|[node [Hnode [Hb Hdef]]]].
    destruct (boundName_shape node) as [E|[name [E Hname]]]; [rewrite E in Hb; discriminate|].
    rewrite E in Hb. injection Hb as Hb. rewrite <- Hb. split; [exact Hname|].
    split; [now rewrite Hdef|]. exists node. split; [exact Hnode|].
    split; [now rewrite E, Hb | now rewrite Hdef].
  - intros node name Hnode Hb. rewrite Hn. apply Hin. apply in_flat_map.
    exists node. split; [exact Hnode | rewrite Hb; now left].
  - intros h filePath size content pf Hstat Hsize Hread Hparse H.
    unfold HsParser.parse in H. rewrite Hstat, Hread in H. cbv zeta in H.
    assert (Hsmall : (HsParser.largeFileBytes <? size)%N = false)
      by (apply N.ltb_ge; exact Hsize).
    rewrite Hsmall, Hparse in H. cbn [negb] in H. injection H as <-.
    cbn [pf_definitions TsParser.ex_definitions]. unfold HsParser.extractDefinitions.
    now rewrite traverseDefinitions_visitAll.
Qed.

(** ** The Haskell parser: the fallback *)

Lemma haskell_exports_nonempty (root : SyntaxNode) (content : string) :
  ~ In "" (HsParser.extractExports root content).
Proof.
  unfold HsParser.extractExports.
  destruct (PursParser.execMultiline PursParser.reHeader content) as [m|]; [|intros []].
  destruct (Regex.capture m 1) as [s|]; [|intros []].
  destruct (String.eqb s ""); [intros []|].
  unfold Js.filterTruthy. intros H. apply filter_In in H. destruct H as [_ H]. discriminate.
Qed.

Lemma haskell_fallback_exports_nonempty (content filePath : string) :
  ~ In "" (TsParser.ex_exports (HsParser.extractFallback content filePath)).
Proof.
  unfold HsParser.extractFallback. cbn [TsParser.ex_exports].
  destruct (PursParser.execMultiline PursParser.reHeader content);
    [apply namesOfGroup_nonempty | intros []].
Qed.

(** X28. The Haskell parser fails exactly when [stat] or the read
    fails. The file it returns is a Haskell file with the path asked
    for, no export of it is the empty name, and its imports are empty
    only if the line scan finds no import either. For a file of more
    than 200000 bytes, and whenever tree-sitter throws, the result is
    that of the line scan alone: imports and definitions with strictly
    increasing line numbers between 1 and the number of lines. *)
Theorem X28_haskell_parse (h : HaskellHost) (filePath : string) :
  (HsParser.parse h filePath = None
   <-> hh_stat h filePath = None \/ readFile (hh_files h) filePath = None)
  /\ forall pf, HsParser.parse h filePath = Some pf ->
       exists size content,
         hh_stat h filePath = Some size
         /\ readFile (hh_files h) filePath = Some content
         /\ pf_filePath pf = filePath /\ pf_language pf = haskell
         /\ (pf_imports pf = [] ->
             TsParser.ex_imports (HsParser.extractFallback content filePath) = [])
         /\ ~ In "" (pf_exports pf)
         /\ ((HsParser.largeFileBytes < size)%N \/ hh_parse h content = None ->
             pf = haskellFallback content filePath
             /\ StronglySorted lt (map lineOfImport (pf_imports pf))
             /\ StronglySorted lt (map def_line (pf_definitions pf))
             /\ (forall imp, In imp (pf_imports pf) ->
                   exists l, imp_line imp = Some l /\ 1 <= l <= lineCount content)
             /\ (forall d, In d (pf_definitions pf) ->
                   1 <= def_line d <= lineCount content)).
Proof.
  unfold HsParser.parse.
  destruct (hh_stat h filePath) as [size|]; [|split; [tauto | discriminate]].
  destruct (readFile (hh_files h) filePath) as [content|]; [|split; [tauto | discriminate]].
  split; [split; [discriminate | intros [H|H]; discriminate]|].
  cbv zeta. intros pf H. injection H as <-. exists size, content.
  cbn [pf_filePath pf_language pf_imports pf_exports pf_definitions].
  split; [reflexivity|]. split; [reflexivity|]. split; [reflexivity|].
  split; [reflexivity|].
  set (fb := HsParser.extractFallback content filePath).
  assert (Hfb : forall found,
             (if List.length (TsParser.ex_imports found) =? 0
              then TsParser.ex_imports fb else TsParser.ex_imports found) = [] ->
             TsParser.ex_imports fb = []).
  { intros found. destruct (TsParser.ex_imports found) as [|imp rest]; cbn; [tauto|].
    discriminate. }
  split; [apply Hfb|]. split.
  - destruct (negb (HsParser.largeFileBytes <? size)%N);
      [destruct (hh_parse h content) as [root|]|];
      first [ apply haskell_exports_nonempty | apply haskell_fallback_exports_nonempty ].
  - intros Hpath.
    assert (Hfound : (if negb (HsParser.largeFileBytes <? size)%N
                      then match hh_parse h content with
                           | Some root =>
                             TsParser.mkExtracted (HsParser.extractImports root filePath)
                                                  (HsParser.extractExports root content)
                                                  (HsParser.extractDefinitions root)
                           | None => fb
                           end
                      else fb) = fb).
    { destruct Hpath as [Hlarge|Hthrown].
      - apply N.ltb_lt in Hlarge. now rewrite Hlarge.
      - rewrite Hthrown. now destruct (negb _). }
    rewrite Hfound.
    destruct (scanned_imports HsParser.reImportLine 2 4 content filePath) as [Is Ir].
    destruct (scanned_definitions content) as [Ds Dr].
    destruct (List.length (TsParser.ex_imports fb) =? 0);
      (split; [reflexivity|]);
      unfold fb, HsParser.extractFallback;
      cbn [TsParser.ex_imports TsParser.ex_definitions];
      (split; [exact Is|]); (split; [exact Ds|]); (split; [exact Ir|]);
      intros d Hd; now apply Dr.
Qed.

(** ** The parseFile tool *)

Lemma parseFile_result (h : HaskellHost) (filePath : string) (pf : ParsedFile) :
  ParseFile.parseFile h filePath = Some pf ->
  pf_filePath pf = filePath
  /\ FileSystem.detectLanguage filePath = Some (pf_language pf).
Proof.
  unfold ParseFile.parseFile.
  destruct (FileSystem.detectLanguage filePath) as [language|] eqn:El; [|discriminate].
  unfold FileSystem.detectLanguage in El. apply table_lookup in El.
  destruct El as [_ Hts]. unfold ParseFile.getParser.
  destruct language.
  - unfold TsParser.parse. destruct (readFile (hh_files h) filePath); [|discriminate].
    cbv zeta. intros H. injection H as <-. cbn [pf_filePath pf_language].
    split; [reflexivity|]. f_equal. symmetry. apply Hts. now left.
  - unfold TsParser.parse. destruct (readFile (hh_files h) filePath); [|discriminate].
    cbv zeta. intros H. injection H as <-. cbn [pf_filePath pf_language].
    split; [reflexivity|]. f_equal. symmetry. apply Hts. now right.
  - unfold HsParser.parse. destruct (hh_stat h filePath); [|discriminate].
    destruct (readFile (hh_files h) filePath); [|discriminate].
    cbv zeta. intros H. injection H as <-. split; reflexivity.
  - unfold PursParser.parse. destruct (readFile (hh_files h) filePath); [|discriminate].
    intros H. injection H as <-. split; reflexivity.
Qed.

(** X29. [parseFiles] never fails: it returns, in the order of its
    input, one parsed file for each path that [parseFile] can parse and
    nothing for the others. Every file it returns carries its own path,
    and the language its parser recorded is the language the extension
    of that path stands for; a path with an unknown extension is never
    parsed. *)
Theorem X29_parseFiles (h : HaskellHost) (filePaths : list string) :
  let results := ParseFile.parseFiles h filePaths in
  map pf_filePath results = filter (parses h) filePaths
  /\ (forall pf, In pf results ->
        ParseFile.parseFile h (pf_filePath pf) = Some pf
        /\ FileSystem.detectLanguage (pf_filePath pf) = Some (pf_language pf))
  /\ (forall filePath pf, In filePath filePaths ->
        ParseFile.parseFile h filePath = Some pf -> In pf results)
  /\ (forall filePath, FileSystem.detectLanguage filePath = None ->
        ParseFile.parseFile h filePath = None)
  /\ List.length results <= List.length filePaths.
Proof.
  cbn zeta. unfold ParseFile.parseFiles. split; [|split; [|split; [|split]]].
  - induction filePaths as [|f fs IH]; [reflexivity|].
    cbn [flat_map filter]. unfold parses at 1.
    destruct (ParseFile.parseFile h f) as [pf|] eqn:E; [|exact IH].
    cbn [app map]. rewrite IH. f_equal. now apply parseFile_result in E.
  - intros pf Hin. apply in_flat_map in Hin. destruct Hin as [f [_ Hf]].
    destruct (ParseFile.parseFile h f) as [r|] eqn:E; [|destruct Hf].
    destruct Hf as [<-|[]]. destruct (parseFile_result h f r E) as [Hpath Hlang].
    rewrite Hpath. split; [exact E | exact Hlang].
  - intros f pf Hf E. apply in_flat_map. exists f. split; [exact Hf|].
    rewrite E. now left.
  - intros f E. unfold ParseFile.parseFile. now rewrite E.
  - induction filePaths as [|f fs IH]; [apply le_n|].
    cbn [flat_map]. rewrite length_app.
    destruct (ParseFile.parseFile h f); cbn [List.length]; lia.
Qed.

(** ** Walking a directory *)

Lemma Directory_entries_ind (P : ScanRepo.Directory -> Prop) :
  P ScanRepo.Unreadable ->
  (forall entries, subdirectories P entries -> P (ScanRepo.Entries entries)) ->
  forall d, P d.
Proof.
  intros Hu He. fix IH 1. intros [|entries]; [exact Hu|].
  apply He. unfold subdirectories.
  induction entries as [|[name kind] es IHes]; constructor; [|exact IHes].
  destruct kind as [|sub|]; cbn [snd]; [exact I | apply IH | exact I].
Qed.

Lemma walkDirectory_prune (h : Host) (excludeDirs : list string) (baseDir : string)
      (d : ScanRepo.Directory) :
  forall dirPath,
    ScanRepo.walkDirectory h d dirPath excludeDirs baseDir
    = ScanRepo.walkDirectory h (prune excludeDirs d) dirPath excludeDirs baseDir.
Proof.
  induction d as [|entries IH] using Directory_entries_ind; intros dirPath; [reflexivity|].
  cbn [ScanRepo.walkDirectory prune].
  induction IH as [|[name kind] es Hsub _ IHes]; [reflexivity|].
  rewrite IHes. f_equal. destruct kind as [|sub|]; cbn [snd] in Hsub; try reflexivity.
  destruct (FileSystem.shouldExcludeDir name excludeDirs); [reflexivity | apply Hsub].
Qed.

Lemma walkDirectory_length (h : Host) (excludeDirs : list string) (baseDir : string)
      (d : ScanRepo.Directory) :
  forall dirPath,
    List.length (ScanRepo.walkDirectory h d dirPath excludeDirs baseDir)
    = countFiles excludeDirs d.
Proof.
  induction d as [|entries IH] using Directory_entries_ind; intros dirPath; [reflexivity|].
  cbn [ScanRepo.walkDirectory countFiles].
  induction IH as [|[name kind] es Hsub _ IHes]; [reflexivity|].
  rewrite length_app, IHes. f_equal.
  destruct kind as [|sub|]; cbn [snd] in Hsub; try reflexivity.
  destruct (FileSystem.shouldExcludeDir name excludeDirs); [reflexivity | apply Hsub].
Qed.

(** X19. [walkDirectory] never looks into an excluded directory: what
    it returns does not change when the content of excluded directories
    changes, and it lists one path for every file outside of them,
    unreadable directories counting as empty. With a non-empty exclusion
    list, the excluded directories are those listed and every one whose
    name starts with a dot; with an empty list nothing is excluded, not
    even a hidden directory. *)
Theorem X19_walkDirectory_exclusion
        (h : Host) (excludeDirs : list string) (dirPath baseDir : string) :
  (forall d1 d2,
      prune excludeDirs d1 = prune excludeDirs d2 ->
      ScanRepo.walkDirectory h d1 dirPath excludeDirs baseDir
      = ScanRepo.walkDirectory h d2 dirPath excludeDirs baseDir)
  /\ (forall d, List.length (ScanRepo.walkDirectory h d dirPath excludeDirs baseDir)
                = countFiles excludeDirs d)
  /\ ScanRepo.walkDirectory h ScanRepo.Unreadable dirPath excludeDirs baseDir = []
  /\ (forall dirName first others,
         FileSystem.shouldExcludeDir dirName (first :: others) = true
         <-> In dirName (first :: others) \/ Js.startsWith dirName "." = true)
  /\ (forall dirName, FileSystem.shouldExcludeDir dirName [] = false).
Proof.
  split; [|split; [|split; [|split]]].
  - intros d1 d2 E.
    rewrite (walkDirectory_prune h excludeDirs baseDir d1),
            (walkDirectory_prune h excludeDirs baseDir d2).
    now rewrite E.
  - intros d. apply walkDirectory_length.
  - reflexivity.
  - apply shouldExcludeDir_nonempty.
  - reflexivity.
Qed.

(** ** The scanRepo tool *)

Lemma languageName_inj (a b : Language) :
  ScanRepo.languageName a = ScanRepo.languageName b -> a = b.
Proof. destruct a, b; simpl; intros H; try reflexivity; discriminate. Qed.

Lemma values_set_sum (m : JsMap.t nat) (k : string) :
  list_sum (JsMap.values
              (JsMap.set m k (match JsMap.get m k with Some n => n | None => 0 end + 1)))
  = list_sum (JsMap.values m) + 1.
Proof.
  induction m as [|[k' v'] m IH]; [reflexivity|].
  cbn [JsMap.get JsMap.set]. destruct (String.eqb k' k).
  - unfold JsMap.values, list_sum. cbn [map snd fold_right]. lia.
  - unfold JsMap.values, list_sum in *. cbn [map snd fold_right]. rewrite IH. lia.
Qed.

Lemma addLanguage_names (languageSet : list Language) (counts : JsMap.t nat)
      (language : Language) (n : nat) :
  map ScanRepo.languageName languageSet = JsMap.keys counts ->
  map ScanRepo.languageName (ScanRepo.addLanguage languageSet language)
  = JsMap.keys (JsMap.set counts (ScanRepo.languageName language) n).
Proof.
  intros Hkeys. rewrite keys_set. unfold ScanRepo.addLanguage.
  assert (E : existsb (fun l => String.eqb (ScanRepo.languageName l)
                                           (ScanRepo.languageName language)) languageSet
              = JsMap.has counts (ScanRepo.languageName language)).
  { destruct (JsMap.has counts (ScanRepo.languageName language)) eqn:Ehas.
    - apply has_In_keys in Ehas. rewrite <- Hkeys in Ehas. apply in_map_iff in Ehas.
      destruct Ehas as [l [Hl Hin]]. apply existsb_exists. exists l.
      split; [exact Hin | now apply String.eqb_eq].
    - apply not_true_is_false. intros Hex. apply existsb_exists in Hex.
      destruct Hex as [l [Hin Hl]]. apply String.eqb_eq in Hl.
      assert (Hk : JsMap.has counts (ScanRepo.languageName language) = true).
      { apply has_In_keys. rewrite <- Hkeys, <- Hl. now apply in_map. }
      congruence. }
  rewrite E. destruct (JsMap.has counts (ScanRepo.languageName language)); [exact Hkeys|].
  now rewrite map_app, Hkeys.
Qed.

Lemma countLanguage_step (seen : list string) (file : string)
      (st : list Language * JsMap.t nat) :
  countedFiles seen st -> countedFiles (seen ++ [file]) (ScanRepo.countLanguage st file).
Proof.
  intros [Hkeys [Hnd [Hpos [Hcount Hsum]]]].
  unfold ScanRepo.countLanguage, countedFiles, filesOfLanguage, filesOfKnownLanguage.
  rewrite !filter_app, !length_app. cbn [filter].
  destruct (FileSystem.detectLanguage file) as [language|] eqn:El.
  - cbn [fst snd List.length]. split; [|split; [|split; [|split]]].
    + now apply addLanguage_names.
    + now apply keys_set_NoDup.
    + intros name n. rewrite get_set.
      destruct (String.eqb (ScanRepo.languageName language) name).
      * intros H. injection H as <-. lia.
      * apply Hpos.
    + intros l. unfold countOf. rewrite get_set.
      rewrite filter_app, length_app. cbn [filter]. rewrite El.
      destruct (String.eqb (ScanRepo.languageName language) (ScanRepo.languageName l)) eqn:E.
      * apply String.eqb_eq, languageName_inj in E. subst l.
        specialize (Hcount language). unfold countOf, filesOfLanguage in Hcount.
        rewrite <- Hcount. cbn [List.length]. reflexivity.
      * specialize (Hcount l). unfold countOf, filesOfLanguage in Hcount.
        rewrite <- Hcount. cbn [List.length]. lia.
    + rewrite values_set_sum, Hsum. unfold filesOfKnownLanguage. reflexivity.
  - cbn [List.length]. split; [exact Hkeys|]. split; [exact Hnd|]. split; [exact Hpos|].
    split.
    + intros l. rewrite filter_app, length_app. cbn [filter]. rewrite El.
      cbn [List.length]. rewrite Nat.add_0_r. apply Hcount.
    + rewrite Nat.add_0_r. exact Hsum.
Qed.

Lemma countLanguage_all (files : list string) : forall seen st,
  countedFiles seen st ->
  countedFiles (seen ++ files) (fold_left ScanRepo.countLanguage files st).
Proof.
  induction files as [|f files IH]; intros seen st Hst; cbn [fold_left].
  - now rewrite app_nil_r.
  - replace (seen ++ f :: files) with ((seen ++ [f]) ++ files)
      by (rewrite <- app_assoc; reflexivity).
    apply IH. now apply countLanguage_step.
Qed.

Lemma sumLoc_list_sum (l : list nat) : ScanRepo.sumLoc l = list_sum l.
Proof.
  unfold ScanRepo.sumLoc, list_sum. apply fold_symmetric; intros; lia.
Qed.

(** X30. [scanRepo] throws exactly when the resolved path is no
    directory. In what it returns, totalFiles is the number of files
    listed; the languages are the keys of byLanguage, in the same order
    and each once; byLanguage holds, for each of them, the number of
    files of that language, never 0, and these numbers add up to the
    number of files whose language is known, at most totalFiles. For up
    to 1000 files totalLoc is the sum of the lines of code of the
    files. *)
Theorem X30_scanRepo (sh : ScanRepo.ScanHost) (input : ScanRepo.ScanRepoInput) :
  let root := Path.resolve (ScanRepo.sh_host sh) [ScanRepo.sri_repoPath input] in
  ((exists message, ScanRepo.scanRepo sh input = Detect.Thrown message)
   <-> ScanRepo.sh_directory sh root = None)
  /\ forall result,
       ScanRepo.scanRepo sh input = Detect.Returned result ->
       let stats := ScanRepo.sr_stats result in
       let files := map (fun f => Path.join [root; f]) (ScanRepo.sr_files result) in
       ScanRepo.totalFiles stats = List.length (ScanRepo.sr_files result)
       /\ map ScanRepo.languageName (ScanRepo.sr_languages result)
          = JsMap.keys (ScanRepo.byLanguage stats)
       /\ NoDup (ScanRepo.sr_languages result)
       /\ (forall language,
             In language (ScanRepo.sr_languages result) ->
             JsMap.get (ScanRepo.byLanguage stats) (ScanRepo.languageName language)
             = Some (List.length (filesOfLanguage language files))
             /\ 1 <= List.length (filesOfLanguage language files))
       /\ (forall language,
             ~ In language (ScanRepo.sr_languages result) ->
             filesOfLanguage language files = [])
       /\ list_sum (JsMap.values (ScanRepo.byLanguage stats))
          = List.length (filesOfKnownLanguage files)
       /\ list_sum (JsMap.values (ScanRepo.byLanguage stats)) <= ScanRepo.totalFiles stats
       /\ (ScanRepo.totalFiles stats <= 1000 ->
           ScanRepo.totalLoc stats
           = list_sum (map (FileSystem.countLinesOfCode (ScanRepo.sh_readFile sh)) files)).
Proof.
  cbn zeta. unfold ScanRepo.scanRepo, ScanRepo.isDirectory. cbv zeta.
  set (root := Path.resolve (ScanRepo.sh_host sh) [ScanRepo.sri_repoPath input]).
  destruct (ScanRepo.sh_directory sh root) as [directory|] eqn:Edir; cbn [negb].
  2:{ split; [split; [reflexivity | intros _; eexists; reflexivity] | discriminate]. }
  split; [split; [intros [message H]; discriminate | discriminate]|].
  match goal with
  | |- context [fold_left ScanRepo.countLanguage ?fs _] => set (files := fs)
  end.
  match goal with
  | |- context [ScanRepo.mkScanStats _ ?loc _] => remember loc as estimated eqn:Eloc
  end.
  intros result H. injection H as <-.
  cbn [ScanRepo.sr_stats ScanRepo.sr_files ScanRepo.sr_languages ScanRepo.totalFiles
       ScanRepo.totalLoc ScanRepo.byLanguage].
  fold files.
  destruct (countLanguage_all files [] ([], JsMap.empty)) as [Hkeys [Hnd [Hpos [Hcount Hsum]]]].
  { unfold countedFiles, JsMap.empty. cbn. repeat split; try constructor.
    intros name n H. discriminate. }
  cbn [app] in Hcount, Hsum.
  set (counted := fold_left ScanRepo.countLanguage files ([], JsMap.empty)) in *.
  split; [unfold files; now rewrite length_map|].
  split; [exact Hkeys|].
  split; [apply (NoDup_map_inv ScanRepo.languageName); now rewrite Hkeys|].
  assert (Hget : forall language,
             In language (fst counted) ->
             exists n, JsMap.get (snd counted) (ScanRepo.languageName language) = Some n).
  { intros language Hin.
    assert (Hhas : JsMap.has (snd counted) (ScanRepo.languageName language) = true).
    { apply has_In_keys. rewrite <- Hkeys. now apply in_map. }
    unfold JsMap.has in Hhas.
    destruct (JsMap.get (snd counted) (ScanRepo.languageName language)) as [n|];
      [now exists n | discriminate]. }
  split; [|split; [|split; [|split]]].
  - intros language Hin. destruct (Hget language Hin) as [n Hn].
    specialize (Hcount language). unfold countOf in Hcount. rewrite Hn in Hcount.
    rewrite <- Hcount. split; [exact Hn | now apply (Hpos _ _ Hn)].
  - intros language Hnot. apply length_zero_iff_nil. rewrite <- Hcount.
    unfold countOf.
    destruct (JsMap.get (snd counted) (ScanRepo.languageName language)) as [n|] eqn:Hn;
      [|reflexivity].
    exfalso. apply Hnot.
    assert (Hhas : JsMap.has (snd counted) (ScanRepo.languageName language) = true)
      by (unfold JsMap.has; now rewrite Hn).
    apply has_In_keys in Hhas. rewrite <- Hkeys in Hhas. apply in_map_iff in Hhas.
    destruct Hhas as [l [Hl Hin]]. apply languageName_inj in Hl. now subst l.
  - exact Hsum.
  - rewrite Hsum. unfold filesOfKnownLanguage. apply filter_length_le.
  - intros Hfew.
    assert (Htake : Js.take ScanRepo.maxFilesToCount files = files)
      by (apply firstn_all2; exact Hfew).
    assert (Hlt : (ScanRepo.maxFilesToCount <? List.length files) = false)
      by (apply Nat.ltb_ge; exact Hfew).
    rewrite Eloc, Hlt, Htake. apply sumLoc_list_sum.
Qed.
